(** * A feed generator's storage adapters, ingestion pipeline and feed query

    A shallow embedding of the TypeScript sources

      - src/db/interfaces.ts, src/db/schema.ts, src/db/migrations.ts
      - src/db/adapters/sqlite.ts, postgresql.ts, mongodb.ts
      - src/subscription.ts   (FirehoseSubscription.handleEvent)
      - src/algos/whats-alf.ts (the filtered feed handler)
      - src/db/factory.ts, src/index.ts (the configuration)

    Asynchronous calls are awaited one after the other in the sources, so
    every operation is a function from the state before to a result and the
    state after.  Exceptions are the left summand of the result.

    Strings are byte strings; the database engines compare them byte by
    byte (SQLite's BINARY collation; PostgreSQL is taken with the C
    collation).  Rows that tie on the ORDER BY key come out in insertion
    order, which is one of the orders the engines may choose. *)

From Stdlib Require Import ZArith Lia List String Ascii Bool Permutation.
From Stdlib Require Import Sorted DecimalString.
From Stdlib Require DecimalPos DecimalZ.
Import ListNotations.
Local Open Scope string_scope.
Local Open Scope list_scope.
Local Open Scope Z_scope.

(** ** Part I: definitions *)

(** *** The JavaScript built-ins the sources call *)

Module JS.

Definition Date : Type := option Z.

Definition msPerDay : Z := 86400000.
Definition msPerHour : Z := 3600000.
Definition msPerMinute : Z := 60000.
Definition msPerSecond : Z := 1000.
Definition maxTime : Z := 8640000000000000.

Definition TimeClip (t : Z) : Date :=
  if Z.abs t <=? maxTime then Some t else None.

Definition Day (t : Z) : Z := t / msPerDay.
Definition TimeWithinDay (t : Z) : Z := t mod msPerDay.

Definition DayFromYear (y : Z) : Z :=
  365 * (y - 1970) + (y - 1969) / 4 - (y - 1901) / 100 + (y - 1601) / 400.

Definition InLeapYear (y : Z) : Z :=
  if ((y mod 4 =? 0) && negb (y mod 100 =? 0)) || (y mod 400 =? 0) then 1 else 0.

Definition YearFromDay (d : Z) : Z :=
  let y0 := 1970 + (400 * d) / 146097 in
  if DayFromYear (y0 + 1) <=? d then y0 + 1
  else if DayFromYear y0 <=? d then y0 else y0 - 1.

Definition MonthFromDay (leap dwy : Z) : Z :=
  if dwy <? 31 then 0
  else if dwy <? 59 + leap then 1
  else if dwy <? 90 + leap then 2
  else if dwy <? 120 + leap then 3
  else if dwy <? 151 + leap then 4
  else if dwy <? 181 + leap then 5
  else if dwy <? 212 + leap then 6
  else if dwy <? 243 + leap then 7
  else if dwy <? 273 + leap then 8
  else if dwy <? 304 + leap then 9
  else if dwy <? 334 + leap then 10
  else 11.

Definition MonthStart (leap m : Z) : Z :=
  if m <=? 0 then 0
  else if m =? 1 then 31
  else if m =? 2 then 59 + leap
  else if m =? 3 then 90 + leap
  else if m =? 4 then 120 + leap
  else if m =? 5 then 151 + leap
  else if m =? 6 then 181 + leap
  else if m =? 7 then 212 + leap
  else if m =? 8 then 243 + leap
  else if m =? 9 then 273 + leap
  else if m =? 10 then 304 + leap
  else if m =? 11 then 334 + leap
  else 365 + leap.

Definition DateFromDay (leap dwy : Z) : Z :=
  dwy - MonthStart leap (MonthFromDay leap dwy) + 1.

Definition YearFromTime (t : Z) : Z := YearFromDay (Day t).
Definition DayWithinYear (t : Z) : Z := Day t - DayFromYear (YearFromTime t).
Definition MonthFromTime (t : Z) : Z :=
  MonthFromDay (InLeapYear (YearFromTime t)) (DayWithinYear t).
Definition DateFromTime (t : Z) : Z :=
  DateFromDay (InLeapYear (YearFromTime t)) (DayWithinYear t).
Definition HourFromTime (t : Z) : Z := (t / msPerHour) mod 24.
Definition MinFromTime (t : Z) : Z := (t / msPerMinute) mod 60.
Definition SecFromTime (t : Z) : Z := (t / msPerSecond) mod 60.
Definition msFromTime (t : Z) : Z := t mod msPerSecond.

Definition MakeTime (h m s ms : Z) : Z :=
  h * msPerHour + m * msPerMinute + s * msPerSecond + ms.
Definition MakeDay (y m d : Z) : Z :=
  DayFromYear y + MonthStart (InLeapYear y) m + d - 1.
Definition MakeDate (day time : Z) : Z := day * msPerDay + time.

Definition digit (n : Z) : ascii := ascii_of_N (Z.to_N (48 + n mod 10)).
Definition pad2 (n : Z) (k : string) : string :=
  String (digit (n / 10)) (String (digit n) k).
Definition pad3 (n : Z) (k : string) : string :=
  String (digit (n / 100)) (pad2 n k).
Definition pad4 (n : Z) (k : string) : string :=
  String (digit (n / 1000)) (pad3 n k).
Definition pad6 (n : Z) (k : string) : string :=
  String (digit (n / 100000)) (String (digit (n / 10000)) (pad4 n k)).

Definition year_string (y : Z) (k : string) : string :=
  if (0 <=? y) && (y <=? 9999) then pad4 y k
  else String (if y <? 0 then "-"%char else "+"%char) (pad6 (Z.abs y) k).

Definition format_tail (t : Z) : string :=
   String "-" (pad2 (MonthFromTime t + 1)
     (String "-" (pad2 (DateFromTime t)
       (String "T" (pad2 (HourFromTime t)
         (String ":" (pad2 (MinFromTime t)
           (String ":" (pad2 (SecFromTime t)
             (String "." (pad3 (msFromTime t) "Z"))))))))))).

Definition format_time (t : Z) : string :=
  year_string (YearFromTime t) (format_tail t).

(* Date.prototype.toISOString: None stands for the RangeError thrown on an
   Invalid Date. *)
Definition toISOString (d : Date) : option string :=
  match d with
  | Some t => Some (format_time t)
  | None => None
  end.

Definition digit_val (c : ascii) : option Z :=
  let n := Z.of_N (N_of_ascii c) in
  if (48 <=? n) && (n <=? 57) then Some (n - 48) else None.

Fixpoint read_digits (k : nat) (acc : Z) (s : string) : option (Z * string) :=
  match k with
  | O => Some (acc, s)
  | S k' =>
      match s with
      | String c r =>
          match digit_val c with
          | Some v => read_digits k' (10 * acc + v) r
          | None => None
          end
      | EmptyString => None
      end
  end.

Definition expect (c : ascii) (s : string) : option string :=
  match s with
  | String c' r => if Ascii.eqb c' c then Some r else None
  | EmptyString => None
  end.

Definition DaysInMonth (y m : Z) : Z :=
  MonthStart (InLeapYear y) m - MonthStart (InLeapYear y) (m - 1).

Notation "'let?' x := e 'in' k" :=
  (match e with Some x => k | None => None end)
  (at level 10, x pattern, e at level 200, k at level 200).

Definition parse_fields (y : Z) (s : string) : Date :=
  let? s := expect "-" s in
  let? (mo, s) := read_digits 2 0 s in
  let? s := expect "-" s in
  let? (d, s) := read_digits 2 0 s in
  let? s := expect "T" s in
  let? (h, s) := read_digits 2 0 s in
  let? s := expect ":" s in
  let? (mi, s) := read_digits 2 0 s in
  let? s := expect ":" s in
  let? (sec, s) := read_digits 2 0 s in
  let? s := expect "." s in
  let? (ms, s) := read_digits 3 0 s in
  let? s := expect "Z" s in
  match s with
  | EmptyString =>
      if (1 <=? mo) && (mo <=? 12) && (1 <=? d) && (d <=? DaysInMonth y mo)
         && ((h <=? 23) || ((h =? 24) && (mi =? 0) && (sec =? 0) && (ms =? 0)))
         && (mi <=? 59) && (sec <=? 59)
      then TimeClip (MakeDate (MakeDay y (mo - 1) d) (MakeTime h mi sec ms))
      else None
  | String _ _ => None
  end.

Definition Date_parse (s : string) : Date :=
  match s with
  | EmptyString => None
  | String c r =>
      if Ascii.eqb c "+" then
        let? (y, r) := read_digits 6 0 r in parse_fields y r
      else if Ascii.eqb c "-" then
        let? (y, r) := read_digits 6 0 r in
        if y =? 0 then None else parse_fields (- y) r
      else
        let? (y, r) := read_digits 4 0 s in parse_fields y r
  end.



(** Strings in conditions: the empty string is falsy. *)
Definition truthy (s : string) : bool := negb (String.eqb s "").

(** [x || null] and [x || undefined] on an optional string: an absent and an
    empty string both give the absent value ([null] and [undefined] are not
    told apart). *)
Definition or_undefined (x : option string) : option string :=
  match x with
  | Some s => if truthy s then Some s else None
  | None => None
  end.

(** The last element of an array: [xs[xs.length - 1]], [xs.at(-1)]. *)
Fixpoint last_item {A} (xs : list A) : option A :=
  match xs with
  | [] => None
  | [x] => Some x
  | _ :: rest => last_item rest
  end.

(** [if (criteria.x)] on an optional string. *)
Definition given (x : option string) : option string := or_undefined x.

(** Number.prototype.toString(10) on an integer. *)
Definition Number_toString (n : Z) : string :=
  NilZero.string_of_int (Z.to_int n).

Definition is_white (c : ascii) : bool :=
  let n := N_of_ascii c in
  (N.eqb n 32) || ((N.leb 9 n) && (N.leb n 13)).

Fixpoint skip_white (s : string) : string :=
  match s with
  | String c r => if is_white c then skip_white r else s
  | EmptyString => s
  end.

Fixpoint leading_digits (acc : Z) (seen : bool) (s : string) : option Z :=
  match s with
  | String c r =>
      match digit_val c with
      | Some v => leading_digits (10 * acc + v) true r
      | None => if seen then Some acc else None
      end
  | EmptyString => if seen then Some acc else None
  end.

(** parseInt(s, 10): leading white space, a sign, then the longest run of
    digits; None is NaN. *)
Definition parseInt (s : string) : option Z :=
  match skip_white s with
  | String c r =>
      if Ascii.eqb c "-" then option_map Z.opp (leading_digits 0 false r)
      else if Ascii.eqb c "+" then leading_digits 0 false r
      else leading_digits 0 false (String c r)
  | EmptyString => None
  end.

(** new Date(value) on a number (None is NaN). *)
Definition Date_of_number (v : option Z) : Date :=
  match v with
  | Some t => TimeClip t
  | None => None
  end.

(** String.prototype.toLowerCase on the ASCII letters; other bytes are left
    as they are. *)
Definition lower (c : ascii) : ascii :=
  let n := N_of_ascii c in
  if (N.leb 65 n) && (N.leb n 90) then ascii_of_N (n + 32) else c.

Fixpoint toLowerCase (s : string) : string :=
  match s with
  | String c r => String (lower c) (toLowerCase r)
  | EmptyString => EmptyString
  end.

(** String.prototype.includes. *)
Fixpoint includes (s needle : string) : bool :=
  String.prefix needle s ||
  match s with
  | String _ r => includes r needle
  | EmptyString => false
  end.

(** JSON values as JSON.parse builds them; a number keeps its lexeme. *)
#[warnings="-register-all"] Inductive json : Type :=
| JNull
| JTrue
| JFalse
| JNumber (lexeme : string)
| JString (s : string)
| JArray (elements : list json)
| JObject (members : list (string * json)).

Definition quote : ascii := ascii_of_N 34.
Definition backslash : ascii := ascii_of_N 92.

Fixpoint skip_ws (s : string) : string :=
  match s with
  | String c r =>
      let n := N_of_ascii c in
      if (N.eqb n 32) || (N.eqb n 9) || (N.eqb n 10) || (N.eqb n 13)
      then skip_ws r else s
  | EmptyString => s
  end.

Definition hex_val (c : ascii) : option Z :=
  let n := Z.of_N (N_of_ascii c) in
  if (48 <=? n) && (n <=? 57) then Some (n - 48)
  else if (65 <=? n) && (n <=? 70) then Some (n - 55)
  else if (97 <=? n) && (n <=? 102) then Some (n - 87)
  else None.

Definition byte (n : Z) : ascii := ascii_of_N (Z.to_N n).

(** The UTF-8 bytes of a code unit, put in front of [k]. *)
Definition utf8 (u : Z) (k : string) : string :=
  if u <? 128 then String (byte u) k
  else if u <? 2048 then
    String (byte (192 + u / 64)) (String (byte (128 + u mod 64)) k)
  else
    String (byte (224 + u / 4096))
      (String (byte (128 + (u / 64) mod 64))
         (String (byte (128 + u mod 64)) k)).

(** The characters of a JSON string after its opening quote, up to the
    closing one. *)
Fixpoint parse_chars (s : string) : option (string * string) :=
  match s with
  | EmptyString => None
  | String c r =>
      if Ascii.eqb c quote then Some (EmptyString, r)
      else if Ascii.eqb c backslash then
        match r with
        | String e r1 =>
            if Ascii.eqb e "u" then
              match r1 with
              | String h1 (String h2 (String h3 (String h4 r2))) =>
                  let? a := hex_val h1 in
                  let? b := hex_val h2 in
                  let? c := hex_val h3 in
                  let? d := hex_val h4 in
                  let? (t, r3) := parse_chars r2 in
                  Some (utf8 (4096 * a + 256 * b + 16 * c + d) t, r3)
              | _ => None
              end
            else
              let? x :=
                (if Ascii.eqb e quote then Some quote
                 else if Ascii.eqb e backslash then Some backslash
                 else if Ascii.eqb e "/" then Some "/"%char
                 else if Ascii.eqb e "b" then Some (byte 8)
                 else if Ascii.eqb e "f" then Some (byte 12)
                 else if Ascii.eqb e "n" then Some (byte 10)
                 else if Ascii.eqb e "r" then Some (byte 13)
                 else if Ascii.eqb e "t" then Some (byte 9)
                 else None) in
              let? (t, r2) := parse_chars r1 in
              Some (String x t, r2)
        | EmptyString => None
        end
      else if (N_of_ascii c <? 32)%N then None
      else
        let? (t, r1) := parse_chars r in
        Some (String c t, r1)
  end.

Fixpoint take_digits (s : string) : string * string :=
  match s with
  | String c r =>
      match digit_val c with
      | Some _ => let (d, r1) := take_digits r in (String c d, r1)
      | None => (EmptyString, s)
      end
  | EmptyString => (EmptyString, s)
  end.

(** A JSON number: its lexeme and the rest of the input. *)
Definition parse_number (s : string) : option (string * string) :=
  let (sign, s1) :=
    match s with
    | String c r => if Ascii.eqb c "-" then ("-", r) else ("", s)
    | EmptyString => ("", s)
    end in
  let (int, s2) := take_digits s1 in
  match int with
  | EmptyString => None
  | String d more =>
      if Ascii.eqb d "0" && negb (String.eqb more "") then None
      else
        let? (frac, s3) :=
          match s2 with
          | String c r =>
              if Ascii.eqb c "." then
                let (f, r1) := take_digits r in
                if String.eqb f "" then None
                else Some (String "." f, r1)
              else Some ("", s2)
          | EmptyString => Some ("", s2)
          end in
        let? (exp, s4) :=
          match s3 with
          | String c r =>
              if Ascii.eqb c "e" || Ascii.eqb c "E" then
                let (sg, r1) :=
                  match r with
                  | String g r0 =>
                      if Ascii.eqb g "+" || Ascii.eqb g "-"
                      then (String g "", r0) else ("", r)
                  | EmptyString => ("", r)
                  end in
                let (e, r2) := take_digits r1 in
                if String.eqb e "" then None
                else Some (String c (append sg e), r2)
              else Some ("", s3)
          | EmptyString => Some ("", s3)
          end in
        Some (append sign (append int (append frac exp)), s4)
  end.

Definition parse_literal (word : string) (v : json) (s : string)
  : option (json * string) :=
  if String.prefix word s
  then Some (v, substring (String.length word)
                   (String.length s - String.length word) s)
  else None.

Fixpoint parse_value (fuel : nat) (s : string) : option (json * string) :=
  match fuel with
  | O => None
  | S fuel =>
      match skip_ws s with
      | EmptyString => None
      | String c r =>
          if Ascii.eqb c "{" then
            match skip_ws r with
            | String c1 r1 =>
                if Ascii.eqb c1 "}" then Some (JObject [], r1)
                else parse_members fuel r []
            | EmptyString => None
            end
          else if Ascii.eqb c "[" then
            match skip_ws r with
            | String c1 r1 =>
                if Ascii.eqb c1 "]" then Some (JArray [], r1)
                else parse_elements fuel r []
            | EmptyString => None
            end
          else if Ascii.eqb c quote then
            let? (t, r1) := parse_chars r in Some (JString t, r1)
          else if Ascii.eqb c "t" then parse_literal "true" JTrue (String c r)
          else if Ascii.eqb c "f" then parse_literal "false" JFalse (String c r)
          else if Ascii.eqb c "n" then parse_literal "null" JNull (String c r)
          else
            let? (n, r1) := parse_number (String c r) in Some (JNumber n, r1)
      end
  end
with parse_elements (fuel : nat) (s : string) (acc : list json)
  : option (json * string) :=
  match fuel with
  | O => None
  | S fuel =>
      let? (v, r) := parse_value fuel s in
      match skip_ws r with
      | String c r1 =>
          if Ascii.eqb c "," then parse_elements fuel r1 (v :: acc)
          else if Ascii.eqb c "]" then Some (JArray (rev (v :: acc)), r1)
          else None
      | EmptyString => None
      end
  end
with parse_members (fuel : nat) (s : string) (acc : list (string * json))
  : option (json * string) :=
  match fuel with
  | O => None
  | S fuel =>
      match skip_ws s with
      | String q r =>
          if Ascii.eqb q quote then
            let? (k, r1) := parse_chars r in
            match skip_ws r1 with
            | String c r2 =>
                if Ascii.eqb c ":" then
                  let? (v, r3) := parse_value fuel r2 in
                  match skip_ws r3 with
                  | String c1 r4 =>
                      if Ascii.eqb c1 "," then
                        parse_members fuel r4 ((k, v) :: acc)
                      else if Ascii.eqb c1 "}" then
                        Some (JObject (rev ((k, v) :: acc)), r4)
                      else None
                  | EmptyString => None
                  end
                else None
            | EmptyString => None
            end
          else None
      | EmptyString => None
      end
  end.

(** JSON.parse: None stands for the SyntaxError it throws.  Every call of
    the parser consumes a character before it calls itself, so the length
    of the text is fuel enough. *)
Definition JSON_parse (text : string) : option json :=
  let? (v, r) := parse_value (S (String.length text)) text in
  match skip_ws r with
  | EmptyString => Some v
  | String _ _ => None
  end.

(** Reading a property of a parsed object: the last member of that name. *)
Fixpoint get_member (name : string) (members : list (string * json))
  : option json :=
  match members with
  | [] => None
  | (k, v) :: rest =>
      match get_member name rest with
      | Some w => Some w
      | None => if String.eqb k name then Some v else None
      end
  end.

End JS.

(** *** Errors and the effect of an awaited call *)

Inductive Error : Type :=
| NotConnected        (* new Error('Database not connected') *)
| DuplicateKeyError   (* the engine's unique-key violation, thrown on as it is *)
| StringTooLong       (* PostgreSQL: value too long for character varying(255) *)
| IntegerOutOfRange   (* PostgreSQL: integer out of range *)
| RangeError.         (* toISOString on an Invalid Date *)

Definition Result (A : Type) : Type := (Error + A)%type.

(** A call on a state [S]: the value or the exception, and the state after. *)
Definition M (S A : Type) : Type := S -> Result A * S.

Definition ret {S A} (a : A) : M S A := fun s => (inr a, s).

Definition throw {S A} (e : Error) : M S A := fun s => (inl e, s).

Definition bind {S A B} (m : M S A) (k : A -> M S B) : M S B :=
  fun s =>
    match m s with
    | (inr a, s1) => k a s1
    | (inl e, s1) => (inl e, s1)
    end.

(** [try { body } catch (error) { handler }] *)
Definition try_catch {S A} (body : M S A) (handler : Error -> M S A) : M S A :=
  fun s =>
    match body s with
    | (inr a, s1) => (inr a, s1)
    | (inl e, s1) => handler e s1
    end.

(** [for (const x of xs) { body }] *)
Fixpoint for_each {S A} (xs : list A) (body : A -> M S unit) : M S unit :=
  match xs with
  | [] => ret tt
  | x :: rest => bind (body x) (fun _ => for_each rest body)
  end.

Notation "x <- m ;; k" := (bind m (fun x => k))
  (at level 61, m at next level, right associativity).

(** *** The query engine: WHERE, ORDER BY ... DESC, LIMIT *)

Module Engine.

(** Insertion of a row stored before the rows of [l]: it goes below the
    rows that are greater and above the others. *)
Fixpoint insert_desc {A} (lt : A -> A -> bool) (x : A) (l : list A) : list A :=
  match l with
  | [] => [x]
  | y :: rest => if lt x y then y :: insert_desc lt x rest else x :: l
  end.

(** ORDER BY ... DESC on one key.  Among rows that tie on the key the
    engines promise no order; here they keep the order they were stored
    in, which is one of the orders an engine may give.  A statement that
    would depend on the order of ties is made for stores without ties. *)
Fixpoint order_by_desc {A} (lt : A -> A -> bool) (l : list A) : list A :=
  match l with
  | [] => []
  | x :: rest => insert_desc lt x (order_by_desc lt rest)
  end.

(** [if (criteria.limit) query = query.limit(criteria.limit)]: zero is falsy. *)
Definition limit {A} (n : option nat) (l : list A) : list A :=
  match n with
  | Some (S k) => firstn (S k) l
  | _ => l
  end.

(** An optional WHERE clause. *)
Definition where_ {A} (p : option (A -> bool)) (l : list A) : list A :=
  match p with
  | Some f => filter f l
  | None => l
  end.

End Engine.

(** *** db/interfaces.ts *)

Module Interfaces.

(** Omit<PostRecord, 'id'> *)
Record PostData : Type := {
  uri : string;
  cid : string;
  replyParent : option string;
  replyRoot : option string;
  authorDid : string;
  recordJson : string;
  indexedAt : JS.Date
}.

(** PostRecord, as [{ id, ...post }] *)
Record PostRecord : Type := {
  id : string;
  data : PostData
}.

Record SubscriptionState : Type := {
  service : string;
  cursor : Z
}.

(** The criteria of findMany; an absent limit is None.  A limit is a
    count here, 0 included: findMany is not modelled on a negative or a
    fractional limit, which the three engines answer each in its own
    way. *)
Record Criteria : Type := {
  by_authorDid : option string;
  by_limit : option nat;
  by_cursor : option string
}.

Record AlgorithmFeed : Type := {
  feed_posts : list PostRecord;
  feed_cursor : option string
}.

(** The interface FeedDatabase.  The identifier that posts.create draws from
    randomUUID() is an argument. *)
Class FeedDatabase (DB : Type) : Type := {
  posts_create : PostData -> string -> M DB PostRecord;
  posts_findMany : Criteria -> M DB (list PostRecord);
  posts_findByUri : string -> M DB (option PostRecord);
  posts_deleteByUri : string -> M DB bool;
  posts_getAlgorithmFeed : string -> nat -> option string -> M DB AlgorithmFeed;
  subscriptionState_get : string -> M DB (option SubscriptionState);
  subscriptionState_update : string -> Z -> M DB unit
}.

(** getAlgorithmFeed is written the same way in the three adapters. *)
Definition algorithm_feed {DB} (findMany : Criteria -> M DB (list PostRecord))
    (limit : nat) (cursor : option string) : M DB AlgorithmFeed :=
  posts <- findMany {| by_authorDid := None; by_limit := Some limit;
                       by_cursor := cursor |} ;;
  match JS.last_item posts with
  | Some p =>
      match JS.toISOString (indexedAt (data p)) with
      | Some c => ret {| feed_posts := posts; feed_cursor := Some c |}
      | None => throw RangeError
      end
  | None => ret {| feed_posts := posts; feed_cursor := None |}
  end.

End Interfaces.
Import Interfaces.

(** *** db/schema.ts and db/migrations.ts: the tables *)

Module Schema.

Record Post : Type := {
  uri : string;
  cid : string;
  replyParent : option string;
  replyRoot : option string;
  authorDid : string;
  recordJson : string;
  indexedAt : string
}.

Record SubState : Type := {
  service : string;
  cursor : Z
}.

Record DatabaseSchema : Type := {
  post : list Post;
  sub_state : list SubState
}.

(** After the migrations: both tables exist and are empty. *)
Definition migrated : DatabaseSchema := {| post := []; sub_state := [] |}.

Definition has_uri (u : string) (rows : list Post) : bool :=
  existsb (fun r => String.eqb (uri r) u) rows.

(** INSERT INTO post: [uri] is the primary key. *)
Definition insert_post (r : Post) (rows : list Post) : option (list Post) :=
  if has_uri (uri r) rows then None else Some (rows ++ [r]).

(** DELETE FROM post WHERE uri = u: the rows left and the number deleted. *)
Definition delete_post (u : string) (rows : list Post) : list Post * nat :=
  (filter (fun r => negb (String.eqb (uri r) u)) rows,
   List.length (filter (fun r => String.eqb (uri r) u) rows)).

Definition select_post (u : string) (rows : list Post) : option Post :=
  find (fun r => String.eqb (uri r) u) rows.

(** INSERT INTO sub_state ... ON CONFLICT (service) DO UPDATE SET cursor *)
Fixpoint upsert_sub_state (s : string) (c : Z) (rows : list SubState)
  : list SubState :=
  match rows with
  | [] => [{| service := s; cursor := c |}]
  | r :: rest =>
      if String.eqb (service r) s
      then {| service := s; cursor := c |} :: rest
      else r :: upsert_sub_state s c rest
  end.

Definition select_sub_state (s : string) (rows : list SubState)
  : option SubState :=
  find (fun r => String.eqb (service r) s) rows.

(** The row the adapters and the subscription write for a post. *)
Definition row_of (iso : string) (p : PostData) : Post :=
  {| uri := p.(Interfaces.uri);
     cid := p.(Interfaces.cid);
     replyParent := JS.or_undefined p.(Interfaces.replyParent);
     replyRoot := JS.or_undefined p.(Interfaces.replyRoot);
     authorDid := p.(Interfaces.authorDid);
     recordJson := p.(Interfaces.recordJson);
     indexedAt := iso |}.

(** The record the relational adapters build from a row. *)
Definition record_of (row : Post) : PostRecord :=
  {| id := uri row;
     data := {| Interfaces.uri := uri row;
                Interfaces.cid := cid row;
                Interfaces.replyParent := JS.or_undefined (replyParent row);
                Interfaces.replyRoot := JS.or_undefined (replyRoot row);
                Interfaces.authorDid := authorDid row;
                Interfaces.recordJson := recordJson row;
                Interfaces.indexedAt := JS.Date_parse (indexedAt row) |} |}.

(** SELECT * FROM post [WHERE authorDid = a] [AND indexedAt < c]
    ORDER BY indexedAt DESC [LIMIT n], as both relational adapters build it. *)
Definition select_many (criteria : Criteria) (rows : list Post) : list Post :=
  let rows :=
    Engine.where_
      (option_map (fun a r => String.eqb (authorDid r) a)
                  (JS.given (by_authorDid criteria))) rows in
  let rows :=
    Engine.where_
      (option_map (fun c r => String.ltb (indexedAt r) c)
                  (JS.given (by_cursor criteria))) rows in
  let rows :=
    Engine.order_by_desc
      (fun r1 r2 => String.ltb (indexedAt r1) (indexedAt r2)) rows in
  Engine.limit (by_limit criteria) rows.

End Schema.

(** *** db/adapters/sqlite.ts *)

Module SQLiteAdapter.

(** The adapter object: [db] is null until connect(). *)
Record t : Type := { db : option Schema.DatabaseSchema }.

Definition set_post (d : Schema.DatabaseSchema) (rows : list Schema.Post) : t :=
  {| db := Some {| Schema.post := rows;
                   Schema.sub_state := Schema.sub_state d |} |}.

Definition set_sub_state (d : Schema.DatabaseSchema)
    (rows : list Schema.SubState) : t :=
  {| db := Some {| Schema.post := Schema.post d;
                   Schema.sub_state := rows |} |}.

Definition create (post : PostData) (id : string) : M t PostRecord :=
  fun a =>
    match db a with
    | None => (inl NotConnected, a)
    | Some d =>
        let newPost := {| id := id; data := post |} in
        match JS.toISOString (indexedAt post) with
        | None => (inl RangeError, a)
        | Some iso =>
            match Schema.insert_post (Schema.row_of iso post) (Schema.post d) with
            | None => (inl DuplicateKeyError, a)
            | Some rows => (inr newPost, set_post d rows)
            end
        end
    end.

Definition findMany (criteria : Criteria) : M t (list PostRecord) :=
  fun a =>
    match db a with
    | None => (inl NotConnected, a)
    | Some d =>
        (inr (map Schema.record_of
                (Schema.select_many criteria (Schema.post d))), a)
    end.

Definition findByUri (uri : string) : M t (option PostRecord) :=
  fun a =>
    match db a with
    | None => (inl NotConnected, a)
    | Some d =>
        (inr (option_map Schema.record_of
                (Schema.select_post uri (Schema.post d))), a)
    end.

Definition deleteByUri (uri : string) : M t bool :=
  fun a =>
    match db a with
    | None => (inl NotConnected, a)
    | Some d =>
        let (rows, numDeletedRows) := Schema.delete_post uri (Schema.post d) in
        (inr (0 <? numDeletedRows)%nat, set_post d rows)
    end.

Definition getAlgorithmFeed (algorithm : string) (limit : nat)
    (cursor : option string) : M t AlgorithmFeed :=
  algorithm_feed findMany limit cursor.

Definition get (service : string) : M t (option SubscriptionState) :=
  fun a =>
    match db a with
    | None => (inl NotConnected, a)
    | Some d =>
        (inr (option_map
                (fun row => {| service := Schema.service row;
                               cursor := Schema.cursor row |})
                (Schema.select_sub_state service (Schema.sub_state d))), a)
    end.

Definition update (service : string) (cursor : Z) : M t unit :=
  fun a =>
    match db a with
    | None => (inl NotConnected, a)
    | Some d =>
        (inr tt,
         set_sub_state d
           (Schema.upsert_sub_state service cursor (Schema.sub_state d)))
    end.

End SQLiteAdapter.

#[export] Instance SQLite_FeedDatabase : FeedDatabase SQLiteAdapter.t := {|
  posts_create := SQLiteAdapter.create;
  posts_findMany := SQLiteAdapter.findMany;
  posts_findByUri := SQLiteAdapter.findByUri;
  posts_deleteByUri := SQLiteAdapter.deleteByUri;
  posts_getAlgorithmFeed := SQLiteAdapter.getAlgorithmFeed;
  subscriptionState_get := SQLiteAdapter.get;
  subscriptionState_update := SQLiteAdapter.update
|}.

(** *** db/adapters/postgresql.ts *)

Module PostgreSQLAdapter.

(** The adapter object: [pool] is null until connect().  The tables are the
    ones migrate() creates: every column of post but recordJson is
    VARCHAR(255), and sub_state.cursor is INTEGER. *)
Record t : Type := { pool : option Schema.DatabaseSchema }.

Definition set_post (d : Schema.DatabaseSchema) (rows : list Schema.Post) : t :=
  {| pool := Some {| Schema.post := rows;
                     Schema.sub_state := Schema.sub_state d |} |}.

Definition set_sub_state (d : Schema.DatabaseSchema)
    (rows : list Schema.SubState) : t :=
  {| pool := Some {| Schema.post := Schema.post d;
                     Schema.sub_state := rows |} |}.

Definition varchar255 (s : string) : bool := (String.length s <=? 255)%nat.

Definition varchar255_null (s : option string) : bool :=
  match s with
  | Some v => varchar255 v
  | None => true
  end.

Definition fits (r : Schema.Post) : bool :=
  varchar255 (Schema.uri r) && varchar255 (Schema.cid r)
  && varchar255_null (Schema.replyParent r)
  && varchar255_null (Schema.replyRoot r)
  && varchar255 (Schema.authorDid r) && varchar255 (Schema.indexedAt r).

Definition integer (n : Z) : bool := (-2147483648 <=? n) && (n <=? 2147483647).

Definition create (post : PostData) (id : string) : M t PostRecord :=
  fun a =>
    match pool a with
    | None => (inl NotConnected, a)
    | Some d =>
        let newPost := {| id := id; data := post |} in
        match JS.toISOString (indexedAt post) with
        | None => (inl RangeError, a)
        | Some iso =>
            let row := Schema.row_of iso post in
            if fits row then
              match Schema.insert_post row (Schema.post d) with
              | None => (inl DuplicateKeyError, a)
              | Some rows => (inr newPost, set_post d rows)
              end
            else (inl StringTooLong, a)
        end
    end.

Definition findMany (criteria : Criteria) : M t (list PostRecord) :=
  fun a =>
    match pool a with
    | None => (inl NotConnected, a)
    | Some d =>
        (inr (map Schema.record_of
                (Schema.select_many criteria (Schema.post d))), a)
    end.

Definition findByUri (uri : string) : M t (option PostRecord) :=
  fun a =>
    match pool a with
    | None => (inl NotConnected, a)
    | Some d =>
        (inr (option_map Schema.record_of
                (Schema.select_post uri (Schema.post d))), a)
    end.

Definition deleteByUri (uri : string) : M t bool :=
  fun a =>
    match pool a with
    | None => (inl NotConnected, a)
    | Some d =>
        let (rows, rowCount) := Schema.delete_post uri (Schema.post d) in
        (inr (0 <? rowCount)%nat, set_post d rows)
    end.

Definition getAlgorithmFeed (algorithm : string) (limit : nat)
    (cursor : option string) : M t AlgorithmFeed :=
  algorithm_feed findMany limit cursor.

Definition get (service : string) : M t (option SubscriptionState) :=
  fun a =>
    match pool a with
    | None => (inl NotConnected, a)
    | Some d =>
        (inr (option_map
                (fun row => {| service := Schema.service row;
                               cursor := Schema.cursor row |})
                (Schema.select_sub_state service (Schema.sub_state d))), a)
    end.

Definition update (service : string) (cursor : Z) : M t unit :=
  fun a =>
    match pool a with
    | None => (inl NotConnected, a)
    | Some d =>
        if negb (varchar255 service) then (inl StringTooLong, a)
        else if negb (integer cursor) then (inl IntegerOutOfRange, a)
        else
          (inr tt,
           set_sub_state d
             (Schema.upsert_sub_state service cursor (Schema.sub_state d)))
    end.

End PostgreSQLAdapter.

#[export] Instance PostgreSQL_FeedDatabase : FeedDatabase PostgreSQLAdapter.t := {|
  posts_create := PostgreSQLAdapter.create;
  posts_findMany := PostgreSQLAdapter.findMany;
  posts_findByUri := PostgreSQLAdapter.findByUri;
  posts_deleteByUri := PostgreSQLAdapter.deleteByUri;
  posts_getAlgorithmFeed := PostgreSQLAdapter.getAlgorithmFeed;
  subscriptionState_get := PostgreSQLAdapter.get;
  subscriptionState_update := PostgreSQLAdapter.update
|}.

(** *** db/adapters/mongodb.ts *)

Module MongoDBAdapter.

(** A stored PostDocument; a Date is stored as its millisecond count. *)
Record PostDocument : Type := {
  uri : string;
  cid : string;
  replyParent : option string;
  replyRoot : option string;
  authorDid : string;
  recordJson : string;
  indexedAt : Z
}.

Record SubscriptionStateDocument : Type := {
  service : string;
  cursor : Z
}.

(** The collections, with the indexes migrate() creates: [uri] is unique in
    posts and [service] in subscription_states. *)
Record Db : Type := {
  posts : list PostDocument;
  subscription_states : list SubscriptionStateDocument
}.

Record t : Type := { db : option Db }.

Definition migrated : Db := {| posts := []; subscription_states := [] |}.

Definition set_posts (d : Db) (docs : list PostDocument) : t :=
  {| db := Some {| posts := docs;
                   subscription_states := subscription_states d |} |}.

Definition set_subscription_states (d : Db)
    (docs : list SubscriptionStateDocument) : t :=
  {| db := Some {| posts := posts d; subscription_states := docs |} |}.

(** The millisecond count written for a Date; the driver writes 0 for an
    Invalid Date. *)
Definition bson_date (d : JS.Date) : Z :=
  match d with
  | Some ms => ms
  | None => 0
  end.

Definition has_uri (u : string) (docs : list PostDocument) : bool :=
  existsb (fun d => String.eqb (uri d) u) docs.

(** deleteOne: the first document that matches goes. *)
Fixpoint delete_one (u : string) (docs : list PostDocument)
  : list PostDocument * nat :=
  match docs with
  | [] => ([], 0%nat)
  | d :: rest =>
      if String.eqb (uri d) u then (rest, 1%nat)
      else let (rest', n) := delete_one u rest in (d :: rest', n)
  end.

(** replaceOne(\{service\}, \{service, cursor\}, \{upsert: true\}) *)
Fixpoint replace_one (s : string) (c : Z)
    (docs : list SubscriptionStateDocument) : list SubscriptionStateDocument :=
  match docs with
  | [] => [{| service := s; cursor := c |}]
  | d :: rest =>
      if String.eqb (service d) s
      then {| service := s; cursor := c |} :: rest
      else d :: replace_one s c rest
  end.

Definition record_of (doc : PostDocument) : PostRecord :=
  {| id := uri doc;
     data := {| Interfaces.uri := uri doc;
                Interfaces.cid := cid doc;
                Interfaces.replyParent := replyParent doc;
                Interfaces.replyRoot := replyRoot doc;
                Interfaces.authorDid := authorDid doc;
                Interfaces.recordJson := recordJson doc;
                Interfaces.indexedAt := JS.TimeClip (indexedAt doc) |} |}.

Definition create (post : PostData) (id : string) : M t PostRecord :=
  fun a =>
    match db a with
    | None => (inl NotConnected, a)
    | Some d =>
        let newPost := {| id := id; data := post |} in
        let document :=
          {| uri := post.(Interfaces.uri);
             cid := post.(Interfaces.cid);
             replyParent := post.(Interfaces.replyParent);
             replyRoot := post.(Interfaces.replyRoot);
             authorDid := post.(Interfaces.authorDid);
             recordJson := post.(Interfaces.recordJson);
             indexedAt := bson_date post.(Interfaces.indexedAt) |} in
        if has_uri (uri document) (posts d)
        then (inl DuplicateKeyError, a)
        else (inr newPost, set_posts d (posts d ++ [document]))
    end.

Definition findMany (criteria : Criteria) : M t (list PostRecord) :=
  fun a =>
    match db a with
    | None => (inl NotConnected, a)
    | Some d =>
        let docs :=
          Engine.where_
            (option_map (fun x doc => String.eqb (authorDid doc) x)
                        (JS.given (by_authorDid criteria))) (posts d) in
        let docs :=
          Engine.where_
            (option_map
               (fun c doc => indexedAt doc <? bson_date (JS.Date_parse c))
               (JS.given (by_cursor criteria))) docs in
        let docs :=
          Engine.order_by_desc
            (fun d1 d2 => indexedAt d1 <? indexedAt d2) docs in
        (inr (map record_of (Engine.limit (by_limit criteria) docs)), a)
    end.

Definition findByUri (u : string) : M t (option PostRecord) :=
  fun a =>
    match db a with
    | None => (inl NotConnected, a)
    | Some d =>
        (inr (option_map record_of
                (find (fun doc => String.eqb (uri doc) u) (posts d))), a)
    end.

Definition deleteByUri (u : string) : M t bool :=
  fun a =>
    match db a with
    | None => (inl NotConnected, a)
    | Some d =>
        let (docs, deletedCount) := delete_one u (posts d) in
        (inr (0 <? deletedCount)%nat, set_posts d docs)
    end.

Definition getAlgorithmFeed (algorithm : string) (limit : nat)
    (cursor : option string) : M t AlgorithmFeed :=
  algorithm_feed findMany limit cursor.

Definition get (s : string) : M t (option SubscriptionState) :=
  fun a =>
    match db a with
    | None => (inl NotConnected, a)
    | Some d =>
        (inr (option_map
                (fun doc => {| Interfaces.service := service doc;
                               Interfaces.cursor := cursor doc |})
                (find (fun doc => String.eqb (service doc) s)
                      (subscription_states d))), a)
    end.

Definition update (s : string) (c : Z) : M t unit :=
  fun a =>
    match db a with
    | None => (inl NotConnected, a)
    | Some d =>
        (inr tt,
         set_subscription_states d (replace_one s c (subscription_states d)))
    end.

End MongoDBAdapter.

#[export] Instance MongoDB_FeedDatabase : FeedDatabase MongoDBAdapter.t := {|
  posts_create := MongoDBAdapter.create;
  posts_findMany := MongoDBAdapter.findMany;
  posts_findByUri := MongoDBAdapter.findByUri;
  posts_deleteByUri := MongoDBAdapter.deleteByUri;
  posts_getAlgorithmFeed := MongoDBAdapter.getAlgorithmFeed;
  subscriptionState_get := MongoDBAdapter.get;
  subscriptionState_update := MongoDBAdapter.update
|}.

(** *** The adapter a configuration selects *)

Inductive DatabaseType : Type := sqlite | postgresql | mongodb.

(** DatabaseAdapter & FeedDatabase: one of the three adapter objects. *)
Inductive Adapter : Type :=
| SQLite (a : SQLiteAdapter.t)
| PostgreSQL (a : PostgreSQLAdapter.t)
| MongoDB (a : MongoDBAdapter.t).

Definition on {S T A} (wrap : S -> T) (m : M S A) (a : S) : Result A * T :=
  let (r, a1) := m a in (r, wrap a1).

(** A method call on the adapter goes to the object's own method. *)
Definition dispatch {A}
    (s : M SQLiteAdapter.t A) (p : M PostgreSQLAdapter.t A)
    (m : M MongoDBAdapter.t A) : M Adapter A :=
  fun x =>
    match x with
    | SQLite a => on SQLite s a
    | PostgreSQL a => on PostgreSQL p a
    | MongoDB a => on MongoDB m a
    end.

#[export] Instance Adapter_FeedDatabase : FeedDatabase Adapter := {|
  posts_create post id :=
    dispatch (posts_create post id) (posts_create post id)
             (posts_create post id);
  posts_findMany criteria :=
    dispatch (posts_findMany criteria) (posts_findMany criteria)
             (posts_findMany criteria);
  posts_findByUri u :=
    dispatch (posts_findByUri u) (posts_findByUri u) (posts_findByUri u);
  posts_deleteByUri u :=
    dispatch (posts_deleteByUri u) (posts_deleteByUri u) (posts_deleteByUri u);
  posts_getAlgorithmFeed algorithm limit c :=
    dispatch (posts_getAlgorithmFeed algorithm limit c)
             (posts_getAlgorithmFeed algorithm limit c)
             (posts_getAlgorithmFeed algorithm limit c);
  subscriptionState_get s :=
    dispatch (subscriptionState_get s) (subscriptionState_get s)
             (subscriptionState_get s);
  subscriptionState_update s c :=
    dispatch (subscriptionState_update s c) (subscriptionState_update s c)
             (subscriptionState_update s c)
|}.

(** createDatabaseAdapter (db/factory.ts), taken on a database that holds
    nothing yet, as a new SQLite file, SQLite's ':memory:' or an empty
    PostgreSQL or MongoDB database is: the switch picks the adapter class
    for the type of the configuration, connect() opens the handle and
    migrate() creates the tables or collections with their keys, empty.
    On a database that holds posts already, the adapter that comes back is
    the connected adapter [holding] them; the configuration itself and what
    connect() reads of it are in [Factory]. *)
Definition createDatabaseAdapter (type : DatabaseType) : Adapter :=
  match type with
  | sqlite => SQLite {| SQLiteAdapter.db := Some Schema.migrated |}
  | postgresql => PostgreSQL {| PostgreSQLAdapter.pool := Some Schema.migrated |}
  | mongodb => MongoDB {| MongoDBAdapter.db := Some MongoDBAdapter.migrated |}
  end.

(** *** subscription.ts: the ingestion pipeline *)

Module Subscription.

(** A reference to a post in a reply. *)
Record StrongRef : Type := { ref_uri : string; ref_cid : string }.

Record ReplyRef : Type := {
  parent : option StrongRef;
  root : option StrongRef
}.

(** The post record of a create operation (app.bsky.feed.post). *)
Record PostLexicon : Type := {
  text : string;
  createdAt : string;
  reply : option ReplyRef
}.

Record CreateOp : Type := {
  uri : string;
  cid : string;
  author : string;
  record : PostLexicon
}.

Record DeleteOp : Type := { del_uri : string }.

(** What getOpsByType(evt) returns for the posts of a commit. *)
Record Operations : Type := {
  creates : list CreateOp;
  deletes : list DeleteOp
}.

(** An event of the repository stream, decoded: a commit with its
    operations, or any other kind of event. *)
Inductive RepoEvent : Type :=
| Commit (posts : Operations)
| Other.

(** The FirehoseSubscription object: the legacy database handle and the
    adapter, which is unset until setDatabaseAdapter. *)
Record FirehoseSubscription (DB : Type) : Type := {
  db : Schema.DatabaseSchema;
  dbAdapter : option DB
}.
Arguments db {DB} _.
Arguments dbAdapter {DB} _.

Definition setDatabaseAdapter {DB} (dbAdapter : DB)
    (this : FirehoseSubscription DB) : FirehoseSubscription DB :=
  {| db := db this; dbAdapter := Some dbAdapter |}.

(** [f(x, i)] over a list, as Array.prototype.map calls it. *)
Fixpoint map_index {A B} (f : A -> nat -> B) (i : nat) (l : list A) : list B :=
  match l with
  | [] => []
  | x :: rest => f x i :: map_index f (S i) rest
  end.

Section HandleEvent.

Context {DB : Type} `{FeedDatabase DB}.

(** JSON.stringify on a post record. *)
Variable JSON_stringify : PostLexicon -> string.

(** The clock and the identifier source: [now i] is what the i-th
    [new Date()] of a call reads, [randomUUID i] what the i-th create
    draws. *)
Variable now : nat -> Z.
Variable randomUUID : nat -> string.

(** A call of a method of [this.dbAdapter]. *)
Definition adapter {A} (m : M DB A) : M (FirehoseSubscription DB) A :=
  fun this =>
    match dbAdapter this with
    | Some a => let (r, a1) := m a in (r, {| db := db this; dbAdapter := Some a1 |})
    | None => (inl NotConnected, this)
    end.

Definition postsToDelete (ops : Operations) : list string :=
  map del_uri (deletes ops).

Definition postsToCreate (ops : Operations) : list PostData :=
  map_index
    (fun create i =>
       {| Interfaces.uri := uri create;
          Interfaces.cid := cid create;
          Interfaces.replyParent :=
            JS.or_undefined
              (match reply (record create) with
               | Some r => option_map ref_uri (parent r)
               | None => None
               end);
          Interfaces.replyRoot :=
            JS.or_undefined
              (match reply (record create) with
               | Some r => option_map ref_uri (root r)
               | None => None
               end);
          Interfaces.authorDid := author create;
          Interfaces.recordJson := JSON_stringify (record create);
          Interfaces.indexedAt := Some (now i) |})
    0%nat (creates ops).

(** The rows of the legacy insert. *)
Fixpoint legacyPosts (posts : list PostData) : Result (list Schema.Post) :=
  match posts with
  | [] => inr []
  | post :: rest =>
      match JS.toISOString (indexedAt post) with
      | None => inl RangeError
      | Some iso =>
          match legacyPosts rest with
          | inl e => inl e
          | inr rows => inr (Schema.row_of iso post :: rows)
          end
      end
  end.

(** INSERT INTO post VALUES ... ON CONFLICT DO NOTHING *)
Fixpoint insert_do_nothing (rows : list Schema.Post) (table : list Schema.Post)
  : list Schema.Post :=
  match rows with
  | [] => table
  | r :: rest =>
      insert_do_nothing rest
        (match Schema.insert_post r table with
         | Some table1 => table1
         | None => table
         end)
  end.

(** DELETE FROM post WHERE uri IN (...) *)
Definition delete_in (uris : list string) (table : list Schema.Post)
  : list Schema.Post :=
  filter (fun r => negb (existsb (String.eqb (Schema.uri r)) uris)) table.

Definition legacy (toDelete : list string) (toCreate : list PostData)
  : M (FirehoseSubscription DB) unit :=
  fun this =>
    let table := Schema.post (db this) in
    let table :=
      match toDelete with
      | [] => table
      | _ :: _ => delete_in toDelete table
      end in
    let store rows :=
      {| db := {| Schema.post := rows;
                  Schema.sub_state := Schema.sub_state (db this) |};
         dbAdapter := dbAdapter this |} in
    match toCreate with
    | [] => (inr tt, store table)
    | _ :: _ =>
        match legacyPosts toCreate with
        | inl e => (inl e, store table)
        | inr rows => (inr tt, store (insert_do_nothing rows table))
        end
    end.

Definition handleEvent (evt : RepoEvent) : M (FirehoseSubscription DB) unit :=
  match evt with
  | Other => ret tt
  | Commit ops =>
      let toDelete := postsToDelete ops in
      let toCreate := postsToCreate ops in
      fun this =>
        match dbAdapter this with
        | Some _ =>
            (_ <- for_each toDelete
                    (fun uri =>
                       try_catch
                         (_ <- adapter (posts_deleteByUri uri) ;; ret tt)
                         (fun error => ret tt)) ;;
             for_each (combine toCreate (seq 0 (List.length toCreate)))
               (fun '(post, i) =>
                  try_catch
                    (_ <- adapter (posts_create post (randomUUID i)) ;; ret tt)
                    (fun error => ret tt))) this
        | None => legacy toDelete toCreate this
        end
  end.

End HandleEvent.

End Subscription.

(** *** algos/whats-alf.ts: the filtered feed *)

Module WhatsAlf.

(** The parameters of getFeedSkeleton. *)
Record QueryParams : Type := {
  feed : string;
  limit : nat;
  cursor : option string
}.

Record SkeletonFeedPost : Type := { post : string }.

Record AlgoOutput : Type := {
  out_cursor : option string;
  out_feed : list SkeletonFeedPost
}.

(** The filter's callback: a post whose record has a text that contains
    "alf" in any case.  A record that does not parse, a null record and a
    text that is no string make the callback throw, which it catches
    itself. *)
Definition is_alf (row : Schema.Post) : bool :=
  match JS.JSON_parse (Schema.recordJson row) with
  | None => false
  | Some JS.JNull => false
  | Some (JS.JObject members) =>
      match JS.get_member "text" members with
      | Some (JS.JString text) =>
          JS.truthy text && JS.includes (JS.toLowerCase text) "alf"
      | Some _ => false
      | None => false
      end
  | Some _ => false
  end.

(** ORDER BY indexedAt DESC, cid DESC *)
Definition before (r1 r2 : Schema.Post) : bool :=
  match String.compare (Schema.indexedAt r1) (Schema.indexedAt r2) with
  | Lt => true
  | Eq => String.ltb (Schema.cid r1) (Schema.cid r2)
  | Gt => false
  end.

(** The cursor written for the last row of a page. *)
Definition cursor_of (row : Schema.Post) : string :=
  match JS.Date_parse (Schema.indexedAt row) with
  | Some ms => JS.Number_toString ms
  | None => "NaN"
  end.

Definition fetchLimit (params : QueryParams) : nat :=
  Nat.min (limit params * 3) 300.

(** The rows the query returns, before the filter. *)
Definition fetched (timeStr : option string) (params : QueryParams)
    (table : list Schema.Post) : list Schema.Post :=
  let rows :=
    Engine.where_
      (option_map (fun c r => String.ltb (Schema.indexedAt r) c) timeStr)
      table in
  firstn (fetchLimit params) (Engine.order_by_desc before rows).

Definition limitedPosts (timeStr : option string) (params : QueryParams)
    (table : list Schema.Post) : list Schema.Post :=
  firstn (limit params) (filter is_alf (fetched timeStr params table)).

Definition handler (db : Schema.DatabaseSchema) (params : QueryParams)
  : Result AlgoOutput :=
  let timeStr :=
    match JS.given (cursor params) with
    | Some c =>
        match JS.toISOString (JS.Date_of_number (JS.parseInt c)) with
        | Some s => inr (Some s)
        | None => inl RangeError
        end
    | None => inr None
    end in
  match timeStr with
  | inl e => inl e
  | inr timeStr =>
      let limited := limitedPosts timeStr params (Schema.post db) in
      inr {| out_cursor := option_map cursor_of (JS.last_item limited);
             out_feed := map (fun row => {| post := Schema.uri row |}) limited |}
  end.

End WhatsAlf.

(** *** A proxy that records the calls made on an adapter *)

Inductive Call : Type :=
| CallCreate (post : PostData) (id : string)
| CallFindMany (criteria : Criteria)
| CallFindByUri (uri : string)
| CallDeleteByUri (uri : string)
| CallGetAlgorithmFeed (algorithm : string) (limit : nat) (cursor : option string)
| CallGet (service : string)
| CallUpdate (service : string) (cursor : Z).

(** The call is noted, then passed on; what the adapter answers, a value or
    an exception, goes back unchanged. *)
Definition recorded {DB A} (c : Call) (m : M DB A) : M (DB * list Call) A :=
  fun x => let (r, a) := m (fst x) in (r, (a, snd x ++ [c])).

#[export] Instance Recorded_FeedDatabase {DB} `{FeedDatabase DB}
  : FeedDatabase (DB * list Call) := {|
  posts_create post id := recorded (CallCreate post id) (posts_create post id);
  posts_findMany criteria :=
    recorded (CallFindMany criteria) (posts_findMany criteria);
  posts_findByUri u := recorded (CallFindByUri u) (posts_findByUri u);
  posts_deleteByUri u := recorded (CallDeleteByUri u) (posts_deleteByUri u);
  posts_getAlgorithmFeed algorithm limit c :=
    recorded (CallGetAlgorithmFeed algorithm limit c)
             (posts_getAlgorithmFeed algorithm limit c);
  subscriptionState_get s := recorded (CallGet s) (subscriptionState_get s);
  subscriptionState_update s c :=
    recorded (CallUpdate s c) (subscriptionState_update s c)
|}.

(** *** Sequences of operations on an adapter *)

Inductive Operation : Type :=
| CreatePost (post : PostData) (id : string)
| DeletePostByUri (uri : string)
| UpdateSubscriptionState (service : string) (cursor : Z).

Inductive Outcome : Type :=
| Created (r : Result PostRecord)
| Deleted (r : Result bool)
| Updated (r : Result unit).

Definition apply {DB} `{FeedDatabase DB} (op : Operation) (a : DB)
  : Outcome * DB :=
  match op with
  | CreatePost post id =>
      let (r, a1) := posts_create post id a in (Created r, a1)
  | DeletePostByUri u =>
      let (r, a1) := posts_deleteByUri u a in (Deleted r, a1)
  | UpdateSubscriptionState s c =>
      let (r, a1) := subscriptionState_update s c a in (Updated r, a1)
  end.

Fixpoint run {DB} `{FeedDatabase DB} (ops : list Operation) (a : DB)
  : list Outcome * DB :=
  match ops with
  | [] => ([], a)
  | op :: rest =>
      let (o, a1) := apply op a in
      let (os, a2) := run rest a1 in
      (o :: os, a2)
  end.

(** What a caller sees of a backend: the outcome of every operation, then
    the page findMany returns and the feed with its outgoing cursor. *)
Record Observation : Type := {
  outcomes : list Outcome;
  page : Result (list PostRecord);
  feed : Result AlgorithmFeed
}.

Definition observe (type : DatabaseType) (ops : list Operation)
    (criteria : Criteria) : Observation :=
  let (os, a) := run ops (createDatabaseAdapter type) in
  {| outcomes := os;
     page := fst (posts_findMany criteria a);
     feed := fst (posts_getAlgorithmFeed "feed"
                    (match by_limit criteria with Some n => n | None => 0%nat end)
                    (by_cursor criteria) a) |}.

Definition cross_backend_equivalent (ops : list Operation)
    (criteria : Criteria) : Prop :=
  observe sqlite ops criteria = observe postgresql ops criteria /\
  observe postgresql ops criteria = observe mongodb ops criteria.

(** *** The stores and posts the statements speak of *)

(** The uris of the posts an adapter holds, in the order they were stored. *)
Definition stored (a : Adapter) : list string :=
  match a with
  | SQLite {| SQLiteAdapter.db := Some d |} => map Schema.uri (Schema.post d)
  | PostgreSQL {| PostgreSQLAdapter.pool := Some d |} =>
      map Schema.uri (Schema.post d)
  | MongoDB {| MongoDBAdapter.db := Some d |} =>
      map MongoDBAdapter.uri (MongoDBAdapter.posts d)
  | _ => []
  end.

Definition connected (a : Adapter) : bool :=
  match a with
  | SQLite {| SQLiteAdapter.db := Some _ |} => true
  | PostgreSQL {| PostgreSQLAdapter.pool := Some _ |} => true
  | MongoDB {| MongoDBAdapter.db := Some _ |} => true
  | _ => false
  end.

(** A reply reference that is present names a post: it is not empty. *)
Definition reference (r : option string) : bool :=
  match r with
  | Some u => JS.truthy u
  | None => true
  end.

(** A valid Post: indexedAt is a valid Date, the reply references that are
    present are not empty, and the fields fit the columns of the narrowest
    backend (PostgreSQL's VARCHAR(255)). *)
Definition valid_post (p : PostData) : bool :=
  match indexedAt p with
  | Some t => Z.abs t <=? JS.maxTime
  | None => false
  end
  && reference (replyParent p) && reference (replyRoot p)
  && PostgreSQLAdapter.varchar255 (uri p)
  && PostgreSQLAdapter.varchar255 (cid p)
  && PostgreSQLAdapter.varchar255_null (replyParent p)
  && PostgreSQLAdapter.varchar255_null (replyRoot p)
  && PostgreSQLAdapter.varchar255 (authorDid p).

(** The time values toISOString writes with a four-digit year:
    0000-01-01T00:00:00.000Z to 9999-12-31T23:59:59.999Z. *)
Definition four_digit_year (t : Z) : bool :=
  (-62167219200000 <=? t) && (t <=? 253402300799999).

Definition indexed_in_four_digit_year (p : PostData) : bool :=
  match indexedAt p with
  | Some t => four_digit_year t
  | None => false
  end.

(** The time value of a post's indexedAt (0 for an Invalid Date). *)
Definition time (p : PostData) : Z :=
  match indexedAt p with
  | Some t => t
  | None => 0
  end.

(** The record a read of a stored post returns. *)
Definition read (p : PostData) : PostRecord := {| id := uri p; data := p |}.

(** The rows and documents the adapters store for a list of posts. *)
Definition row (p : PostData) : Schema.Post :=
  Schema.row_of (JS.format_time (time p)) p.

Definition document (p : PostData) : MongoDBAdapter.PostDocument :=
  {| MongoDBAdapter.uri := uri p;
     MongoDBAdapter.cid := cid p;
     MongoDBAdapter.replyParent := replyParent p;
     MongoDBAdapter.replyRoot := replyRoot p;
     MongoDBAdapter.authorDid := authorDid p;
     MongoDBAdapter.recordJson := recordJson p;
     MongoDBAdapter.indexedAt := time p |}.

(** The tables and the collections that hold the posts [ps], stored in
    that order, and the subscription states [ss]. *)
Definition tables (ps : list PostData) (ss : list SubscriptionState)
  : Schema.DatabaseSchema :=
  {| Schema.post := map row ps;
     Schema.sub_state :=
       map (fun s => {| Schema.service := service s;
                        Schema.cursor := cursor s |}) ss |}.

Definition collections (ps : list PostData) (ss : list SubscriptionState)
  : MongoDBAdapter.Db :=
  {| MongoDBAdapter.posts := map document ps;
     MongoDBAdapter.subscription_states :=
       map (fun s => {| MongoDBAdapter.service := service s;
                        MongoDBAdapter.cursor := cursor s |}) ss |}.

(** The connected adapter of a backend whose store holds them. *)
Definition holding (type : DatabaseType) (ps : list PostData)
    (ss : list SubscriptionState) : Adapter :=
  match type with
  | sqlite => SQLite {| SQLiteAdapter.db := Some (tables ps ss) |}
  | postgresql => PostgreSQL {| PostgreSQLAdapter.pool := Some (tables ps ss) |}
  | mongodb => MongoDB {| MongoDBAdapter.db := Some (collections ps ss) |}
  end.

(** Two calls with the same limit, as a caller pages through the posts: the
    first without a cursor, the second with the cursor that came with the
    first page. *)
Definition two_pages {DB} `{FeedDatabase DB} (limit : nat)
  : M DB (list PostRecord * list PostRecord) :=
  first <- posts_getAlgorithmFeed "feed" limit None ;;
  second <- posts_findMany {| by_authorDid := None; by_limit := Some limit;
                              by_cursor := feed_cursor first |} ;;
  ret (feed_posts first, second).

(** Two posts come back once each over two pages of one post. *)
Definition returns_each_once (type : DatabaseType) (p q : PostData)
    (store : list PostData) (ss : list SubscriptionState) : Prop :=
  exists page1 page2 a,
    two_pages 1 (holding type store ss) = (inr (page1, page2), a) /\
    Permutation (page1 ++ page2) [read p; read q].

(** An operation every backend takes alike: a post that is valid and
    indexed in a four-digit year, a subscription with a service name and a
    cursor that fit PostgreSQL's columns. *)
Definition portable (op : Operation) : bool :=
  match op with
  | CreatePost post _ => valid_post post && indexed_in_four_digit_year post
  | DeletePostByUri _ => true
  | UpdateSubscriptionState s c =>
      PostgreSQLAdapter.varchar255 s && PostgreSQLAdapter.integer c
  end.

(** A cursor every backend reads alike: none, or the ISO string of a time
    in a four-digit year. *)
Definition portable_cursor (c : option string) : Prop :=
  match JS.given c with
  | Some s => exists t, four_digit_year t = true /\ s = JS.format_time t
  | None => True
  end.

(** crypto.randomUUID(): 36 characters, hexadecimal digits in five groups
    separated by hyphens. *)
Definition is_hex (c : ascii) : bool :=
  let n := N_of_ascii c in
  ((48 <=? n) && (n <=? 57))%N || ((97 <=? n) && (n <=? 102))%N.

Fixpoint is_hex_group (k : nat) (s : string) : option string :=
  match k with
  | O => Some s
  | S k =>
      match s with
      | String c r => if is_hex c then is_hex_group k r else None
      | EmptyString => None
      end
  end.

Definition is_uuid (s : string) : bool :=
  match is_hex_group 8 s with
  | Some (String "-" s1) =>
      match is_hex_group 4 s1 with
      | Some (String "-" s2) =>
          match is_hex_group 4 s2 with
          | Some (String "-" s3) =>
              match is_hex_group 4 s3 with
              | Some (String "-" s4) =>
                  match is_hex_group 12 s4 with
                  | Some EmptyString => true
                  | _ => false
                  end
              | _ => false
              end
          | _ => false
          end
      | _ => false
      end
  | _ => false
  end.

(** An AT-URI starts with the scheme at://. *)
Definition is_at_uri (s : string) : bool := String.prefix "at://" s.

(** The state a call leaves, whether it returns or throws. *)
Definition attempt {S A} (m : M S A) (s : S) : S := snd (m s).

(** The posts of a batch with the identifiers their creates draw. *)
Definition numbered (posts : list PostData) : list (PostData * nat) :=
  combine posts (seq 0 (List.length posts)).

(** The second delivery of a batch leaves what the first one left. *)
Definition replay_is_idempotent {DB} `{FeedDatabase DB}
    (JSON_stringify : Subscription.PostLexicon -> string)
    (now1 : nat -> Z) (uuid1 : nat -> string)
    (now2 : nat -> Z) (uuid2 : nat -> string)
    (evt : Subscription.RepoEvent)
    (this : Subscription.FirehoseSubscription DB) : Prop :=
  let once := Subscription.handleEvent JSON_stringify now1 uuid1 evt this in
  let twice :=
    Subscription.handleEvent JSON_stringify now2 uuid2 evt (snd once) in
  fst once = inr tt /\ fst twice = inr tt /\ snd twice = snd once.

(** No uri is stored twice, neither in the legacy table nor by the adapter. *)
Definition no_duplicates (this : Subscription.FirehoseSubscription Adapter)
  : Prop :=
  NoDup (map Schema.uri (Schema.post (Subscription.db this))) /\
  match Subscription.dbAdapter this with
  | Some a => NoDup (stored a)
  | None => True
  end.

(** The backend of an adapter. *)
Definition backend (a : Adapter) : DatabaseType :=
  match a with
  | SQLite _ => sqlite
  | PostgreSQL _ => postgresql
  | MongoDB _ => mongodb
  end.

(** A post with another indexedAt. *)
Definition at_time (t : Z) (p : PostData) : PostData :=
  {| uri := uri p;
     cid := cid p;
     replyParent := replyParent p;
     replyRoot := replyRoot p;
     authorDid := authorDid p;
     recordJson := recordJson p;
     indexedAt := Some t |}.

(** The page of a query read off the posts themselves: the posts of the
    author, indexed before the cursor's time, newest first, cut at the
    limit.  It is the common form the three adapters' queries are brought
    to. *)
Definition cursor_time (c : option string) : option Z :=
  option_map (fun s => MongoDBAdapter.bson_date (JS.Date_parse s)) (JS.given c).

Definition select (criteria : Criteria) (ps : list PostData) : list PostData :=
  let ps :=
    Engine.where_
      (option_map (fun a p => String.eqb (authorDid p) a)
                  (JS.given (by_authorDid criteria))) ps in
  let ps :=
    Engine.where_
      (option_map (fun t p => time p <? t) (cursor_time (by_cursor criteria)))
      ps in
  Engine.limit (by_limit criteria)
    (Engine.order_by_desc (fun p q => time p <? time q) ps).

(** *** Sample posts *)

(** A post of did:example:alice, numbered [n] and indexed at [t]. *)
Definition sample (n : Z) (t : Z) : PostData :=
  {| uri := append "at://did:example:alice/app.bsky.feed.post/"
                   (JS.Number_toString n);
     cid := "bafyreic";
     replyParent := None;
     replyRoot := None;
     authorDid := "did:example:alice";
     recordJson := "{}";
     indexedAt := Some t |}.

(** Ten posts, newest first; the first is indexed at
    +010000-01-01T00:00:00.000Z, the others in November 2023. *)
Definition ten_posts : list PostData :=
  [ sample 1 253402300800000; sample 2 1700000009000;
    sample 3 1700000008000; sample 4 1700000007000;
    sample 5 1700000006000; sample 6 1700000005000;
    sample 7 1700000004000; sample 8 1700000003000;
    sample 9 1700000002000; sample 10 1700000001000 ].

(** Ten posts of November 2023, newest first. *)
Definition ten_recent_posts : list PostData :=
  sample 1 1700000010000 :: tl ten_posts.

(** *** Auxiliary definitions of the statements *)

(** The comparison of two keys in turn, the first deciding. *)
Definition lexc (c1 c2 : comparison) : comparison :=
  match c1 with Eq => c2 | _ => c1 end.

(** One iteration of the delete loop and of the create loop: the call's
    exception is caught, so the iteration returns and leaves the state the
    call left. *)
Definition delete_step {DB} `{FeedDatabase DB} (u : string)
    (this : Subscription.FirehoseSubscription DB)
  : Subscription.FirehoseSubscription DB :=
  match Subscription.dbAdapter this with
  | Some a =>
      {| Subscription.db := Subscription.db this;
         Subscription.dbAdapter := Some (attempt (posts_deleteByUri u) a) |}
  | None => this
  end.

Definition create_step {DB} `{FeedDatabase DB} (randomUUID : nat -> string)
    (x : PostData * nat) (this : Subscription.FirehoseSubscription DB)
  : Subscription.FirehoseSubscription DB :=
  match Subscription.dbAdapter this with
  | Some a =>
      {| Subscription.db := Subscription.db this;
         Subscription.dbAdapter :=
           Some (attempt (posts_create (fst x) (randomUUID (snd x))) a) |}
  | None => this
  end.

(** The two loops of handleEvent on an adapter. *)
Definition delete_all (uris : list string) (a : Adapter) : Adapter :=
  fold_left (fun a u => attempt (posts_deleteByUri u) a) uris a.

Definition create_all (posts : list PostData) (a : Adapter) : Adapter :=
  fold_left (fun a p => attempt (posts_create p EmptyString) a) posts a.

(** The post of a create, indexed at [t]. *)
Definition post_at (JSON_stringify : Subscription.PostLexicon -> string)
    (t : Z) (create : Subscription.CreateOp) : PostData :=
  {| uri := Subscription.uri create;
     cid := Subscription.cid create;
     replyParent :=
       JS.or_undefined
         (match Subscription.reply (Subscription.record create) with
          | Some r => option_map Subscription.ref_uri (Subscription.parent r)
          | None => None
          end);
     replyRoot :=
       JS.or_undefined
         (match Subscription.reply (Subscription.record create) with
          | Some r => option_map Subscription.ref_uri (Subscription.root r)
          | None => None
          end);
     authorDid := Subscription.author create;
     recordJson := JSON_stringify (Subscription.record create);
     indexedAt := Some t |}.

(** What the logical store is kept in: no uri twice, every post valid and
    indexed in a four-digit year. *)
Definition well_kept (ps : list PostData) : Prop :=
  NoDup (map uri ps) /\
  Forall (fun p => valid_post p = true) ps /\
  Forall (fun p => indexed_in_four_digit_year p = true) ps.

(** Two posts of the same millisecond. *)
Definition tied_posts : list PostData :=
  [sample 1 1700000000000; sample 2 1700000000000].

(** A batch that creates one post, and a batch that deletes the post's uri
    and creates it. *)
Definition one_create : Subscription.CreateOp :=
  {| Subscription.uri := "at://did:example:alice/app.bsky.feed.post/1";
     Subscription.cid := "bafyreic";
     Subscription.author := "did:example:alice";
     Subscription.record :=
       {| Subscription.text := "I love ALF";
          Subscription.createdAt := "2023-11-14T22:13:20.000Z";
          Subscription.reply := None |} |}.

Definition create_batch : Subscription.Operations :=
  {| Subscription.creates := [one_create]; Subscription.deletes := [] |}.

Definition recreate_batch : Subscription.Operations :=
  {| Subscription.creates := [one_create];
     Subscription.deletes :=
       [{| Subscription.del_uri := Subscription.uri one_create |}] |}.

Definition fresh_subscription (type : DatabaseType)
  : Subscription.FirehoseSubscription Adapter :=
  {| Subscription.db := Schema.migrated;
     Subscription.dbAdapter := Some (createDatabaseAdapter type) |}.


(** *** The logical store *)

(** The store as the specification describes it, apart from any backend:
    the posts in the order they were created, at most one per uri, and the
    subscription states, at most one per service.  The three adapters are
    compared with it. *)
Module Logical.

Definition has_post (u : string) (ps : list PostData) : bool :=
  existsb (fun p => String.eqb (uri p) u) ps.

(** updateSubscriptionState: an upsert keyed by service. *)
Fixpoint upsert (s : string) (c : Z) (ss : list SubscriptionState)
  : list SubscriptionState :=
  match ss with
  | [] => [{| service := s; cursor := c |}]
  | x :: rest =>
      if String.eqb (service x) s
      then {| service := s; cursor := c |} :: rest
      else x :: upsert s c rest
  end.

(** createPost fails with DuplicateKeyError if the uri already exists;
    deletePostByUri returns whether a post was removed. *)
Definition outcome (op : Operation) (ps : list PostData) : Outcome :=
  match op with
  | CreatePost p id0 =>
      Created (if has_post (uri p) ps then inl DuplicateKeyError
               else inr {| id := id0; data := p |})
  | DeletePostByUri u => Deleted (inr (has_post u ps))
  | UpdateSubscriptionState _ _ => Updated (inr tt)
  end.

Definition posts_after (op : Operation) (ps : list PostData) : list PostData :=
  match op with
  | CreatePost p _ => if has_post (uri p) ps then ps else ps ++ [p]
  | DeletePostByUri u => filter (fun p => negb (String.eqb (uri p) u)) ps
  | UpdateSubscriptionState _ _ => ps
  end.

Definition states_after (op : Operation) (ss : list SubscriptionState)
  : list SubscriptionState :=
  match op with
  | UpdateSubscriptionState s c => upsert s c ss
  | _ => ss
  end.

Fixpoint run (ops : list Operation) (ps : list PostData)
    (ss : list SubscriptionState)
  : list Outcome * (list PostData * list SubscriptionState) :=
  match ops with
  | [] => ([], (ps, ss))
  | op :: rest =>
      let (os, store) := run rest (posts_after op ps) (states_after op ss) in
      (outcome op ps :: os, store)
  end.

(** What a caller sees of the logical store: the outcomes, the page of
    findPosts and the feed, whose cursor is the indexedAt of its last
    post. *)
Definition observe (ops : list Operation) (criteria : Criteria)
  : Observation :=
  let (os, store) := run ops [] [] in
  let posts :=
    select {| by_authorDid := None;
              by_limit :=
                Some (match by_limit criteria with
                      | Some n => n
                      | None => 0%nat
                      end);
              by_cursor := by_cursor criteria |} (fst store) in
  {| outcomes := os;
     page := inr (map read (select criteria (fst store)));
     feed := inr {| feed_posts := map read posts;
                    feed_cursor :=
                      option_map (fun p => JS.format_time (time p))
                                 (JS.last_item posts) |} |}.

End Logical.

(** A post that replies to the empty string. *)
Definition reply_to_nothing : PostData :=
  {| uri := "at://did:example:alice/app.bsky.feed.post/1";
     cid := "bafyreic";
     replyParent := Some "";
     replyRoot := None;
     authorDid := "did:example:alice";
     recordJson := "{}";
     indexedAt := Some 1700000000000 |}.

Definition no_criteria : Criteria :=
  {| by_authorDid := None; by_limit := None; by_cursor := None |}.

(** Two posts are created, the first is deleted again and a subscription
    state is written. *)
Definition sample_operations : list Operation :=
  [CreatePost (sample 1 1700000000000) "6f1c2d3e-0000-4000-8000-000000000001";
   CreatePost (sample 2 1700000060000) "6f1c2d3e-0000-4000-8000-000000000002";
   CreatePost (sample 2 1700000120000) "6f1c2d3e-0000-4000-8000-000000000003";
   DeletePostByUri (uri (sample 1 1700000000000));
   UpdateSubscriptionState "wss://bsky.network" 100].

Definition sample_criteria : Criteria :=
  {| by_authorDid := Some "did:example:alice";
     by_limit := Some 4%nat;
     by_cursor := Some (JS.format_time 1700000090000) |}.

(** *** The payloads of the filter's example *)

Definition dq : string := String JS.quote "".

(** The JSON text of an object with one member, text. *)
Definition text_payload (text : string) : string :=
  "{" ++ dq ++ "text" ++ dq ++ ":" ++ dq ++ text ++ dq ++ "}".

Definition love_alf : string := text_payload "I love ALF".

Definition unrelated : string := text_payload "unrelated".

(** A payload that breaks off inside its string. *)
Definition malformed : string :=
  "{" ++ dq ++ "text" ++ dq ++ ":" ++ dq ++ "not json".

(** A row of the post table with a payload, indexed at [t]. *)
Definition row_with (n : Z) (t : Z) (payload : string) : Schema.Post :=
  {| Schema.uri := append "at://did:example:alice/app.bsky.feed.post/"
                          (JS.Number_toString n);
     Schema.cid := append "bafyreic" (JS.Number_toString n);
     Schema.replyParent := None;
     Schema.replyRoot := None;
     Schema.authorDid := "did:example:alice";
     Schema.recordJson := payload;
     Schema.indexedAt := JS.format_time t |}.

Definition three_payloads : Schema.DatabaseSchema :=
  {| Schema.post := [row_with 3 1700000002000 malformed;
                     row_with 1 1700000000000 love_alf;
                     row_with 2 1700000001000 unrelated];
     Schema.sub_state := [] |}.

(** A table whose oldest row does not pass the filter. *)
Definition alf_then_unrelated : Schema.DatabaseSchema :=
  {| Schema.post := [row_with 1 1700000000000 unrelated;
                     row_with 2 1700000001000 love_alf];
     Schema.sub_state := [] |}.

(** *** Notions of the further properties *)

(** The services whose state an adapter holds, in the order they were
    stored. *)
Definition services (a : Adapter) : list string :=
  match a with
  | SQLite {| SQLiteAdapter.db := Some d |} =>
      map Schema.service (Schema.sub_state d)
  | PostgreSQL {| PostgreSQLAdapter.pool := Some d |} =>
      map Schema.service (Schema.sub_state d)
  | MongoDB {| MongoDBAdapter.db := Some d |} =>
      map MongoDBAdapter.service (MongoDBAdapter.subscription_states d)
  | _ => []
  end.

(** The uri and the service an operation writes to. *)
Definition post_target (op : Operation) : option string :=
  match op with
  | CreatePost p _ => Some (uri p)
  | DeletePostByUri u => Some u
  | UpdateSubscriptionState _ _ => None
  end.

Definition service_target (op : Operation) : option string :=
  match op with
  | UpdateSubscriptionState s _ => Some s
  | _ => None
  end.

(** An operation that threw. *)
Definition failed (o : Outcome) : bool :=
  match o with
  | Created (inl _) | Deleted (inl _) | Updated (inl _) => true
  | _ => false
  end.

(** An adapter that was never connected, or was disconnected. *)
Definition disconnected (type : DatabaseType) : Adapter :=
  match type with
  | sqlite => SQLite {| SQLiteAdapter.db := None |}
  | postgresql => PostgreSQL {| PostgreSQLAdapter.pool := None |}
  | mongodb => MongoDB {| MongoDBAdapter.db := None |}
  end.

(** A post without a valid indexedAt. *)
Definition undated : PostData :=
  {| uri := "at://did:example:alice/app.bsky.feed.post/1";
     cid := "bafyreic";
     replyParent := None;
     replyRoot := None;
     authorDid := "did:example:alice";
     recordJson := "{}";
     indexedAt := None |}.

(** The criteria findMany goes by: [if (criteria.x)] skips an empty
    authorDid, an empty cursor and the limit 0 as it skips absent ones. *)
Definition present (c : Criteria) : Criteria :=
  {| by_authorDid := JS.given (by_authorDid c);
     by_limit := match by_limit c with
                 | Some O => None
                 | l => l
                 end;
     by_cursor := JS.given (by_cursor c) |}.

(** The criteria with another limit. *)
Definition with_limit (l : option nat) (c : Criteria) : Criteria :=
  {| by_authorDid := by_authorDid c; by_limit := l; by_cursor := by_cursor c |}.

(** A caller paging through the feed: up to [calls] calls of
    getAlgorithmFeed, each with the cursor the call before returned, until
    a call returns no cursor. *)
Fixpoint pages {DB} `{FeedDatabase DB} (calls : nat) (limit : nat)
    (cursor : option string) (a : DB) : list (list PostRecord) :=
  match calls with
  | O => []
  | S calls =>
      match posts_getAlgorithmFeed "feed" limit cursor a with
      | (inr f, a1) =>
          feed_posts f ::
          match feed_cursor f with
          | Some c => pages calls limit (Some c) a1
          | None => []
          end
      | (inl _, _) => []
      end
  end.

(** The fields of a create that go to VARCHAR(255) columns on PostgreSQL. *)
Definition fits_columns (create : Subscription.CreateOp) : bool :=
  PostgreSQLAdapter.varchar255 (Subscription.uri create)
  && PostgreSQLAdapter.varchar255 (Subscription.cid create)
  && PostgreSQLAdapter.varchar255 (Subscription.author create)
  && match Subscription.reply (Subscription.record create) with
     | Some r =>
         PostgreSQLAdapter.varchar255_null
           (option_map Subscription.ref_uri (Subscription.parent r))
         && PostgreSQLAdapter.varchar255_null
              (option_map Subscription.ref_uri (Subscription.root r))
     | None => true
     end.

(** A subscription that writes through an adapter. *)
Definition through (a : Adapter) (legacy : Schema.DatabaseSchema)
  : Subscription.FirehoseSubscription Adapter :=
  {| Subscription.db := legacy; Subscription.dbAdapter := Some a |}.

(** The uris the adapter of a subscription holds after an event. *)
Definition stored_after
    (r : Result unit * Subscription.FirehoseSubscription Adapter)
  : list string :=
  match Subscription.dbAdapter (snd r) with
  | Some a => stored a
  | None => []
  end.

(** A batch with two creates, the second a reply, and one delete. *)
Definition reply_create : Subscription.CreateOp :=
  {| Subscription.uri := "at://did:example:bob/app.bsky.feed.post/7";
     Subscription.cid := "bafyreid";
     Subscription.author := "did:example:bob";
     Subscription.record :=
       {| Subscription.text := "so do I";
          Subscription.createdAt := "2023-11-14T22:14:20.000Z";
          Subscription.reply :=
            Some {| Subscription.parent :=
                      Some {| Subscription.ref_uri :=
                                Subscription.uri one_create;
                              Subscription.ref_cid :=
                                Subscription.cid one_create |};
                    Subscription.root := None |} |} |}.

Definition mixed_batch : Subscription.Operations :=
  {| Subscription.creates := [one_create; reply_create];
     Subscription.deletes :=
       [{| Subscription.del_uri :=
             "at://did:example:alice/app.bsky.feed.post/2" |}] |}.

(** The value of a run of decimal digits read from the left, after the
    value [acc] of the digits before it. *)
Fixpoint digits_value (acc : Z) (d : Decimal.uint) : Z :=
  match d with
  | Decimal.Nil => acc
  | Decimal.D0 d => digits_value (10 * acc) d
  | Decimal.D1 d => digits_value (10 * acc + 1) d
  | Decimal.D2 d => digits_value (10 * acc + 2) d
  | Decimal.D3 d => digits_value (10 * acc + 3) d
  | Decimal.D4 d => digits_value (10 * acc + 4) d
  | Decimal.D5 d => digits_value (10 * acc + 5) d
  | Decimal.D6 d => digits_value (10 * acc + 6) d
  | Decimal.D7 d => digits_value (10 * acc + 7) d
  | Decimal.D8 d => digits_value (10 * acc + 8) d
  | Decimal.D9 d => digits_value (10 * acc + 9) d
  end.

(** The entry of the feed skeleton for a row. *)
Definition skeleton (r : Schema.Post) : WhatsAlf.SkeletonFeedPost :=
  {| WhatsAlf.post := Schema.uri r |}.

(** A caller paging through the filtered feed: up to [calls] calls of the
    handler, each with the cursor the call before returned, until a call
    returns no cursor or throws. *)
Fixpoint alf_pages (calls : nat) (limit : nat) (cursor : option string)
    (db : Schema.DatabaseSchema) : list (list WhatsAlf.SkeletonFeedPost) :=
  match calls with
  | O => []
  | S calls =>
      match WhatsAlf.handler db {| WhatsAlf.feed := "whats-alf";
                                   WhatsAlf.limit := limit;
                                   WhatsAlf.cursor := cursor |} with
      | inr out =>
          WhatsAlf.out_feed out ::
          match WhatsAlf.out_cursor out with
          | Some c => alf_pages calls limit (Some c) db
          | None => []
          end
      | inl _ => []
      end
  end.

(** ORDER BY indexedAt DESC, cid DESC, read on the posts of the rows. *)
Definition before_post (p q : PostData) : bool :=
  match time p ?= time q with
  | Lt => true
  | Eq => String.ltb (cid p) (cid q)
  | Gt => false
  end.

(** A post of did:example:alice with a text, indexed at [t]. *)
Definition talking (n : Z) (t : Z) (text : string) : PostData :=
  {| uri := append "at://did:example:alice/app.bsky.feed.post/"
                   (JS.Number_toString n);
     cid := "bafyreic";
     replyParent := None;
     replyRoot := None;
     authorDid := "did:example:alice";
     recordJson := text_payload text;
     indexedAt := Some t |}.

(** Five posts, newest first; three of them mention alf. *)
Definition talk : list PostData :=
  [talking 5 1700000004000 "ALF is awesome";
   talking 4 1700000003000 "unrelated";
   talking 3 1700000002000 "I love alf";
   talking 2 1700000001000 "something else";
   talking 1 1700000000000 "Alf the alien"].

Definition talk_table : Schema.DatabaseSchema :=
  {| Schema.post := map row (rev talk); Schema.sub_state := [] |}.

(** A character that stands for itself inside a JSON string: no quote, no
    backslash, no control character. *)
Definition plain (c : ascii) : bool :=
  negb (Ascii.eqb c JS.quote) && negb (Ascii.eqb c JS.backslash)
  && negb (N_of_ascii c <? 32)%N.

Fixpoint plain_text (s : string) : bool :=
  match s with
  | String c r => plain c && plain_text r
  | EmptyString => true
  end.

(** The text holds [a], [l], [f] in a row, each in either case. *)
Definition mentions_alf (text : string) : Prop :=
  exists before x y z rest,
    text = append before (String x (String y (String z rest))) /\
    (x = "a" \/ x = "A")%char /\ (y = "l" \/ y = "L")%char /\
    (z = "f" \/ z = "F")%char.

(** The legacy table after a run of commits, each handled at its own
    clock by a subscription without an adapter. *)
Fixpoint ingest (JSON_stringify : Subscription.PostLexicon -> string)
    (batches : list (Subscription.Operations * (nat -> Z)))
    (table : Schema.DatabaseSchema) : Schema.DatabaseSchema :=
  match batches with
  | [] => table
  | (ops, now) :: rest =>
      ingest JSON_stringify rest
        (Subscription.db
           (snd (Subscription.handleEvent JSON_stringify now
                   (fun _ => EmptyString) (Subscription.Commit ops)
                   {| Subscription.db := table;
                      Subscription.dbAdapter := @None Adapter |})))
  end.

(** Two posts that mention alf, indexed in the same millisecond. *)
Definition tied_talk : list PostData :=
  [talking 1 1700000000000 "alf one"; talking 2 1700000000000 "alf two"].

Definition tied_table : Schema.DatabaseSchema :=
  {| Schema.post := map row tied_talk; Schema.sub_state := [] |}.

(** Two commits, at two clocks. *)
Definition two_commits : list (Subscription.Operations * (nat -> Z)) :=
  [(mixed_batch, fun _ => 1700000000000);
   (recreate_batch, fun _ => 1700000060000)].

(** JSON.stringify of a record, read for its text alone. *)
Definition text_only (r : Subscription.PostLexicon) : string :=
  text_payload (Subscription.text r).

(** *** db/migrations.ts and the adapters' migrate(): the schema *)

(** The catalog of a relational database: its tables with their columns,
    and its indexes.  A statement either fails and changes nothing or
    gives the catalog after it.  Tables and indexes share one name space;
    DROP TABLE takes the indexes of the table with it; SQLite refuses to
    drop a column that is a primary key or is indexed. *)
Module Ddl.

Inductive ColumnType : Type :=
| varchar (length : option nat)
| text
| integer
| timestamp.

Record Column : Type := {
  name : string;
  type : ColumnType;
  primaryKey : bool;
  notNull : bool;
  defaultTo : option string
}.

Record Table : Type := { table_name : string; columns : list Column }.

Record Index : Type := {
  index_name : string;
  on_table : string;
  on_column : string
}.

Record Catalog : Type := { tables : list Table; indexes : list Index }.

Inductive Error : Type :=
| AlreadyExists (what : string)
| NoSuchTable (what : string)
| NoSuchColumn (what : string)
| NoSuchIndex (what : string)
| ColumnInUse (what : string).

Definition Statement : Type := Catalog -> Error + Catalog.

Definition empty : Catalog := {| tables := []; indexes := [] |}.

Definition has_table (t : string) (c : Catalog) : bool :=
  existsb (fun x => String.eqb (table_name x) t) (tables c).

Definition has_index (i : string) (c : Catalog) : bool :=
  existsb (fun x => String.eqb (index_name x) i) (indexes c).

Definition named (n : string) (c : Catalog) : bool :=
  has_table n c || has_index n c.

Definition has_column (col : string) (cols : list Column) : bool :=
  existsb (fun x => String.eqb (name x) col) cols.

Definition find_table (t : string) (c : Catalog) : option Table :=
  find (fun x => String.eqb (table_name x) t) (tables c).

(** The tables with the columns of table [t] replaced. *)
Definition set_columns (t : string) (cols : list Column) (c : Catalog)
  : Catalog :=
  {| tables :=
       map (fun x => if String.eqb (table_name x) t
                     then {| table_name := table_name x; columns := cols |}
                     else x) (tables c);
     indexes := indexes c |}.

(** CREATE TABLE t (cols) *)
Definition createTable (t : string) (cols : list Column) : Statement :=
  fun c =>
    if named t c then inl (AlreadyExists t)
    else inr {| tables := tables c ++ [{| table_name := t; columns := cols |}];
                indexes := indexes c |}.

(** CREATE TABLE IF NOT EXISTS t (cols): nothing is done, and nothing
    thrown, when the name is taken. *)
Definition createTableIfNotExists (t : string) (cols : list Column)
  : Statement :=
  fun c => if named t c then inr c else createTable t cols c.

(** ALTER TABLE t ADD COLUMN ..., one or several in a statement. *)
Fixpoint add_columns (new cols : list Column) : Error + list Column :=
  match new with
  | [] => inr cols
  | col :: rest =>
      if has_column (name col) cols then inl (AlreadyExists (name col))
      else add_columns rest (cols ++ [col])
  end.

Definition addColumns (t : string) (new : list Column) : Statement :=
  fun c =>
    match find_table t c with
    | None => inl (NoSuchTable t)
    | Some x =>
        match add_columns new (columns x) with
        | inl e => inl e
        | inr cols => inr (set_columns t cols c)
        end
    end.

(** CREATE INDEX i ON t (col) *)
Definition createIndex (i t col : string) : Statement :=
  fun c =>
    if named i c then inl (AlreadyExists i)
    else
      match find_table t c with
      | None => inl (NoSuchTable t)
      | Some x =>
          if has_column col (columns x)
          then inr {| tables := tables c;
                      indexes := indexes c
                                 ++ [{| index_name := i; on_table := t;
                                        on_column := col |}] |}
          else inl (NoSuchColumn col)
      end.

(** DROP TABLE t *)
Definition dropTable (t : string) : Statement :=
  fun c =>
    if has_table t c
    then inr {| tables :=
                  filter (fun x => negb (String.eqb (table_name x) t))
                         (tables c);
                indexes :=
                  filter (fun x => negb (String.eqb (on_table x) t))
                         (indexes c) |}
    else inl (NoSuchTable t).

(** DROP INDEX i *)
Definition dropIndex (i : string) : Statement :=
  fun c =>
    if has_index i c
    then inr {| tables := tables c;
                indexes :=
                  filter (fun x => negb (String.eqb (index_name x) i))
                         (indexes c) |}
    else inl (NoSuchIndex i).

Definition indexed (t col : string) (c : Catalog) : bool :=
  existsb (fun x => String.eqb (on_table x) t && String.eqb (on_column x) col)
          (indexes c).

(** ALTER TABLE t DROP COLUMN col *)
Definition dropColumn (t col : string) : Statement :=
  fun c =>
    match find_table t c with
    | None => inl (NoSuchTable t)
    | Some x =>
        match find (fun y => String.eqb (name y) col) (columns x) with
        | None => inl (NoSuchColumn col)
        | Some y =>
            if primaryKey y || indexed t col c then inl (ColumnInUse col)
            else
              inr (set_columns t
                     (filter (fun z => negb (String.eqb (name z) col))
                             (columns x)) c)
        end
    end.

(** The statements of a migration, awaited one after the other: the first
    that throws ends it. *)
Fixpoint run (statements : list Statement) : Statement :=
  fun c =>
    match statements with
    | [] => inr c
    | s :: rest =>
        match s c with
        | inl e => inl e
        | inr c1 => run rest c1
        end
    end.

(** A column as the builder has it before a modifier is applied. *)
Definition column (n : string) (ty : ColumnType) : Column :=
  {| name := n; type := ty; primaryKey := false; notNull := false;
     defaultTo := None |}.

Definition col_primaryKey (col : Column) : Column :=
  {| name := name col; type := type col; primaryKey := true;
     notNull := notNull col; defaultTo := defaultTo col |}.

Definition col_notNull (col : Column) : Column :=
  {| name := name col; type := type col; primaryKey := primaryKey col;
     notNull := true; defaultTo := defaultTo col |}.

Definition col_defaultTo (v : string) (col : Column) : Column :=
  {| name := name col; type := type col; primaryKey := primaryKey col;
     notNull := notNull col; defaultTo := Some v |}.

(** A catalog as the engines keep it: no two tables of one name, and every
    index on a column of a table that exists. *)
Definition well_formed (c : Catalog) : Prop :=
  NoDup (map table_name (tables c)) /\
  forall i, In i (indexes c) ->
    exists x, In x (tables c) /\ table_name x = on_table i /\
              has_column (on_column i) (columns x) = true.

(** A statement and the statement that takes it back. *)
Definition undoes (s s' : Statement) : Prop :=
  forall c c1, well_formed c -> s c = inr c1 ->
               well_formed c1 /\ s' c1 = inr c.

(** A statement that leaves table [t] as it is. *)
Definition keeps (t : string) (s : Statement) : Prop :=
  forall c c1 x, s c = inr c1 -> find_table t c = Some x ->
                 find_table t c1 = Some x.

End Ddl.

(** db/migrations.ts: the two migrations of the Kysely provider. *)
Module Migrations.

Record Migration : Type := {
  up : list Ddl.Statement;
  down : list Ddl.Statement
}.

Definition migration_001 : Migration :=
  {| up :=
       [Ddl.createTable "post"
          [Ddl.col_primaryKey (Ddl.column "uri" (Ddl.varchar None));
           Ddl.col_notNull (Ddl.column "cid" (Ddl.varchar None));
           Ddl.col_notNull (Ddl.column "indexedAt" (Ddl.varchar None))];
        Ddl.createTable "sub_state"
          [Ddl.col_primaryKey (Ddl.column "service" (Ddl.varchar None));
           Ddl.col_notNull (Ddl.column "cursor" Ddl.integer)];
        Ddl.createIndex "post_indexed_at_idx" "post" "indexedAt"];
     down := [Ddl.dropTable "post"; Ddl.dropTable "sub_state"] |}.

Definition migration_002 : Migration :=
  {| up :=
       [Ddl.addColumns "post" [Ddl.column "replyParent" (Ddl.varchar None)];
        Ddl.addColumns "post" [Ddl.column "replyRoot" (Ddl.varchar None)];
        Ddl.addColumns "post"
          [Ddl.col_defaultTo ""
             (Ddl.col_notNull (Ddl.column "authorDid" (Ddl.varchar None)))];
        Ddl.addColumns "post"
          [Ddl.col_defaultTo "{}"
             (Ddl.col_notNull (Ddl.column "recordJson" Ddl.text))];
        Ddl.createIndex "post_author_did_idx" "post" "authorDid"];
     down :=
       [Ddl.dropIndex "post_author_did_idx";
        Ddl.dropColumn "post" "recordJson";
        Ddl.dropColumn "post" "authorDid";
        Ddl.dropColumn "post" "replyRoot";
        Ddl.dropColumn "post" "replyParent"] |}.

(** The registry, in the order of its keys. *)
Definition migrations : list (string * Migration) :=
  [("001", migration_001); ("002", migration_002)].

End Migrations.

(** PostgreSQLAdapter.migrate: the statements go to the pool one by one,
    each committed as it returns, so a failure leaves what ran before it. *)
Module PostgreSQLMigrate.

(** A value of the column name as the driver returns it: a string from a
    character column, a number from an INTEGER column. *)
Inductive Value : Type :=
| Text (s : string)
| Integer (n : Z).

Definition value_eqb (v w : Value) : bool :=
  match v, w with
  | Text s, Text t => String.eqb s t
  | Integer n, Integer m => n =? m
  | _, _ => false
  end.

(** The catalog, and the rows of kysely_migration by the value of their
    column name (the other columns of a row are never read). *)
Record Database : Type := {
  catalog : Ddl.Catalog;
  kysely_migration : list Value
}.

Inductive Failure : Type :=
| NotConnected
| Sql (e : Ddl.Error)
| InvalidValue (literal : string)
| NotNullViolation (column : string)
| DuplicateKey (key : string).

Definition Query (A : Type) : Type := Database -> (Failure + A) * Database.

Definition pure {A} (a : A) : Query A := fun d => (inr a, d).

Definition and_then {A B} (q : Query A) (k : A -> Query B) : Query B :=
  fun d =>
    match q d with
    | (inr a, d1) => k a d1
    | (inl e, d1) => (inl e, d1)
    end.

(** A schema statement sent with pool.query. *)
Definition query (s : Ddl.Statement) : Query unit :=
  fun d =>
    match s (catalog d) with
    | inl e => (inl (Sql e), d)
    | inr c => (inr tt, {| catalog := c;
                           kysely_migration := kysely_migration d |})
    end.

(** The table of the migration rows with its column name. *)
Definition tracking (d : Database) : Failure + Ddl.Table * Ddl.Column :=
  match Ddl.find_table "kysely_migration" (catalog d) with
  | None => inl (Sql (Ddl.NoSuchTable "kysely_migration"))
  | Some x =>
      match find (fun y => String.eqb (Ddl.name y) "name") (Ddl.columns x) with
      | Some y => inr (x, y)
      | None => inl (Sql (Ddl.NoSuchColumn "name"))
      end
  end.

(** SELECT name FROM kysely_migration ORDER BY name; the order is lost in
    the Set the names are put in. *)
Definition select_names : Query (list Value) :=
  fun d =>
    match tracking d with
    | inl e => (inl e, d)
    | inr _ => (inr (kysely_migration d), d)
    end.

Fixpoint digits_only (s : string) : bool :=
  match s with
  | EmptyString => true
  | String c r => match JS.digit_val c with
                  | Some _ => digits_only r
                  | None => false
                  end
  end.

(** A string literal as a column of the type stores it.  A character
    column keeps the string when it fits.  An INTEGER column takes a run of
    digits as its number; a literal of another form, which the engine may
    take or refuse, is refused here.  No literal is taken as a TIMESTAMP:
    the two that migrate() writes, '001' and '002', are none. *)
Definition stored_as (ty : Ddl.ColumnType) (literal : string)
  : Failure + Value :=
  match ty with
  | Ddl.varchar None => inr (Text literal)
  | Ddl.text => inr (Text literal)
  | Ddl.varchar (Some n) =>
      if (String.length literal <=? n)%nat then inr (Text literal)
      else inl (InvalidValue literal)
  | Ddl.integer =>
      match literal, JS.parseInt literal with
      | String _ _, Some z =>
          if digits_only literal && (z <=? 2147483647)
          then inr (Integer z)
          else inl (InvalidValue literal)
      | _, _ => inl (InvalidValue literal)
      end
  | Ddl.timestamp => inl (InvalidValue literal)
  end.

(** A column that an INSERT naming only the column name leaves without a
    value, and that does not take NULL. *)
Definition needs_value (y : Ddl.Column) : bool :=
  negb (String.eqb (Ddl.name y) "name")
  && (Ddl.primaryKey y || Ddl.notNull y)
  && match Ddl.defaultTo y with
     | Some _ => false
     | None => true
     end.

(** INSERT INTO kysely_migration (name) VALUES (n) *)
Definition insert_name (n : string) : Query unit :=
  fun d =>
    match tracking d with
    | inl e => (inl e, d)
    | inr (x, y) =>
        match find needs_value (Ddl.columns x) with
        | Some z => (inl (NotNullViolation (Ddl.name z)), d)
        | None =>
            match stored_as (Ddl.type y) n with
            | inl e => (inl e, d)
            | inr v =>
                if Ddl.primaryKey y && existsb (value_eqb v) (kysely_migration d)
                then (inl (DuplicateKey n), d)
                else (inr tt, {| catalog := catalog d;
                                 kysely_migration :=
                                   kysely_migration d ++ [v] |})
            end
        end
    end.

(** appliedNames.has(n): a string is in the Set when a row holds that very
    string; a number is never the same value as a string. *)
Definition has (n : string) (names : list Value) : bool :=
  existsb (value_eqb (Text n)) names.

Definition when (b : bool) (q : Query unit) : Query unit :=
  if b then q else pure tt.

Definition varchar255 : Ddl.ColumnType := Ddl.varchar (Some 255%nat).

Definition statements (d : Database) : (Failure + unit) * Database :=
  and_then
    (query (Ddl.createTableIfNotExists "kysely_migration"
              [Ddl.col_primaryKey (Ddl.column "name" varchar255);
               Ddl.col_defaultTo "CURRENT_TIMESTAMP"
                 (Ddl.column "timestamp" Ddl.timestamp)]))
    (fun _ =>
  and_then select_names (fun appliedNames =>
  and_then
    (when (negb (has "001" appliedNames))
       (and_then
          (query (Ddl.createTable "post"
                    [Ddl.col_primaryKey (Ddl.column "uri" varchar255);
                     Ddl.col_notNull (Ddl.column "cid" varchar255);
                     Ddl.col_notNull (Ddl.column "indexedAt" varchar255)]))
          (fun _ =>
        and_then
          (query (Ddl.createTable "sub_state"
                    [Ddl.col_primaryKey (Ddl.column "service" varchar255);
                     Ddl.col_notNull (Ddl.column "cursor" Ddl.integer)]))
          (fun _ =>
        and_then
          (query (Ddl.createIndex "post_indexed_at_idx" "post" "indexedAt"))
          (fun _ => insert_name "001")))))
    (fun _ =>
  and_then
    (when (negb (has "002" appliedNames))
       (and_then
          (query (Ddl.addColumns "post"
                    [Ddl.column "replyParent" varchar255;
                     Ddl.column "replyRoot" varchar255;
                     Ddl.col_defaultTo ""
                       (Ddl.col_notNull (Ddl.column "authorDid" varchar255));
                     Ddl.col_defaultTo "{}"
                       (Ddl.col_notNull (Ddl.column "recordJson" Ddl.text))]))
          (fun _ =>
        and_then
          (query (Ddl.createIndex "post_author_did_idx" "post" "authorDid"))
          (fun _ => insert_name "002"))))
    (fun _ => pure tt)))) d.

(** [pool] is the adapter's field: null until connect has run.  What the
    try block throws is thrown on. *)
Definition migrate (pool : option Database)
  : (Failure + unit) * option Database :=
  match pool with
  | None => (inl NotConnected, None)
  | Some d => let (r, d1) := statements d in (r, Some d1)
  end.

(** A database in which kysely_migration was made by hand with a TEXT
    name and nothing else, and one in which name is an INTEGER. *)
Definition tracked_by (ty : Ddl.ColumnType) : Database :=
  {| catalog :=
       {| Ddl.tables :=
            [{| Ddl.table_name := "kysely_migration";
                Ddl.columns := [Ddl.col_primaryKey (Ddl.column "name" ty)] |}];
          Ddl.indexes := [] |};
     kysely_migration := [] |}.

(** A character type. *)
Definition character (ty : Ddl.ColumnType) : bool :=
  match ty with
  | Ddl.varchar _ => true
  | Ddl.text => true
  | _ => false
  end.

(** The table kysely_migration, when the database has one, keeps its column
    name, when it has one, in a character type. *)
Definition names_are_text (d : Database) : Prop :=
  forall x y, tracking d = inr (x, y) -> character (Ddl.type y) = true.

(** The table of the migration rows can be read, and name is text. *)
Definition tracked (d : Database) : Prop :=
  exists x y, tracking d = inr (x, y) /\ character (Ddl.type y) = true.

(** [d1] can be read and holds the migration rows of [d]. *)
Definition at_least (d d1 : Database) : Prop :=
  tracked d1 /\
  forall n, has n (kysely_migration d) = true ->
            has n (kysely_migration d1) = true.

End PostgreSQLMigrate.

(** MongoDBAdapter.migrate: the collections and their indexes, as the
    server keeps them beside the documents.  Nothing is rolled back when a
    call throws. *)
Module MongoDBMigrate.

Record Index : Type := {
  on_collection : string;
  key : string;
  direction : Z;
  unique : bool;
  index_name : string
}.

(** Of the documents only this is looked at, when a unique index is built:
    whether two of a collection have the same value under a key. *)
Record Server : Type := {
  collections : list string;
  indexes : list Index;
  duplicates : string -> string -> bool
}.

Inductive Failure : Type :=
| NotConnected
| NamespaceExists (name : string)
| IndexOptionsConflict (name : string)
| IndexKeySpecsConflict (name : string)
| DuplicateKey (name : string).

Definition Call (A : Type) : Type := Server -> (Failure + A) * Server.

Definition pure {A} (a : A) : Call A := fun s => (inr a, s).

Definition and_then {A B} (q : Call A) (k : A -> Call B) : Call B :=
  fun s =>
    match q s with
    | (inr a, s1) => k a s1
    | (inl e, s1) => (inl e, s1)
    end.

Definition has (n : string) (names : list string) : bool :=
  existsb (String.eqb n) names.

(** db.listCollections().toArray(), mapped to the names. *)
Definition listCollections : Call (list string) :=
  fun s => (inr (collections s), s).

(** db.createCollection(name) *)
Definition createCollection (name : string) : Call unit :=
  fun s =>
    if has name (collections s) then (inl (NamespaceExists name), s)
    else (inr tt, {| collections := collections s ++ [name];
                     indexes := indexes s;
                     duplicates := duplicates s |}).

(** The name the driver gives an index on one key. *)
Definition default_name (k : string) (dir : Z) : string :=
  append k (append "_" (if dir =? 1 then "1" else "-1")).

Definition same_keys (coll k : string) (dir : Z) (i : Index) : bool :=
  String.eqb (on_collection i) coll && String.eqb (key i) k
  && (direction i =? dir).

(** collection.createIndex(\{k: dir\}, \{unique\}): an index that is there
    with these keys, options and name is left as it is; one that differs in
    an option or in the name is a conflict; a unique index is not built over
    duplicates; the collection is made when it is missing. *)
Definition createIndex (coll k : string) (dir : Z) (uniq : bool) : Call unit :=
  fun s =>
    let name := default_name k dir in
    match find (same_keys coll k dir) (indexes s) with
    | Some i =>
        if Bool.eqb (unique i) uniq && String.eqb (index_name i) name
        then (inr tt, s)
        else (inl (IndexOptionsConflict name), s)
    | None =>
        if existsb (fun i => String.eqb (on_collection i) coll
                             && String.eqb (index_name i) name) (indexes s)
        then (inl (IndexKeySpecsConflict name), s)
        else if uniq && duplicates s coll k
        then (inl (DuplicateKey name), s)
        else (inr tt,
              {| collections := if has coll (collections s)
                                then collections s
                                else collections s ++ [coll];
                 indexes := indexes s
                            ++ [{| on_collection := coll; key := k;
                                   direction := dir; unique := uniq;
                                   index_name := name |}];
                 duplicates := duplicates s |})
    end.

Definition when (b : bool) (q : Call unit) : Call unit :=
  if b then q else pure tt.

Definition calls : Call unit :=
  and_then listCollections (fun existingCollections =>
  and_then (when (negb (has "posts" existingCollections))
              (createCollection "posts")) (fun _ =>
  and_then (when (negb (has "subscription_states" existingCollections))
              (createCollection "subscription_states")) (fun _ =>
  and_then (createIndex "posts" "uri" 1 true) (fun _ =>
  and_then (createIndex "posts" "authorDid" 1 false) (fun _ =>
  and_then (createIndex "posts" "indexedAt" (-1) false) (fun _ =>
  createIndex "subscription_states" "service" 1 true)))))).

(** [db] is the adapter's field: null until connect has run.  What the try
    block throws is thrown on. *)
Definition migrate (db : option Server) : (Failure + unit) * option Server :=
  match db with
  | None => (inl NotConnected, None)
  | Some s => let (r, s1) := calls s in (r, Some s1)
  end.

Definition fresh : Server :=
  {| collections := []; indexes := []; duplicates := fun _ _ => false |}.

(** The index createIndex would make is there. *)
Definition built (coll k : string) (dir : Z) (uniq : bool) (s : Server)
  : Prop :=
  exists i, find (same_keys coll k dir) (indexes s) = Some i /\
            unique i = uniq /\ index_name i = default_name k dir.

(** [s1] has the collections and the built indexes of [s]. *)
Definition extends (s s1 : Server) : Prop :=
  (forall n, has n (collections s) = true -> has n (collections s1) = true) /\
  (forall coll k dir uniq, built coll k dir uniq s -> built coll k dir uniq s1).

End MongoDBMigrate.

(** *** db/factory.ts and index.ts: the configuration read from the
    environment *)

Module Factory.

(** process.env: a variable is a string or is not set. *)
Definition Env : Type := string -> option string.

(** A number; None is NaN. *)
Definition Number : Type := option Z.

(** [x || d] on an optional string. *)
Definition or_else (x : option string) (d : string) : string :=
  match JS.or_undefined x with
  | Some s => s
  | None => d
  end.

(** [x || d] on an optional number: undefined, NaN and 0 give [d]. *)
Definition number_or (x : option Number) (d : Z) : Number :=
  match x with
  | Some (Some n) => if n =? 0 then Some d else Some n
  | _ => Some d
  end.

Record SQLiteConfig : Type := { location : string }.

Record PostgreSQLConfig : Type := {
  host : string;
  port : Number;
  database : string;
  username : string;
  password : string;
  ssl : option bool;
  poolSize : option Number
}.

Record MongoDBOptions : Type := {
  maxPoolSize : option Number;
  serverSelectionTimeoutMS : option Number;
  socketTimeoutMS : option Number
}.

Record MongoDBConfig : Type := {
  uri : string;
  mongo_database : string;
  options : option MongoDBOptions
}.

(** [type] is a DatabaseType for the compiler only: the environment can
    put any string there. *)
Record DatabaseConfig : Type := {
  type : string;
  sqlite : option SQLiteConfig;
  postgresql : option PostgreSQLConfig;
  mongodb : option MongoDBConfig
}.

(** The message of the Error thrown, or the value. *)
Definition Thrown (A : Type) : Type := (string + A)%type.

Definition createDatabaseConfigFromEnv (env : Env) : Thrown DatabaseConfig :=
  let dbType := or_else (env "DATABASE_TYPE") "sqlite" in
  if String.eqb dbType "sqlite" then
    inr {| type := "sqlite";
           sqlite :=
             Some {| location := or_else (env "SQLITE_LOCATION") ":memory:" |};
           postgresql := None;
           mongodb := None |}
  else if String.eqb dbType "postgresql" then
    inr {| type := "postgresql";
           sqlite := None;
           postgresql :=
             Some {| host := or_else (env "POSTGRES_HOST") "localhost";
                     port := JS.parseInt
                               (or_else (env "POSTGRES_PORT") "5432");
                     database := or_else (env "POSTGRES_DATABASE") "feedgen";
                     username := or_else (env "POSTGRES_USERNAME") "postgres";
                     password := or_else (env "POSTGRES_PASSWORD") "";
                     ssl := Some match env "POSTGRES_SSL" with
                                 | Some s => String.eqb s "true"
                                 | None => false
                                 end;
                     poolSize :=
                       Some (JS.parseInt
                               (or_else (env "POSTGRES_POOL_SIZE") "10")) |};
           mongodb := None |}
  else if String.eqb dbType "mongodb" then
    inr {| type := "mongodb";
           sqlite := None;
           postgresql := None;
           mongodb :=
             Some {| uri := or_else (env "MONGODB_URI")
                                    "mongodb://localhost:27017";
                     mongo_database :=
                       or_else (env "MONGODB_DATABASE") "feedgen";
                     options :=
                       Some {| maxPoolSize :=
                                 Some (JS.parseInt
                                         (or_else
                                            (env "MONGODB_MAX_POOL_SIZE")
                                            "10"));
                               serverSelectionTimeoutMS :=
                                 Some (JS.parseInt
                                         (or_else
                                            (env
                                               "MONGODB_SERVER_SELECTION_TIMEOUT")
                                            "5000"));
                               socketTimeoutMS :=
                                 Some (JS.parseInt
                                         (or_else
                                            (env "MONGODB_SOCKET_TIMEOUT")
                                            "45000")) |} |} |}
  else inl (append "Unsupported database type: " dbType).

(** [!x?.field] on an optional record. *)
Definition missing {A} (x : option A) (field : A -> string) : bool :=
  match x with
  | Some a => negb (JS.truthy (field a))
  | None => true
  end.

Definition validateDatabaseConfig (config : DatabaseConfig) : Thrown unit :=
  if String.eqb (type config) "sqlite" then
    if missing (sqlite config) location
    then inl "SQLite location is required"
    else inr tt
  else if String.eqb (type config) "postgresql" then
    let pg := postgresql config in
    if missing pg host || missing pg database || missing pg username
    then inl "PostgreSQL host, database, and username are required"
    else inr tt
  else if String.eqb (type config) "mongodb" then
    let mongo := mongodb config in
    if missing mongo uri || missing mongo mongo_database
    then inl "MongoDB URI and database name are required"
    else inr tt
  else inl (append "Unsupported database type: " (type config)).

(** index.ts *)
Definition maybeStr (val : option string) : option string :=
  match val with
  | Some s => if JS.truthy s then Some s else None
  | None => None
  end.

Definition maybeInt (val : option string) : option Z :=
  match val with
  | Some s => if JS.truthy s then JS.parseInt s else None
  | None => None
  end.

(** What PostgreSQLAdapter.connect gives to [new Pool]. *)
Record PoolOptions : Type := {
  pool_host : string;
  pool_port : Number;
  pool_database : string;
  pool_user : string;
  pool_password : string;
  pool_ssl : option bool;
  max : Number;
  idleTimeoutMillis : Z;
  connectionTimeoutMillis : Z
}.

Definition pool_options (config : DatabaseConfig) : Thrown PoolOptions :=
  match postgresql config with
  | None => inl "PostgreSQL configuration is required"
  | Some pgConfig =>
      inr {| pool_host := host pgConfig;
             pool_port := port pgConfig;
             pool_database := database pgConfig;
             pool_user := username pgConfig;
             pool_password := password pgConfig;
             pool_ssl := ssl pgConfig;
             max := number_or (poolSize pgConfig) 10;
             idleTimeoutMillis := 30000;
             connectionTimeoutMillis := 2000 |}
  end.

(** What MongoDBAdapter.connect gives to [new MongoClient] beside the URI. *)
Record ClientOptions : Type := {
  client_maxPoolSize : Number;
  client_serverSelectionTimeoutMS : Number;
  client_socketTimeoutMS : Number
}.

(** [mongoConfig.options?.field || d] *)
Definition option_or (o : option MongoDBOptions)
    (field : MongoDBOptions -> option Number) (d : Z) : Number :=
  number_or match o with
            | Some x => field x
            | None => None
            end d.

Definition client_options (config : DatabaseConfig) : Thrown ClientOptions :=
  match mongodb config with
  | None => inl "MongoDB configuration is required"
  | Some mongoConfig =>
      inr {| client_maxPoolSize :=
               option_or (options mongoConfig) maxPoolSize 10;
             client_serverSelectionTimeoutMS :=
               option_or (options mongoConfig) serverSelectionTimeoutMS 5000;
             client_socketTimeoutMS :=
               option_or (options mongoConfig) socketTimeoutMS 45000 |}
  end.

(** The file SQLiteAdapter.connect opens. *)
Definition sqlite_location (config : DatabaseConfig) : Thrown string :=
  match sqlite config with
  | None => inl "SQLite configuration is required"
  | Some c => inr (location c)
  end.

End Factory.

(** createDatabaseAdapter: the adapter class the switch picks. *)
Definition adapter_class (config : Factory.DatabaseConfig)
  : Factory.Thrown DatabaseType :=
  if String.eqb (Factory.type config) "sqlite" then inr sqlite
  else if String.eqb (Factory.type config) "postgresql" then inr postgresql
  else if String.eqb (Factory.type config) "mongodb" then inr mongodb
  else inl (append "Unsupported database type: " (Factory.type config)).

(** A number other than NaN and 0. *)
Definition is_set (x : Factory.Number) : Prop :=
  exists n, x = Some n /\ n <> 0.

(** What connect of the adapter class needs of the configuration. *)
Definition connects (class : DatabaseType) (config : Factory.DatabaseConfig)
  : Prop :=
  match class with
  | sqlite =>
      exists l, Factory.sqlite_location config = inr l /\ JS.truthy l = true
  | postgresql =>
      exists o, Factory.pool_options config = inr o /\ is_set (Factory.max o)
  | mongodb =>
      exists o, Factory.client_options config = inr o /\
                is_set (Factory.client_maxPoolSize o) /\
                is_set (Factory.client_serverSelectionTimeoutMS o) /\
                is_set (Factory.client_socketTimeoutMS o)
  end.

(** *** Stores without ties *)

(** No two posts of the store have the same indexedAt: ORDER BY indexedAt
    then leaves the engine no choice. *)
Definition no_ties (a : Adapter) : Prop :=
  match a with
  | SQLite {| SQLiteAdapter.db := Some d |} =>
      NoDup (map Schema.indexedAt (Schema.post d))
  | PostgreSQL {| PostgreSQLAdapter.pool := Some d |} =>
      NoDup (map Schema.indexedAt (Schema.post d))
  | MongoDB {| MongoDBAdapter.db := Some d |} =>
      NoDup (map MongoDBAdapter.indexedAt (MongoDBAdapter.posts d))
  | _ => True
  end.

(** A post whose uri is not an AT-URI but the text of a UUID. *)
Definition uuid_named : PostData :=
  {| uri := "123e4567-e89b-42d3-a456-426614174000";
     cid := "bafyreic";
     replyParent := None;
     replyRoot := None;
     authorDid := "did:example:alice";
     recordJson := "{}";
     indexedAt := Some 1700000000000 |}.

(** The indexedAt values of the posts a sequence of operations creates. *)
Definition created_times (ops : list Operation) : list Z :=
  flat_map (fun op => match op with
                      | CreatePost post _ => [time post]
                      | _ => []
                      end) ops.

(** *** The window of the filtered feed *)

(** The bound the handler puts on indexedAt for a cursor:
    [new Date(parseInt(params.cursor, 10)).toISOString()], none without a
    cursor. *)
Definition time_bound (cursor : option string) : option string :=
  match JS.given cursor with
  | Some c => JS.toISOString (JS.Date_of_number (JS.parseInt c))
  | None => None
  end.

(** WHERE post.indexedAt < bound, when there is a bound. *)
Definition below (bound : option string) (r : Schema.Post) : bool :=
  match bound with
  | Some b => String.ltb (Schema.indexedAt r) b
  | None => true
  end.

(** *** The requests of the ingestion pipeline *)

(** What a call does to the adapter, whether it returns or throws. *)
Definition made {DB} `{FeedDatabase DB} (c : Call) (a : DB) : DB :=
  match c with
  | CallCreate post id => attempt (posts_create post id) a
  | CallFindMany criteria => attempt (posts_findMany criteria) a
  | CallFindByUri u => attempt (posts_findByUri u) a
  | CallDeleteByUri u => attempt (posts_deleteByUri u) a
  | CallGetAlgorithmFeed algorithm limit c =>
      attempt (posts_getAlgorithmFeed algorithm limit c) a
  | CallGet s => attempt (subscriptionState_get s) a
  | CallUpdate s c => attempt (subscriptionState_update s c) a
  end.

(** The statements the legacy branch of handleEvent sends through Kysely. *)
Inductive LegacyStatement : Type :=
| DeleteWhereUriIn (uris : list string)
| InsertOnConflictDoNothing (rows : list Schema.Post).

(** The number of records a statement carries. *)
Definition carried (s : LegacyStatement) : nat :=
  match s with
  | DeleteWhereUriIn uris => List.length uris
  | InsertOnConflictDoNothing rows => List.length rows
  end.

Definition execute (s : LegacyStatement) (table : list Schema.Post)
  : list Schema.Post :=
  match s with
  | DeleteWhereUriIn uris => Subscription.delete_in uris table
  | InsertOnConflictDoNothing rows => Subscription.insert_do_nothing rows table
  end.

(** What the legacy branch sends for a batch: a DELETE when there is a uri
    to delete, then an INSERT when there is a post to create. *)
Definition legacy_sent (toDelete : list string) (toCreate : list PostData)
  : list LegacyStatement :=
  match toDelete with
  | [] => []
  | _ :: _ => [DeleteWhereUriIn toDelete]
  end
  ++ match toCreate with
     | [] => []
     | _ :: _ =>
         match Subscription.legacyPosts toCreate with
         | inr rows => [InsertOnConflictDoNothing rows]
         | inl _ => []
         end
     end.

(** Each record is applied by a request of its own. *)
Definition one_record_at_a_time (sent : list LegacyStatement) : Prop :=
  Forall (fun s => carried s = 1%nat) sent.

(** The subscription as FeedGenerator.create constructs it,
    [new FirehoseSubscription(db, cfg.subscriptionEndpoint)]: the legacy
    database migrated, no adapter. *)
Definition legacy_subscription : Subscription.FirehoseSubscription Adapter :=
  {| Subscription.db := Schema.migrated; Subscription.dbAdapter := None |}.

(** A subscription whose adapter, a recording one, already holds the first
    post of [mixed_batch]. *)
Definition recording_subscription
  : Subscription.FirehoseSubscription (Adapter * list Call) :=
  {| Subscription.db := Schema.migrated;
     Subscription.dbAdapter :=
       Some (holding sqlite [post_at text_only 1699999999000 one_create] [],
             []) |}.

(** ** Part II: facts *)

(** *** Dates and their ISO strings *)

Module JSFacts.
Import JS.


Ltac split_ifs :=
  repeat match goal with
  | |- context [if ?a <? ?b then _ else _] =>
      destruct (Z.ltb_spec a b); try lia
  | |- context [if ?a <=? ?b then _ else _] =>
      destruct (Z.leb_spec a b); try lia
  | |- context [if ?a =? ?b then _ else _] =>
      destruct (Z.eqb_spec a b); try lia
  end.


Lemma DayFromYear_step y :
  DayFromYear (y + 1) = DayFromYear y + 365 + InLeapYear y.
Proof.
  unfold DayFromYear, InLeapYear.
  destruct (Z.eqb_spec (y mod 4) 0), (Z.eqb_spec (y mod 100) 0),
    (Z.eqb_spec (y mod 400) 0); cbn [andb orb negb];
    Z.div_mod_to_equations; lia.
Qed.

Lemma DayFromYear_mono a b : a <= b -> DayFromYear a <= DayFromYear b.
Proof.
  intros Hab. unfold DayFromYear. Z.div_mod_to_equations. lia.
Qed.

Lemma InLeapYear_range y : 0 <= InLeapYear y <= 1.
Proof. unfold InLeapYear. destruct (_ || _); lia. Qed.

Lemma YearFromDay_spec d :
  DayFromYear (YearFromDay d) <= d < DayFromYear (YearFromDay d + 1).
Proof.
  unfold YearFromDay.
  set (y0 := 1970 + 400 * d / 146097).
  assert (H0 : 146097 * (y0 - 1970) <= 400 * d
               < 146097 * (y0 - 1970) + 146097).
  { unfold y0. Z.div_mod_to_equations. lia. }
  clearbody y0.
  destruct (Z.leb_spec (DayFromYear (y0 + 1)) d) as [H1|H1].
  - split; [exact H1|].
    unfold DayFromYear in *. Z.div_mod_to_equations. lia.
  - destruct (Z.leb_spec (DayFromYear y0) d) as [H2|H2].
    + lia.
    + replace (y0 - 1 + 1) with y0 by lia. split; [|exact H2].
      unfold DayFromYear in *. Z.div_mod_to_equations. lia.
Qed.

Lemma YearFromDay_unique d y :
  DayFromYear y <= d < DayFromYear (y + 1) -> YearFromDay d = y.
Proof.
  intros Hy. pose proof (YearFromDay_spec d) as Hs.
  destruct (Z.lt_trichotomy (YearFromDay d) y) as [Hlt|[Heq|Hgt]]; [|exact Heq|].
  - pose proof (DayFromYear_mono (YearFromDay d + 1) y ltac:(lia)). lia.
  - pose proof (DayFromYear_mono (y + 1) (YearFromDay d) ltac:(lia)). lia.
Qed.

Lemma DayWithinYear_range d :
  0 <= d - DayFromYear (YearFromDay d) < 365 + InLeapYear (YearFromDay d).
Proof.
  pose proof (YearFromDay_spec d) as Hs.
  rewrite DayFromYear_step in Hs. lia.
Qed.

Lemma MonthFromDay_range leap dwy : 0 <= MonthFromDay leap dwy <= 11.
Proof. unfold MonthFromDay. split_ifs; lia. Qed.

Lemma MonthFromDay_spec leap dwy :
  0 <= leap <= 1 -> 0 <= dwy < 365 + leap ->
  MonthStart leap (MonthFromDay leap dwy) <= dwy
    < MonthStart leap (MonthFromDay leap dwy + 1).
Proof.
  intros Hl Hd. unfold MonthFromDay.
  repeat match goal with
  | |- context [if dwy <? ?b then _ else _] =>
      destruct (Z.ltb_spec dwy b); [unfold MonthStart; split_ifs|]
  end.
  unfold MonthStart; split_ifs.
Qed.

Lemma MonthStart_mono leap a b :
  0 <= leap <= 1 -> a <= b -> MonthStart leap a <= MonthStart leap b.
Proof. intros Hl Hab. unfold MonthStart. split_ifs; lia. Qed.

Lemma DateFromDay_range leap dwy :
  0 <= leap <= 1 -> 0 <= dwy < 365 + leap ->
  1 <= DateFromDay leap dwy
    <= MonthStart leap (MonthFromDay leap dwy + 1)
       - MonthStart leap (MonthFromDay leap dwy).
Proof.
  intros Hl Hd. pose proof (MonthFromDay_spec leap dwy Hl Hd).
  unfold DateFromDay. lia.
Qed.

Lemma MonthFromDay_compare leap a b :
  0 <= leap <= 1 -> 0 <= a < 365 + leap -> 0 <= b < 365 + leap ->
  lexc (MonthFromDay leap a ?= MonthFromDay leap b)
       (DateFromDay leap a ?= DateFromDay leap b) = (a ?= b).
Proof.
  intros Hl Ha Hb.
  pose proof (MonthFromDay_spec leap a Hl Ha) as Sa.
  pose proof (MonthFromDay_spec leap b Hl Hb) as Sb.
  destruct (Z.compare_spec (MonthFromDay leap a) (MonthFromDay leap b))
    as [E|L|G]; cbn [lexc].
  - unfold DateFromDay. rewrite E.
    destruct (Z.compare_spec a b), (Z.compare_spec
      (a - MonthStart leap (MonthFromDay leap b) + 1)
      (b - MonthStart leap (MonthFromDay leap b) + 1)); try reflexivity; lia.
  - symmetry. apply Z.compare_lt_iff.
    pose proof (MonthStart_mono leap (MonthFromDay leap a + 1)
                  (MonthFromDay leap b) Hl ltac:(lia)). lia.
  - symmetry. apply Z.compare_gt_iff.
    pose proof (MonthStart_mono leap (MonthFromDay leap b + 1)
                  (MonthFromDay leap a) Hl ltac:(lia)). lia.
Qed.



Lemma lexc_assoc a b c : lexc (lexc a b) c = lexc a (lexc b c).
Proof. now destruct a. Qed.

Lemma lexc_Eq_r c : lexc c Eq = c.
Proof. now destruct c. Qed.

Lemma compare_divmod B x y :
  0 < B -> (x ?= y) = lexc (x / B ?= y / B) (x mod B ?= y mod B).
Proof.
  intros HB. unfold lexc.
  destruct (Z.compare_spec x y), (Z.compare_spec (x / B) (y / B)),
    (Z.compare_spec (x mod B) (y mod B)); try reflexivity; exfalso;
    pose proof (Z.div_mod x B ltac:(lia));
    pose proof (Z.div_mod y B ltac:(lia));
    pose proof (Z.mod_pos_bound x B HB);
    pose proof (Z.mod_pos_bound y B HB); nia.
Qed.

Lemma N_of_digit n : N_of_ascii (digit n) = Z.to_N (48 + n mod 10).
Proof.
  unfold digit. apply N_ascii_embedding.
  pose proof (Z.mod_pos_bound n 10 ltac:(lia)). lia.
Qed.

Lemma digit_val_digit n : digit_val (digit n) = Some (n mod 10).
Proof.
  unfold digit_val. rewrite N_of_digit.
  pose proof (Z.mod_pos_bound n 10 ltac:(lia)).
  rewrite Z2N.id by lia.
  destruct (Z.leb_spec 48 (48 + n mod 10)); [|lia].
  destruct (Z.leb_spec (48 + n mod 10) 57); [|lia].
  cbn [andb]. f_equal. lia.
Qed.

Lemma digit_compare a b :
  Ascii.compare (digit a) (digit b) = (a mod 10 ?= b mod 10).
Proof.
  unfold Ascii.compare. rewrite !N_of_digit.
  pose proof (Z.mod_pos_bound a 10 ltac:(lia)).
  pose proof (Z.mod_pos_bound b 10 ltac:(lia)).
  rewrite (Z2N.inj_compare (48 + a mod 10) (48 + b mod 10)) by lia.
  destruct (Z.compare_spec (48 + a mod 10) (48 + b mod 10)),
    (Z.compare_spec (a mod 10) (b mod 10)); try reflexivity; exfalso; lia.
Qed.

Lemma digit_eqb_other n c :
  (N_of_ascii c < 48)%N -> Ascii.eqb (digit n) c = false.
Proof.
  intros Hc. apply Ascii.eqb_neq. intros E.
  apply (f_equal N_of_ascii) in E. rewrite N_of_digit in E.
  pose proof (Z.mod_pos_bound n 10 ltac:(lia)). lia.
Qed.

Lemma compare_digit_cons a b k1 k2 :
  String.compare (String (digit a) k1) (String (digit b) k2)
  = lexc (a mod 10 ?= b mod 10) (String.compare k1 k2).
Proof.
  cbn [String.compare]. rewrite digit_compare.
  now destruct (a mod 10 ?= b mod 10).
Qed.

Lemma compare_same_cons c k1 k2 :
  String.compare (String c k1) (String c k2) = String.compare k1 k2.
Proof.
  cbn [String.compare]. unfold Ascii.compare. now rewrite N.compare_refl.
Qed.

Lemma read_digits_digit k acc n r :
  read_digits (S k) acc (String (digit n) r)
  = read_digits k (10 * acc + n mod 10) r.
Proof. cbn [read_digits]. now rewrite digit_val_digit. Qed.

Lemma compare_pad2 a b k1 k2 :
  0 <= a < 100 -> 0 <= b < 100 ->
  String.compare (pad2 a k1) (pad2 b k2)
  = lexc (a ?= b) (String.compare k1 k2).
Proof.
  intros Ha Hb. unfold pad2. rewrite !compare_digit_cons, <- lexc_assoc.
  f_equal. rewrite (compare_divmod 10 a b) by lia. f_equal.
  rewrite !Z.mod_small; [reflexivity| |]; Z.div_mod_to_equations; lia.
Qed.

Lemma compare_pad3 a b k1 k2 :
  0 <= a < 1000 -> 0 <= b < 1000 ->
  String.compare (pad3 a k1) (pad3 b k2)
  = lexc (a ?= b) (String.compare k1 k2).
Proof.
  intros Ha Hb. unfold pad3, pad2.
  rewrite !compare_digit_cons, <- !lexc_assoc.
  f_equal. rewrite (compare_divmod 10 a b) by lia. f_equal.
  rewrite (compare_divmod 10 (a / 10) (b / 10)) by lia.
  rewrite !Z.div_div by lia. change (10 * 10) with 100. f_equal.
  rewrite !Z.mod_small; [reflexivity| |]; Z.div_mod_to_equations; lia.
Qed.

Lemma compare_pad4 a b k1 k2 :
  0 <= a < 10000 -> 0 <= b < 10000 ->
  String.compare (pad4 a k1) (pad4 b k2)
  = lexc (a ?= b) (String.compare k1 k2).
Proof.
  intros Ha Hb. unfold pad4, pad3, pad2.
  rewrite !compare_digit_cons, <- !lexc_assoc.
  f_equal. rewrite (compare_divmod 10 a b) by lia. f_equal.
  rewrite (compare_divmod 10 (a / 10) (b / 10)) by lia.
  rewrite !Z.div_div by lia. change (10 * 10) with 100. f_equal.
  rewrite (compare_divmod 10 (a / 100) (b / 100)) by lia.
  rewrite !Z.div_div by lia. change (100 * 10) with 1000. f_equal.
  rewrite !Z.mod_small; [reflexivity| |]; Z.div_mod_to_equations; lia.
Qed.

Lemma read_pad2 acc n k :
  0 <= n < 100 -> read_digits 2 acc (pad2 n k) = Some (100 * acc + n, k).
Proof.
  intros Hn. unfold pad2. rewrite !read_digits_digit. cbn [read_digits].
  do 2 f_equal. Z.div_mod_to_equations. lia.
Qed.

Lemma read_pad3 acc n k :
  0 <= n < 1000 -> read_digits 3 acc (pad3 n k) = Some (1000 * acc + n, k).
Proof.
  intros Hn. unfold pad3, pad2. rewrite !read_digits_digit.
  cbn [read_digits]. do 2 f_equal. Z.div_mod_to_equations. lia.
Qed.

Lemma read_pad4 acc n k :
  0 <= n < 10000 -> read_digits 4 acc (pad4 n k) = Some (10000 * acc + n, k).
Proof.
  intros Hn. unfold pad4, pad3, pad2. rewrite !read_digits_digit.
  cbn [read_digits]. do 2 f_equal. Z.div_mod_to_equations. lia.
Qed.

Lemma read_pad6 acc n k :
  0 <= n < 1000000 ->
  read_digits 6 acc (pad6 n k) = Some (1000000 * acc + n, k).
Proof.
  intros Hn. unfold pad6, pad4, pad3, pad2. rewrite !read_digits_digit.
  cbn [read_digits]. do 2 f_equal. Z.div_mod_to_equations. lia.
Qed.



Lemma time_fields_range t :
  0 <= HourFromTime t <= 23 /\ 0 <= MinFromTime t <= 59 /\
  0 <= SecFromTime t <= 59 /\ 0 <= msFromTime t <= 999.
Proof.
  unfold HourFromTime, MinFromTime, SecFromTime, msFromTime, msPerSecond.
  pose proof (Z.mod_pos_bound (t / msPerHour) 24 ltac:(lia)).
  pose proof (Z.mod_pos_bound (t / msPerMinute) 60 ltac:(lia)).
  pose proof (Z.mod_pos_bound (t / 1000) 60 ltac:(lia)).
  pose proof (Z.mod_pos_bound t 1000 ltac:(lia)). lia.
Qed.

Lemma MakeTime_fields t :
  MakeTime (HourFromTime t) (MinFromTime t) (SecFromTime t) (msFromTime t)
  = TimeWithinDay t.
Proof.
  unfold MakeTime, HourFromTime, MinFromTime, SecFromTime, msFromTime,
    TimeWithinDay, msPerHour, msPerMinute, msPerSecond, msPerDay.
  Z.div_mod_to_equations. lia.
Qed.

Lemma MakeDay_fields t :
  MakeDay (YearFromTime t) (MonthFromTime t) (DateFromTime t) = Day t.
Proof.
  unfold MakeDay, DateFromTime, MonthFromTime, DateFromDay, DayWithinYear.
  lia.
Qed.

Lemma MakeDate_fields t :
  MakeDate (MakeDay (YearFromTime t) (MonthFromTime t) (DateFromTime t))
    (MakeTime (HourFromTime t) (MinFromTime t) (SecFromTime t) (msFromTime t))
  = t.
Proof.
  rewrite MakeDay_fields, MakeTime_fields.
  unfold MakeDate, Day, TimeWithinDay, msPerDay.
  Z.div_mod_to_equations. lia.
Qed.

Lemma calendar_fields_range t :
  0 <= MonthFromTime t <= 11 /\
  1 <= DateFromTime t <= DaysInMonth (YearFromTime t) (MonthFromTime t + 1).
Proof.
  split; [apply MonthFromDay_range|].
  unfold DaysInMonth, DateFromTime, MonthFromTime.
  replace (MonthFromDay (InLeapYear (YearFromTime t)) (DayWithinYear t) + 1 - 1)
    with (MonthFromDay (InLeapYear (YearFromTime t)) (DayWithinYear t)) by lia.
  apply DateFromDay_range; [apply InLeapYear_range|].
  apply DayWithinYear_range.
Qed.

Lemma YearFromDay_le a b : a <= b -> YearFromDay a <= YearFromDay b.
Proof.
  intros Hab. pose proof (YearFromDay_spec a). pose proof (YearFromDay_spec b).
  destruct (Z.le_gt_cases (YearFromDay a) (YearFromDay b)) as [|Hgt]; [easy|].
  pose proof (DayFromYear_mono (YearFromDay b + 1) (YearFromDay a) ltac:(lia)).
  lia.
Qed.

Lemma YearFromTime_range t :
  Z.abs t <= maxTime -> -271821 <= YearFromTime t <= 275760.
Proof.
  intros Ht. unfold YearFromTime, maxTime in *.
  assert (Hd : -100000000 <= Day t <= 100000000).
  { unfold Day, msPerDay. Z.div_mod_to_equations. lia. }
  pose proof (YearFromDay_le _ _ (proj1 Hd)).
  pose proof (YearFromDay_le _ _ (proj2 Hd)).
  change (YearFromDay (-100000000)) with (-271821) in *.
  change (YearFromDay 100000000) with 275760 in *. lia.
Qed.

Lemma four_digit_year_spec t :
  four_digit_year t = true -> 0 <= YearFromTime t <= 9999.
Proof.
  unfold four_digit_year, YearFromTime. intros Ht%andb_prop.
  destruct Ht as [Ht1%Z.leb_le Ht2%Z.leb_le].
  assert (Hd : -719528 <= Day t <= 2932896).
  { unfold Day, msPerDay. Z.div_mod_to_equations. lia. }
  pose proof (YearFromDay_le _ _ (proj1 Hd)).
  pose proof (YearFromDay_le _ _ (proj2 Hd)).
  change (YearFromDay (-719528)) with 0 in *.
  change (YearFromDay 2932896) with 9999 in *. lia.
Qed.

Lemma parse_fields_format y t :
  y = YearFromTime t -> Z.abs t <= maxTime ->
  parse_fields y (format_tail t)
  = Some t.
Proof.
  intros -> Ht. unfold parse_fields, format_tail.
  destruct (time_fields_range t) as (Hh & Hm & Hs & Hms).
  destruct (calendar_fields_range t) as (Hmo & Hd).
  assert (Hd31 : DateFromTime t <= 31).
  { revert Hd. unfold DaysInMonth.
    pose proof (InLeapYear_range (YearFromTime t)).
    generalize (InLeapYear (YearFromTime t)) H. intros leap Hl.
    unfold MonthStart. split_ifs. }
  cbn [expect Ascii.eqb Bool.eqb].
  rewrite read_pad2 by lia. cbn [expect Ascii.eqb Bool.eqb].
  rewrite read_pad2 by lia. cbn [expect Ascii.eqb Bool.eqb].
  rewrite read_pad2 by lia. cbn [expect Ascii.eqb Bool.eqb].
  rewrite read_pad2 by lia. cbn [expect Ascii.eqb Bool.eqb].
  rewrite read_pad2 by lia. cbn [expect Ascii.eqb Bool.eqb].
  rewrite read_pad3 by lia. cbn [expect Ascii.eqb Bool.eqb].
  replace (100 * 0 + (MonthFromTime t + 1)) with (MonthFromTime t + 1) by lia.
  replace (100 * 0 + DateFromTime t) with (DateFromTime t) by lia.
  replace (100 * 0 + HourFromTime t) with (HourFromTime t) by lia.
  replace (100 * 0 + MinFromTime t) with (MinFromTime t) by lia.
  replace (100 * 0 + SecFromTime t) with (SecFromTime t) by lia.
  replace (1000 * 0 + msFromTime t) with (msFromTime t) by lia.
  replace (MonthFromTime t + 1 - 1) with (MonthFromTime t) by lia.
  rewrite MakeDate_fields.
  replace ((1 <=? MonthFromTime t + 1)) with true by (symmetry; apply Z.leb_le; lia).
  replace ((MonthFromTime t + 1 <=? 12)) with true by (symmetry; apply Z.leb_le; lia).
  replace ((1 <=? DateFromTime t)) with true by (symmetry; apply Z.leb_le; lia).
  replace (DateFromTime t <=? DaysInMonth (YearFromTime t) (MonthFromTime t + 1))
    with true by (symmetry; apply Z.leb_le; lia).
  replace (HourFromTime t <=? 23) with true by (symmetry; apply Z.leb_le; lia).
  replace (MinFromTime t <=? 59) with true by (symmetry; apply Z.leb_le; lia).
  replace (SecFromTime t <=? 59) with true by (symmetry; apply Z.leb_le; lia).
  cbn [andb orb]. unfold TimeClip.
  destruct (Z.leb_spec (Z.abs t) maxTime); [reflexivity|lia].
Qed.

(** Date.parse inverts toISOString on every valid time value. *)
Lemma Date_parse_format t :
  Z.abs t <= maxTime -> Date_parse (format_time t) = Some t.
Proof.
  intros Ht. pose proof (YearFromTime_range t Ht) as Hy.
  unfold format_time, year_string.
  destruct (Z.leb_spec 0 (YearFromTime t)) as [H0|H0];
    [destruct (Z.leb_spec (YearFromTime t) 9999) as [H1|H1]|]; cbn [andb].
  - unfold Date_parse, pad4 at 1.
    rewrite !digit_eqb_other by (cbn; lia).
    fold (pad4 (YearFromTime t)). rewrite read_pad4 by lia.
    apply parse_fields_format; [lia|exact Ht].
  - destruct (Z.ltb_spec (YearFromTime t) 0); [lia|].
    unfold Date_parse. cbn [Ascii.eqb Bool.eqb].
    rewrite read_pad6 by lia.
    apply parse_fields_format; [lia|exact Ht].
  - destruct (Z.ltb_spec (YearFromTime t) 0); [|lia].
    unfold Date_parse. cbn [Ascii.eqb Bool.eqb].
    rewrite read_pad6 by lia.
    destruct (Z.eqb_spec (1000000 * 0 + Z.abs (YearFromTime t)) 0); [lia|].
    apply parse_fields_format; [lia|exact Ht].
Qed.

Lemma Day_compare a b :
  (a ?= b) = lexc (YearFromDay a ?= YearFromDay b)
    (lexc (MonthFromDay (InLeapYear (YearFromDay a)) (a - DayFromYear (YearFromDay a))
           ?= MonthFromDay (InLeapYear (YearFromDay b)) (b - DayFromYear (YearFromDay b)))
          (DateFromDay (InLeapYear (YearFromDay a)) (a - DayFromYear (YearFromDay a))
           ?= DateFromDay (InLeapYear (YearFromDay b)) (b - DayFromYear (YearFromDay b)))).
Proof.
  pose proof (YearFromDay_spec a) as Sa. pose proof (YearFromDay_spec b) as Sb.
  destruct (Z.compare_spec (YearFromDay a) (YearFromDay b)) as [E|L|G];
    cbn [lexc].
  - pose proof (DayWithinYear_range a) as Ra.
    pose proof (DayWithinYear_range b) as Rb.
    rewrite E in *.
    pose proof (MonthFromDay_compare (InLeapYear (YearFromDay b))
      (a - DayFromYear (YearFromDay b)) (b - DayFromYear (YearFromDay b))
      (InLeapYear_range _) Ra Rb) as Hc.
    rewrite Hc.
    destruct (Z.compare_spec a b),
      (Z.compare_spec (a - DayFromYear (YearFromDay b))
                      (b - DayFromYear (YearFromDay b)));
      try reflexivity; exfalso; lia.
  - apply Z.compare_lt_iff.
    pose proof (DayFromYear_mono (YearFromDay a + 1) (YearFromDay b) ltac:(lia)).
    lia.
  - apply Z.compare_gt_iff.
    pose proof (DayFromYear_mono (YearFromDay b + 1) (YearFromDay a) ltac:(lia)).
    lia.
Qed.

Lemma time_compare a b :
  (a ?= b) =
  lexc (Day a ?= Day b)
    (lexc (HourFromTime a ?= HourFromTime b)
      (lexc (MinFromTime a ?= MinFromTime b)
        (lexc (SecFromTime a ?= SecFromTime b)
              (msFromTime a ?= msFromTime b)))).
Proof.
  unfold Day, HourFromTime, MinFromTime, SecFromTime, msFromTime,
    msPerDay, msPerHour, msPerMinute, msPerSecond.
  rewrite (compare_divmod 1000 a b) by lia.
  rewrite (compare_divmod 60 (a / 1000) (b / 1000)) by lia.
  rewrite !Z.div_div by lia. change (1000 * 60) with 60000.
  rewrite (compare_divmod 60 (a / 60000) (b / 60000)) by lia.
  rewrite !Z.div_div by lia. change (60000 * 60) with 3600000.
  rewrite (compare_divmod 24 (a / 3600000) (b / 3600000)) by lia.
  rewrite !Z.div_div by lia. change (3600000 * 24) with 86400000.
  rewrite !lexc_assoc. reflexivity.
Qed.

(** On four-digit years the ISO strings are ordered as the time values. *)
Lemma format_time_compare a b :
  four_digit_year a = true -> four_digit_year b = true ->
  String.compare (format_time a) (format_time b) = (a ?= b).
Proof.
  intros Ha Hb.
  pose proof (four_digit_year_spec a Ha) as Ya.
  pose proof (four_digit_year_spec b Hb) as Yb.
  destruct (time_fields_range a) as (Hh & Hm & Hs & Hms).
  destruct (time_fields_range b) as (Hh' & Hm' & Hs' & Hms').
  destruct (calendar_fields_range a) as (Hmo & Hd).
  destruct (calendar_fields_range b) as (Hmo' & Hd').
  assert (Hd31 : forall t, DateFromTime t
                    <= DaysInMonth (YearFromTime t) (MonthFromTime t + 1) ->
                    DateFromTime t <= 31).
  { intros t. unfold DaysInMonth.
    pose proof (InLeapYear_range (YearFromTime t)).
    generalize (InLeapYear (YearFromTime t)) H. intros leap Hl.
    unfold MonthStart. split_ifs. }
  pose proof (Hd31 a (proj2 Hd)). pose proof (Hd31 b (proj2 Hd')).
  unfold format_time, year_string, format_tail.
  destruct (Z.leb_spec 0 (YearFromTime a)); [|lia].
  destruct (Z.leb_spec (YearFromTime a) 9999); [|lia].
  destruct (Z.leb_spec 0 (YearFromTime b)); [|lia].
  destruct (Z.leb_spec (YearFromTime b) 9999); [|lia].
  cbn [andb].
  rewrite compare_pad4, compare_same_cons by lia.
  rewrite compare_pad2, compare_same_cons by lia.
  rewrite compare_pad2, compare_same_cons by lia.
  rewrite compare_pad2, compare_same_cons by lia.
  rewrite compare_pad2, compare_same_cons by lia.
  rewrite compare_pad2, compare_same_cons by lia.
  rewrite compare_pad3 by lia.
  cbn [String.compare Ascii.compare]. rewrite lexc_Eq_r.
  rewrite (time_compare a b), (Day_compare (Day a) (Day b)).
  rewrite !lexc_assoc. unfold YearFromTime, MonthFromTime, DateFromTime,
    DayWithinYear, YearFromTime.
  f_equal. f_equal. rewrite !(Z.add_comm _ 1). apply Z.add_compare_mono_l.
Qed.

Lemma format_time_ltb a b :
  four_digit_year a = true -> four_digit_year b = true ->
  String.ltb (format_time a) (format_time b) = (a <? b).
Proof.
  intros Ha Hb. unfold String.ltb, Z.ltb.
  now rewrite format_time_compare.
Qed.

Lemma format_time_inj a b :
  Z.abs a <= maxTime -> Z.abs b <= maxTime ->
  format_time a = format_time b -> a = b.
Proof.
  intros Ha Hb E. apply (f_equal Date_parse) in E.
  rewrite !Date_parse_format in E by assumption. congruence.
Qed.


Lemma format_tail_length t : String.length (format_tail t) = 20%nat.
Proof. reflexivity. Qed.

Lemma format_time_length t : (String.length (format_time t) <= 27)%nat.
Proof.
  unfold format_time, year_string.
  destruct (_ && _); cbn [pad4 pad3 pad2 pad6 String.length];
    rewrite format_tail_length; lia.
Qed.

Lemma format_time_truthy t : truthy (format_time t) = true.
Proof.
  unfold format_time, year_string, truthy.
  destruct (_ && _); reflexivity.
Qed.

End JSFacts.

(** *** The query engine *)

Lemma insert_desc_perm {A} (lt : A -> A -> bool) x l :
  Permutation (Engine.insert_desc lt x l) (x :: l).
Proof.
  induction l as [|y l IH]; cbn; [reflexivity|].
  destruct (lt x y); [|reflexivity].
  rewrite IH. apply perm_swap.
Qed.

Lemma order_by_desc_perm {A} (lt : A -> A -> bool) l :
  Permutation (Engine.order_by_desc lt l) l.
Proof.
  induction l as [|x l IH]; cbn; [reflexivity|].
  rewrite insert_desc_perm. now apply perm_skip.
Qed.

Lemma order_by_desc_In {A} (lt : A -> A -> bool) l x :
  In x (Engine.order_by_desc lt l) <-> In x l.
Proof.
  split; apply Permutation_in;
    [apply order_by_desc_perm|symmetry; apply order_by_desc_perm].
Qed.

Lemma insert_desc_map {A B} (g : A -> B) ltA ltB x l :
  (forall y, In y l -> ltB (g x) (g y) = ltA x y) ->
  Engine.insert_desc ltB (g x) (map g l)
  = map g (Engine.insert_desc ltA x l).
Proof.
  induction l as [|y l IH]; intros Hlt; cbn; [reflexivity|].
  rewrite (Hlt y) by now left.
  destruct (ltA x y); [|reflexivity].
  cbn. f_equal. apply IH. intros z Hz. apply Hlt. now right.
Qed.

(** Sorting commutes with a map that keeps the order of the keys. *)
Lemma order_by_desc_map {A B} (g : A -> B) ltA ltB l :
  (forall x y, In x l -> In y l -> ltB (g x) (g y) = ltA x y) ->
  Engine.order_by_desc ltB (map g l) = map g (Engine.order_by_desc ltA l).
Proof.
  induction l as [|x l IH]; intros Hlt; cbn; [reflexivity|].
  rewrite IH by (intros; apply Hlt; now right).
  apply insert_desc_map. intros y Hy. apply Hlt; [now left|right].
  now apply order_by_desc_In in Hy.
Qed.

Lemma filter_map_comm {A B} (g : A -> B) (f : B -> bool) l :
  filter f (map g l) = map g (filter (fun x => f (g x)) l).
Proof.
  induction l as [|x l IH]; cbn; [reflexivity|].
  destruct (f (g x)); cbn; now rewrite IH.
Qed.

Lemma filter_ext_forall {A} (P : A -> Prop) (f g : A -> bool) l :
  Forall P l -> (forall x, P x -> f x = g x) -> filter f l = filter g l.
Proof.
  intros HP Hfg. induction HP as [|x l Hx _ IH]; cbn; [reflexivity|].
  rewrite (Hfg x Hx), IH. reflexivity.
Qed.

Lemma where_map {A B} (g : A -> B) (f : option (B -> bool)) l :
  Engine.where_ f (map g l)
  = map g (Engine.where_ (option_map (fun h x => h (g x)) f) l).
Proof. destruct f; cbn; [apply filter_map_comm|reflexivity]. Qed.

Lemma limit_map {A B} (g : A -> B) n l :
  Engine.limit n (map g l) = map g (Engine.limit n l).
Proof.
  destruct n as [[|k]|]; cbn [Engine.limit]; try reflexivity.
  apply firstn_map.
Qed.

Lemma In_firstn {A} n (l : list A) x : In x (firstn n l) -> In x l.
Proof.
  intros H. rewrite <- (firstn_skipn n l). apply in_or_app. now left.
Qed.

Lemma limit_In {A} n (l : list A) x : In x (Engine.limit n l) -> In x l.
Proof.
  destruct n as [[|k]|]; cbn [Engine.limit]; trivial. apply In_firstn.
Qed.

Lemma where_Forall {A} (P : A -> Prop) f l :
  Forall P l -> Forall P (Engine.where_ f l).
Proof.
  intros HP. destruct f; cbn; [|exact HP].
  apply Forall_forall. intros x Hx%filter_In.
  now apply (proj1 (Forall_forall P l) HP).
Qed.

Lemma where_In {A} (f : option (A -> bool)) l x :
  In x (Engine.where_ f l) -> In x l.
Proof. destruct f; cbn; [intros H%filter_In; tauto|trivial]. Qed.

Section SortedByKey.

Context {A : Type} (key : A -> Z).

Let ltk (x y : A) : bool := key x <? key y.

Lemma insert_desc_sorted x l :
  StronglySorted (fun a b => key b <= key a) l ->
  StronglySorted (fun a b => key b <= key a) (Engine.insert_desc ltk x l).
Proof.
  induction 1 as [|y l Hs IH Hy]; cbn.
  - constructor; constructor.
  - unfold ltk at 1. destruct (Z.ltb_spec (key x) (key y)) as [Hlt|Hge].
    + constructor; [exact IH|].
      apply Forall_forall. intros z Hz.
      apply (Permutation_in _ (insert_desc_perm ltk x l)) in Hz.
      destruct Hz as [<-|Hz]; [lia|].
      now apply (proj1 (Forall_forall _ l) Hy).
    + constructor; [constructor; assumption|].
      constructor; [lia|].
      eapply Forall_impl; [|exact Hy]. cbn. intros; lia.
Qed.

Lemma order_by_desc_sorted l :
  StronglySorted (fun a b => key b <= key a) (Engine.order_by_desc ltk l).
Proof.
  induction l as [|x l IH]; cbn; [constructor|].
  now apply insert_desc_sorted.
Qed.

Lemma sorted_perm_unique l1 l2 :
  StronglySorted (fun a b => key b <= key a) l1 ->
  StronglySorted (fun a b => key b < key a) l2 ->
  Permutation l1 l2 -> l1 = l2.
Proof.
  intros H1. revert l2.
  induction H1 as [|a l1 Hs1 IH Ha]; intros l2 H2 Hp.
  - now apply Permutation_nil in Hp.
  - destruct H2 as [|b l2 Hs2 Hb].
    + symmetry in Hp. now apply Permutation_nil in Hp.
    + assert (a = b) as ->.
      { assert (Hin : In a (b :: l2))
          by (eapply Permutation_in; [exact Hp|now left]).
        destruct Hin as [E|Hin]; [now symmetry|].
        assert (Hin' : In b (a :: l1))
          by (eapply Permutation_in; [symmetry; exact Hp|now left]).
        destruct Hin' as [E|Hin']; [exact E|].
        pose proof (proj1 (Forall_forall _ _) Hb a Hin).
        pose proof (proj1 (Forall_forall _ _) Ha b Hin'). cbn in *. lia. }
      f_equal. apply IH; [exact Hs2|].
      now apply Permutation_cons_inv in Hp.
Qed.

(** The newest-first order of posts with distinct times is the only one. *)
Lemma order_by_desc_unique l sorted :
  StronglySorted (fun a b => key b < key a) sorted ->
  Permutation l sorted ->
  Engine.order_by_desc ltk l = sorted.
Proof.
  intros Hs Hp. apply sorted_perm_unique; [apply order_by_desc_sorted|exact Hs|].
  rewrite order_by_desc_perm. exact Hp.
Qed.

End SortedByKey.

(** *** Posts, rows and documents *)

Lemma or_undefined_idem x : JS.or_undefined (JS.or_undefined x) = JS.or_undefined x.
Proof. destruct x as [s|]; cbn; [|reflexivity]. destruct (JS.truthy s) eqn:E; cbn; now rewrite ?E. Qed.

Lemma reference_or_undefined x : reference x = true -> JS.or_undefined x = x.
Proof. destruct x as [s|]; cbn; [|reflexivity]. now intros ->. Qed.

Lemma four_digit_year_valid t : four_digit_year t = true -> Z.abs t <= JS.maxTime.
Proof.
  unfold four_digit_year, JS.maxTime. intros [H1%Z.leb_le H2%Z.leb_le]%andb_prop.
  lia.
Qed.

Lemma valid_post_inv p :
  valid_post p = true ->
  (exists t, indexedAt p = Some t /\ Z.abs t <= JS.maxTime) /\
  reference (replyParent p) = true /\ reference (replyRoot p) = true /\
  PostgreSQLAdapter.varchar255 (uri p) = true /\
  PostgreSQLAdapter.varchar255 (cid p) = true /\
  PostgreSQLAdapter.varchar255_null (replyParent p) = true /\
  PostgreSQLAdapter.varchar255_null (replyRoot p) = true /\
  PostgreSQLAdapter.varchar255 (authorDid p) = true.
Proof.
  unfold valid_post. intros H.
  repeat (apply andb_prop in H; destruct H as [H ?]).
  destruct (indexedAt p) as [t|]; [|discriminate].
  apply Z.leb_le in H. repeat split; try assumption. now exists t.
Qed.

Lemma valid_post_time p :
  valid_post p = true ->
  indexedAt p = Some (time p) /\ Z.abs (time p) <= JS.maxTime.
Proof.
  intros (( t & E & Ht) & _)%valid_post_inv. unfold time. rewrite E. now split.
Qed.

Lemma valid_post_toISOString p :
  valid_post p = true ->
  JS.toISOString (indexedAt p) = Some (JS.format_time (time p)).
Proof. intros [E _]%valid_post_time. now rewrite E. Qed.

Lemma valid_post_fits p :
  valid_post p = true -> PostgreSQLAdapter.fits (row p) = true.
Proof.
  intros (_ & Hp & Hr & Hu & Hc & Hpl & Hrl & Ha)%valid_post_inv.
  unfold PostgreSQLAdapter.fits, row, Schema.row_of.
  cbn [Schema.uri Schema.cid Schema.replyParent Schema.replyRoot
       Schema.authorDid Schema.indexedAt].
  rewrite !reference_or_undefined by assumption.
  rewrite Hu, Hc, Hpl, Hrl, Ha. cbn [andb].
  unfold PostgreSQLAdapter.varchar255. apply Nat.leb_le.
  pose proof (JSFacts.format_time_length (time p)). lia.
Qed.

(** A valid post read back from its row is the post. *)
Lemma record_of_row p : valid_post p = true -> Schema.record_of (row p) = read p.
Proof.
  intros Hv. pose proof (valid_post_time p Hv) as [E Ht].
  apply valid_post_inv in Hv. destruct Hv as (_ & Hp & Hr & _).
  unfold Schema.record_of, row, Schema.row_of, read. cbn.
  rewrite !or_undefined_idem, !reference_or_undefined by assumption.
  rewrite JSFacts.Date_parse_format by exact Ht. rewrite <- E.
  now destruct p.
Qed.

(** A valid post read back from its document is the post. *)
Lemma record_of_document p :
  valid_post p = true -> MongoDBAdapter.record_of (document p) = read p.
Proof.
  intros Hv. pose proof (valid_post_time p Hv) as [E Ht].
  unfold MongoDBAdapter.record_of, document, read. cbn.
  unfold JS.TimeClip. destruct (Z.leb_spec (Z.abs (time p)) JS.maxTime); [|lia].
  rewrite <- E. now destruct p.
Qed.

Lemma map_read_rows ps :
  Forall (fun p => valid_post p = true) ps ->
  map Schema.record_of (map row ps) = map read ps.
Proof.
  intros H. rewrite map_map. apply map_ext_in. intros p Hp.
  apply record_of_row. now apply (proj1 (Forall_forall _ _) H).
Qed.

Lemma map_read_documents ps :
  Forall (fun p => valid_post p = true) ps ->
  map MongoDBAdapter.record_of (map document ps) = map read ps.
Proof.
  intros H. rewrite map_map. apply map_ext_in. intros p Hp.
  apply record_of_document. now apply (proj1 (Forall_forall _ _) H).
Qed.

Lemma row_ltb p q :
  indexed_in_four_digit_year p = true -> indexed_in_four_digit_year q = true ->
  String.ltb (Schema.indexedAt (row p)) (Schema.indexedAt (row q))
  = (time p <? time q).
Proof.
  unfold indexed_in_four_digit_year, row, Schema.row_of, time.
  cbn [Schema.indexedAt].
  destruct (indexedAt p) as [a|]; [|discriminate].
  destruct (indexedAt q) as [b|]; [|discriminate].
  apply JSFacts.format_time_ltb.
Qed.

Lemma select_In c ps p : In p (select c ps) -> In p ps.
Proof.
  unfold select. intros H.
  apply limit_In, order_by_desc_In in H. now do 2 apply where_In in H.
Qed.

Lemma select_Forall (P : PostData -> Prop) c ps :
  Forall P ps -> Forall P (select c ps).
Proof.
  intros H. apply Forall_forall. intros p Hp%select_In.
  now apply (proj1 (Forall_forall _ _) H).
Qed.

(** The cursor as the relational adapters compare it, on posts indexed in
    four-digit years, against the time it stands for. *)
Lemma cursor_filter_rows c ps :
  Forall (fun p => indexed_in_four_digit_year p = true) ps ->
  portable_cursor c ->
  Engine.where_
    (option_map (fun h p => h (row p))
       (option_map (fun s r => String.ltb (Schema.indexedAt r) s) (JS.given c)))
    ps
  = Engine.where_ (option_map (fun t p => time p <? t) (cursor_time c)) ps.
Proof.
  intros Hps Hc. unfold portable_cursor, cursor_time in *.
  destruct (JS.given c) as [s|]; cbn; [|reflexivity].
  destruct Hc as (t & Ht & ->).
  rewrite JSFacts.Date_parse_format by now apply four_digit_year_valid.
  cbn. apply (filter_ext_forall _ _ _ _ Hps). intros p Hp.
  unfold indexed_in_four_digit_year, row, Schema.row_of, time in *.
  cbn [Schema.indexedAt].
  destruct (indexedAt p) as [a|]; [|discriminate].
  now apply JSFacts.format_time_ltb.
Qed.

(** The relational query on the rows of posts is the page of the posts. *)
Lemma select_many_rows c ps :
  Forall (fun p => indexed_in_four_digit_year p = true) ps ->
  portable_cursor (by_cursor c) ->
  Schema.select_many c (map row ps) = map row (select c ps).
Proof.
  intros Hps Hc. unfold Schema.select_many, select.
  rewrite where_map.
  replace (option_map (fun h x => h (row x))
             (option_map (fun a r => String.eqb (Schema.authorDid r) a)
                (JS.given (by_authorDid c))))
    with (option_map (fun a p => String.eqb (authorDid p) a)
            (JS.given (by_authorDid c)))
    by (now destruct (JS.given (by_authorDid c))).
  set (ps1 := Engine.where_ _ ps).
  assert (H1 : Forall (fun p => indexed_in_four_digit_year p = true) ps1)
    by now apply where_Forall.
  rewrite where_map, (cursor_filter_rows _ _ H1 Hc).
  set (ps2 := Engine.where_ _ ps1).
  assert (H2 : Forall (fun p => indexed_in_four_digit_year p = true) ps2)
    by now apply where_Forall.
  rewrite (order_by_desc_map row (fun p q => time p <? time q)).
  - apply limit_map.
  - intros x y Hx Hy. apply row_ltb; now apply (proj1 (Forall_forall _ _) H2).
Qed.

(** The document query on the documents of posts is the page of the posts. *)
Lemma select_documents c ps :
  Engine.limit (by_limit c)
    (Engine.order_by_desc
       (fun d1 d2 => MongoDBAdapter.indexedAt d1 <? MongoDBAdapter.indexedAt d2)
       (Engine.where_
          (option_map
             (fun s doc => MongoDBAdapter.indexedAt doc
                           <? MongoDBAdapter.bson_date (JS.Date_parse s))
             (JS.given (by_cursor c)))
          (Engine.where_
             (option_map (fun x doc => String.eqb (MongoDBAdapter.authorDid doc) x)
                (JS.given (by_authorDid c)))
             (map document ps))))
  = map document (select c ps).
Proof.
  unfold select, cursor_time.
  rewrite where_map, where_map.
  rewrite (order_by_desc_map document (fun p q => time p <? time q))
    by reflexivity.
  rewrite limit_map. do 2 f_equal.
  now destruct (JS.given (by_cursor c)), (JS.given (by_authorDid c)).
Qed.

Lemma SQLite_findMany_holding c ps ss :
  Forall (fun p => valid_post p = true) ps ->
  Forall (fun p => indexed_in_four_digit_year p = true) ps ->
  portable_cursor (by_cursor c) ->
  SQLiteAdapter.findMany c {| SQLiteAdapter.db := Some (tables ps ss) |}
  = (inr (map read (select c ps)), {| SQLiteAdapter.db := Some (tables ps ss) |}).
Proof.
  intros Hv Hf Hc. unfold SQLiteAdapter.findMany. cbn.
  rewrite select_many_rows, map_read_rows by auto using select_Forall.
  reflexivity.
Qed.

Lemma PostgreSQL_findMany_holding c ps ss :
  Forall (fun p => valid_post p = true) ps ->
  Forall (fun p => indexed_in_four_digit_year p = true) ps ->
  portable_cursor (by_cursor c) ->
  PostgreSQLAdapter.findMany c {| PostgreSQLAdapter.pool := Some (tables ps ss) |}
  = (inr (map read (select c ps)),
     {| PostgreSQLAdapter.pool := Some (tables ps ss) |}).
Proof.
  intros Hv Hf Hc. unfold PostgreSQLAdapter.findMany. cbn.
  rewrite select_many_rows, map_read_rows by auto using select_Forall.
  reflexivity.
Qed.

Lemma MongoDB_findMany_holding c ps ss :
  Forall (fun p => valid_post p = true) ps ->
  MongoDBAdapter.findMany c {| MongoDBAdapter.db := Some (collections ps ss) |}
  = (inr (map read (select c ps)),
     {| MongoDBAdapter.db := Some (collections ps ss) |}).
Proof.
  intros Hv. unfold MongoDBAdapter.findMany. cbn.
  rewrite select_documents, map_read_documents by auto using select_Forall.
  reflexivity.
Qed.

(** findMany on a store that holds valid posts. *)
Lemma findMany_holding type c ps ss :
  Forall (fun p => valid_post p = true) ps ->
  Forall (fun p => indexed_in_four_digit_year p = true) ps ->
  portable_cursor (by_cursor c) ->
  posts_findMany c (holding type ps ss)
  = (inr (map read (select c ps)), holding type ps ss).
Proof.
  intros Hv Hf Hc.
  destruct type; cbn [holding posts_findMany Adapter_FeedDatabase
    SQLite_FeedDatabase PostgreSQL_FeedDatabase MongoDB_FeedDatabase];
    unfold dispatch, on.
  - now rewrite SQLite_findMany_holding.
  - now rewrite PostgreSQL_findMany_holding.
  - now rewrite MongoDB_findMany_holding.
Qed.

Lemma last_item_map {A B} (f : A -> B) l :
  JS.last_item (map f l) = option_map f (JS.last_item l).
Proof.
  induction l as [|x [|y l] IH]; try reflexivity. exact IH.
Qed.

Lemma last_item_In {A} (l : list A) x : JS.last_item l = Some x -> In x l.
Proof.
  induction l as [|y [|z l] IH]; cbn; [discriminate| |].
  - intros [= ->]. now left.
  - intros H. right. now apply IH.
Qed.

(** The feed of a store that holds valid posts, with its outgoing cursor. *)
Lemma algorithm_feed_page {DB} (findMany : Criteria -> M DB (list PostRecord))
    n c a ps :
  Forall (fun p => valid_post p = true) ps ->
  findMany {| by_authorDid := None; by_limit := Some n; by_cursor := c |} a
  = (inr (map read ps), a) ->
  algorithm_feed findMany n c a
  = (inr {| feed_posts := map read ps;
            feed_cursor :=
              option_map (fun p => JS.format_time (time p)) (JS.last_item ps) |},
     a).
Proof.
  intros Hv E. unfold algorithm_feed, bind. rewrite E.
  rewrite last_item_map. destruct (JS.last_item ps) as [p|] eqn:El; cbn.
  - apply last_item_In in El.
    rewrite valid_post_toISOString
      by now apply (proj1 (Forall_forall _ _) Hv).
    reflexivity.
  - reflexivity.
Qed.

Lemma getAlgorithmFeed_holding type alg n c ps ss :
  Forall (fun p => valid_post p = true) ps ->
  Forall (fun p => indexed_in_four_digit_year p = true) ps ->
  portable_cursor c ->
  posts_getAlgorithmFeed alg n c (holding type ps ss)
  = (inr {| feed_posts :=
              map read (select {| by_authorDid := None; by_limit := Some n;
                                  by_cursor := c |} ps);
            feed_cursor :=
              option_map (fun p => JS.format_time (time p))
                (JS.last_item (select {| by_authorDid := None;
                                         by_limit := Some n;
                                         by_cursor := c |} ps)) |},
     holding type ps ss).
Proof.
  intros Hv Hf Hc.
  set (q := {| by_authorDid := None; by_limit := Some n; by_cursor := c |}).
  pose proof (select_Forall _ q _ Hv) as Hs.
  destruct type; cbn [holding posts_getAlgorithmFeed Adapter_FeedDatabase
    SQLite_FeedDatabase PostgreSQL_FeedDatabase MongoDB_FeedDatabase];
    unfold dispatch, on, SQLiteAdapter.getAlgorithmFeed,
      PostgreSQLAdapter.getAlgorithmFeed, MongoDBAdapter.getAlgorithmFeed.
  - rewrite (algorithm_feed_page _ n c _ _ Hs); [reflexivity|].
    now apply SQLite_findMany_holding.
  - rewrite (algorithm_feed_page _ n c _ _ Hs); [reflexivity|].
    now apply PostgreSQL_findMany_holding.
  - rewrite (algorithm_feed_page _ n c _ _ Hs); [reflexivity|].
    now apply MongoDB_findMany_holding.
Qed.

(** *** Pages of findMany *)

Lemma sorted_filter_below (P : list PostData) k pk :
  StronglySorted (fun a b => time b < time a) P ->
  nth_error P k = Some pk ->
  filter (fun p => time p <? time pk) P = skipn (S k) P.
Proof.
  intros Hs. revert k. induction Hs as [|x P Hs IH Hx]; intros k Hk.
  - now destruct k.
  - destruct k as [|k]; cbn in Hk.
    + injection Hk as ->. cbn [filter]. rewrite Z.ltb_irrefl. cbn [skipn].
      clear IH Hs. induction Hx as [|y P Hy _ IH]; cbn; [reflexivity|].
      destruct (Z.ltb_spec (time y) (time pk)); [|lia]. now rewrite IH.
    + cbn [filter].
      assert (Hlt : time pk < time x).
      { apply nth_error_In in Hk.
        now apply (proj1 (Forall_forall _ _) Hx). }
      destruct (Z.ltb_spec (time x) (time pk)); [lia|].
      rewrite (IH k Hk). reflexivity.
Qed.

Lemma sorted_filter f (P : list PostData) :
  StronglySorted (fun a b => time b < time a) P ->
  StronglySorted (fun a b => time b < time a) (filter f P).
Proof.
  induction 1 as [|x P Hs IH Hx]; cbn; [constructor|].
  destruct (f x); [|exact IH].
  constructor; [exact IH|].
  apply Forall_forall. intros y [Hy _]%filter_In.
  now apply (proj1 (Forall_forall _ _) Hx).
Qed.

Lemma perm_filter {A} (f : A -> bool) l1 l2 :
  Permutation l1 l2 -> Permutation (filter f l1) (filter f l2).
Proof.
  induction 1 as [|x l1 l2 _ IH|x y l|l1 l2 l3 _ IH1 _ IH2]; cbn.
  - reflexivity.
  - destruct (f x); [now apply perm_skip|exact IH].
  - destruct (f x), (f y); try reflexivity. apply perm_swap.
  - now transitivity (filter f l2).
Qed.

Lemma sorted_NoDup (P : list PostData) :
  StronglySorted (fun a b => time b < time a) P -> NoDup P.
Proof.
  induction 1 as [|x P Hs IH Hx]; constructor; [|exact IH].
  intros Hin. pose proof (proj1 (Forall_forall _ _) Hx x Hin) as Hlt.
  cbn beta in Hlt. lia.
Qed.

Lemma NoDup_app_disjoint {A} (l1 l2 : list A) x :
  NoDup (l1 ++ l2) -> In x l1 -> In x l2 -> False.
Proof.
  induction l1 as [|y l1 IH]; cbn; [tauto|].
  intros Hn [->|H1] H2; inversion_clear Hn as [|? ? Hy Hn'].
  - apply Hy, in_or_app. now right.
  - now apply IH.
Qed.

Lemma In_map_read p l : In (read p) (map read l) -> In p l.
Proof.
  intros (q & E & Hq)%in_map_iff.
  apply (f_equal data) in E. cbn in E. now subst.
Qed.

Lemma given_format_time t : JS.given (Some (JS.format_time t)) = Some (JS.format_time t).
Proof. unfold JS.given, JS.or_undefined. now rewrite JSFacts.format_time_truthy. Qed.

Lemma portable_cursor_format_time t :
  four_digit_year t = true -> portable_cursor (Some (JS.format_time t)).
Proof.
  intros Ht. unfold portable_cursor. rewrite given_format_time. now exists t.
Qed.

Lemma cursor_time_format_time t :
  Z.abs t <= JS.maxTime -> cursor_time (Some (JS.format_time t)) = Some t.
Proof.
  intros Ht. unfold cursor_time. rewrite given_format_time. cbn.
  now rewrite JSFacts.Date_parse_format.
Qed.

(** The page without filter and cursor: the newest posts. *)
Lemma select_first_page n store P :
  StronglySorted (fun a b => time b < time a) P ->
  Permutation store P ->
  select {| by_authorDid := None; by_limit := Some (S n); by_cursor := None |}
         store
  = firstn (S n) P.
Proof.
  intros Hs Hp. unfold select. cbn.
  now rewrite (order_by_desc_unique time store P Hs Hp).
Qed.

(** The page below the cursor of the k-th post: the posts after it. *)
Lemma select_next_page n k pk store P :
  StronglySorted (fun a b => time b < time a) P ->
  Permutation store P ->
  nth_error P k = Some pk ->
  Z.abs (time pk) <= JS.maxTime ->
  select {| by_authorDid := None; by_limit := Some (S n);
            by_cursor := Some (JS.format_time (time pk)) |} store
  = firstn (S n) (skipn (S k) P).
Proof.
  intros Hs Hp Hk Ht. unfold select.
  cbn [by_authorDid by_limit by_cursor].
  rewrite cursor_time_format_time by exact Ht.
  cbn [JS.given JS.or_undefined option_map Engine.where_ Engine.limit].
  rewrite (order_by_desc_unique time _ (filter (fun p => time p <? time pk) P)).
  - now rewrite (sorted_filter_below P k pk Hs Hk).
  - now apply sorted_filter.
  - now apply perm_filter.
Qed.

(** X26.  A store holds ten valid posts P1 ... P10 whose indexedAt values
    are strictly decreasing and lie in four-digit years.  Whatever the
    backend and the order the posts were stored in, findMany with limit 4
    returns P1 ... P4 in that order, and findMany with limit 4 and the ISO
    string of P4's indexedAt as cursor returns P5 ... P8; no record is on
    both pages. *)
Theorem pagination_determinism type ss (P store : list PostData) p4 :
  List.length P = 10%nat ->
  Forall (fun p => valid_post p = true) P ->
  Forall (fun p => indexed_in_four_digit_year p = true) P ->
  StronglySorted (fun a b => time b < time a) P ->
  Permutation store P ->
  nth_error P 3 = Some p4 ->
  posts_findMany {| by_authorDid := None; by_limit := Some 4%nat;
                    by_cursor := None |} (holding type store ss)
  = (inr (map read (firstn 4 P)), holding type store ss) /\
  (exists c,
     JS.toISOString (indexedAt p4) = Some c /\
     posts_findMany {| by_authorDid := None; by_limit := Some 4%nat;
                       by_cursor := Some c |} (holding type store ss)
     = (inr (map read (firstn 4 (skipn 4 P))), holding type store ss)) /\
  (forall r, In r (map read (firstn 4 P)) ->
             ~ In r (map read (firstn 4 (skipn 4 P)))).
Proof.
  intros Hlen Hv Hf Hs Hp Hk.
  assert (Hv' : Forall (fun p => valid_post p = true) store)
    by (eapply Permutation_Forall; [symmetry; exact Hp|exact Hv]).
  assert (Hf' : Forall (fun p => indexed_in_four_digit_year p = true) store)
    by (eapply Permutation_Forall; [symmetry; exact Hp|exact Hf]).
  assert (Hv4 : valid_post p4 = true)
    by (apply (proj1 (Forall_forall _ _) Hv); eapply nth_error_In; exact Hk).
  assert (Hf4 : indexed_in_four_digit_year p4 = true)
    by (apply (proj1 (Forall_forall _ _) Hf); eapply nth_error_In; exact Hk).
  destruct (valid_post_time p4 Hv4) as [E4 Ht4].
  split; [|split].
  - rewrite findMany_holding by (cbn; auto).
    now rewrite (select_first_page 3 store P Hs Hp).
  - exists (JS.format_time (time p4)). split; [now apply valid_post_toISOString|].
    rewrite findMany_holding; try assumption.
    + now rewrite (select_next_page 3 3 p4 store P Hs Hp Hk Ht4).
    + apply portable_cursor_format_time.
      unfold indexed_in_four_digit_year in Hf4. now rewrite E4 in Hf4.
  - intros r H1 H2.
    apply in_map_iff in H1. destruct H1 as (p & <- & H1).
    apply In_map_read in H2. apply In_firstn in H2.
    apply (NoDup_app_disjoint (firstn 4 P) (skipn 4 P) p); try assumption.
    rewrite firstn_skipn. now apply sorted_NoDup.
Qed.

(** Ten posts of November 2023, stored oldest first, on PostgreSQL. *)
Lemma pagination_determinism_witness :
  posts_findMany {| by_authorDid := None; by_limit := Some 4%nat;
                    by_cursor := None |}
    (holding postgresql (rev ten_recent_posts) [])
  = (inr (map read (firstn 4 ten_recent_posts)),
     holding postgresql (rev ten_recent_posts) []) /\
  (exists c,
     JS.toISOString (indexedAt (sample 4 1700000007000)) = Some c /\
     posts_findMany {| by_authorDid := None; by_limit := Some 4%nat;
                       by_cursor := Some c |}
       (holding postgresql (rev ten_recent_posts) [])
     = (inr (map read (firstn 4 (skipn 4 ten_recent_posts))),
        holding postgresql (rev ten_recent_posts) [])) /\
  (forall r, In r (map read (firstn 4 ten_recent_posts)) ->
             ~ In r (map read (firstn 4 (skipn 4 ten_recent_posts)))).
Proof.
  apply (pagination_determinism postgresql [] ten_recent_posts
           (rev ten_recent_posts) (sample 4 1700000007000)).
  - reflexivity.
  - repeat constructor.
  - repeat constructor.
  - repeat (constructor; [|repeat (constructor; [cbn; lia|])]); constructor.
  - symmetry. apply Permutation_rev.
  - reflexivity.
Defined.

(** C3.  Ten valid posts with strictly decreasing indexedAt, the first in
    the year 10000, are created newest first on a fresh adapter of each
    backend.  The relational adapters order the ISO strings, and
    "+010000-01-01T00:00:00.000Z" is below every string of a four-digit
    year: on SQLite and on PostgreSQL the first page of four is
    P2 ... P5 and misses P1.  The MongoDB adapter orders the dates and
    returns P1 ... P4, then P5 ... P8 for the cursor of P4, as the claim
    says. *)
Theorem pagination_beyond_year_9999 :
  StronglySorted (fun a b => time b < time a) ten_posts /\
  Forall (fun p => valid_post p = true) ten_posts /\
  (forall type,
     snd (run (map (fun p => CreatePost p "id") ten_posts)
              (createDatabaseAdapter type))
     = holding type ten_posts []) /\
  (forall type, type <> mongodb ->
     fst (posts_findMany {| by_authorDid := None; by_limit := Some 4%nat;
                            by_cursor := None |}
            (holding type ten_posts []))
     = inr (map read (firstn 4 (tl ten_posts))) /\
     fst (posts_findMany {| by_authorDid := None; by_limit := Some 4%nat;
                            by_cursor := None |}
            (holding type ten_posts []))
     <> inr (map read (firstn 4 ten_posts))) /\
  fst (posts_findMany {| by_authorDid := None; by_limit := Some 4%nat;
                         by_cursor := None |}
         (holding mongodb ten_posts []))
  = inr (map read (firstn 4 ten_posts)) /\
  fst (posts_findMany {| by_authorDid := None; by_limit := Some 4%nat;
                         by_cursor :=
                           JS.toISOString (indexedAt (sample 4 1700000007000)) |}
         (holding mongodb ten_posts []))
  = inr (map read (firstn 4 (skipn 4 ten_posts))).
Proof.
  split; [|split; [|split; [|split; [|split]]]].
  - repeat (constructor; [|repeat (constructor; [cbn; lia|])]); constructor.
  - repeat constructor.
  - intros []; vm_compute; reflexivity.
  - intros [] Ht; try (now contradiction Ht); split;
      try (vm_compute; reflexivity); vm_compute; intros [=].
  - vm_compute. reflexivity.
  - vm_compute. reflexivity.
Qed.

(** *** Posts indexed at the same time *)

Lemma string_ltb_irrefl s : String.ltb s s = false.
Proof.
  unfold String.ltb.
  induction s as [|c s IH]; [reflexivity|].
  cbn [String.compare]. unfold Ascii.compare.
  now rewrite N.compare_refl.
Qed.

Lemma tied_rows_first p q :
  time p = time q ->
  Schema.select_many {| by_authorDid := None; by_limit := Some 1%nat;
                        by_cursor := None |} [row p; row q]
  = [row p].
Proof.
  intros E. unfold Schema.select_many.
  cbn [by_authorDid by_cursor by_limit JS.given JS.or_undefined option_map
       Engine.where_ Engine.order_by_desc Engine.insert_desc].
  change (Schema.indexedAt (row p)) with (JS.format_time (time p)).
  change (Schema.indexedAt (row q)) with (JS.format_time (time q)).
  rewrite E, string_ltb_irrefl. reflexivity.
Qed.

Lemma tied_rows_second p q :
  time p = time q ->
  Schema.select_many {| by_authorDid := None; by_limit := Some 1%nat;
                        by_cursor := Some (JS.format_time (time p)) |}
                     [row p; row q]
  = [].
Proof.
  intros E. unfold Schema.select_many.
  cbn [by_authorDid by_cursor by_limit JS.given JS.or_undefined option_map
       Engine.where_].
  rewrite JSFacts.format_time_truthy.
  cbn [option_map Engine.where_ filter].
  change (Schema.indexedAt (row p)) with (JS.format_time (time p)).
  change (Schema.indexedAt (row q)) with (JS.format_time (time q)).
  rewrite <- E, string_ltb_irrefl. reflexivity.
Qed.

Lemma read_toISOString p :
  valid_post p = true ->
  JS.toISOString (indexedAt (data (read p))) = Some (JS.format_time (time p)).
Proof. exact (valid_post_toISOString p). Qed.

(** Two posts indexed at the same time: the first page holds the one the
    engine puts first, and nothing is below its cursor. *)
Lemma two_pages_tie type ss p q :
  valid_post p = true -> valid_post q = true ->
  time p = time q ->
  two_pages 1 (holding type [p; q] ss)
  = (inr ([read p], []), holding type [p; q] ss).
Proof.
  intros Hp Hq E.
  destruct (valid_post_time p Hp) as [Ep Tp].
  unfold two_pages, bind.
  destruct type;
    cbn [holding posts_getAlgorithmFeed posts_findMany Adapter_FeedDatabase
         SQLite_FeedDatabase PostgreSQL_FeedDatabase MongoDB_FeedDatabase];
    unfold dispatch, on.
  - unfold SQLiteAdapter.getAlgorithmFeed, algorithm_feed, bind,
      SQLiteAdapter.findMany.
    cbn [SQLiteAdapter.db tables Schema.post map].
    rewrite (tied_rows_first p q E).
    cbn [map JS.last_item]. rewrite (record_of_row p Hp), (read_toISOString p Hp).
    unfold ret. cbn [feed_cursor feed_posts SQLiteAdapter.db].
    change (Schema.post (tables [p; q] ss)) with [row p; row q].
    rewrite (tied_rows_second p q E). reflexivity.
  - unfold PostgreSQLAdapter.getAlgorithmFeed, algorithm_feed, bind,
      PostgreSQLAdapter.findMany.
    cbn [PostgreSQLAdapter.pool tables Schema.post map].
    rewrite (tied_rows_first p q E).
    cbn [map JS.last_item]. rewrite (record_of_row p Hp), (read_toISOString p Hp).
    unfold ret. cbn [feed_cursor feed_posts PostgreSQLAdapter.pool].
    change (Schema.post (tables [p; q] ss)) with [row p; row q].
    rewrite (tied_rows_second p q E). reflexivity.
  - unfold MongoDBAdapter.getAlgorithmFeed, algorithm_feed, bind,
      MongoDBAdapter.findMany.
    cbn [MongoDBAdapter.db collections MongoDBAdapter.posts map
         by_authorDid by_cursor by_limit JS.given JS.or_undefined option_map
         Engine.where_ Engine.order_by_desc Engine.insert_desc].
    change (MongoDBAdapter.indexedAt (document p)) with (time p).
    change (MongoDBAdapter.indexedAt (document q)) with (time q).
    rewrite E, Z.ltb_irrefl.
    cbn [Engine.limit firstn map JS.last_item].
    rewrite (record_of_document p Hp), (read_toISOString p Hp).
    unfold ret.
    cbn [feed_cursor feed_posts MongoDBAdapter.db MongoDBAdapter.posts
         collections map by_authorDid by_cursor by_limit JS.given JS.or_undefined].
    rewrite JSFacts.format_time_truthy.
    cbn [option_map Engine.where_ filter].
    rewrite (JSFacts.Date_parse_format (time p) Tp).
    cbn [MongoDBAdapter.bson_date].
    change (MongoDBAdapter.indexedAt (document p)) with (time p).
    change (MongoDBAdapter.indexedAt (document q)) with (time q).
    rewrite <- E, Z.ltb_irrefl. reflexivity.
Qed.

(** C2 (as amended).  A store holds exactly two valid posts with the same
    indexedAt and different uris.  The first call with limit 1 returns one
    of them; the second call, with limit 1 and the cursor taken from the
    first page, returns an empty page: no post comes twice, and the other
    post is not returned, since the cursor keeps the rows whose indexedAt is
    strictly below it and there is no tie-break on uri. *)
Theorem tie_skips_the_other_post type ss p q store :
  valid_post p = true -> valid_post q = true ->
  time p = time q -> uri p <> uri q ->
  Permutation store [p; q] ->
  exists first,
    (first = p \/ first = q) /\
    two_pages 1 (holding type store ss)
    = (inr ([read first], []), holding type store ss).
Proof.
  intros Hp Hq E _ Hperm.
  symmetry in Hperm. apply Permutation_length_2_inv in Hperm.
  destruct Hperm as [->| ->].
  - exists p. split; [now left|]. now apply two_pages_tie.
  - exists q. split; [now right|]. now apply two_pages_tie.
Qed.

Lemma tie_skips_the_other_post_witness :
  exists first,
    (first = sample 1 1700000000000 \/ first = sample 2 1700000000000) /\
    two_pages 1 (holding mongodb tied_posts [])
    = (inr ([read first], []), holding mongodb tied_posts []).
Proof.
  apply (tie_skips_the_other_post mongodb [] (sample 1 1700000000000)
           (sample 2 1700000000000) tied_posts);
    try reflexivity.
  cbn. intros [=].
Defined.

(** C2 as stated fails: of two posts created in the same millisecond on a
    fresh SQLite adapter, the second call returns neither. *)
Lemma tie_break_counterexample :
  snd (run (map (fun p => CreatePost p "id") tied_posts)
           (createDatabaseAdapter sqlite))
  = holding sqlite tied_posts [] /\
  ~ returns_each_once sqlite (sample 1 1700000000000)
      (sample 2 1700000000000) tied_posts [].
Proof.
  split; [vm_compute; reflexivity|].
  intros (page1 & page2 & a & Hrun & Hperm). unfold tied_posts in Hrun.
  rewrite (two_pages_tie sqlite [] (sample 1 1700000000000)
             (sample 2 1700000000000)) in Hrun by reflexivity.
  injection Hrun as <- <- _.
  apply Permutation_length in Hperm. discriminate Hperm.
Qed.

(** *** Single operations on any state of an adapter *)

Lemma has_uri_In u rows :
  Schema.has_uri u rows = true <-> In u (map Schema.uri rows).
Proof.
  unfold Schema.has_uri. rewrite existsb_exists. split.
  - intros (r & Hr & E%String.eqb_eq). subst. now apply in_map.
  - intros (r & E & Hr)%in_map_iff. exists r. split; [exact Hr|].
    now apply String.eqb_eq.
Qed.

Lemma has_uri_false u rows :
  ~ In u (map Schema.uri rows) -> Schema.has_uri u rows = false.
Proof.
  intros H. destruct (Schema.has_uri u rows) eqn:E; [|reflexivity].
  now apply has_uri_In in E.
Qed.

Lemma mongo_has_uri_In u docs :
  MongoDBAdapter.has_uri u docs = true <-> In u (map MongoDBAdapter.uri docs).
Proof.
  unfold MongoDBAdapter.has_uri. rewrite existsb_exists. split.
  - intros (r & Hr & E%String.eqb_eq). subst. now apply in_map.
  - intros (r & E & Hr)%in_map_iff. exists r. split; [exact Hr|].
    now apply String.eqb_eq.
Qed.

Lemma mongo_has_uri_false u docs :
  ~ In u (map MongoDBAdapter.uri docs) -> MongoDBAdapter.has_uri u docs = false.
Proof.
  intros H. destruct (MongoDBAdapter.has_uri u docs) eqn:E; [|reflexivity].
  now apply mongo_has_uri_In in E.
Qed.

Lemma find_app_last {A} (f : A -> bool) l y :
  (forall x, In x l -> f x = false) -> f y = true ->
  find f (l ++ [y]) = Some y.
Proof.
  intros Hl Hy. induction l as [|x l IH]; cbn; [now rewrite Hy|].
  rewrite (Hl x) by now left. apply IH. intros z Hz. apply Hl. now right.
Qed.

Lemma count_occ_app_last (l : list string) u :
  ~ In u l -> count_occ string_dec (l ++ [u]) u = 1%nat.
Proof.
  intros H. rewrite count_occ_app.
  rewrite (proj1 (count_occ_not_In string_dec l u) H). cbn.
  now destruct (string_dec u u).
Qed.

Lemma uri_not_stored_rows (u : string) rows :
  ~ In u (map Schema.uri rows) ->
  forall x, In x rows -> String.eqb (Schema.uri x) u = false.
Proof.
  intros H x Hx. apply String.eqb_neq. intros <-. apply H. now apply in_map.
Qed.

Lemma uri_not_stored_documents (u : string) docs :
  ~ In u (map MongoDBAdapter.uri docs) ->
  forall x, In x docs -> String.eqb (MongoDBAdapter.uri x) u = false.
Proof.
  intros H x Hx. apply String.eqb_neq. intros <-. apply H. now apply in_map.
Qed.

Lemma row_of_row p :
  valid_post p = true ->
  Schema.row_of (JS.format_time (time p)) p = row p.
Proof. reflexivity. Qed.

(** C4.  On a connected adapter that holds no post of that uri,
    createPost of a valid post succeeds, and findPostByUri of its uri then
    returns a record whose fields are those of the post. *)
Theorem create_then_findByUri (a : Adapter) (p : PostData) (id0 : string) :
  connected a = true -> valid_post p = true -> ~ In (uri p) (stored a) ->
  exists a1 found,
    posts_create p id0 a = (inr {| id := id0; data := p |}, a1) /\
    posts_findByUri (uri p) a1 = (inr (Some found), a1) /\
    data found = p.
Proof.
  intros Hc Hv Hn.
  pose proof (valid_post_toISOString p Hv) as Eiso.
  destruct a as [[[d|]]|[[d|]]|[[d|]]]; try discriminate Hc;
    cbn [stored] in Hn;
    cbn [posts_create posts_findByUri Adapter_FeedDatabase
         SQLite_FeedDatabase PostgreSQL_FeedDatabase MongoDB_FeedDatabase];
    unfold dispatch, on.
  - unfold SQLiteAdapter.create. cbn [SQLiteAdapter.db]. rewrite Eiso.
    unfold Schema.insert_post. rewrite has_uri_false by exact Hn.
    eexists. exists (read p). split; [reflexivity|].
    unfold SQLiteAdapter.findByUri, SQLiteAdapter.set_post, Schema.select_post.
    cbn [SQLiteAdapter.db Schema.post].
    rewrite find_app_last;
      [|now apply uri_not_stored_rows|now apply String.eqb_eq].
    cbn [option_map]. rewrite row_of_row, record_of_row by exact Hv.
    now split.
  - unfold PostgreSQLAdapter.create. cbn [PostgreSQLAdapter.pool]. rewrite Eiso.
    rewrite row_of_row, valid_post_fits by exact Hv.
    unfold Schema.insert_post. rewrite has_uri_false by exact Hn.
    eexists. exists (read p). split; [reflexivity|].
    unfold PostgreSQLAdapter.findByUri, PostgreSQLAdapter.set_post,
      Schema.select_post.
    cbn [PostgreSQLAdapter.pool Schema.post].
    rewrite find_app_last;
      [|now apply uri_not_stored_rows|now apply String.eqb_eq].
    cbn [option_map]. rewrite record_of_row by exact Hv.
    now split.
  - unfold MongoDBAdapter.create. cbn [MongoDBAdapter.db MongoDBAdapter.uri].
    rewrite mongo_has_uri_false by exact Hn.
    eexists. exists (read p). split; [reflexivity|].
    unfold MongoDBAdapter.findByUri, MongoDBAdapter.set_posts.
    cbn [MongoDBAdapter.db MongoDBAdapter.posts].
    rewrite find_app_last;
      [|now apply uri_not_stored_documents|now apply String.eqb_eq].
    cbn [option_map].
    destruct (valid_post_time p Hv) as [E _].
    replace (MongoDBAdapter.bson_date (indexedAt p)) with (time p)
      by (now rewrite E).
    fold (document p). rewrite record_of_document by exact Hv.
    now split.
Qed.

Lemma create_then_findByUri_witness :
  exists a1 found,
    posts_create (sample 1 1700000000000) "id"
      (createDatabaseAdapter postgresql)
    = (inr {| id := "id"; data := sample 1 1700000000000 |}, a1) /\
    posts_findByUri (uri (sample 1 1700000000000)) a1
    = (inr (Some found), a1) /\
    data found = sample 1 1700000000000.
Proof.
  apply (create_then_findByUri (createDatabaseAdapter postgresql)
           (sample 1 1700000000000) "id").
  - reflexivity.
  - reflexivity.
  - cbn. tauto.
Defined.

(** C5.  After createPost of a post has succeeded, createPost of a valid
    post with the same uri fails with the unique-key error and leaves the
    store as it is, with one record of that uri. *)
Theorem second_create_is_duplicate (a a1 : Adapter) (p p' : PostData)
    (id0 id1 : string) (r : PostRecord) :
  posts_create p id0 a = (inr r, a1) ->
  valid_post p' = true -> uri p' = uri p ->
  posts_create p' id1 a1 = (inl DuplicateKeyError, a1) /\
  count_occ string_dec (stored a1) (uri p) = 1%nat.
Proof.
  intros Hc Hv Hu.
  pose proof (valid_post_toISOString p' Hv) as Eiso.
  destruct a as [[[d|]]|[[d|]]|[[d|]]];
    cbn [posts_create Adapter_FeedDatabase
         SQLite_FeedDatabase PostgreSQL_FeedDatabase MongoDB_FeedDatabase] in *;
    unfold dispatch, on in *; try solve [cbn in Hc; discriminate Hc].
  - unfold SQLiteAdapter.create in Hc. cbn [SQLiteAdapter.db] in Hc.
    destruct (JS.toISOString (indexedAt p)) as [iso|]; [|discriminate Hc].
    unfold Schema.insert_post in Hc.
    destruct (Schema.has_uri _ _) eqn:Eh; [discriminate Hc|].
    injection Hc as _ <-.
    assert (Hn : ~ In (uri p) (map Schema.uri (Schema.post d))).
    { intros Hin%has_uri_In. cbn in Eh. congruence. }
    unfold SQLiteAdapter.create, SQLiteAdapter.set_post.
    cbn [SQLiteAdapter.db Schema.post stored]. rewrite Eiso.
    unfold Schema.insert_post.
    replace (Schema.has_uri _ _) with true.
    + split; [reflexivity|].
      rewrite map_app. cbn. now apply count_occ_app_last.
    + symmetry. apply has_uri_In. rewrite map_app. apply in_or_app. right.
      cbn. now left.
  - unfold PostgreSQLAdapter.create in Hc. cbn [PostgreSQLAdapter.pool] in Hc.
    destruct (JS.toISOString (indexedAt p)) as [iso|]; [|discriminate Hc].
    destruct (PostgreSQLAdapter.fits _); [|discriminate Hc].
    unfold Schema.insert_post in Hc.
    destruct (Schema.has_uri _ _) eqn:Eh; [discriminate Hc|].
    injection Hc as _ <-.
    assert (Hn : ~ In (uri p) (map Schema.uri (Schema.post d))).
    { intros Hin%has_uri_In. cbn in Eh. congruence. }
    unfold PostgreSQLAdapter.create, PostgreSQLAdapter.set_post.
    cbn [PostgreSQLAdapter.pool Schema.post stored]. rewrite Eiso.
    rewrite row_of_row, valid_post_fits by exact Hv.
    unfold Schema.insert_post.
    replace (Schema.has_uri _ _) with true.
    + split; [reflexivity|].
      rewrite map_app. cbn. now apply count_occ_app_last.
    + symmetry. apply has_uri_In. rewrite map_app. apply in_or_app. right.
      cbn. now left.
  - unfold MongoDBAdapter.create in Hc.
    cbn [MongoDBAdapter.db MongoDBAdapter.uri] in Hc.
    destruct (MongoDBAdapter.has_uri _ _) eqn:Eh; [discriminate Hc|].
    injection Hc as _ <-.
    assert (Hn : ~ In (uri p) (map MongoDBAdapter.uri (MongoDBAdapter.posts d))).
    { intros Hin%mongo_has_uri_In. congruence. }
    unfold MongoDBAdapter.create, MongoDBAdapter.set_posts.
    cbn [MongoDBAdapter.db MongoDBAdapter.posts MongoDBAdapter.uri stored].
    replace (MongoDBAdapter.has_uri _ _) with true.
    + split; [reflexivity|].
      rewrite map_app. cbn. now apply count_occ_app_last.
    + symmetry. apply mongo_has_uri_In. rewrite map_app. apply in_or_app.
      right. cbn. now left.
Qed.

Lemma second_create_is_duplicate_witness :
  posts_create (sample 1 1700000005000) "id1"
    (holding mongodb [sample 1 1700000000000] [])
  = (inl DuplicateKeyError, holding mongodb [sample 1 1700000000000] []) /\
  count_occ string_dec (stored (holding mongodb [sample 1 1700000000000] []))
    (uri (sample 1 1700000000000)) = 1%nat.
Proof.
  apply (second_create_is_duplicate (createDatabaseAdapter mongodb)
           (holding mongodb [sample 1 1700000000000] [])
           (sample 1 1700000000000) (sample 1 1700000005000) "id0" "id1"
           {| id := "id0"; data := sample 1 1700000000000 |});
    reflexivity.
Defined.

Lemma uuid_is_no_at_uri s : is_uuid s = true -> is_at_uri s = true -> False.
Proof.
  unfold is_at_uri, is_uuid. intros Hu Ha.
  destruct s as [|c1 s]; cbn -[ascii_dec] in Ha; [discriminate Ha|].
  destruct (ascii_dec "a" c1) as [<-|]; [|discriminate Ha].
  destruct s as [|c2 s]; cbn -[ascii_dec] in Ha; [discriminate Ha|].
  destruct (ascii_dec "t" c2) as [<-|]; [|discriminate Ha].
  cbn in Hu. discriminate Hu.
Qed.

Lemma record_of_id row0 : id (Schema.record_of row0) = uri (data (Schema.record_of row0)).
Proof. reflexivity. Qed.

Lemma findByUri_id (a a' : Adapter) u r :
  posts_findByUri u a = (inr (Some r), a') -> id r = uri (data r).
Proof.
  destruct a as [[[d|]]|[[d|]]|[[d|]]]; cbn; unfold dispatch, on; cbn;
    try discriminate.
  - destruct (Schema.select_post u (Schema.post d)); cbn; [|discriminate].
    now intros [= <- _].
  - destruct (Schema.select_post u (Schema.post d)); cbn; [|discriminate].
    now intros [= <- _].
  - destruct (find _ _); cbn; [|discriminate].
    now intros [= <- _].
Qed.

Lemma findMany_id (a a' : Adapter) c rs :
  posts_findMany c a = (inr rs, a') -> Forall (fun r => id r = uri (data r)) rs.
Proof.
  destruct a as [[[d|]]|[[d|]]|[[d|]]]; cbn; unfold dispatch, on; cbn;
    try discriminate; intros [= <- _]; apply Forall_forall;
    intros r (x & <- & _)%in_map_iff; reflexivity.
Qed.

Lemma create_id (a a1 : Adapter) p id0 r :
  posts_create p id0 a = (inr r, a1) -> r = {| id := id0; data := p |}.
Proof.
  destruct a as [[[d|]]|[[d|]]|[[d|]]]; cbn; unfold dispatch, on; cbn;
    try discriminate.
  - unfold SQLiteAdapter.create. cbn.
    destruct (JS.toISOString _); [|discriminate].
    destruct (Schema.insert_post _ _); [|discriminate]. now intros [= <- _].
  - unfold PostgreSQLAdapter.create. cbn.
    destruct (JS.toISOString _); [|discriminate].
    destruct (PostgreSQLAdapter.fits _); [|discriminate].
    destruct (Schema.insert_post _ _); [|discriminate]. now intros [= <- _].
  - unfold MongoDBAdapter.create. cbn.
    destruct (MongoDBAdapter.has_uri _ _); [discriminate|].
    now intros [= <- _].
Qed.

Lemma create_stores_the_uri (a a1 : Adapter) p id0 r :
  posts_create p id0 a = (inr r, a1) ->
  connected a1 = true /\ In (uri p) (stored a1).
Proof.
  destruct a as [[[d|]]|[[d|]]|[[d|]]]; cbn; unfold dispatch, on; cbn;
    try discriminate.
  - unfold SQLiteAdapter.create. cbn.
    destruct (JS.toISOString _); [|discriminate].
    unfold Schema.insert_post. destruct (Schema.has_uri _ _); [discriminate|].
    intros [= _ <-]. split; [reflexivity|]. cbn. rewrite map_app.
    apply in_or_app. right. now left.
  - unfold PostgreSQLAdapter.create. cbn.
    destruct (JS.toISOString _); [|discriminate].
    destruct (PostgreSQLAdapter.fits _); [|discriminate].
    unfold Schema.insert_post. destruct (Schema.has_uri _ _); [discriminate|].
    intros [= _ <-]. split; [reflexivity|]. cbn. rewrite map_app.
    apply in_or_app. right. now left.
  - unfold MongoDBAdapter.create. cbn.
    destruct (MongoDBAdapter.has_uri _ _); [discriminate|].
    intros [= _ <-]. split; [reflexivity|]. cbn. rewrite map_app.
    apply in_or_app. right. now left.
Qed.

Lemma find_by_key {A} (key : A -> string) u l :
  In u (map key l) ->
  exists x, find (fun y => String.eqb (key y) u) l = Some x /\ key x = u.
Proof.
  intros (x & E & Hx)%in_map_iff.
  destruct (find (fun y => String.eqb (key y) u) l) as [y|] eqn:Ef.
  - exists y. split; [reflexivity|].
    apply find_some in Ef. now apply String.eqb_eq.
  - pose proof (find_none _ _ Ef x Hx) as H. cbn beta in H.
    rewrite E, String.eqb_refl in H. discriminate H.
Qed.

(** findByUri of a stored uri returns a record, and its id is the uri. *)
Lemma findByUri_stored (a : Adapter) u :
  connected a = true -> In u (stored a) ->
  exists r, posts_findByUri u a = (inr (Some r), a) /\ id r = u.
Proof.
  destruct a as [[[d|]]|[[d|]]|[[d|]]]; try discriminate; intros _ Hin;
    cbn [stored] in Hin; cbn; unfold dispatch, on; cbn.
  - destruct (find_by_key Schema.uri u _ Hin) as (x & Ex & Eu).
    unfold Schema.select_post. rewrite Ex. eexists. split; [reflexivity|].
    exact Eu.
  - destruct (find_by_key Schema.uri u _ Hin) as (x & Ex & Eu).
    unfold Schema.select_post. rewrite Ex. eexists. split; [reflexivity|].
    exact Eu.
  - destruct (find_by_key MongoDBAdapter.uri u _ Hin) as (x & Ex & Eu).
    rewrite Ex. eexists. split; [reflexivity|]. exact Eu.
Qed.

(** findMany without criteria returns a record for every stored uri. *)
Lemma findMany_every_stored (a : Adapter) u :
  connected a = true -> In u (stored a) ->
  exists rs r,
    posts_findMany no_criteria a = (inr rs, a) /\ In r rs /\ id r = u.
Proof.
  destruct a as [[[d|]]|[[d|]]|[[d|]]]; try discriminate; intros _ Hin;
    cbn [stored] in Hin; cbn; unfold dispatch, on; cbn;
    apply in_map_iff in Hin; destruct Hin as (x & Eu & Hx).
  - eexists. exists (Schema.record_of x). split; [reflexivity|].
    split; [|exact Eu]. apply in_map. unfold Schema.select_many. cbn.
    now apply order_by_desc_In.
  - eexists. exists (Schema.record_of x). split; [reflexivity|].
    split; [|exact Eu]. apply in_map. unfold Schema.select_many. cbn.
    now apply order_by_desc_In.
  - eexists. exists (MongoDBAdapter.record_of x). split; [reflexivity|].
    split; [|exact Eu]. apply in_map. now apply order_by_desc_In.
Qed.

(** C10 (as amended).  The record createPost returns carries the
    identifier drawn from randomUUID().  A read of the post just created
    returns a record, from findByUri and from findMany alike, and every
    record a read returns, on any state of the adapter, carries the uri as
    its id.  So for a post whose uri is not the identifier drawn, the
    record createPost returned and the records the reads of that post
    return differ in their id. *)
Theorem created_id_differs_from_read_id (a a1 : Adapter) (p : PostData)
    (uuid : string) (r : PostRecord) :
  posts_create p uuid a = (inr r, a1) ->
  uri p <> uuid ->
  id r = uuid /\
  (exists r',
     posts_findByUri (uri p) a1 = (inr (Some r'), a1) /\
     id r' = uri p /\ id r' <> id r) /\
  (exists rs r',
     posts_findMany no_criteria a1 = (inr rs, a1) /\ In r' rs /\
     id r' = uri p /\ id r' <> id r) /\
  (forall a2 a3 u r',
     posts_findByUri u a2 = (inr (Some r'), a3) ->
     id r' = uri (data r') /\ (uri (data r') = uri p -> id r' <> id r)) /\
  (forall a2 a3 c rs r',
     posts_findMany c a2 = (inr rs, a3) -> In r' rs ->
     id r' = uri (data r') /\ (uri (data r') = uri p -> id r' <> id r)).
Proof.
  intros Hc Hu. destruct (create_stores_the_uri _ _ _ _ _ Hc) as [Hk Hs].
  apply create_id in Hc. subst r. cbn [id].
  split; [reflexivity|]. split; [|split; [|split]].
  - destruct (findByUri_stored a1 (uri p) Hk Hs) as (r' & Hf & E).
    exists r'. rewrite E. now repeat split.
  - destruct (findMany_every_stored a1 (uri p) Hk Hs) as (rs & r' & Hf & Hin & E).
    exists rs, r'. rewrite E. now repeat split.
  - intros a2 a3 u r' Hf. pose proof (findByUri_id _ _ _ _ Hf) as E.
    split; [exact E|]. intros E1 E2. apply Hu. congruence.
  - intros a2 a3 c rs r' Hf Hin.
    pose proof (proj1 (Forall_forall _ _) (findMany_id _ _ _ _ Hf) r' Hin) as E.
    split; [exact E|]. intros E1 E2. apply Hu. congruence.
Qed.

Lemma created_id_differs_from_read_id_witness :
  let uuid := "123e4567-e89b-42d3-a456-426614174000" in
  let p := sample 1 1700000000000 in
  let r := {| id := uuid; data := p |} in
  let a1 := holding sqlite [p] [] in
  id r = uuid /\
  (exists r',
     posts_findByUri (uri p) a1 = (inr (Some r'), a1) /\
     id r' = uri p /\ id r' <> id r) /\
  (exists rs r',
     posts_findMany no_criteria a1 = (inr rs, a1) /\ In r' rs /\
     id r' = uri p /\ id r' <> id r) /\
  (forall a2 a3 u r',
     posts_findByUri u a2 = (inr (Some r'), a3) ->
     id r' = uri (data r') /\ (uri (data r') = uri p -> id r' <> id r)) /\
  (forall a2 a3 c rs r',
     posts_findMany c a2 = (inr rs, a3) -> In r' rs ->
     id r' = uri (data r') /\ (uri (data r') = uri p -> id r' <> id r)).
Proof.
  apply (created_id_differs_from_read_id (createDatabaseAdapter sqlite)
           (holding sqlite [sample 1 1700000000000] [])
           (sample 1 1700000000000)
           "123e4567-e89b-42d3-a456-426614174000").
  - reflexivity.
  - intros E. vm_compute in E. discriminate E.
Defined.

(** C10 as stated fails for a post whose uri is the very text randomUUID()
    returns at its create: the record createPost returns and the record
    findByUri then returns carry the same id. *)
Lemma read_id_equals_created_id :
  is_uuid (uri uuid_named) = true /\
  exists r a1 r',
    posts_create uuid_named (uri uuid_named) (createDatabaseAdapter sqlite)
    = (inr r, a1) /\
    posts_findByUri (uri uuid_named) a1 = (inr (Some r'), a1) /\
    id r' = id r.
Proof.
  split; [reflexivity|].
  eexists. eexists. eexists. split; [reflexivity|]. split; reflexivity.
Qed.

(** *** The ingestion pipeline *)

Section Pipeline.

Context {DB : Type} `{FeedDatabase DB}.
Variable JSON_stringify : Subscription.PostLexicon -> string.
Variables (now : nat -> Z) (randomUUID : nat -> string).

Let Sub := Subscription.FirehoseSubscription DB.

Lemma try_delete u (this : Sub) :
  try_catch (_ <- Subscription.adapter (posts_deleteByUri u) ;; ret tt)
            (fun _ => ret tt) this
  = (inr tt, delete_step u this).
Proof.
  unfold try_catch, bind, Subscription.adapter, delete_step, attempt, ret.
  destruct (Subscription.dbAdapter this) as [a|]; [|now destruct this].
  now destruct (posts_deleteByUri u a) as [[e|b] a1].
Qed.

Lemma try_create x (this : Sub) :
  try_catch (_ <- Subscription.adapter
                    (posts_create (fst x) (randomUUID (snd x))) ;; ret tt)
            (fun _ => ret tt) this
  = (inr tt, create_step randomUUID x this).
Proof.
  unfold try_catch, bind, Subscription.adapter, create_step, attempt, ret.
  destruct (Subscription.dbAdapter this) as [a|]; [|now destruct this].
  now destruct (posts_create (fst x) (randomUUID (snd x)) a) as [[e|b] a1].
Qed.

Lemma for_each_steps {S A} (body : A -> M S unit) (step : A -> S -> S) xs s :
  (forall x s1, body x s1 = (inr tt, step x s1)) ->
  for_each xs body s = (inr tt, fold_left (fun s1 x => step x s1) xs s).
Proof.
  intros Hb. revert s. induction xs as [|x xs IH]; intros s; cbn.
  - reflexivity.
  - unfold bind. rewrite Hb. apply IH.
Qed.

Lemma fold_delete_step uris legacy a :
  fold_left (fun s u => delete_step u s) uris
    {| Subscription.db := legacy; Subscription.dbAdapter := Some a |}
  = {| Subscription.db := legacy;
       Subscription.dbAdapter :=
         Some (fold_left (fun a u => attempt (posts_deleteByUri u) a) uris a) |}.
Proof.
  revert a. induction uris as [|u uris IH]; intros a; cbn; [reflexivity|].
  apply IH.
Qed.

Lemma fold_create_step xs legacy a :
  fold_left (fun s x => create_step randomUUID x s) xs
    {| Subscription.db := legacy; Subscription.dbAdapter := Some a |}
  = {| Subscription.db := legacy;
       Subscription.dbAdapter :=
         Some (fold_left
                 (fun a x => attempt (posts_create (fst x) (randomUUID (snd x))) a)
                 xs a) |}.
Proof.
  revert a. induction xs as [|x xs IH]; intros a; cbn; [reflexivity|].
  apply IH.
Qed.

(** A commit on a subscription with an adapter: every delete is attempted,
    then every create, and the call returns. *)
Lemma handleEvent_adapter ops legacy a :
  Subscription.handleEvent JSON_stringify now randomUUID
    (Subscription.Commit ops)
    {| Subscription.db := legacy; Subscription.dbAdapter := Some a |}
  = (inr tt,
     {| Subscription.db := legacy;
        Subscription.dbAdapter :=
          Some (fold_left
                  (fun a x =>
                     attempt (posts_create (fst x) (randomUUID (snd x))) a)
                  (numbered (Subscription.postsToCreate JSON_stringify now ops))
                  (fold_left (fun a u => attempt (posts_deleteByUri u) a)
                     (Subscription.postsToDelete ops) a)) |}).
Proof.
  unfold Subscription.handleEvent. cbn [Subscription.dbAdapter].
  unfold bind at 1.
  rewrite (for_each_steps _ delete_step) by apply try_delete.
  rewrite fold_delete_step.
  rewrite (for_each_steps
             (fun '(post, i) =>
                try_catch
                  (_ <- Subscription.adapter (posts_create post (randomUUID i)) ;;
                   ret tt) (fun _ => ret tt)) (create_step randomUUID)).
  - now rewrite fold_create_step.
  - intros [post i] s1. apply (try_create (post, i)).
Qed.

End Pipeline.

Lemma attempt_recorded {DB A} (c : Call) (m : M DB A) (a : DB) log :
  attempt (recorded c m) (a, log) = (attempt m a, log ++ [c]).
Proof. unfold attempt, recorded. cbn. now destruct (m a). Qed.

Lemma fold_recorded_deletes {DB} `{FeedDatabase DB} uris (a : DB) log :
  fold_left (fun x u => attempt (posts_deleteByUri u) x) uris (a, log)
  = (fold_left (fun a u => attempt (posts_deleteByUri u) a) uris a,
     log ++ map CallDeleteByUri uris).
Proof.
  revert a log. induction uris as [|u uris IH]; intros a log; cbn [fold_left map].
  - now rewrite app_nil_r.
  - change (attempt (posts_deleteByUri u) (a, log))
      with (attempt (recorded (CallDeleteByUri u) (posts_deleteByUri u)) (a, log)).
    rewrite attempt_recorded, IH. now rewrite <- app_assoc.
Qed.

Lemma fold_recorded_creates {DB} `{FeedDatabase DB} (randomUUID : nat -> string)
    (xs : list (PostData * nat)) (a : DB) log :
  fold_left (fun x y => attempt (posts_create (fst y) (randomUUID (snd y))) x)
    xs (a, log)
  = (fold_left (fun a y => attempt (posts_create (fst y) (randomUUID (snd y))) a)
       xs a,
     log ++ map (fun y => CallCreate (fst y) (randomUUID (snd y))) xs).
Proof.
  revert a log. induction xs as [|y xs IH]; intros a log; cbn [fold_left map].
  - now rewrite app_nil_r.
  - change (attempt (posts_create (fst y) (randomUUID (snd y))) (a, log))
      with (attempt (recorded (CallCreate (fst y) (randomUUID (snd y)))
                       (posts_create (fst y) (randomUUID (snd y)))) (a, log)).
    rewrite attempt_recorded, IH. now rewrite <- app_assoc.
Qed.

Lemma numbered_map_index {A B C} (f : A -> nat -> B) (g : B * nat -> C) l :
  forall i,
    map g (combine (Subscription.map_index f i l)
                   (seq i (List.length (Subscription.map_index f i l))))
    = Subscription.map_index (fun x j => g (f x j, j)) i l.
Proof.
  induction l as [|x l IH]; intros i; [reflexivity|].
  cbn [Subscription.map_index List.length seq combine map].
  now rewrite IH.
Qed.

Lemma fold_made_deletes {DB} `{FeedDatabase DB} (ds : list Subscription.DeleteOp)
    (a : DB) :
  fold_left (fun a u => attempt (posts_deleteByUri u) a)
    (map Subscription.del_uri ds) a
  = fold_left (fun a c => made c a)
      (map (fun d => CallDeleteByUri (Subscription.del_uri d)) ds) a.
Proof.
  revert a. induction ds as [|d ds IH]; intros a; [reflexivity|].
  cbn [map fold_left made]. apply IH.
Qed.

Lemma fold_made_creates {DB} `{FeedDatabase DB} (uuid : nat -> string)
    (xs : list (PostData * nat)) (a : DB) :
  fold_left (fun a y => attempt (posts_create (fst y) (uuid (snd y))) a) xs a
  = fold_left (fun a c => made c a)
      (map (fun y => CallCreate (fst y) (uuid (snd y))) xs) a.
Proof.
  revert a. induction xs as [|y xs IH]; intros a; [reflexivity|].
  cbn [map fold_left made]. apply IH.
Qed.

(** C7 (as amended).  On a subscription that has an adapter, whatever the
    adapter and whatever its calls answer, handleEvent returns without an
    exception, and the calls it has made on the adapter are one deleteByUri
    for each delete of the batch, in the order of the batch, and then one
    create for each create of the batch, in the order of the batch, with
    the post built from that create; and the adapter is left as these
    calls leave it when each is made on what the calls before it left, a
    call that throws included. *)
Theorem each_record_is_attempted_in_turn {DB} `{FeedDatabase DB}
    (JSON_stringify : Subscription.PostLexicon -> string)
    (now : nat -> Z) (randomUUID : nat -> string)
    (ops : Subscription.Operations)
    (this : Subscription.FirehoseSubscription (DB * list Call))
    (a : DB) (log : list Call) :
  Subscription.dbAdapter this = Some (a, log) ->
  let calls :=
    map (fun d => CallDeleteByUri (Subscription.del_uri d))
        (Subscription.deletes ops)
    ++ Subscription.map_index
         (fun create i =>
            CallCreate (post_at JSON_stringify (now i) create) (randomUUID i))
         0%nat (Subscription.creates ops) in
  Subscription.handleEvent JSON_stringify now randomUUID
    (Subscription.Commit ops) this
  = (inr tt,
     {| Subscription.db := Subscription.db this;
        Subscription.dbAdapter :=
          Some (fold_left (fun a c => made c a) calls a, log ++ calls) |}).
Proof.
  destruct this as [legacy adapter]. cbn [Subscription.dbAdapter Subscription.db].
  intros ->. cbv zeta. rewrite handleEvent_adapter.
  rewrite fold_recorded_deletes, fold_recorded_creates.
  unfold Subscription.postsToDelete.
  rewrite fold_made_deletes, fold_made_creates.
  unfold numbered, Subscription.postsToCreate.
  rewrite (numbered_map_index _
             (fun y => CallCreate (fst y) (randomUUID (snd y)))).
  cbn [fst snd]. unfold post_at.
  now rewrite map_map, fold_left_app, <- app_assoc.
Qed.

(** The first create of the batch names a uri that is stored: it throws a
    duplicate key error, which is caught, and the second create is made and
    stores its post. *)
Lemma each_record_is_attempted_in_turn_witness :
  Subscription.handleEvent text_only (fun _ => 1700000000000) (fun _ => "id")
    (Subscription.Commit mixed_batch) recording_subscription
  = (inr tt,
     {| Subscription.db := Schema.migrated;
        Subscription.dbAdapter :=
          Some (holding sqlite
                  [post_at text_only 1699999999000 one_create;
                   post_at text_only 1700000000000 reply_create] [],
                [CallDeleteByUri "at://did:example:alice/app.bsky.feed.post/2";
                 CallCreate (post_at text_only 1700000000000 one_create) "id";
                 CallCreate (post_at text_only 1700000000000 reply_create)
                            "id"]) |}) /\
  fst (posts_create (post_at text_only 1700000000000 one_create) "id"
         (holding sqlite [post_at text_only 1699999999000 one_create] []))
  = inl DuplicateKeyError.
Proof.
  split; [|vm_compute; reflexivity].
  rewrite (each_record_is_attempted_in_turn text_only
             (fun _ => 1700000000000) (fun _ => "id") mixed_batch
             recording_subscription
             (holding sqlite [post_at text_only 1699999999000 one_create] [])
             [] eq_refl).
  vm_compute. reflexivity.
Defined.

(** The legacy branch does to the table what its statements do. *)
Lemma legacy_executes_what_it_sends {DB} toDelete toCreate
    (this : Subscription.FirehoseSubscription DB) :
  Schema.post (Subscription.db
                 (snd (Subscription.legacy toDelete toCreate this)))
  = fold_left (fun table s => execute s table) (legacy_sent toDelete toCreate)
      (Schema.post (Subscription.db this)).
Proof.
  unfold Subscription.legacy, legacy_sent.
  destruct toDelete as [|u uris]; destruct toCreate as [|p posts];
    cbn [app fold_left execute snd Subscription.db Schema.post];
    try reflexivity;
    destruct (Subscription.legacyPosts (p :: posts)); reflexivity.
Qed.

(** C7 as stated fails on a subscription without an adapter, which is
    how FeedGenerator.create constructs it: the legacy branch sends the
    delete of the batch and then its two creates in one INSERT ... ON
    CONFLICT DO NOTHING, not one record at a time. *)
Lemma legacy_batch_is_not_one_at_a_time :
  let toDelete := Subscription.postsToDelete mixed_batch in
  let toCreate :=
    Subscription.postsToCreate text_only (fun _ => 1700000000000) mixed_batch in
  let rows :=
    [row (post_at text_only 1700000000000 one_create);
     row (post_at text_only 1700000000000 reply_create)] in
  Subscription.handleEvent text_only (fun _ => 1700000000000) (fun _ => "id")
    (Subscription.Commit mixed_batch) legacy_subscription
  = (inr tt,
     {| Subscription.db := {| Schema.post := rows; Schema.sub_state := [] |};
        Subscription.dbAdapter := None |}) /\
  legacy_sent toDelete toCreate
  = [DeleteWhereUriIn ["at://did:example:alice/app.bsky.feed.post/2"];
     InsertOnConflictDoNothing rows] /\
  ~ one_record_at_a_time (legacy_sent toDelete toCreate).
Proof.
  cbv zeta. split; [vm_compute; reflexivity|].
  split; [vm_compute; reflexivity|].
  intros H. vm_compute in H.
  inversion_clear H as [|? ? _ H1]. inversion_clear H1 as [|? ? H2 _].
  discriminate H2.
Qed.

(** *** What one delete and one create do to the stored uris *)

Lemma filter_all {A} (f : A -> bool) l :
  (forall x, In x l -> f x = true) -> filter f l = l.
Proof.
  induction l as [|x l IH]; intros H; cbn; [reflexivity|].
  rewrite (H x) by now left. f_equal. apply IH. intros y Hy. apply H. now right.
Qed.

Lemma NoDup_map_filter {A B} (g : A -> B) (f : A -> bool) l :
  NoDup (map g l) -> NoDup (map g (filter f l)).
Proof.
  induction l as [|x l IH]; cbn; [trivial|].
  intros Hn. inversion_clear Hn as [|? ? Hx Hl].
  destruct (f x); cbn; [|now apply IH].
  constructor; [|now apply IH].
  intros (y & E & [Hy _]%filter_In)%in_map_iff.
  apply Hx. rewrite <- E. now apply in_map.
Qed.

Lemma delete_one_absent u docs :
  ~ In u (map MongoDBAdapter.uri docs) ->
  MongoDBAdapter.delete_one u docs = (docs, 0%nat).
Proof.
  induction docs as [|d docs IH]; cbn; [reflexivity|].
  intros Hn. destruct (String.eqb_spec (MongoDBAdapter.uri d) u) as [E|_].
  - exfalso. apply Hn. now left.
  - rewrite IH; [reflexivity|]. intros Hin. apply Hn. now right.
Qed.

Lemma delete_one_In u docs v :
  In v (map MongoDBAdapter.uri (fst (MongoDBAdapter.delete_one u docs))) ->
  In v (map MongoDBAdapter.uri docs).
Proof.
  induction docs as [|d docs IH]; cbn; [trivial|].
  destruct (String.eqb_spec (MongoDBAdapter.uri d) u) as [E|_]; cbn.
  - now right.
  - destruct (MongoDBAdapter.delete_one u docs) as [rest n]. cbn in *.
    intros [->|Hin]; [now left|right; now apply IH].
Qed.

Lemma delete_one_gone u docs :
  NoDup (map MongoDBAdapter.uri docs) ->
  ~ In u (map MongoDBAdapter.uri (fst (MongoDBAdapter.delete_one u docs))).
Proof.
  induction docs as [|d docs IH]; cbn; [tauto|].
  intros Hn. inversion_clear Hn as [|? ? Hd Hl].
  destruct (String.eqb_spec (MongoDBAdapter.uri d) u) as [E|Hne]; cbn.
  - now rewrite <- E.
  - specialize (IH Hl).
    destruct (MongoDBAdapter.delete_one u docs) as [rest n]. cbn in *.
    intros [E|Hin]; [now apply Hne|now apply IH].
Qed.

Lemma delete_one_NoDup u docs :
  NoDup (map MongoDBAdapter.uri docs) ->
  NoDup (map MongoDBAdapter.uri (fst (MongoDBAdapter.delete_one u docs))).
Proof.
  induction docs as [|d docs IH]; cbn; [trivial|].
  intros Hn. inversion_clear Hn as [|? ? Hd Hl].
  destruct (String.eqb_spec (MongoDBAdapter.uri d) u) as [E|Hne]; cbn.
  - exact Hl.
  - specialize (IH Hl). pose proof (delete_one_In u docs) as Hin.
    destruct (MongoDBAdapter.delete_one u docs) as [rest n]. cbn in *.
    constructor; [|exact IH]. intros H. apply Hd. now apply Hin.
Qed.

Ltac adapter_cases a :=
  destruct a as [[[?d|]]|[[?d|]]|[[?d|]]];
  unfold attempt;
  cbn [posts_create posts_deleteByUri Adapter_FeedDatabase
       SQLite_FeedDatabase PostgreSQL_FeedDatabase MongoDB_FeedDatabase];
  unfold dispatch, on.

Lemma delete_keeps_kind a u :
  backend (attempt (posts_deleteByUri u) a) = backend a /\
  connected (attempt (posts_deleteByUri u) a) = connected a.
Proof.
  adapter_cases a; try (split; reflexivity).
  unfold MongoDBAdapter.deleteByUri. cbn.
  destruct (MongoDBAdapter.delete_one u _). now split.
Qed.

Lemma delete_absent a u :
  ~ In u (stored a) -> attempt (posts_deleteByUri u) a = a.
Proof.
  adapter_cases a; cbn [stored]; intros Hn; try reflexivity.
  - unfold SQLiteAdapter.deleteByUri, SQLiteAdapter.set_post, Schema.delete_post.
    cbn. rewrite filter_all; [now destruct d|].
    intros x Hx. apply negb_true_iff.
    now apply (uri_not_stored_rows u (Schema.post d)).
  - unfold PostgreSQLAdapter.deleteByUri, PostgreSQLAdapter.set_post,
      Schema.delete_post.
    cbn. rewrite filter_all; [now destruct d|].
    intros x Hx. apply negb_true_iff.
    now apply (uri_not_stored_rows u (Schema.post d)).
  - unfold MongoDBAdapter.deleteByUri, MongoDBAdapter.set_posts. cbn.
    rewrite delete_one_absent by exact Hn. cbn. now destruct d.
Qed.

Lemma delete_stored a u v :
  In v (stored (attempt (posts_deleteByUri u) a)) -> In v (stored a).
Proof.
  adapter_cases a; cbn [stored]; try (cbn; tauto).
  - unfold SQLiteAdapter.deleteByUri. cbn.
    intros (x & E & [Hx _]%filter_In)%in_map_iff. rewrite <- E. now apply in_map.
  - unfold PostgreSQLAdapter.deleteByUri. cbn.
    intros (x & E & [Hx _]%filter_In)%in_map_iff. rewrite <- E. now apply in_map.
  - unfold MongoDBAdapter.deleteByUri. cbn.
    pose proof (delete_one_In u (MongoDBAdapter.posts d) v) as H.
    destruct (MongoDBAdapter.delete_one u _) as [rest n]. exact H.
Qed.

Lemma delete_gone a u :
  NoDup (stored a) -> ~ In u (stored (attempt (posts_deleteByUri u) a)).
Proof.
  adapter_cases a; cbn [stored]; try (cbn; tauto).
  - unfold SQLiteAdapter.deleteByUri. cbn.
    intros _ (x & E & [_ Hx]%filter_In)%in_map_iff.
    apply negb_true_iff, String.eqb_neq in Hx. contradiction.
  - unfold PostgreSQLAdapter.deleteByUri. cbn.
    intros _ (x & E & [_ Hx]%filter_In)%in_map_iff.
    apply negb_true_iff, String.eqb_neq in Hx. contradiction.
  - unfold MongoDBAdapter.deleteByUri. cbn.
    intros Hn. pose proof (delete_one_gone u (MongoDBAdapter.posts d) Hn) as H.
    destruct (MongoDBAdapter.delete_one u _) as [rest n]. exact H.
Qed.

Lemma delete_NoDup a u :
  NoDup (stored a) -> NoDup (stored (attempt (posts_deleteByUri u) a)).
Proof.
  adapter_cases a; cbn [stored]; try (cbn; tauto).
  - unfold SQLiteAdapter.deleteByUri. cbn. apply NoDup_map_filter.
  - unfold PostgreSQLAdapter.deleteByUri. cbn. apply NoDup_map_filter.
  - unfold MongoDBAdapter.deleteByUri. cbn.
    intros Hn. pose proof (delete_one_NoDup u (MongoDBAdapter.posts d) Hn) as H.
    destruct (MongoDBAdapter.delete_one u _) as [rest n]. exact H.
Qed.

(** A create leaves the stored uris as they are, or adds the post's uri,
    which was not there. *)
Lemma create_stored a p id0 :
  attempt (posts_create p id0) a = a \/
  (~ In (uri p) (stored a) /\
   stored (attempt (posts_create p id0) a) = stored a ++ [uri p]).
Proof.
  adapter_cases a; try (left; reflexivity).
  - unfold SQLiteAdapter.create. cbn [SQLiteAdapter.db].
    destruct (JS.toISOString _) as [iso|]; [|now left].
    unfold Schema.insert_post.
    destruct (Schema.has_uri _ _) eqn:E; [now left|right].
    cbn in E. split.
    + intros Hin%has_uri_In. cbn [stored] in Hin. congruence.
    + cbn. now rewrite map_app.
  - unfold PostgreSQLAdapter.create. cbn [PostgreSQLAdapter.pool].
    destruct (JS.toISOString _) as [iso|]; [|now left].
    destruct (PostgreSQLAdapter.fits _); [|now left].
    unfold Schema.insert_post.
    destruct (Schema.has_uri _ _) eqn:E; [now left|right].
    cbn in E. split.
    + intros Hin%has_uri_In. cbn [stored] in Hin. congruence.
    + cbn. now rewrite map_app.
  - unfold MongoDBAdapter.create. cbn [MongoDBAdapter.db MongoDBAdapter.uri].
    destruct (MongoDBAdapter.has_uri _ _) eqn:E; [now left|right].
    split.
    + intros Hin%mongo_has_uri_In. cbn [stored] in Hin. congruence.
    + cbn. now rewrite map_app.
Qed.

Lemma create_keeps_kind a p id0 :
  backend (attempt (posts_create p id0) a) = backend a /\
  connected (attempt (posts_create p id0) a) = connected a.
Proof.
  adapter_cases a; try (split; reflexivity).
  - unfold SQLiteAdapter.create. cbn [SQLiteAdapter.db].
    destruct (JS.toISOString _); [|now split].
    now destruct (Schema.insert_post _ _).
  - unfold PostgreSQLAdapter.create. cbn [PostgreSQLAdapter.pool].
    destruct (JS.toISOString _); [|now split].
    destruct (PostgreSQLAdapter.fits _); [|now split].
    now destruct (Schema.insert_post _ _).
  - unfold MongoDBAdapter.create. cbn [MongoDBAdapter.db].
    now destruct (MongoDBAdapter.has_uri _ _).
Qed.

(** A post whose uri is stored is not created again. *)
Lemma create_present a p id0 :
  In (uri p) (stored a) -> attempt (posts_create p id0) a = a.
Proof.
  intros Hin. destruct (create_stored a p id0) as [E|[Hn _]]; [exact E|].
  contradiction.
Qed.

Lemma app_one_neq {A} (l : list A) x : l ++ [x] <> l.
Proof.
  intros E. apply (f_equal (@List.length _)) in E.
  rewrite length_app in E. cbn in E. lia.
Qed.

Lemma fits_at_time t1 t2 p :
  PostgreSQLAdapter.fits (Schema.row_of (JS.format_time t1) (at_time t1 p))
  = PostgreSQLAdapter.fits (Schema.row_of (JS.format_time t2) (at_time t2 p)).
Proof.
  unfold PostgreSQLAdapter.fits, Schema.row_of, at_time.
  cbn [Schema.uri Schema.cid Schema.replyParent Schema.replyRoot
       Schema.authorDid Schema.indexedAt uri cid replyParent replyRoot
       authorDid].
  f_equal. unfold PostgreSQLAdapter.varchar255.
  pose proof (JSFacts.format_time_length t1).
  pose proof (JSFacts.format_time_length t2).
  transitivity true; [|symmetry]; apply Nat.leb_le; lia.
Qed.

(** A create of a post at some time either leaves the post's uri stored, or
    is refused for a reason that holds at any other time and in any other
    state of the same backend and connection. *)
Lemma create_settles a p t1 id1 :
  In (uri p) (stored (attempt (posts_create (at_time t1 p) id1) a)) \/
  (forall a2 t2 id2,
     backend a2 = backend a -> connected a2 = connected a ->
     attempt (posts_create (at_time t2 p) id2) a2 = a2).
Proof.
  destruct (create_stored a (at_time t1 p) id1) as [E|[_ E]].
  2: { left. rewrite E. apply in_or_app. right. now left. }
  destruct (in_dec string_dec (uri p) (stored a)) as [Hin|Hn].
  { left. now rewrite E. }
  right. intros a2 t2 id2 Hb Hc. revert E.
  destruct a as [[[d|]]|[[d|]]|[[d|]]];
    destruct a2 as [[[d2|]]|[[d2|]]|[[d2|]]]; try discriminate Hb;
    try discriminate Hc; try reflexivity;
    unfold attempt;
    cbn [posts_create Adapter_FeedDatabase
         SQLite_FeedDatabase PostgreSQL_FeedDatabase MongoDB_FeedDatabase];
    unfold dispatch, on.
  - unfold SQLiteAdapter.create. cbn [SQLiteAdapter.db JS.toISOString indexedAt at_time].
    unfold Schema.insert_post. rewrite has_uri_false by exact Hn.
    cbn. intros [= E]. exfalso. apply (f_equal Schema.post) in E.
    now apply app_one_neq in E.
  - unfold PostgreSQLAdapter.create.
    cbn [PostgreSQLAdapter.pool JS.toISOString indexedAt at_time].
    fold (at_time t1 p). fold (at_time t2 p).
    rewrite (fits_at_time t2 t1).
    destruct (PostgreSQLAdapter.fits _); [|reflexivity].
    unfold Schema.insert_post. rewrite has_uri_false by exact Hn.
    cbn. intros [= E]. exfalso. apply (f_equal Schema.post) in E.
    now apply app_one_neq in E.
  - unfold MongoDBAdapter.create. cbn [MongoDBAdapter.db MongoDBAdapter.uri at_time uri].
    rewrite mongo_has_uri_false by exact Hn.
    cbn. intros [= E]. exfalso. apply (f_equal MongoDBAdapter.posts) in E.
    now apply app_one_neq in E.
Qed.

Lemma create_NoDup a p id0 :
  NoDup (stored a) -> NoDup (stored (attempt (posts_create p id0) a)).
Proof.
  intros Hn. destruct (create_stored a p id0) as [->|[Hx ->]]; [exact Hn|].
  apply NoDup_app; [exact Hn|repeat constructor; cbn; tauto|].
  intros x Hin [<-|[]]. contradiction.
Qed.

(** *** The two loops of handleEvent on an adapter *)

Lemma delete_all_cons u uris a :
  delete_all (u :: uris) a = delete_all uris (attempt (posts_deleteByUri u) a).
Proof. reflexivity. Qed.

Lemma create_all_cons p posts a :
  create_all (p :: posts) a
  = create_all posts (attempt (posts_create p EmptyString) a).
Proof. reflexivity. Qed.

Lemma create_any_id a p id1 id2 :
  attempt (posts_create p id1) a = attempt (posts_create p id2) a.
Proof.
  adapter_cases a; try reflexivity.
  - unfold SQLiteAdapter.create. cbn [SQLiteAdapter.db].
    destruct (JS.toISOString _); [|reflexivity].
    now destruct (Schema.insert_post _ _).
  - unfold PostgreSQLAdapter.create. cbn [PostgreSQLAdapter.pool].
    destruct (JS.toISOString _); [|reflexivity].
    destruct (PostgreSQLAdapter.fits _); [|reflexivity].
    now destruct (Schema.insert_post _ _).
  - unfold MongoDBAdapter.create. cbn [MongoDBAdapter.db].
    now destruct (MongoDBAdapter.has_uri _ _).
Qed.

Lemma fold_creates_numbered (uuid : nat -> string) posts (ns : list nat) a :
  List.length ns = List.length posts ->
  fold_left (fun a x => attempt (posts_create (fst x) (uuid (snd x))) a)
    (combine posts ns) a
  = create_all posts a.
Proof.
  revert ns a. induction posts as [|p posts IH]; intros [|n ns] a Hl;
    try discriminate Hl; [reflexivity|].
  cbn [combine fold_left fst snd]. rewrite create_all_cons.
  rewrite (create_any_id a p (uuid n) EmptyString).
  apply IH. now injection Hl.
Qed.

Lemma delete_all_stored uris a v :
  In v (stored (delete_all uris a)) -> In v (stored a).
Proof.
  revert a. induction uris as [|u uris IH]; intros a; [trivial|].
  rewrite delete_all_cons. intros H%IH. now apply delete_stored in H.
Qed.

Lemma delete_all_NoDup uris a :
  NoDup (stored a) -> NoDup (stored (delete_all uris a)).
Proof.
  revert a. induction uris as [|u uris IH]; intros a Hn; [exact Hn|].
  rewrite delete_all_cons. now apply IH, delete_NoDup.
Qed.

Lemma delete_all_gone uris a u :
  NoDup (stored a) -> In u uris -> ~ In u (stored (delete_all uris a)).
Proof.
  revert a. induction uris as [|u0 uris IH]; intros a Hn; [cbn; tauto|].
  rewrite delete_all_cons. intros [->|Hin].
  - intros H%delete_all_stored. now apply (delete_gone a u Hn).
  - apply IH; [now apply delete_NoDup|exact Hin].
Qed.

Lemma delete_all_kind uris a :
  backend (delete_all uris a) = backend a /\
  connected (delete_all uris a) = connected a.
Proof.
  revert a. induction uris as [|u uris IH]; intros a; [now split|].
  rewrite delete_all_cons.
  destruct (IH (attempt (posts_deleteByUri u) a)) as [-> ->].
  apply delete_keeps_kind.
Qed.

Lemma delete_all_absent uris a :
  (forall u, In u uris -> ~ In u (stored a)) -> delete_all uris a = a.
Proof.
  induction uris as [|u uris IH]; intros H; [reflexivity|].
  rewrite delete_all_cons, delete_absent by (apply H; now left).
  apply IH. intros v Hv. apply H. now right.
Qed.

Lemma create_all_mono posts a v :
  In v (stored a) -> In v (stored (create_all posts a)).
Proof.
  revert a. induction posts as [|p posts IH]; intros a Hin; [exact Hin|].
  rewrite create_all_cons. apply IH. destruct (create_stored a p EmptyString) as [->|[_ ->]];
    [exact Hin|]. apply in_or_app. now left.
Qed.

Lemma create_all_stored posts a v :
  In v (stored (create_all posts a)) -> In v (stored a) \/ In v (map uri posts).
Proof.
  revert a. induction posts as [|p posts IH]; intros a; [cbn; tauto|].
  rewrite create_all_cons. cbn [map In]. intros [H|H]%IH; [|tauto].
  destruct (create_stored a p EmptyString) as [E|[_ E]]; rewrite E in H;
    [tauto|].
  apply in_app_or in H. destruct H as [H|[<-|[]]]; tauto.
Qed.

Lemma create_all_NoDup posts a :
  NoDup (stored a) -> NoDup (stored (create_all posts a)).
Proof.
  revert a. induction posts as [|p posts IH]; intros a Hn; [exact Hn|].
  rewrite create_all_cons. now apply IH, create_NoDup.
Qed.

Lemma create_all_kind posts a :
  backend (create_all posts a) = backend a /\
  connected (create_all posts a) = connected a.
Proof.
  revert a. induction posts as [|p posts IH]; intros a; [now split|].
  rewrite create_all_cons.
  destruct (IH (attempt (posts_create p EmptyString) a)) as [-> ->].
  apply create_keeps_kind.
Qed.

(** After the create loop, each post of the batch is stored or refused for
    good. *)
Lemma create_all_settles posts a p t :
  In (at_time t p) posts ->
  In (uri p) (stored (create_all posts a)) \/
  (forall a2 t2 id2,
     backend a2 = backend a -> connected a2 = connected a ->
     attempt (posts_create (at_time t2 p) id2) a2 = a2).
Proof.
  revert a. induction posts as [|q posts IH]; intros a; [cbn; tauto|].
  rewrite create_all_cons. intros [->|Hin].
  - destruct (create_settles a p t EmptyString) as [H|H]; [left|now right].
    now apply create_all_mono.
  - destruct (IH (attempt (posts_create q EmptyString) a) Hin) as [H|H];
      [now left|right].
    destruct (create_keeps_kind a q EmptyString) as [Eb Ec].
    intros a2 t2 id2 Hb Hc. apply H; congruence.
Qed.

Lemma create_all_unchanged posts a :
  (forall p, In p posts -> attempt (posts_create p EmptyString) a = a) ->
  create_all posts a = a.
Proof.
  induction posts as [|p posts IH]; intros H; [reflexivity|].
  rewrite create_all_cons, H by now left. apply IH. intros q Hq. apply H. now right.
Qed.

(** *** The posts of a batch at two deliveries *)

Section Batch.

Variable JSON_stringify : Subscription.PostLexicon -> string.

Let post_of := post_at JSON_stringify.

Lemma postsToCreate_post_of now ops :
  Subscription.postsToCreate JSON_stringify now ops
  = Subscription.map_index (fun c i => post_of (now i) c) 0
      (Subscription.creates ops).
Proof. reflexivity. Qed.

Lemma map_index_In {A B} (f : A -> nat -> B) i l y :
  In y (Subscription.map_index f i l) -> exists x j, In x l /\ y = f x j.
Proof.
  revert i. induction l as [|x l IH]; intros i; cbn; [tauto|].
  intros [<-|H].
  - exists x, i. split; [now left|reflexivity].
  - destruct (IH _ H) as (x' & j & Hx & E). exists x', j. split; [now right|exact E].
Qed.

Lemma In_map_index {A B} (f : A -> nat -> B) i l x :
  In x l -> exists j, In (f x j) (Subscription.map_index f i l).
Proof.
  revert i. induction l as [|x' l IH]; intros i; cbn; [tauto|].
  intros [->|H].
  - exists i. now left.
  - destruct (IH (S i) H) as (j & Hj). exists j. now right.
Qed.

Lemma map_index_length {A B} (f : A -> nat -> B) i l :
  List.length (Subscription.map_index f i l) = List.length l.
Proof.
  revert i. induction l as [|x l IH]; intros i; cbn; [reflexivity|].
  now rewrite IH.
Qed.

Lemma postsToCreate_uris now ops :
  map uri (Subscription.postsToCreate JSON_stringify now ops)
  = map Subscription.uri (Subscription.creates ops).
Proof.
  rewrite postsToCreate_post_of. generalize 0%nat.
  induction (Subscription.creates ops) as [|c l IH]; intros i; cbn;
    [reflexivity|]. now rewrite IH.
Qed.

(** On an adapter, the second delivery of a batch whose deletes and creates
    name different uris changes nothing. *)
Lemma adapter_replay now1 now2 ops a :
  NoDup (stored a) ->
  (forall u, In u (Subscription.postsToDelete ops) ->
             ~ In u (map Subscription.uri (Subscription.creates ops))) ->
  let a1 :=
    create_all (Subscription.postsToCreate JSON_stringify now1 ops)
      (delete_all (Subscription.postsToDelete ops) a) in
  create_all (Subscription.postsToCreate JSON_stringify now2 ops)
    (delete_all (Subscription.postsToDelete ops) a1) = a1 /\
  NoDup (stored a1).
Proof.
  intros Hn Hd a1.
  assert (Hgone : forall u, In u (Subscription.postsToDelete ops) ->
                            ~ In u (stored a1)).
  { intros u Hu [H|H]%create_all_stored.
    - now apply (delete_all_gone _ a u Hn Hu).
    - rewrite postsToCreate_uris in H. now apply (Hd u). }
  split; [|now apply create_all_NoDup, delete_all_NoDup].
  rewrite delete_all_absent by exact Hgone.
  apply create_all_unchanged. intros p2 Hp2.
  rewrite postsToCreate_post_of in Hp2.
  apply map_index_In in Hp2. destruct Hp2 as (c & j & Hc & ->).
  destruct (In_map_index (fun c i => post_of (now1 i) c) 0 _ c Hc) as (k & Hk).
  rewrite <- postsToCreate_post_of in Hk.
  change (post_of (now1 k) c) with (at_time (now1 k) (post_of 0 c)) in Hk.
  destruct (create_all_settles _ (delete_all (Subscription.postsToDelete ops) a)
              _ _ Hk) as [H|H].
  - now apply create_present.
  - change (post_of (now2 j) c) with (at_time (now2 j) (post_of 0 c)).
    apply H.
    + destruct (create_all_kind
                  (Subscription.postsToCreate JSON_stringify now1 ops)
                  (delete_all (Subscription.postsToDelete ops) a)) as [E _].
      exact E.
    + destruct (create_all_kind
                  (Subscription.postsToCreate JSON_stringify now1 ops)
                  (delete_all (Subscription.postsToDelete ops) a)) as [_ E].
      exact E.
Qed.

End Batch.

(** *** The legacy branch of handleEvent *)

Lemma legacyPosts_indexed posts :
  Forall (fun p => indexedAt p = Some (time p)) posts ->
  Subscription.legacyPosts posts = inr (map row posts).
Proof.
  induction 1 as [|p posts Hp _ IH]; cbn [Subscription.legacyPosts map];
    [reflexivity|].
  rewrite Hp. cbn [JS.toISOString]. rewrite IH. reflexivity.
Qed.

Lemma delete_in_nil table : Subscription.delete_in [] table = table.
Proof. unfold Subscription.delete_in. now apply filter_all. Qed.

Lemma insert_do_nothing_mono rows table u :
  In u (map Schema.uri table) ->
  In u (map Schema.uri (Subscription.insert_do_nothing rows table)).
Proof.
  revert table. induction rows as [|r rows IH]; intros table Hin; cbn;
    [exact Hin|].
  apply IH. unfold Schema.insert_post.
  destruct (Schema.has_uri _ _); [exact Hin|].
  rewrite map_app. apply in_or_app. now left.
Qed.

Lemma insert_do_nothing_stored rows table u :
  In u (map Schema.uri (Subscription.insert_do_nothing rows table)) ->
  In u (map Schema.uri table) \/ In u (map Schema.uri rows).
Proof.
  revert table. induction rows as [|r rows IH]; intros table; cbn; [tauto|].
  intros [H|H]%IH; [|tauto]. revert H. unfold Schema.insert_post.
  destruct (Schema.has_uri _ _); [tauto|].
  rewrite map_app. intros [H|[<-|[]]]%in_app_or; tauto.
Qed.

Lemma insert_do_nothing_all rows table r :
  In r rows ->
  In (Schema.uri r) (map Schema.uri (Subscription.insert_do_nothing rows table)).
Proof.
  revert table. induction rows as [|r0 rows IH]; intros table; cbn; [tauto|].
  intros [->|Hin]; [|now apply IH].
  apply insert_do_nothing_mono. unfold Schema.insert_post.
  destruct (Schema.has_uri _ _) eqn:E; [now apply has_uri_In|].
  rewrite map_app. apply in_or_app. right. now left.
Qed.

Lemma insert_do_nothing_present rows table :
  (forall r, In r rows -> In (Schema.uri r) (map Schema.uri table)) ->
  Subscription.insert_do_nothing rows table = table.
Proof.
  induction rows as [|r rows IH]; intros H; cbn; [reflexivity|].
  unfold Schema.insert_post.
  rewrite (proj2 (has_uri_In _ _) (H r (or_introl eq_refl))).
  apply IH. intros x Hx. apply H. now right.
Qed.

Lemma insert_do_nothing_NoDup rows table :
  NoDup (map Schema.uri table) ->
  NoDup (map Schema.uri (Subscription.insert_do_nothing rows table)).
Proof.
  revert table. induction rows as [|r rows IH]; intros table Hn; cbn;
    [exact Hn|].
  apply IH. unfold Schema.insert_post.
  destruct (Schema.has_uri _ _) eqn:E; [exact Hn|].
  rewrite map_app. apply NoDup_app; [exact Hn|repeat constructor; cbn; tauto|].
  intros x Hx [<-|[]]. apply has_uri_In in Hx. congruence.
Qed.

Lemma delete_in_stored uris table u :
  In u (map Schema.uri (Subscription.delete_in uris table)) ->
  In u (map Schema.uri table) /\ ~ In u uris.
Proof.
  unfold Subscription.delete_in.
  intros (x & <- & [Hx Hf]%filter_In)%in_map_iff. split; [now apply in_map|].
  intros Hin. apply negb_true_iff in Hf.
  assert (existsb (String.eqb (Schema.uri x)) uris = true); [|congruence].
  apply existsb_exists. exists (Schema.uri x). split; [exact Hin|].
  apply String.eqb_refl.
Qed.

Lemma delete_in_absent uris table :
  (forall u, In u uris -> ~ In u (map Schema.uri table)) ->
  Subscription.delete_in uris table = table.
Proof.
  intros H. unfold Subscription.delete_in. apply filter_all.
  intros x Hx. apply negb_true_iff.
  destruct (existsb _ uris) eqn:E; [|reflexivity].
  apply existsb_exists in E. destruct E as (u & Hu & E%String.eqb_eq).
  exfalso. apply (H u Hu). rewrite <- E. now apply in_map.
Qed.

Section Replay.

Variable JSON_stringify : Subscription.PostLexicon -> string.

Lemma postsToCreate_indexed now ops :
  Forall (fun p => indexedAt p = Some (time p))
    (Subscription.postsToCreate JSON_stringify now ops).
Proof.
  apply Forall_forall. intros p Hp.
  rewrite postsToCreate_post_of in Hp. apply map_index_In in Hp.
  now destruct Hp as (c & j & _ & ->).
Qed.

Lemma row_uris posts : map Schema.uri (map row posts) = map uri posts.
Proof. rewrite map_map. reflexivity. Qed.

(** A commit on a subscription without an adapter. *)
Lemma handleEvent_legacy now uuid ops legacy :
  Subscription.handleEvent JSON_stringify now uuid (Subscription.Commit ops)
    {| Subscription.db := legacy;
       Subscription.dbAdapter := @None Adapter |}
  = (inr tt,
     {| Subscription.db :=
          {| Schema.post :=
               Subscription.insert_do_nothing
                 (map row (Subscription.postsToCreate JSON_stringify now ops))
                 (Subscription.delete_in (Subscription.postsToDelete ops)
                    (Schema.post legacy));
             Schema.sub_state := Schema.sub_state legacy |};
        Subscription.dbAdapter := None |}).
Proof.
  unfold Subscription.handleEvent, Subscription.legacy.
  cbn [Subscription.dbAdapter Subscription.db].
  pose proof (legacyPosts_indexed _ (postsToCreate_indexed now ops)) as El.
  replace (match Subscription.postsToDelete ops with
           | [] => Schema.post legacy
           | _ :: _ => Subscription.delete_in (Subscription.postsToDelete ops)
                         (Schema.post legacy)
           end)
    with (Subscription.delete_in (Subscription.postsToDelete ops)
            (Schema.post legacy))
    by (destruct (Subscription.postsToDelete ops);
        [apply delete_in_nil|reflexivity]).
  destruct (Subscription.postsToCreate JSON_stringify now ops) eqn:E;
    [reflexivity|].
  rewrite El. reflexivity.
Qed.

(** On the legacy table, the second delivery of a batch whose deletes and
    creates name different uris changes nothing. *)
Lemma legacy_replay now1 now2 ops table :
  (forall u, In u (Subscription.postsToDelete ops) ->
             ~ In u (map Subscription.uri (Subscription.creates ops))) ->
  let table1 :=
    Subscription.insert_do_nothing
      (map row (Subscription.postsToCreate JSON_stringify now1 ops))
      (Subscription.delete_in (Subscription.postsToDelete ops) table) in
  Subscription.insert_do_nothing
    (map row (Subscription.postsToCreate JSON_stringify now2 ops))
    (Subscription.delete_in (Subscription.postsToDelete ops) table1)
  = table1.
Proof.
  intros Hd table1.
  rewrite delete_in_absent.
  - apply insert_do_nothing_present. intros r Hr.
    assert (Hu : In (Schema.uri r)
                   (map Schema.uri
                      (map row (Subscription.postsToCreate JSON_stringify
                                  now1 ops)))).
    { rewrite row_uris, postsToCreate_uris,
        <- (postsToCreate_uris JSON_stringify now2), <- row_uris. now apply in_map. }
    apply in_map_iff in Hu. destruct Hu as (r1 & <- & Hr1).
    now apply insert_do_nothing_all.
  - intros u Hu [[_ H]%delete_in_stored|H]%insert_do_nothing_stored;
      [contradiction|].
    rewrite row_uris, postsToCreate_uris in H. now apply (Hd u).
Qed.

(** C6 (as amended).  Take a subscription in which no uri is stored twice
    and a batch in which no uri is both deleted and created.  Delivering
    the batch a second time, at any later clock, leaves the subscription as
    the first delivery left it; neither delivery ends in an exception, a
    create of a uri that is already stored being caught or ignored; and
    still no uri is stored twice. *)
Theorem replay_of_a_batch
    (now1 : nat -> Z) (uuid1 : nat -> string)
    (now2 : nat -> Z) (uuid2 : nat -> string)
    (ops : Subscription.Operations)
    (this : Subscription.FirehoseSubscription Adapter) :
  no_duplicates this ->
  (forall u, In u (Subscription.postsToDelete ops) ->
             ~ In u (map Subscription.uri (Subscription.creates ops))) ->
  replay_is_idempotent JSON_stringify now1 uuid1 now2 uuid2
    (Subscription.Commit ops) this /\
  no_duplicates
    (snd (Subscription.handleEvent JSON_stringify now1 uuid1
            (Subscription.Commit ops) this)).
Proof.
  intros [Hl Ha] Hd. unfold replay_is_idempotent.
  destruct this as [legacy [a|]]; cbn [Subscription.db Subscription.dbAdapter] in *.
  - rewrite handleEvent_adapter. cbn [fst snd].
    rewrite handleEvent_adapter. cbn [fst snd].
    unfold numbered.
    rewrite !fold_creates_numbered by (now rewrite length_seq).
    fold (delete_all (Subscription.postsToDelete ops) a).
    set (a1 := create_all _ (delete_all _ a)).
    fold (delete_all (Subscription.postsToDelete ops) a1).
    destruct (adapter_replay JSON_stringify now1 now2 ops a Ha Hd) as [E Hn].
    fold a1 in E, Hn. rewrite E. repeat split; assumption.
  - rewrite handleEvent_legacy. cbn [fst snd].
    rewrite handleEvent_legacy. cbn [fst snd Schema.post Schema.sub_state].
    rewrite (legacy_replay now1 now2 ops (Schema.post legacy) Hd).
    repeat split; cbn [Subscription.db Subscription.dbAdapter Schema.post];
      try exact I.
    apply insert_do_nothing_NoDup.
    unfold Subscription.delete_in. now apply NoDup_map_filter.
Qed.

End Replay.

Lemma replay_of_a_batch_witness :
  replay_is_idempotent (fun _ => "{}")
    (fun _ => 1700000000000) (fun _ => "id") (fun _ => 1700000060000)
    (fun _ => "id") (Subscription.Commit create_batch)
    (fresh_subscription postgresql) /\
  no_duplicates
    (snd (Subscription.handleEvent (fun _ => "{}") (fun _ => 1700000000000)
            (fun _ => "id") (Subscription.Commit create_batch)
            (fresh_subscription postgresql))).
Proof.
  apply (replay_of_a_batch (fun _ => "{}") (fun _ => 1700000000000)
           (fun _ => "id") (fun _ => 1700000060000) (fun _ => "id")
           create_batch (fresh_subscription postgresql)).
  - split; constructor.
  - cbn. tauto.
Defined.

(** C6 as stated fails: a batch that deletes a uri and creates it again
    stores the post anew at each delivery, with the indexedAt of that
    delivery. *)
Lemma replay_counterexample :
  no_duplicates (fresh_subscription sqlite) /\
  ~ replay_is_idempotent (fun _ => "{}")
      (fun _ => 1700000000000) (fun _ => "id") (fun _ => 1700000060000)
      (fun _ => "id") (Subscription.Commit recreate_batch)
      (fresh_subscription sqlite).
Proof.
  split; [split; constructor|].
  intros (_ & _ & E). vm_compute in E. discriminate E.
Qed.

(** *** The filtered feed *)

Lemma is_alf_love_alf r :
  Schema.recordJson r = love_alf -> WhatsAlf.is_alf r = true.
Proof. intros E. unfold WhatsAlf.is_alf. rewrite E. reflexivity. Qed.

Lemma is_alf_unrelated r :
  Schema.recordJson r = unrelated -> WhatsAlf.is_alf r = false.
Proof. intros E. unfold WhatsAlf.is_alf. rewrite E. reflexivity. Qed.

Lemma is_alf_malformed r :
  Schema.recordJson r = malformed -> WhatsAlf.is_alf r = false.
Proof. intros E. unfold WhatsAlf.is_alf. rewrite E. reflexivity. Qed.

(** The malformed payload is no JSON text: JSON.parse throws on it. *)
Lemma malformed_does_not_parse : JS.JSON_parse malformed = None.
Proof. reflexivity. Qed.

(** C8.  The post table holds three posts, stored in any order, with the
    payloads \{text: I love ALF\}, \{text: unrelated\} and a text that is no
    JSON.  Called with limit 10 and no cursor, the handler returns, and its
    feed is the first post alone: the second does not contain alf and the
    third is dropped when JSON.parse throws on it. *)
Theorem alf_filter_on_three_payloads
    (r1 r2 r3 : Schema.Post) (db : Schema.DatabaseSchema)
    (params : WhatsAlf.QueryParams) :
  Schema.recordJson r1 = love_alf ->
  Schema.recordJson r2 = unrelated ->
  Schema.recordJson r3 = malformed ->
  Permutation (Schema.post db) [r1; r2; r3] ->
  WhatsAlf.limit params = 10%nat ->
  WhatsAlf.cursor params = None ->
  WhatsAlf.handler db params
  = inr {| WhatsAlf.out_cursor := Some (WhatsAlf.cursor_of r1);
           WhatsAlf.out_feed := [{| WhatsAlf.post := Schema.uri r1 |}] |}.
Proof.
  intros E1 E2 E3 Hp Hl Hc.
  unfold WhatsAlf.handler. rewrite Hc. cbn [JS.given JS.or_undefined].
  assert (El : WhatsAlf.limitedPosts None params (Schema.post db) = [r1]).
  { unfold WhatsAlf.limitedPosts, WhatsAlf.fetched, WhatsAlf.fetchLimit.
    rewrite Hl. cbn [option_map Engine.where_].
    assert (Ho : Permutation
                   (Engine.order_by_desc WhatsAlf.before (Schema.post db))
                   [r1; r2; r3]).
    { transitivity (Schema.post db); [|exact Hp].
      apply order_by_desc_perm. }
    pose proof (Permutation_length Ho) as Hlen. cbn [List.length] in Hlen.
    rewrite (firstn_all2 (n := Nat.min (10 * 3) 300)
               (Engine.order_by_desc WhatsAlf.before (Schema.post db)))
      by (rewrite Hlen; cbn; lia).
    apply (perm_filter WhatsAlf.is_alf) in Ho. cbn [filter] in Ho.
    rewrite (is_alf_love_alf r1 E1), (is_alf_unrelated r2 E2),
      (is_alf_malformed r3 E3) in Ho.
    symmetry in Ho. apply Permutation_length_1_inv in Ho.
    rewrite Ho. reflexivity. }
  rewrite El. reflexivity.
Qed.

Lemma alf_filter_on_three_payloads_witness :
  WhatsAlf.handler three_payloads
    {| WhatsAlf.feed := "at://did:example:feed/app.bsky.feed.generator/whats-alf";
       WhatsAlf.limit := 10;
       WhatsAlf.cursor := None |}
  = inr {| WhatsAlf.out_cursor :=
             Some (WhatsAlf.cursor_of (row_with 1 1700000000000 love_alf));
           WhatsAlf.out_feed :=
             [{| WhatsAlf.post :=
                   Schema.uri (row_with 1 1700000000000 love_alf) |}] |}.
Proof.
  apply (alf_filter_on_three_payloads
           (row_with 1 1700000000000 love_alf)
           (row_with 2 1700000001000 unrelated)
           (row_with 3 1700000002000 malformed)).
  - reflexivity.
  - reflexivity.
  - reflexivity.
  - cbn [three_payloads Schema.post].
    apply (Permutation_cons_app [_; _] []). reflexivity.
  - reflexivity.
  - reflexivity.
Defined.

Lemma last_item_rev {A} (l : list A) : JS.last_item l = hd_error (rev l).
Proof.
  induction l as [|x [|y l] IH]; try reflexivity.
  change (JS.last_item (x :: y :: l)) with (JS.last_item (y :: l)).
  rewrite IH. change (rev (x :: y :: l)) with (rev (y :: l) ++ [x]).
  destruct (rev (y :: l)) eqn:E; [|reflexivity].
  apply (f_equal (@List.length A)) in E. rewrite length_rev in E.
  discriminate E.
Qed.

Lemma limitedPosts_In timeStr params table r :
  In r (WhatsAlf.limitedPosts timeStr params table) ->
  In r table /\ WhatsAlf.is_alf r = true.
Proof.
  unfold WhatsAlf.limitedPosts, WhatsAlf.fetched.
  intros [H Ha]%In_firstn%filter_In. split; [|exact Ha].
  apply In_firstn, order_by_desc_In, where_In in H. exact H.
Qed.

(** The cursor written for a row whose indexedAt was written by
    toISOString is the row's time value in decimal. *)
Lemma cursor_of_format_time r t :
  Z.abs t <= JS.maxTime ->
  Schema.indexedAt r = JS.format_time t ->
  WhatsAlf.cursor_of r = JS.Number_toString t.
Proof.
  intros Ht E. unfold WhatsAlf.cursor_of.
  now rewrite E, JSFacts.Date_parse_format.
Qed.

(** The order of strings, byte by byte. *)
Lemma string_compare_refl s : String.compare s s = Eq.
Proof.
  pose proof (String.compare_antisym s s) as H.
  now destruct (String.compare s s).
Qed.

Lemma string_compare_lt_trans a : forall b c,
  String.compare a b = Lt -> String.compare b c = Lt ->
  String.compare a c = Lt.
Proof.
  induction a as [|x a IH]; intros [|y b] [|z c]; cbn [String.compare];
    try discriminate; try reflexivity.
  unfold Ascii.compare.
  destruct (N.compare_spec (N_of_ascii x) (N_of_ascii y)) as [E1|L1|G1];
    [| |discriminate];
    (destruct (N.compare_spec (N_of_ascii y) (N_of_ascii z)) as [E2|L2|G2];
     [| |discriminate]); intros H1 H2.
  - rewrite E1, E2, N.compare_refl. now apply (IH b c).
  - rewrite E1. now rewrite (proj2 (N.compare_lt_iff _ _) L2).
  - rewrite <- E2. now rewrite (proj2 (N.compare_lt_iff _ _) L1).
  - assert (L : (N_of_ascii x < N_of_ascii z)%N)
      by now transitivity (N_of_ascii y).
    now rewrite (proj2 (N.compare_lt_iff _ _) L).
Qed.

Lemma string_compare_gt_trans a b c :
  String.compare a b = Gt -> String.compare b c = Gt ->
  String.compare a c = Gt.
Proof.
  rewrite (String.compare_antisym a b), (String.compare_antisym b c),
    (String.compare_antisym a c).
  intros H1 H2.
  rewrite (string_compare_lt_trans c b a); [reflexivity| |].
  - now destruct (String.compare c b).
  - now destruct (String.compare b a).
Qed.

Lemma string_compare_not_lt_trans a b c :
  String.compare a b <> Lt -> String.compare b c <> Lt ->
  String.compare a c <> Lt.
Proof.
  intros H1 H2.
  destruct (String.compare a b) eqn:E1; [| contradiction |].
  - apply String.compare_eq_iff in E1. now subst.
  - destruct (String.compare b c) eqn:E2; [| contradiction |].
    + apply String.compare_eq_iff in E2. subst. now rewrite E1.
    + now rewrite (string_compare_gt_trans a b c E1 E2).
Qed.

(** ORDER BY indexedAt DESC, cid DESC is a total order on the keys. *)
Lemma before_asym r1 r2 :
  WhatsAlf.before r1 r2 = true -> WhatsAlf.before r2 r1 = false.
Proof.
  unfold WhatsAlf.before, String.ltb.
  rewrite (String.compare_antisym (Schema.indexedAt r2) (Schema.indexedAt r1)),
    (String.compare_antisym (Schema.cid r2) (Schema.cid r1)).
  destruct (String.compare (Schema.indexedAt r1) (Schema.indexedAt r2));
    cbn [CompOpp]; try discriminate; try reflexivity.
  now destruct (String.compare (Schema.cid r1) (Schema.cid r2)).
Qed.

Lemma before_not_trans r1 r2 r3 :
  WhatsAlf.before r1 r2 = false -> WhatsAlf.before r2 r3 = false ->
  WhatsAlf.before r1 r3 = false.
Proof.
  unfold WhatsAlf.before, String.ltb.
  destruct (String.compare (Schema.indexedAt r1) (Schema.indexedAt r2)) eqn:E1;
    try discriminate;
    (destruct (String.compare (Schema.indexedAt r2) (Schema.indexedAt r3))
       eqn:E2; try discriminate); intros H1 H2.
  - apply String.compare_eq_iff in E1, E2. rewrite E1, E2.
    rewrite string_compare_refl.
    pose proof (string_compare_not_lt_trans
                  (Schema.cid r1) (Schema.cid r2) (Schema.cid r3)) as H.
    destruct (String.compare (Schema.cid r1) (Schema.cid r2));
      try discriminate;
      (destruct (String.compare (Schema.cid r2) (Schema.cid r3));
       try discriminate);
      (destruct (String.compare (Schema.cid r1) (Schema.cid r3));
       [reflexivity| |reflexivity]);
      exfalso; apply H; congruence.
  - apply String.compare_eq_iff in E1. now rewrite E1, E2.
  - apply String.compare_eq_iff in E2. now rewrite <- E2, E1.
  - now rewrite (string_compare_gt_trans _ _ _ E1 E2).
Qed.

Section SortedByComparison.

Context {A : Type} (lt : A -> A -> bool).

Hypothesis lt_asym : forall x y, lt x y = true -> lt y x = false.
Hypothesis lt_not_trans :
  forall x y z, lt x y = false -> lt y z = false -> lt x z = false.

Lemma insert_desc_not_before x l :
  StronglySorted (fun a b => lt a b = false) l ->
  StronglySorted (fun a b => lt a b = false) (Engine.insert_desc lt x l).
Proof.
  induction 1 as [|z l Hs IH Hz]; cbn [Engine.insert_desc].
  - repeat constructor.
  - pose proof (proj1 (Forall_forall _ _) Hz) as Hle.
    destruct (lt x z) eqn:E.
    + constructor; [exact IH|]. apply Forall_forall. intros y Hy.
      apply (Permutation_in _ (insert_desc_perm lt x l)) in Hy.
      destruct Hy as [<-|Hy]; [now apply lt_asym|now apply Hle].
    + constructor; [now constructor|]. apply Forall_forall.
      intros y [<-|Hy]; [exact E|].
      apply (lt_not_trans x z y E). now apply Hle.
Qed.

Lemma order_by_desc_not_before l :
  StronglySorted (fun a b => lt a b = false) (Engine.order_by_desc lt l).
Proof.
  induction l as [|x l IH]; cbn [Engine.order_by_desc]; [constructor|].
  now apply insert_desc_not_before.
Qed.

End SortedByComparison.

Lemma where_below bound table :
  Engine.where_
    (option_map (fun c r => String.ltb (Schema.indexedAt r) c) bound) table
  = filter (below bound) table.
Proof.
  destruct bound as [b|]; cbn; [reflexivity|].
  symmetry. now apply filter_all.
Qed.

(** What the handler returns for the bound it has computed. *)
Lemma handler_window (db : Schema.DatabaseSchema) params bound :
  exists sorted,
    Permutation sorted (filter (below bound) (Schema.post db)) /\
    StronglySorted (fun r1 r2 => WhatsAlf.before r1 r2 = false) sorted /\
    WhatsAlf.limitedPosts bound params (Schema.post db)
    = firstn (WhatsAlf.limit params)
        (filter WhatsAlf.is_alf
           (firstn (Nat.min (WhatsAlf.limit params * 3) 300) sorted)).
Proof.
  exists (Engine.order_by_desc WhatsAlf.before
            (filter (below bound) (Schema.post db))).
  split; [apply order_by_desc_perm|]. split.
  - apply order_by_desc_not_before;
      [exact before_asym|exact before_not_trans].
  - unfold WhatsAlf.limitedPosts, WhatsAlf.fetched, WhatsAlf.fetchLimit.
    now rewrite where_below.
Qed.

(** C9.  The handler throws only when it is given a cursor that is no time
    value (toISOString's RangeError).  When it returns, the rows of the
    post table below the cursor's bound, in the order of the query
    (indexedAt descending, then cid descending), are cut to the first
    min(3 * limit, 300): these are the rows fetched.  The rows returned
    are the first limit of the fetched rows that pass the filter, and the
    feed names them in that order.  When none is returned there is no
    cursor; otherwise the cursor is the one computed from the indexedAt of
    the last row returned, its time value in decimal when toISOString wrote
    it. *)
Theorem cursor_of_the_last_returned_row
    (db : Schema.DatabaseSchema) (params : WhatsAlf.QueryParams) :
  match WhatsAlf.handler db params with
  | inr out =>
      exists sorted,
        Permutation sorted
          (filter (below (time_bound (WhatsAlf.cursor params)))
                  (Schema.post db)) /\
        StronglySorted (fun r1 r2 => WhatsAlf.before r1 r2 = false) sorted /\
        let fetched :=
          firstn (Nat.min (WhatsAlf.limit params * 3) 300) sorted in
        let returned :=
          firstn (WhatsAlf.limit params) (filter WhatsAlf.is_alf fetched) in
        WhatsAlf.out_feed out
        = map (fun r => {| WhatsAlf.post := Schema.uri r |}) returned /\
        match rev returned with
        | [] => WhatsAlf.out_cursor out = None
        | last :: _ =>
            WhatsAlf.out_cursor out = Some (WhatsAlf.cursor_of last) /\
            forall t, Z.abs t <= JS.maxTime ->
                      Schema.indexedAt last = JS.format_time t ->
                      WhatsAlf.out_cursor out = Some (JS.Number_toString t)
        end
  | inl e =>
      e = RangeError /\
      exists c, JS.given (WhatsAlf.cursor params) = Some c /\
                JS.Date_of_number (JS.parseInt c) = None
  end.
Proof.
  unfold WhatsAlf.handler, time_bound.
  assert (Hout : forall bound,
            exists sorted,
              Permutation sorted (filter (below bound) (Schema.post db)) /\
              StronglySorted (fun r1 r2 => WhatsAlf.before r1 r2 = false)
                             sorted /\
              let fetched :=
                firstn (Nat.min (WhatsAlf.limit params * 3) 300) sorted in
              let returned :=
                firstn (WhatsAlf.limit params)
                       (filter WhatsAlf.is_alf fetched) in
              map (fun row => {| WhatsAlf.post := Schema.uri row |})
                  (WhatsAlf.limitedPosts bound params (Schema.post db))
              = map (fun r => {| WhatsAlf.post := Schema.uri r |}) returned /\
              match rev returned with
              | [] =>
                  option_map WhatsAlf.cursor_of
                    (JS.last_item
                       (WhatsAlf.limitedPosts bound params (Schema.post db)))
                  = None
              | last :: _ =>
                  option_map WhatsAlf.cursor_of
                    (JS.last_item
                       (WhatsAlf.limitedPosts bound params (Schema.post db)))
                  = Some (WhatsAlf.cursor_of last) /\
                  forall t, Z.abs t <= JS.maxTime ->
                    Schema.indexedAt last = JS.format_time t ->
                    option_map WhatsAlf.cursor_of
                      (JS.last_item
                         (WhatsAlf.limitedPosts bound params (Schema.post db)))
                    = Some (JS.Number_toString t)
              end).
  { intros bound.
    destruct (handler_window db params bound) as (sorted & Hp & Hs & E).
    exists sorted. split; [exact Hp|]. split; [exact Hs|].
    cbv zeta. rewrite E. split; [reflexivity|].
    rewrite last_item_rev.
    destruct (rev _) as [|last rest]; cbn [hd_error option_map];
      [reflexivity|].
    split; [reflexivity|]. intros t Ht Et.
    now rewrite (cursor_of_format_time last t Ht Et). }
  destruct (JS.given (WhatsAlf.cursor params)) as [c|] eqn:Ec.
  - destruct (JS.Date_of_number (JS.parseInt c)) as [t|] eqn:Ed;
      cbn [JS.toISOString].
    2:{ split; [reflexivity|]. now exists c. }
    cbn [WhatsAlf.out_feed WhatsAlf.out_cursor]. apply Hout.
  - cbn [WhatsAlf.out_feed WhatsAlf.out_cursor]. apply Hout.
Qed.

(** The last row the query fetches is the post indexed at 1700000000000,
    which the filter drops; the cursor is the time of the post before it. *)
Example cursor_skips_the_rows_the_filter_drops :
  let params := {| WhatsAlf.feed := "whats-alf"; WhatsAlf.limit := 10;
                   WhatsAlf.cursor := None |} in
  option_map WhatsAlf.cursor_of
    (JS.last_item (WhatsAlf.fetched None params
                     (Schema.post alf_then_unrelated)))
  = Some "1700000000000" /\
  WhatsAlf.handler alf_then_unrelated params
  = inr {| WhatsAlf.out_cursor := Some "1700000001000";
           WhatsAlf.out_feed :=
             [{| WhatsAlf.post :=
                   "at://did:example:alice/app.bsky.feed.post/2" |}] |}.
Proof. split; vm_compute; reflexivity. Qed.

(** *** The adapters against the logical store *)

Lemma has_post_rows u ps : Schema.has_uri u (map row ps) = Logical.has_post u ps.
Proof.
  unfold Schema.has_uri, Logical.has_post.
  induction ps as [|p ps IH]; [reflexivity|]. cbn [map existsb].
  now rewrite IH.
Qed.

Lemma has_post_documents u ps :
  MongoDBAdapter.has_uri u (map document ps) = Logical.has_post u ps.
Proof.
  unfold MongoDBAdapter.has_uri, Logical.has_post.
  induction ps as [|p ps IH]; [reflexivity|]. cbn [map existsb].
  now rewrite IH.
Qed.

Lemma has_post_In u ps : Logical.has_post u ps = true <-> In u (map uri ps).
Proof.
  unfold Logical.has_post. rewrite existsb_exists, in_map_iff.
  split; intros (p & H1 & H2).
  - apply String.eqb_eq in H2. now exists p.
  - exists p. split; [exact H2|]. now apply String.eqb_eq.
Qed.

Lemma delete_post_rows u ps :
  Schema.delete_post u (map row ps)
  = (map row (filter (fun p => negb (String.eqb (uri p) u)) ps),
     List.length (filter (fun p => String.eqb (uri p) u) ps)).
Proof.
  unfold Schema.delete_post. rewrite !filter_map_comm, length_map.
  reflexivity.
Qed.

Lemma deleted_rows u ps :
  (0 <? List.length (filter (fun p => String.eqb (uri p) u) ps))%nat
  = Logical.has_post u ps.
Proof.
  unfold Logical.has_post.
  induction ps as [|p ps IH]; [reflexivity|]. cbn [filter existsb].
  destruct (String.eqb (uri p) u); [reflexivity|exact IH].
Qed.

(** deleteOne removes what DELETE removes when no uri is stored twice. *)
Lemma delete_one_documents u ps :
  NoDup (map uri ps) ->
  MongoDBAdapter.delete_one u (map document ps)
  = (map document (filter (fun p => negb (String.eqb (uri p) u)) ps),
     if Logical.has_post u ps then 1%nat else 0%nat).
Proof.
  unfold Logical.has_post.
  induction ps as [|p ps IH]; intros Hn; [reflexivity|].
  inversion_clear Hn as [|? ? Hp Hps].
  cbn [map MongoDBAdapter.delete_one filter existsb document
       MongoDBAdapter.uri].
  destruct (String.eqb (uri p) u) eqn:E; cbn [negb orb].
  - apply String.eqb_eq in E. subst u. f_equal. f_equal.
    symmetry. apply filter_all. intros q Hq. apply negb_true_iff.
    apply String.eqb_neq. intros Eq. apply Hp. rewrite <- Eq.
    now apply in_map.
  - rewrite (IH Hps). reflexivity.
Qed.

Lemma upsert_rows s c ss :
  Schema.upsert_sub_state s c (Schema.sub_state (tables [] ss))
  = Schema.sub_state (tables [] (Logical.upsert s c ss)).
Proof.
  cbn [tables Schema.sub_state].
  induction ss as [|x ss IH]; [reflexivity|].
  cbn [map Schema.upsert_sub_state Logical.upsert Schema.service].
  destruct (String.eqb (service x) s); [reflexivity|].
  cbn [map]. now rewrite IH.
Qed.

Lemma upsert_documents s c ss :
  MongoDBAdapter.replace_one s c
    (MongoDBAdapter.subscription_states (collections [] ss))
  = MongoDBAdapter.subscription_states (collections [] (Logical.upsert s c ss)).
Proof.
  cbn [collections MongoDBAdapter.subscription_states].
  induction ss as [|x ss IH]; [reflexivity|].
  cbn [map MongoDBAdapter.replace_one Logical.upsert MongoDBAdapter.service].
  destruct (String.eqb (service x) s); [reflexivity|].
  cbn [map]. now rewrite IH.
Qed.

Lemma document_bson_date p :
  valid_post p = true -> MongoDBAdapter.bson_date (indexedAt p) = time p.
Proof. intros [E _]%valid_post_time. now rewrite E. Qed.

Lemma portable_create p id0 :
  portable (CreatePost p id0) = true ->
  valid_post p = true /\ indexed_in_four_digit_year p = true.
Proof. cbn [portable]. now intros [H1 H2]%andb_prop. Qed.

(** One operation on an adapter that holds a well-kept store: the outcome
    and the store after it are the logical ones. *)
Lemma apply_holding type op ps ss :
  portable op = true -> well_kept ps ->
  apply op (holding type ps ss)
  = (Logical.outcome op ps,
     holding type (Logical.posts_after op ps) (Logical.states_after op ss)).
Proof.
  intros Hop (Hn & Hv & Hf).
  destruct op as [p id0|u|s c].
  - apply portable_create in Hop. destruct Hop as [Hp _].
    pose proof (valid_post_toISOString p Hp) as Eiso.
    destruct type;
      cbn [apply holding posts_create Adapter_FeedDatabase
           SQLite_FeedDatabase PostgreSQL_FeedDatabase MongoDB_FeedDatabase
           Logical.outcome Logical.posts_after Logical.states_after];
      unfold dispatch, on.
    + unfold SQLiteAdapter.create. cbn [SQLiteAdapter.db]. rewrite Eiso.
      unfold Schema.insert_post. rewrite row_of_row by exact Hp.
      cbn [tables Schema.post]. fold (Schema.uri (row p)).
      change (Schema.uri (row p)) with (uri p).
      rewrite has_post_rows.
      destruct (Logical.has_post (uri p) ps); [reflexivity|].
      unfold SQLiteAdapter.set_post, tables. cbn [Schema.sub_state].
      now rewrite map_app.
    + unfold PostgreSQLAdapter.create. cbn [PostgreSQLAdapter.pool].
      rewrite Eiso, row_of_row, valid_post_fits by exact Hp.
      unfold Schema.insert_post.
      cbn [tables Schema.post].
      change (Schema.uri (row p)) with (uri p).
      rewrite has_post_rows.
      destruct (Logical.has_post (uri p) ps); [reflexivity|].
      unfold PostgreSQLAdapter.set_post, tables. cbn [Schema.sub_state].
      now rewrite map_app.
    + unfold MongoDBAdapter.create.
      cbn [MongoDBAdapter.db MongoDBAdapter.uri collections
           MongoDBAdapter.posts].
      rewrite has_post_documents, document_bson_date by exact Hp.
      destruct (Logical.has_post (uri p) ps); [reflexivity|].
      unfold MongoDBAdapter.set_posts, collections.
      cbn [MongoDBAdapter.subscription_states].
      now rewrite map_app.
  - destruct type;
      cbn [apply holding posts_deleteByUri Adapter_FeedDatabase
           SQLite_FeedDatabase PostgreSQL_FeedDatabase MongoDB_FeedDatabase
           Logical.outcome Logical.posts_after Logical.states_after];
      unfold dispatch, on.
    + unfold SQLiteAdapter.deleteByUri. cbn [SQLiteAdapter.db tables Schema.post].
      rewrite delete_post_rows, deleted_rows. reflexivity.
    + unfold PostgreSQLAdapter.deleteByUri.
      cbn [PostgreSQLAdapter.pool tables Schema.post].
      rewrite delete_post_rows, deleted_rows. reflexivity.
    + unfold MongoDBAdapter.deleteByUri.
      cbn [MongoDBAdapter.db collections MongoDBAdapter.posts].
      rewrite delete_one_documents by exact Hn.
      now destruct (Logical.has_post u ps).
  - cbn [portable] in Hop. apply andb_prop in Hop. destruct Hop as [Hs Hc].
    destruct type;
      cbn [apply holding subscriptionState_update Adapter_FeedDatabase
           SQLite_FeedDatabase PostgreSQL_FeedDatabase MongoDB_FeedDatabase
           Logical.outcome Logical.posts_after Logical.states_after];
      unfold dispatch, on.
    + unfold SQLiteAdapter.update. cbn [SQLiteAdapter.db].
      unfold SQLiteAdapter.set_sub_state.
      pose proof (upsert_rows s c ss) as E.
      cbn [tables Schema.sub_state] in E |- *. now rewrite E.
    + unfold PostgreSQLAdapter.update. cbn [PostgreSQLAdapter.pool].
      rewrite Hs, Hc. cbn [negb].
      unfold PostgreSQLAdapter.set_sub_state.
      pose proof (upsert_rows s c ss) as E.
      cbn [tables Schema.sub_state] in E |- *. now rewrite E.
    + unfold MongoDBAdapter.update. cbn [MongoDBAdapter.db].
      unfold MongoDBAdapter.set_subscription_states.
      pose proof (upsert_documents s c ss) as E.
      cbn [collections MongoDBAdapter.subscription_states] in E |- *.
      now rewrite E.
Qed.

Lemma posts_after_well_kept op ps :
  portable op = true -> well_kept ps -> well_kept (Logical.posts_after op ps).
Proof.
  intros Hop (Hn & Hv & Hf). destruct op as [p id0|u|s c];
    cbn [Logical.posts_after]; [| |now repeat split].
  - apply portable_create in Hop. destruct Hop as [Hp Hy].
    destruct (Logical.has_post (uri p) ps) eqn:E; [now repeat split|].
    repeat split.
    + rewrite map_app. apply NoDup_app; [exact Hn|repeat constructor; cbn; tauto|].
      intros x Hx [<-|[]]. apply has_post_In in Hx. congruence.
    + apply Forall_app. split; [exact Hv|now repeat constructor].
    + apply Forall_app. split; [exact Hf|now repeat constructor].
  - repeat split.
    + now apply NoDup_map_filter.
    + apply Forall_forall. intros x [Hx _]%filter_In.
      now apply (proj1 (Forall_forall _ _) Hv).
    + apply Forall_forall. intros x [Hx _]%filter_In.
      now apply (proj1 (Forall_forall _ _) Hf).
Qed.

(** A sequence of operations: by induction on the sequence. *)
Lemma run_holding type ops : forall ps ss,
  Forall (fun op => portable op = true) ops -> well_kept ps ->
  run ops (holding type ps ss)
  = (fst (Logical.run ops ps ss),
     holding type (fst (snd (Logical.run ops ps ss)))
                  (snd (snd (Logical.run ops ps ss)))) /\
  well_kept (fst (snd (Logical.run ops ps ss))).
Proof.
  induction ops as [|op ops IH]; intros ps ss Hops Hk.
  - now split.
  - inversion_clear Hops as [|? ? Hop Hrest].
    cbn [run Logical.run]. rewrite (apply_holding type op ps ss Hop Hk).
    destruct (IH (Logical.posts_after op ps) (Logical.states_after op ss)
                 Hrest (posts_after_well_kept op ps Hop Hk)) as [E Hk'].
    rewrite E.
    destruct (Logical.run ops (Logical.posts_after op ps)
                (Logical.states_after op ss)) as [os [ps' ss']].
    now split.
Qed.

Lemma createDatabaseAdapter_holding type :
  createDatabaseAdapter type = holding type [] [].
Proof. now destruct type. Qed.

(** Every backend shows what the logical store shows. *)
Lemma observe_logical type ops criteria :
  Forall (fun op => portable op = true) ops ->
  portable_cursor (by_cursor criteria) ->
  observe type ops criteria = Logical.observe ops criteria.
Proof.
  intros Hops Hc. unfold observe, Logical.observe.
  rewrite createDatabaseAdapter_holding.
  assert (Hk : well_kept []) by (repeat split; constructor).
  destruct (run_holding type ops [] [] Hops Hk) as [E (Hn & Hv & Hf)].
  rewrite E.
  destruct (Logical.run ops [] []) as [os [ps ss]]. cbn [fst snd] in *.
  rewrite (findMany_holding type criteria ps ss Hv Hf Hc).
  rewrite (getAlgorithmFeed_holding type _ _ _ ps ss Hv Hf Hc).
  reflexivity.
Qed.

(** X27.  Take a sequence of createPost, deletePostByUri and
    updateSubscriptionState operations in which every created post is valid
    and indexed in a four-digit year, no two created posts have the same
    indexedAt, and every subscription state fits PostgreSQL's columns; and
    criteria whose cursor is absent or the ISO string of a time in a
    four-digit year.  Applied to a fresh adapter of each backend, the
    sequence has the same outcomes on the three, and the query then returns
    the same page and the same feed with the same outgoing cursor. *)
Theorem portable_operations_are_cross_backend_equivalent
    (ops : list Operation) (criteria : Criteria) :
  Forall (fun op => portable op = true) ops ->
  NoDup (created_times ops) ->
  portable_cursor (by_cursor criteria) ->
  cross_backend_equivalent ops criteria.
Proof.
  intros Hops _ Hc. unfold cross_backend_equivalent.
  now rewrite !(observe_logical _ ops criteria Hops Hc).
Qed.

Lemma portable_operations_are_cross_backend_equivalent_witness :
  cross_backend_equivalent sample_operations sample_criteria.
Proof.
  apply (portable_operations_are_cross_backend_equivalent
           sample_operations sample_criteria).
  - repeat constructor.
  - vm_compute.
    repeat (constructor;
            [intros H; cbn in H;
             repeat (destruct H as [H|H]; [discriminate H|]); exact H|]).
    constructor.
  - exists 1700000090000. split; reflexivity.
Defined.

(** C1.  A post whose replyParent is the empty string is created on a
    fresh adapter of each backend and read back by findMany without
    criteria.  SQLite and PostgreSQL, which store [replyParent || null] and
    read [row.replyParent || undefined], return it without a replyParent;
    MongoDB, which stores the field as it is passed, returns it with the
    empty string.  The three backends do not give the same page. *)
Theorem empty_reply_reference_is_read_back_differently :
  let ops :=
    [CreatePost reply_to_nothing "6f1c2d3e-0000-4000-8000-000000000001"] in
  let without_reference :=
    {| id := uri reply_to_nothing;
       data := {| uri := uri reply_to_nothing;
                  cid := cid reply_to_nothing;
                  replyParent := None;
                  replyRoot := None;
                  authorDid := authorDid reply_to_nothing;
                  recordJson := recordJson reply_to_nothing;
                  indexedAt := indexedAt reply_to_nothing |} |} in
  replyParent reply_to_nothing = Some EmptyString /\
  page (observe sqlite ops no_criteria) = inr [without_reference] /\
  page (observe postgresql ops no_criteria) = inr [without_reference] /\
  page (observe mongodb ops no_criteria) = inr [read reply_to_nothing] /\
  ~ cross_backend_equivalent ops no_criteria.
Proof.
  cbv zeta. repeat split; try (vm_compute; reflexivity).
  intros [_ H]. vm_compute in H. discriminate H.
Qed.

(** ** Part III: further properties of the adapters *)

(** *** Reads name stored posts *)

Ltac adapter_methods :=
  cbn [posts_create posts_findMany posts_findByUri posts_deleteByUri
       posts_getAlgorithmFeed subscriptionState_get subscriptionState_update
       Adapter_FeedDatabase SQLite_FeedDatabase PostgreSQL_FeedDatabase
       MongoDB_FeedDatabase];
  unfold dispatch, on.

Lemma select_many_In c rows r :
  In r (Schema.select_many c rows) -> In r rows.
Proof.
  unfold Schema.select_many.
  intros H%limit_In%order_by_desc_In%where_In%where_In. exact H.
Qed.

Lemma findMany_stored a a' c rs r :
  posts_findMany c a = (inr rs, a') -> In r rs -> In (uri (data r)) (stored a).
Proof.
  destruct a as [[[d|]]|[[d|]]|[[d|]]]; adapter_methods; cbn [stored].
  - unfold SQLiteAdapter.findMany. cbn [SQLiteAdapter.db].
    intros [= <- _] (x & <- & Hx%select_many_In)%in_map_iff.
    now apply (in_map Schema.uri).
  - discriminate.
  - unfold PostgreSQLAdapter.findMany. cbn [PostgreSQLAdapter.pool].
    intros [= <- _] (x & <- & Hx%select_many_In)%in_map_iff.
    now apply (in_map Schema.uri).
  - discriminate.
  - unfold MongoDBAdapter.findMany. cbn [MongoDBAdapter.db].
    intros [= <- _]
      (x & <- & Hx%limit_In%order_by_desc_In%where_In%where_In)%in_map_iff.
    now apply (in_map MongoDBAdapter.uri).
  - discriminate.
Qed.

Lemma find_none {A} (f : A -> bool) l :
  (forall x, In x l -> f x = false) -> find f l = None.
Proof.
  induction l as [|x l IH]; intros H; [reflexivity|]. cbn.
  rewrite (H x (or_introl eq_refl)). apply IH. intros y Hy. apply H. now right.
Qed.

Lemma findByUri_absent a u :
  connected a = true -> ~ In u (stored a) ->
  posts_findByUri u a = (inr None, a).
Proof.
  destruct a as [[[d|]]|[[d|]]|[[d|]]]; try discriminate; intros _ Hn;
    adapter_methods; cbn [stored] in Hn.
  - unfold SQLiteAdapter.findByUri, Schema.select_post. cbn [SQLiteAdapter.db].
    now rewrite find_none by (now apply uri_not_stored_rows).
  - unfold PostgreSQLAdapter.findByUri, Schema.select_post.
    cbn [PostgreSQLAdapter.pool].
    now rewrite find_none by (now apply uri_not_stored_rows).
  - unfold MongoDBAdapter.findByUri. cbn [MongoDBAdapter.db].
    now rewrite find_none by (now apply uri_not_stored_documents).
Qed.

(** *** deleteByUri *)

Lemma deleted_count {A} (key : A -> string) u l :
  (0 <? List.length (filter (fun x => String.eqb (key x) u) l))%nat
  = existsb (String.eqb u) (map key l).
Proof.
  induction l as [|x l IH]; [reflexivity|]. cbn [filter map existsb].
  rewrite (String.eqb_sym u). destruct (String.eqb (key x) u); [reflexivity|].
  exact IH.
Qed.

Lemma delete_one_count u docs :
  (0 <? snd (MongoDBAdapter.delete_one u docs))%nat
  = existsb (String.eqb u) (map MongoDBAdapter.uri docs).
Proof.
  induction docs as [|x l IH]; [reflexivity|].
  cbn [MongoDBAdapter.delete_one map existsb].
  rewrite (String.eqb_sym u).
  destruct (String.eqb (MongoDBAdapter.uri x) u); [reflexivity|].
  destruct (MongoDBAdapter.delete_one u l) as [rest n]. exact IH.
Qed.

(** What deleteByUri answers on a connected adapter: whether the uri was
    stored. *)
Lemma deleteByUri_answer a u :
  connected a = true ->
  posts_deleteByUri u a
  = (inr (existsb (String.eqb u) (stored a)), attempt (posts_deleteByUri u) a).
Proof.
  intros Hc. unfold attempt.
  destruct a as [[[d|]]|[[d|]]|[[d|]]]; try discriminate Hc;
    adapter_methods; cbn [stored].
  - unfold SQLiteAdapter.deleteByUri, Schema.delete_post. cbn [SQLiteAdapter.db].
    now rewrite deleted_count.
  - unfold PostgreSQLAdapter.deleteByUri, Schema.delete_post.
    cbn [PostgreSQLAdapter.pool]. now rewrite deleted_count.
  - unfold MongoDBAdapter.deleteByUri. cbn [MongoDBAdapter.db].
    rewrite <- delete_one_count.
    now destruct (MongoDBAdapter.delete_one u (MongoDBAdapter.posts d)).
Qed.

Lemma existsb_eqb_In u l : existsb (String.eqb u) l = true <-> In u l.
Proof.
  rewrite existsb_exists. split.
  - now intros (x & Hx & ->%String.eqb_eq).
  - intros H. exists u. split; [exact H|apply String.eqb_refl].
Qed.

(** X1.  On a connected adapter in which no uri is stored twice,
    deleteByUri of a stored uri returns true; after it findByUri of the uri
    returns null and no findMany result holds a post of that uri. *)
Theorem deleteByUri_removes_the_post (a : Adapter) (u : string) :
  connected a = true -> NoDup (stored a) -> In u (stored a) ->
  exists a1,
    posts_deleteByUri u a = (inr true, a1) /\
    posts_findByUri u a1 = (inr None, a1) /\
    (forall c rs a2 r,
       posts_findMany c a1 = (inr rs, a2) -> In r rs -> uri (data r) <> u).
Proof.
  intros Hc Hn Hin. exists (attempt (posts_deleteByUri u) a).
  pose proof (delete_gone a u Hn) as Hgone.
  rewrite (deleteByUri_answer a u Hc).
  rewrite (proj2 (existsb_eqb_In u (stored a)) Hin).
  split; [reflexivity|]. split.
  - apply findByUri_absent; [|exact Hgone].
    now rewrite (proj2 (delete_keeps_kind a u)).
  - intros c rs a2 r Hf Hr E. apply Hgone.
    pose proof (findMany_stored _ _ _ _ _ Hf Hr) as Hs.
    now rewrite E in Hs.
Qed.

Lemma deleteByUri_removes_the_post_witness :
  exists a1,
    posts_deleteByUri (uri (sample 1 1700000000000))
      (holding mongodb [sample 1 1700000000000; sample 2 1700000060000] [])
    = (inr true, a1) /\
    posts_findByUri (uri (sample 1 1700000000000)) a1 = (inr None, a1) /\
    (forall c rs a2 r,
       posts_findMany c a1 = (inr rs, a2) -> In r rs ->
       uri (data r) <> uri (sample 1 1700000000000)).
Proof.
  apply (deleteByUri_removes_the_post
           (holding mongodb [sample 1 1700000000000; sample 2 1700000060000]
                    [])
           (uri (sample 1 1700000000000))).
  - reflexivity.
  - vm_compute. repeat constructor; cbn; intuition discriminate.
  - left. reflexivity.
Defined.

(** X2.  deleteByUri of a uri that is not stored returns false, not an
    error, and leaves the adapter as it is. *)
Theorem deleteByUri_of_an_absent_uri (a : Adapter) (u : string) :
  connected a = true -> ~ In u (stored a) ->
  posts_deleteByUri u a = (inr false, a).
Proof.
  intros Hc Hn. rewrite (deleteByUri_answer a u Hc), (delete_absent a u Hn).
  destruct (existsb (String.eqb u) (stored a)) eqn:E; [|reflexivity].
  now apply existsb_eqb_In in E.
Qed.

Lemma deleteByUri_of_an_absent_uri_witness :
  posts_deleteByUri (uri (sample 2 1700000060000))
    (holding postgresql [sample 1 1700000000000] [])
  = (inr false, holding postgresql [sample 1 1700000000000] []).
Proof.
  apply (deleteByUri_of_an_absent_uri
           (holding postgresql [sample 1 1700000000000] [])
           (uri (sample 2 1700000060000))).
  - reflexivity.
  - vm_compute. intuition discriminate.
Defined.

(** *** Writes and the posts and states they do not name *)

Lemma find_filter_other {A} (key : A -> string) u v l :
  v <> u ->
  find (fun x => String.eqb (key x) v)
       (filter (fun x => negb (String.eqb (key x) u)) l)
  = find (fun x => String.eqb (key x) v) l.
Proof.
  intros Hvu. induction l as [|x l IH]; [reflexivity|]. cbn [filter find].
  destruct (String.eqb (key x) u) eqn:Eu; cbn [negb find].
  - apply String.eqb_eq in Eu.
    destruct (String.eqb (key x) v) eqn:Ev; [|exact IH].
    apply String.eqb_eq in Ev. congruence.
  - now rewrite IH.
Qed.

Lemma find_delete_one_other u v docs :
  v <> u ->
  find (fun x => String.eqb (MongoDBAdapter.uri x) v)
       (fst (MongoDBAdapter.delete_one u docs))
  = find (fun x => String.eqb (MongoDBAdapter.uri x) v) docs.
Proof.
  intros Hvu. induction docs as [|x l IH]; [reflexivity|].
  cbn [MongoDBAdapter.delete_one].
  destruct (String.eqb (MongoDBAdapter.uri x) u) eqn:Eu.
  - apply String.eqb_eq in Eu. cbn [fst find].
    destruct (String.eqb (MongoDBAdapter.uri x) v) eqn:Ev; [|reflexivity].
    apply String.eqb_eq in Ev. congruence.
  - destruct (MongoDBAdapter.delete_one u l) as [rest n]. cbn [fst find] in *.
    now rewrite IH.
Qed.

Lemma find_app_other {A} (f : A -> bool) l x :
  f x = false -> find f (l ++ [x]) = find f l.
Proof.
  intros Hx. induction l as [|y l IH]; cbn; [now rewrite Hx|].
  now rewrite IH.
Qed.

Lemma find_upsert_rows s c rows :
  find (fun r => String.eqb (Schema.service r) s)
       (Schema.upsert_sub_state s c rows)
  = Some {| Schema.service := s; Schema.cursor := c |}.
Proof.
  induction rows as [|r rows IH]; cbn [Schema.upsert_sub_state find].
  - cbn. now rewrite String.eqb_refl.
  - destruct (String.eqb (Schema.service r) s) eqn:E; cbn [find].
    + cbn. now rewrite String.eqb_refl.
    + now rewrite E.
Qed.

Lemma find_replace_one s c docs :
  find (fun r => String.eqb (MongoDBAdapter.service r) s)
       (MongoDBAdapter.replace_one s c docs)
  = Some {| MongoDBAdapter.service := s; MongoDBAdapter.cursor := c |}.
Proof.
  induction docs as [|r docs IH]; cbn [MongoDBAdapter.replace_one find].
  - cbn. now rewrite String.eqb_refl.
  - destruct (String.eqb (MongoDBAdapter.service r) s) eqn:E; cbn [find].
    + cbn. now rewrite String.eqb_refl.
    + now rewrite E.
Qed.

Lemma find_upsert_rows_other s s' c rows :
  s' <> s ->
  find (fun r => String.eqb (Schema.service r) s')
       (Schema.upsert_sub_state s c rows)
  = find (fun r => String.eqb (Schema.service r) s') rows.
Proof.
  intros Hs. induction rows as [|r rows IH];
    cbn [Schema.upsert_sub_state find].
  - cbn. now rewrite (proj2 (String.eqb_neq s s')) by congruence.
  - destruct (String.eqb (Schema.service r) s) eqn:E; cbn [find].
    + cbn [Schema.service]. apply String.eqb_eq in E.
      rewrite (proj2 (String.eqb_neq s s')) by congruence.
      now rewrite (proj2 (String.eqb_neq (Schema.service r) s')) by congruence.
    + now rewrite IH.
Qed.

Lemma find_replace_one_other s s' c docs :
  s' <> s ->
  find (fun r => String.eqb (MongoDBAdapter.service r) s')
       (MongoDBAdapter.replace_one s c docs)
  = find (fun r => String.eqb (MongoDBAdapter.service r) s') docs.
Proof.
  intros Hs. induction docs as [|r docs IH];
    cbn [MongoDBAdapter.replace_one find].
  - cbn. now rewrite (proj2 (String.eqb_neq s s')) by congruence.
  - destruct (String.eqb (MongoDBAdapter.service r) s) eqn:E; cbn [find].
    + cbn [MongoDBAdapter.service]. apply String.eqb_eq in E.
      rewrite (proj2 (String.eqb_neq s s')) by congruence.
      now rewrite (proj2 (String.eqb_neq (MongoDBAdapter.service r) s'))
        by congruence.
    + now rewrite IH.
Qed.

Lemma apply_create a p id0 :
  snd (apply (CreatePost p id0) a) = attempt (posts_create p id0) a.
Proof. unfold apply, attempt. now destruct (posts_create p id0 a). Qed.

Lemma apply_delete a u :
  snd (apply (DeletePostByUri u) a) = attempt (posts_deleteByUri u) a.
Proof. unfold apply, attempt. now destruct (posts_deleteByUri u a). Qed.

Lemma apply_update a s c :
  snd (apply (UpdateSubscriptionState s c) a)
  = attempt (subscriptionState_update s c) a.
Proof. unfold apply, attempt. now destruct (subscriptionState_update s c a). Qed.

Lemma findByUri_after_create a p id0 v :
  uri p <> v ->
  fst (posts_findByUri v (attempt (posts_create p id0) a))
  = fst (posts_findByUri v a).
Proof.
  intros Hv. unfold attempt.
  destruct a as [[[d|]]|[[d|]]|[[d|]]]; adapter_methods; try reflexivity.
  - unfold SQLiteAdapter.create. cbn [SQLiteAdapter.db].
    destruct (JS.toISOString _) as [iso|]; [|reflexivity].
    unfold Schema.insert_post. destruct (Schema.has_uri _ _); [reflexivity|].
    unfold SQLiteAdapter.findByUri, SQLiteAdapter.set_post, Schema.select_post.
    cbn [snd fst SQLiteAdapter.db Schema.post].
    rewrite find_app_other; [reflexivity|].
    now apply String.eqb_neq.
  - unfold PostgreSQLAdapter.create. cbn [PostgreSQLAdapter.pool].
    destruct (JS.toISOString _) as [iso|]; [|reflexivity].
    destruct (PostgreSQLAdapter.fits _); [|reflexivity].
    unfold Schema.insert_post. destruct (Schema.has_uri _ _); [reflexivity|].
    unfold PostgreSQLAdapter.findByUri, PostgreSQLAdapter.set_post,
      Schema.select_post.
    cbn [snd fst PostgreSQLAdapter.pool Schema.post].
    rewrite find_app_other; [reflexivity|].
    now apply String.eqb_neq.
  - unfold MongoDBAdapter.create. cbn [MongoDBAdapter.db MongoDBAdapter.uri].
    destruct (MongoDBAdapter.has_uri _ _); [reflexivity|].
    unfold MongoDBAdapter.findByUri, MongoDBAdapter.set_posts.
    cbn [snd fst MongoDBAdapter.db MongoDBAdapter.posts].
    rewrite find_app_other; [reflexivity|].
    now apply String.eqb_neq.
Qed.

Lemma findByUri_after_delete a u v :
  u <> v ->
  fst (posts_findByUri v (attempt (posts_deleteByUri u) a))
  = fst (posts_findByUri v a).
Proof.
  intros Hv. unfold attempt.
  destruct a as [[[d|]]|[[d|]]|[[d|]]]; adapter_methods; try reflexivity.
  - unfold SQLiteAdapter.deleteByUri, Schema.delete_post,
      SQLiteAdapter.findByUri, SQLiteAdapter.set_post, Schema.select_post.
    cbn [snd fst SQLiteAdapter.db Schema.post].
    now rewrite (find_filter_other Schema.uri u v) by congruence.
  - unfold PostgreSQLAdapter.deleteByUri, Schema.delete_post,
      PostgreSQLAdapter.findByUri, PostgreSQLAdapter.set_post,
      Schema.select_post.
    cbn [snd fst PostgreSQLAdapter.pool Schema.post].
    now rewrite (find_filter_other Schema.uri u v) by congruence.
  - unfold MongoDBAdapter.deleteByUri, MongoDBAdapter.findByUri.
    cbn [MongoDBAdapter.db].
    pose proof (find_delete_one_other u v (MongoDBAdapter.posts d)) as E.
    destruct (MongoDBAdapter.delete_one u (MongoDBAdapter.posts d))
      as [rest n].
    unfold MongoDBAdapter.set_posts.
    cbn [snd fst MongoDBAdapter.db MongoDBAdapter.posts] in *.
    now rewrite E by congruence.
Qed.

Lemma findByUri_after_update a s c v :
  fst (posts_findByUri v (attempt (subscriptionState_update s c) a))
  = fst (posts_findByUri v a).
Proof.
  unfold attempt.
  destruct a as [[[d|]]|[[d|]]|[[d|]]]; adapter_methods; try reflexivity.
  unfold PostgreSQLAdapter.update. cbn [PostgreSQLAdapter.pool].
  destruct (negb _); [reflexivity|]. now destruct (negb _).
Qed.

Lemma get_after_update a s c s' :
  s <> s' ->
  fst (subscriptionState_get s' (attempt (subscriptionState_update s c) a))
  = fst (subscriptionState_get s' a).
Proof.
  intros Hs. unfold attempt.
  destruct a as [[[d|]]|[[d|]]|[[d|]]]; adapter_methods; try reflexivity.
  - unfold SQLiteAdapter.update, SQLiteAdapter.get, SQLiteAdapter.set_sub_state,
      Schema.select_sub_state.
    cbn [snd fst SQLiteAdapter.db Schema.sub_state].
    now rewrite find_upsert_rows_other by congruence.
  - unfold PostgreSQLAdapter.update. cbn [PostgreSQLAdapter.pool].
    destruct (negb _); [reflexivity|]. destruct (negb _); [reflexivity|].
    unfold PostgreSQLAdapter.get, PostgreSQLAdapter.set_sub_state,
      Schema.select_sub_state.
    cbn [snd fst PostgreSQLAdapter.pool Schema.sub_state].
    now rewrite find_upsert_rows_other by congruence.
  - unfold MongoDBAdapter.update, MongoDBAdapter.get,
      MongoDBAdapter.set_subscription_states.
    cbn [snd fst MongoDBAdapter.db MongoDBAdapter.subscription_states].
    now rewrite find_replace_one_other by congruence.
Qed.

Lemma get_after_post_write a s' :
  (forall p id0,
     fst (subscriptionState_get s' (attempt (posts_create p id0) a))
     = fst (subscriptionState_get s' a)) /\
  (forall u,
     fst (subscriptionState_get s' (attempt (posts_deleteByUri u) a))
     = fst (subscriptionState_get s' a)).
Proof.
  split.
  - intros p id0. unfold attempt.
    destruct a as [[[d|]]|[[d|]]|[[d|]]]; adapter_methods; try reflexivity.
    + unfold SQLiteAdapter.create. cbn [SQLiteAdapter.db].
      destruct (JS.toISOString _) as [iso|]; [|reflexivity].
      now destruct (Schema.insert_post _ _).
    + unfold PostgreSQLAdapter.create. cbn [PostgreSQLAdapter.pool].
      destruct (JS.toISOString _) as [iso|]; [|reflexivity].
      destruct (PostgreSQLAdapter.fits _); [|reflexivity].
      now destruct (Schema.insert_post _ _).
    + unfold MongoDBAdapter.create. cbn [MongoDBAdapter.db].
      now destruct (MongoDBAdapter.has_uri _ _).
  - intros u. unfold attempt.
    destruct a as [[[d|]]|[[d|]]|[[d|]]]; adapter_methods; try reflexivity.
    unfold MongoDBAdapter.deleteByUri. cbn [MongoDBAdapter.db].
    now destruct (MongoDBAdapter.delete_one _ _).
Qed.

(** X3.  An operation changes what is read under its own key only:
    findByUri of any other uri and get of any other service answer after
    the operation what they answered before it, whether the operation
    succeeded or threw. *)
Theorem writes_leave_other_keys (a : Adapter) (op : Operation) (v s : string) :
  (post_target op <> Some v ->
   fst (posts_findByUri v (snd (apply op a))) = fst (posts_findByUri v a)) /\
  (service_target op <> Some s ->
   fst (subscriptionState_get s (snd (apply op a)))
   = fst (subscriptionState_get s a)).
Proof.
  destruct op as [p id0|u|s0 c]; cbn [post_target service_target].
  - rewrite apply_create. split; intros H.
    + apply findByUri_after_create. congruence.
    + apply (proj1 (get_after_post_write a s)).
  - rewrite apply_delete. split; intros H.
    + apply findByUri_after_delete. congruence.
    + apply (proj2 (get_after_post_write a s)).
  - rewrite apply_update. split; intros H.
    + apply findByUri_after_update.
    + apply get_after_update. congruence.
Qed.

(** *** Operations that throw *)

(** X4.  An operation that throws leaves the adapter as it was: nothing
    is stored by a create that failed, nothing removed or written by a
    delete or an update that failed. *)
Theorem a_failed_operation_changes_nothing (a : Adapter) (op : Operation) :
  failed (fst (apply op a)) = true -> snd (apply op a) = a.
Proof.
  destruct op as [p id0|u|s c]; unfold apply;
    destruct a as [[[d|]]|[[d|]]|[[d|]]]; adapter_methods;
    try (intros _; reflexivity).
  - unfold SQLiteAdapter.create. cbn [SQLiteAdapter.db].
    destruct (JS.toISOString _) as [iso|]; [|reflexivity].
    destruct (Schema.insert_post _ _); [discriminate|reflexivity].
  - unfold PostgreSQLAdapter.create. cbn [PostgreSQLAdapter.pool].
    destruct (JS.toISOString _) as [iso|]; [|reflexivity].
    destruct (PostgreSQLAdapter.fits _); [|reflexivity].
    destruct (Schema.insert_post _ _); [discriminate|reflexivity].
  - unfold MongoDBAdapter.create. cbn [MongoDBAdapter.db].
    destruct (MongoDBAdapter.has_uri _ _); [reflexivity|discriminate].
  - unfold SQLiteAdapter.deleteByUri. cbn [SQLiteAdapter.db].
    destruct (Schema.delete_post _ _). discriminate.
  - unfold PostgreSQLAdapter.deleteByUri. cbn [PostgreSQLAdapter.pool].
    destruct (Schema.delete_post _ _). discriminate.
  - unfold MongoDBAdapter.deleteByUri. cbn [MongoDBAdapter.db].
    destruct (MongoDBAdapter.delete_one _ _). discriminate.
  - discriminate.
  - unfold PostgreSQLAdapter.update. cbn [PostgreSQLAdapter.pool].
    destruct (negb _); [reflexivity|].
    destruct (negb _); [reflexivity|discriminate].
  - discriminate.
Qed.

Lemma a_failed_operation_changes_nothing_witness :
  snd (apply (CreatePost (sample 1 1700000005000) "id")
             (holding postgresql [sample 1 1700000000000] []))
  = holding postgresql [sample 1 1700000000000] [].
Proof.
  apply (a_failed_operation_changes_nothing
           (holding postgresql [sample 1 1700000000000] [])
           (CreatePost (sample 1 1700000005000) "id")).
  reflexivity.
Defined.

(** X5.  On an adapter that is not connected every method of FeedDatabase
    throws the not-connected error and leaves the adapter as it is;
    getAlgorithmFeed throws it through findMany. *)
Theorem not_connected_methods_throw (a : Adapter) :
  connected a = false ->
  (forall p id0, posts_create p id0 a = (inl NotConnected, a)) /\
  (forall c, posts_findMany c a = (inl NotConnected, a)) /\
  (forall u, posts_findByUri u a = (inl NotConnected, a)) /\
  (forall u, posts_deleteByUri u a = (inl NotConnected, a)) /\
  (forall alg n c, posts_getAlgorithmFeed alg n c a = (inl NotConnected, a)) /\
  (forall s, subscriptionState_get s a = (inl NotConnected, a)) /\
  (forall s c, subscriptionState_update s c a = (inl NotConnected, a)).
Proof.
  destruct a as [[[d|]]|[[d|]]|[[d|]]]; try discriminate; intros _;
    repeat split; intros; reflexivity.
Qed.

Lemma not_connected_methods_throw_witness :
  (forall p id0,
     posts_create p id0 (disconnected mongodb)
     = (inl NotConnected, disconnected mongodb)) /\
  (forall c, posts_findMany c (disconnected mongodb)
             = (inl NotConnected, disconnected mongodb)) /\
  (forall u, posts_findByUri u (disconnected mongodb)
             = (inl NotConnected, disconnected mongodb)) /\
  (forall u, posts_deleteByUri u (disconnected mongodb)
             = (inl NotConnected, disconnected mongodb)) /\
  (forall alg n c,
     posts_getAlgorithmFeed alg n c (disconnected mongodb)
     = (inl NotConnected, disconnected mongodb)) /\
  (forall s, subscriptionState_get s (disconnected mongodb)
             = (inl NotConnected, disconnected mongodb)) /\
  (forall s c,
     subscriptionState_update s c (disconnected mongodb)
     = (inl NotConnected, disconnected mongodb)).
Proof.
  apply (not_connected_methods_throw (disconnected mongodb)). reflexivity.
Defined.

(** X6.  The relational adapters build the row before they insert it:
    create of a post whose indexedAt is an Invalid Date throws toISOString's
    RangeError on SQLite and PostgreSQL, whatever the store holds, and
    stores nothing. *)
Theorem create_with_an_invalid_date (a : Adapter) (p : PostData) (id0 : string) :
  connected a = true -> backend a <> mongodb -> indexedAt p = None ->
  posts_create p id0 a = (inl RangeError, a).
Proof.
  intros Hc Hb Hi.
  destruct a as [[[d|]]|[[d|]]|[[d|]]]; try discriminate Hc;
    adapter_methods.
  - unfold SQLiteAdapter.create. cbn [SQLiteAdapter.db]. now rewrite Hi.
  - unfold PostgreSQLAdapter.create. cbn [PostgreSQLAdapter.pool].
    now rewrite Hi.
  - now contradiction Hb.
Qed.

Lemma create_with_an_invalid_date_witness :
  posts_create undated "id" (holding sqlite [sample 2 1700000000000] [])
  = (inl RangeError, holding sqlite [sample 2 1700000000000] []).
Proof.
  apply (create_with_an_invalid_date
           (holding sqlite [sample 2 1700000000000] []) undated "id").
  - reflexivity.
  - discriminate.
  - reflexivity.
Defined.

(** *** Uniqueness of uris and of services *)

Lemma upsert_services s c rows :
  map Schema.service (Schema.upsert_sub_state s c rows)
  = if existsb (String.eqb s) (map Schema.service rows)
    then map Schema.service rows
    else map Schema.service rows ++ [s].
Proof.
  induction rows as [|r rows IH]; [reflexivity|].
  cbn [Schema.upsert_sub_state map existsb].
  rewrite (String.eqb_sym s).
  destruct (String.eqb (Schema.service r) s) eqn:E; cbn [orb map].
  - apply String.eqb_eq in E. now rewrite E.
  - rewrite IH. now destruct (existsb _ _).
Qed.

Lemma replace_one_services s c docs :
  map MongoDBAdapter.service (MongoDBAdapter.replace_one s c docs)
  = if existsb (String.eqb s) (map MongoDBAdapter.service docs)
    then map MongoDBAdapter.service docs
    else map MongoDBAdapter.service docs ++ [s].
Proof.
  induction docs as [|r docs IH]; [reflexivity|].
  cbn [MongoDBAdapter.replace_one map existsb].
  rewrite (String.eqb_sym s).
  destruct (String.eqb (MongoDBAdapter.service r) s) eqn:E; cbn [orb map].
  - apply String.eqb_eq in E. now rewrite E.
  - rewrite IH. now destruct (existsb _ _).
Qed.

Lemma NoDup_add_absent (s : string) l :
  NoDup l ->
  NoDup (if existsb (String.eqb s) l then l else l ++ [s]).
Proof.
  intros Hn. destruct (existsb _ _) eqn:E; [exact Hn|].
  apply NoDup_app; [exact Hn|repeat constructor; cbn; tauto|].
  intros x Hx [<-|[]]. apply existsb_eqb_In in Hx. congruence.
Qed.

Lemma update_services a s c :
  NoDup (services a) ->
  NoDup (services (attempt (subscriptionState_update s c) a)).
Proof.
  unfold attempt.
  destruct a as [[[d|]]|[[d|]]|[[d|]]]; adapter_methods; cbn [services];
    try (intros H; exact H).
  - unfold SQLiteAdapter.update, SQLiteAdapter.set_sub_state.
    cbn [snd SQLiteAdapter.db services Schema.sub_state].
    rewrite upsert_services. apply NoDup_add_absent.
  - unfold PostgreSQLAdapter.update. cbn [PostgreSQLAdapter.pool].
    destruct (negb _); [intros H; exact H|].
    destruct (negb _); [intros H; exact H|].
    unfold PostgreSQLAdapter.set_sub_state.
    cbn [snd PostgreSQLAdapter.pool services Schema.sub_state].
    rewrite upsert_services. apply NoDup_add_absent.
  - unfold MongoDBAdapter.update, MongoDBAdapter.set_subscription_states.
    cbn [snd MongoDBAdapter.db services MongoDBAdapter.subscription_states].
    rewrite replace_one_services. apply NoDup_add_absent.
Qed.

Lemma update_stored a s c :
  stored (attempt (subscriptionState_update s c) a) = stored a.
Proof.
  unfold attempt.
  destruct a as [[[d|]]|[[d|]]|[[d|]]]; adapter_methods; try reflexivity.
  unfold PostgreSQLAdapter.update. cbn [PostgreSQLAdapter.pool].
  destruct (negb _); [reflexivity|]. now destruct (negb _).
Qed.

Lemma post_write_services a :
  (forall p id0, services (attempt (posts_create p id0) a) = services a) /\
  (forall u, services (attempt (posts_deleteByUri u) a) = services a).
Proof.
  split.
  - intros p id0. unfold attempt.
    destruct a as [[[d|]]|[[d|]]|[[d|]]]; adapter_methods; try reflexivity.
    + unfold SQLiteAdapter.create. cbn [SQLiteAdapter.db].
      destruct (JS.toISOString _) as [iso|]; [|reflexivity].
      now destruct (Schema.insert_post _ _).
    + unfold PostgreSQLAdapter.create. cbn [PostgreSQLAdapter.pool].
      destruct (JS.toISOString _) as [iso|]; [|reflexivity].
      destruct (PostgreSQLAdapter.fits _); [|reflexivity].
      now destruct (Schema.insert_post _ _).
    + unfold MongoDBAdapter.create. cbn [MongoDBAdapter.db].
      now destruct (MongoDBAdapter.has_uri _ _).
  - intros u. unfold attempt.
    destruct a as [[[d|]]|[[d|]]|[[d|]]]; adapter_methods; try reflexivity.
    unfold MongoDBAdapter.deleteByUri. cbn [MongoDBAdapter.db].
    now destruct (MongoDBAdapter.delete_one _ _).
Qed.

Lemma apply_keeps_unique a op :
  NoDup (stored a) /\ NoDup (services a) ->
  NoDup (stored (snd (apply op a))) /\ NoDup (services (snd (apply op a))).
Proof.
  intros [Hp Hs]. destruct op as [p id0|u|s c].
  - rewrite apply_create, (proj1 (post_write_services a)).
    split; [now apply create_NoDup|exact Hs].
  - rewrite apply_delete, (proj2 (post_write_services a)).
    split; [now apply delete_NoDup|exact Hs].
  - rewrite apply_update, update_stored.
    split; [exact Hp|now apply update_services].
Qed.

Lemma run_cons op ops (a : Adapter) :
  snd (run (op :: ops) a) = snd (run ops (snd (apply op a))).
Proof.
  change (run (op :: ops) a)
    with (let (o, a1) := apply op a in
          let (os, a2) := run ops a1 in (o :: os, a2)).
  destruct (apply op a) as [o a1]. cbn [snd].
  now destruct (run ops a1) as [os a2].
Qed.

(** X7.  Uniqueness is an invariant of the adapters: on an adapter in
    which no uri and no service is stored twice, no sequence of creates,
    deletes and updates, failed ones included, leaves a uri or a service
    stored twice. *)
Theorem uniqueness_is_kept (ops : list Operation) (a : Adapter) :
  NoDup (stored a) -> NoDup (services a) ->
  NoDup (stored (snd (run ops a))) /\ NoDup (services (snd (run ops a))).
Proof.
  revert a. induction ops as [|op ops IH]; intros a Hp Hs; [now split|].
  rewrite run_cons.
  destruct (apply_keeps_unique a op (conj Hp Hs)) as [Hp1 Hs1].
  now apply IH.
Qed.

Lemma uniqueness_is_kept_witness :
  NoDup (stored (snd (run sample_operations (createDatabaseAdapter mongodb))))
  /\ NoDup (services
              (snd (run sample_operations (createDatabaseAdapter mongodb)))).
Proof.
  apply (uniqueness_is_kept sample_operations (createDatabaseAdapter mongodb));
    constructor.
Defined.

(** *** The subscription state *)

(** X8.  update followed by get is a round trip: on a connected adapter,
    update of a service (on PostgreSQL, with a name and a cursor that fit
    the columns) succeeds whatever was stored for it, and get then returns
    the service with the cursor just written. *)
Theorem update_then_get (a : Adapter) (s : string) (c : Z) :
  connected a = true ->
  (backend a = postgresql ->
   PostgreSQLAdapter.varchar255 s = true /\ PostgreSQLAdapter.integer c = true) ->
  exists a1,
    subscriptionState_update s c a = (inr tt, a1) /\
    subscriptionState_get s a1
    = (inr (Some {| service := s; cursor := c |}), a1).
Proof.
  intros Hc Hpg.
  destruct a as [[[d|]]|[[d|]]|[[d|]]]; try discriminate Hc;
    adapter_methods.
  - eexists. split; [reflexivity|].
    unfold SQLiteAdapter.get, SQLiteAdapter.set_sub_state,
      Schema.select_sub_state.
    cbn [SQLiteAdapter.db Schema.sub_state].
    now rewrite find_upsert_rows.
  - destruct (Hpg eq_refl) as [Hs Hi].
    unfold PostgreSQLAdapter.update. cbn [PostgreSQLAdapter.pool].
    rewrite Hs, Hi. cbn [negb].
    eexists. split; [reflexivity|].
    unfold PostgreSQLAdapter.get, PostgreSQLAdapter.set_sub_state,
      Schema.select_sub_state.
    cbn [PostgreSQLAdapter.pool Schema.sub_state].
    now rewrite find_upsert_rows.
  - eexists. split; [reflexivity|].
    unfold MongoDBAdapter.get, MongoDBAdapter.set_subscription_states.
    cbn [MongoDBAdapter.db MongoDBAdapter.subscription_states].
    now rewrite find_replace_one.
Qed.

Lemma update_then_get_witness :
  exists a1,
    subscriptionState_update "wss://bsky.network" 150
      (snd (run sample_operations (createDatabaseAdapter postgresql)))
    = (inr tt, a1) /\
    subscriptionState_get "wss://bsky.network" a1
    = (inr (Some {| service := "wss://bsky.network"; cursor := 150 |}), a1).
Proof.
  apply (update_then_get
           (snd (run sample_operations (createDatabaseAdapter postgresql)))
           "wss://bsky.network" 150).
  - reflexivity.
  - intros _. split; reflexivity.
Defined.

(** X9.  The cursor column of PostgreSQL is INTEGER: update with a cursor
    outside the 32-bit signed range throws there and writes nothing, while
    SQLite and MongoDB store the same cursor. *)
Theorem update_beyond_32_bits (a : Adapter) (s : string) (c : Z) :
  connected a = true ->
  PostgreSQLAdapter.varchar255 s = true ->
  PostgreSQLAdapter.integer c = false ->
  match backend a with
  | postgresql => subscriptionState_update s c a = (inl IntegerOutOfRange, a)
  | _ =>
      exists a1,
        subscriptionState_update s c a = (inr tt, a1) /\
        subscriptionState_get s a1
        = (inr (Some {| service := s; cursor := c |}), a1)
  end.
Proof.
  intros Hc Hs Hi.
  destruct a as [[[d|]]|[[d|]]|[[d|]]]; try discriminate Hc; cbn [backend];
    adapter_methods.
  - eexists. split; [reflexivity|].
    unfold SQLiteAdapter.get, SQLiteAdapter.set_sub_state,
      Schema.select_sub_state.
    cbn [SQLiteAdapter.db Schema.sub_state].
    now rewrite find_upsert_rows.
  - unfold PostgreSQLAdapter.update.
    cbn [PostgreSQLAdapter.pool]. now rewrite Hs, Hi.
  - eexists. split; [reflexivity|].
    unfold MongoDBAdapter.get, MongoDBAdapter.set_subscription_states.
    cbn [MongoDBAdapter.db MongoDBAdapter.subscription_states].
    now rewrite find_replace_one.
Qed.

Lemma update_beyond_32_bits_witness :
  subscriptionState_update "wss://bsky.network" 4294967296
    (createDatabaseAdapter postgresql)
  = (inl IntegerOutOfRange, createDatabaseAdapter postgresql).
Proof.
  apply (update_beyond_32_bits (createDatabaseAdapter postgresql)
           "wss://bsky.network" 4294967296); reflexivity.
Defined.

(** *** findMany *)

Lemma given_idem x : JS.given (JS.given x) = JS.given x.
Proof. apply or_undefined_idem. Qed.

Lemma limit_present {A} c (l : list A) :
  Engine.limit (by_limit (present c)) l = Engine.limit (by_limit c) l.
Proof. unfold present. cbn [by_limit]. now destruct (by_limit c) as [[|n]|]. Qed.

Lemma select_many_present c rows :
  Schema.select_many (present c) rows = Schema.select_many c rows.
Proof.
  unfold Schema.select_many. rewrite limit_present.
  unfold present. cbn [by_authorDid by_cursor]. now rewrite !given_idem.
Qed.

(** X10.  findMany tests its criteria for truthiness: an empty authorDid,
    an empty cursor and the limit 0 are ignored like absent ones, so
    findMany with limit 0 returns every post that matches; and
    getAlgorithmFeed with limit 0 returns every post below the cursor. *)
Theorem falsy_criteria_are_ignored (a : Adapter) (c : Criteria) :
  posts_findMany c a = posts_findMany (present c) a /\
  forall alg cur f a1,
    posts_getAlgorithmFeed alg 0 cur a = (inr f, a1) ->
    posts_findMany {| by_authorDid := None; by_limit := None;
                      by_cursor := cur |} a
    = (inr (feed_posts f), a1).
Proof.
  split.
  - destruct a as [[[d|]]|[[d|]]|[[d|]]]; adapter_methods; try reflexivity.
    + unfold SQLiteAdapter.findMany. cbn [SQLiteAdapter.db].
      now rewrite select_many_present.
    + unfold PostgreSQLAdapter.findMany. cbn [PostgreSQLAdapter.pool].
      now rewrite select_many_present.
    + unfold MongoDBAdapter.findMany. cbn [MongoDBAdapter.db].
      rewrite limit_present. unfold present. cbn [by_authorDid by_cursor].
      now rewrite !given_idem.
  - intros alg cur f a1.
    destruct a as [[[d|]]|[[d|]]|[[d|]]]; adapter_methods;
      try discriminate.
    + unfold SQLiteAdapter.getAlgorithmFeed, algorithm_feed, bind,
        SQLiteAdapter.findMany.
      cbn [SQLiteAdapter.db].
      match goal with |- context [JS.last_item ?l] =>
        destruct (JS.last_item l) as [p|] end;
        [destruct (JS.toISOString _); [|discriminate]|];
        unfold ret; now intros [= <- <-].
    + unfold PostgreSQLAdapter.getAlgorithmFeed, algorithm_feed, bind,
        PostgreSQLAdapter.findMany.
      cbn [PostgreSQLAdapter.pool].
      match goal with |- context [JS.last_item ?l] =>
        destruct (JS.last_item l) as [p|] end;
        [destruct (JS.toISOString _); [|discriminate]|];
        unfold ret; now intros [= <- <-].
    + unfold MongoDBAdapter.getAlgorithmFeed, algorithm_feed, bind,
        MongoDBAdapter.findMany.
      cbn [MongoDBAdapter.db].
      match goal with |- context [JS.last_item ?l] =>
        destruct (JS.last_item l) as [p|] end;
        [destruct (JS.toISOString _); [|discriminate]|];
        unfold ret; now intros [= <- <-].
Qed.

(** X11.  LIMIT cuts the page and does nothing else: on a store in which
    no two posts have the same indexedAt, findMany with a limit n > 0
    returns the first n records of what findMany returns for the same
    author and cursor without a limit. *)
Theorem limit_is_a_prefix (a a1 : Adapter) (c : Criteria) (n : nat)
    (rs : list PostRecord) :
  no_ties a ->
  posts_findMany (with_limit None c) a = (inr rs, a1) ->
  posts_findMany (with_limit (Some (S n)) c) a = (inr (firstn (S n) rs), a1).
Proof.
  intros _.
  destruct a as [[[d|]]|[[d|]]|[[d|]]]; adapter_methods; try discriminate.
  - unfold SQLiteAdapter.findMany, Schema.select_many. cbn [SQLiteAdapter.db].
    cbn [with_limit by_authorDid by_cursor by_limit Engine.limit].
    intros [= <- <-]. now rewrite firstn_map.
  - unfold PostgreSQLAdapter.findMany, Schema.select_many.
    cbn [PostgreSQLAdapter.pool].
    cbn [with_limit by_authorDid by_cursor by_limit Engine.limit].
    intros [= <- <-]. now rewrite firstn_map.
  - unfold MongoDBAdapter.findMany. cbn [MongoDBAdapter.db].
    cbn [with_limit by_authorDid by_cursor by_limit Engine.limit].
    intros [= <- <-]. now rewrite firstn_map.
Qed.

Lemma limit_is_a_prefix_witness :
  posts_findMany (with_limit (Some 1%nat) no_criteria)
    (holding mongodb ten_recent_posts [])
  = (inr (firstn 1 (map read ten_recent_posts)),
     holding mongodb ten_recent_posts []).
Proof.
  apply (limit_is_a_prefix (holding mongodb ten_recent_posts [])
           (holding mongodb ten_recent_posts []) no_criteria 0
           (map read ten_recent_posts)).
  - vm_compute.
    repeat (constructor;
            [intros H; cbn in H;
             repeat (destruct H as [H|H]; [discriminate H|]); exact H|]).
    constructor.
  - vm_compute. reflexivity.
Defined.

(** *** The page findMany returns *)

Lemma select_sorted c ps :
  StronglySorted (fun p q => time q <= time p) (select c ps).
Proof.
  unfold select.
  set (l := Engine.order_by_desc _ _).
  assert (Hl : StronglySorted (fun p q => time q <= time p) l)
    by apply (order_by_desc_sorted time).
  destruct (by_limit c) as [[|n]|]; cbn [Engine.limit]; try exact Hl.
  clearbody l. revert Hl. generalize (S n). intros m Hl. revert m.
  induction Hl as [|x l Hl IH Hx]; intros [|m]; cbn [firstn];
    try constructor; [apply IH|].
  apply Forall_forall. intros y Hy%In_firstn.
  now apply (proj1 (Forall_forall _ _) Hx).
Qed.

Lemma select_sound c ps p :
  In p (select c ps) ->
  In p ps /\
  (forall a, JS.given (by_authorDid c) = Some a -> authorDid p = a) /\
  (forall t, cursor_time (by_cursor c) = Some t -> time p < t).
Proof.
  unfold select. intros Hp%limit_In%order_by_desc_In.
  destruct (JS.given (by_authorDid c)) as [a|];
    destruct (cursor_time (by_cursor c)) as [t|];
    cbn [option_map Engine.where_] in Hp;
    repeat match type of Hp with
           | In _ (filter _ _) => apply filter_In in Hp; destruct Hp as [Hp ?]
           end;
    (split; [exact Hp|]); split; intros x [= <-];
    try (now apply String.eqb_eq); now apply Z.ltb_lt.
Qed.

Lemma select_complete c ps p :
  by_limit (present c) = None ->
  In p ps ->
  (forall a, JS.given (by_authorDid c) = Some a -> authorDid p = a) ->
  (forall t, cursor_time (by_cursor c) = Some t -> time p < t) ->
  In p (select c ps).
Proof.
  intros Hl Hp Ha Ht. unfold select.
  rewrite <- limit_present, Hl. cbn [Engine.limit].
  apply order_by_desc_In.
  destruct (JS.given (by_authorDid c)) as [a|];
    destruct (cursor_time (by_cursor c)) as [t|];
    cbn [option_map Engine.where_];
    repeat (apply filter_In; split); try exact Hp;
    try (apply String.eqb_eq; now apply Ha);
    apply Z.ltb_lt; now apply Ht.
Qed.

(** X12.  On a store of valid posts indexed in four-digit years, with a
    cursor that is absent or the ISO string of such a time, findMany
    returns, on every backend, stored posts only, newest first; with an
    authorDid, posts of that author only; with a cursor, posts indexed
    strictly before it only; and without a limit, every stored post that
    meets these conditions. *)
Theorem findMany_page (type : DatabaseType) (c : Criteria)
    (ps : list PostData) (ss : list SubscriptionState) :
  Forall (fun p => valid_post p = true) ps ->
  Forall (fun p => indexed_in_four_digit_year p = true) ps ->
  portable_cursor (by_cursor c) ->
  exists page,
    posts_findMany c (holding type ps ss)
    = (inr (map read page), holding type ps ss) /\
    StronglySorted (fun p q => time q <= time p) page /\
    (forall p, In p page ->
       In p ps /\
       (forall a, by_authorDid c = Some a -> a <> "" -> authorDid p = a) /\
       (forall t, by_cursor c = Some (JS.format_time t) ->
                  four_digit_year t = true -> time p < t)) /\
    (by_limit (present c) = None ->
     forall p, In p ps ->
       (forall a, by_authorDid c = Some a -> a <> "" -> authorDid p = a) ->
       (forall t, by_cursor c = Some (JS.format_time t) ->
                  four_digit_year t = true -> time p < t) ->
       In p page).
Proof.
  intros Hv Hf Hc. exists (select c ps).
  split; [now apply findMany_holding|]. split; [apply select_sorted|].
  assert (Hauthor : forall a, JS.given (by_authorDid c) = Some a ->
                              by_authorDid c = Some a /\ a <> "").
  { intros a. unfold JS.given, JS.or_undefined.
    destruct (by_authorDid c) as [x|]; [|discriminate].
    unfold JS.truthy. destruct (String.eqb_spec x ""); cbn; [discriminate|].
    now intros [= <-]. }
  assert (Hcursor : forall t, cursor_time (by_cursor c) = Some t ->
                              by_cursor c = Some (JS.format_time t) /\
                              four_digit_year t = true).
  { intros t. unfold cursor_time. unfold portable_cursor in Hc.
    destruct (JS.given (by_cursor c)) as [s|] eqn:Eg; [|discriminate].
    destruct Hc as (t0 & Ht0 & ->). cbn [option_map].
    rewrite JSFacts.Date_parse_format by now apply four_digit_year_valid.
    cbn. intros [= <-]. split; [|exact Ht0].
    revert Eg. unfold JS.given, JS.or_undefined.
    destruct (by_cursor c) as [x|]; [|discriminate].
    destruct (JS.truthy x); [|discriminate]. now intros [= ->]. }
  split.
  - intros p (Hin & Ha & Ht)%select_sound. split; [exact Hin|]. split.
    + intros a Ea Hne. apply Ha. unfold JS.given, JS.or_undefined.
      rewrite Ea. unfold JS.truthy.
      now destruct (String.eqb_spec a "").
    + intros t Et Hy. apply Ht. rewrite Et.
      apply cursor_time_format_time. now apply four_digit_year_valid.
  - intros Hl p Hin Ha Ht. apply select_complete; try assumption.
    + intros a Ea. destruct (Hauthor a Ea). now apply Ha.
    + intros t Et. destruct (Hcursor t Et). now apply Ht.
Qed.

Lemma findMany_page_witness :
  exists page,
    posts_findMany sample_criteria (holding postgresql ten_recent_posts [])
    = (inr (map read page), holding postgresql ten_recent_posts []) /\
    StronglySorted (fun p q => time q <= time p) page /\
    (forall p, In p page ->
       In p ten_recent_posts /\
       (forall a, by_authorDid sample_criteria = Some a -> a <> "" ->
                  authorDid p = a) /\
       (forall t, by_cursor sample_criteria = Some (JS.format_time t) ->
                  four_digit_year t = true -> time p < t)) /\
    (by_limit (present sample_criteria) = None ->
     forall p, In p ten_recent_posts ->
       (forall a, by_authorDid sample_criteria = Some a -> a <> "" ->
                  authorDid p = a) ->
       (forall t, by_cursor sample_criteria = Some (JS.format_time t) ->
                  four_digit_year t = true -> time p < t) ->
       In p page).
Proof.
  apply (findMany_page postgresql sample_criteria ten_recent_posts []).
  - repeat constructor.
  - repeat constructor.
  - exists 1700000090000. split; reflexivity.
Defined.

(** *** Paging through the feed *)

Lemma last_item_nth {A} (l : list A) x :
  JS.last_item l = Some x -> nth_error l (List.length l - 1) = Some x.
Proof.
  induction l as [|y [|z l] IH]; cbn [JS.last_item]; [discriminate| |].
  - now intros [= ->].
  - intros H. specialize (IH H). cbn [List.length] in *.
    replace (S (S (List.length l)) - 1)%nat with (S (List.length l)) by lia.
    replace (S (List.length l) - 1)%nat with (List.length l) in IH by lia.
    exact IH.
Qed.

Lemma last_item_nil {A} (l : list A) : JS.last_item l = None -> l = [].
Proof.
  induction l as [|y [|z l] IH]; cbn [JS.last_item]; try discriminate;
    [reflexivity|].
  intros H. specialize (IH H). discriminate IH.
Qed.

(** The last post of a page cut from the posts after the first [i]. *)
Lemma last_of_page {A} (P : list A) i n x :
  JS.last_item (firstn (S n) (skipn i P)) = Some x ->
  exists k,
    nth_error P k = Some x /\
    skipn (S k) P = skipn (S n) (skipn i P).
Proof.
  intros H. set (page := firstn (S n) (skipn i P)) in *.
  pose proof (last_item_nth page x H) as Hn.
  assert (Hlen : (0 < List.length page)%nat).
  { destruct page; [discriminate H|cbn; lia]. }
  assert (Hpl : List.length page
                = Nat.min (S n) (List.length (skipn i P)))
    by apply length_firstn.
  exists (i + (List.length page - 1))%nat. split.
  - rewrite <- nth_error_skipn. unfold page in Hn at 1.
    rewrite nth_error_firstn in Hn.
    destruct (Nat.ltb_spec (List.length page - 1) (S n)) as [_|Hge];
      [exact Hn|lia].
  - rewrite skipn_skipn.
    destruct (Nat.le_gt_cases (S n) (List.length (skipn i P))) as [Hfull|Hshort].
    + f_equal. lia.
    + rewrite length_skipn in Hshort, Hpl.
      rewrite !skipn_all2; [reflexivity| |]; lia.
Qed.

Lemma firstn_add {A} a b (l : list A) :
  firstn (a + b) l = firstn a l ++ firstn b (skipn a l).
Proof.
  revert l. induction a as [|a IH]; intros [|x l]; cbn; try reflexivity.
  - now rewrite firstn_nil.
  - now rewrite IH.
Qed.

Section Walk.

Variables (type : DatabaseType) (ss : list SubscriptionState).
Variables (store P : list PostData) (n : nat).

Hypothesis valid : Forall (fun p => valid_post p = true) P.
Hypothesis years : Forall (fun p => indexed_in_four_digit_year p = true) P.
Hypothesis sorted : StronglySorted (fun a b => time b < time a) P.
Hypothesis stored_posts : Permutation store P.

(** Where a caller stands after the first [i] posts: at the start without a
    cursor, later with the cursor of the last post it was given. *)
Let standing (i : nat) (cursor : option string) : Prop :=
  (i = 0%nat /\ cursor = None) \/
  (exists k pk, i = S k /\ nth_error P k = Some pk /\
                cursor = Some (JS.format_time (time pk))).

Lemma standing_cursor i cursor :
  standing i cursor -> portable_cursor cursor.
Proof.
  intros [[_ ->]|(k & pk & _ & Hk & ->)]; [exact I|].
  apply portable_cursor_format_time.
  apply nth_error_In in Hk.
  pose proof (proj1 (Forall_forall _ _) years pk Hk) as Hy.
  pose proof (proj1 (Forall_forall _ _) valid pk Hk) as Hv.
  apply valid_post_time in Hv. destruct Hv as [E _].
  unfold indexed_in_four_digit_year in Hy. now rewrite E in Hy.
Qed.

Lemma standing_page i cursor :
  standing i cursor ->
  select {| by_authorDid := None; by_limit := Some (S n);
            by_cursor := cursor |} store
  = firstn (S n) (skipn i P).
Proof.
  intros [[-> ->]|(k & pk & -> & Hk & ->)].
  - now apply select_first_page.
  - apply select_next_page; try assumption.
    apply nth_error_In in Hk.
    apply (proj1 (Forall_forall _ _) valid) in Hk.
    now apply valid_post_time in Hk.
Qed.

Lemma pages_from calls : forall i cursor,
  standing i cursor ->
  List.concat (pages calls (S n) cursor (holding type store ss))
  = map read (firstn (calls * S n) (skipn i P)).
Proof.
  assert (Hv : Forall (fun p => valid_post p = true) store)
    by (eapply Permutation_Forall; [symmetry; exact stored_posts|exact valid]).
  assert (Hf : Forall (fun p => indexed_in_four_digit_year p = true) store)
    by (eapply Permutation_Forall; [symmetry; exact stored_posts|exact years]).
  induction calls as [|calls IH]; intros i cursor Hst; [reflexivity|].
  cbn [pages].
  rewrite (getAlgorithmFeed_holding type "feed" (S n) cursor store ss Hv Hf
             (standing_cursor i cursor Hst)).
  rewrite (standing_page i cursor Hst).
  cbn [feed_posts feed_cursor].
  change (S calls * S n)%nat with (S n + calls * S n)%nat.
  rewrite firstn_add, map_app.
  destruct (JS.last_item (firstn (S n) (skipn i P))) as [x|] eqn:El;
    cbn [option_map List.concat].
  - destruct (last_of_page P i n x El) as (k & Hk & Hskip).
    rewrite (IH (S k) (Some (JS.format_time (time x)))).
    + now rewrite Hskip.
    + right. now exists k, x.
  - apply last_item_nil in El. rewrite app_nil_r.
    assert (Hnil : skipn i P = []).
    { destruct (skipn i P); [reflexivity|discriminate El]. }
    rewrite Hnil, skipn_nil, !firstn_nil. reflexivity.
Qed.

End Walk.

(** X13.  A store holds valid posts with pairwise different indexedAt, all
    in four-digit years; P is the list of them, newest first.  A caller that
    pages through getAlgorithmFeed with a limit n > 0, passing each call
    the cursor of the call before, is given after its calls the first
    calls * n posts of P, in that order: no post comes twice and none is
    skipped, on every backend. *)
Theorem paging_returns_every_post_once (type : DatabaseType)
    (ss : list SubscriptionState) (store P : list PostData) (n calls : nat) :
  Forall (fun p => valid_post p = true) P ->
  Forall (fun p => indexed_in_four_digit_year p = true) P ->
  StronglySorted (fun a b => time b < time a) P ->
  Permutation store P ->
  List.concat (pages calls (S n) None (holding type store ss))
  = map read (firstn (calls * S n) P).
Proof.
  intros Hv Hy Hs Hp.
  rewrite (pages_from type ss store P n Hv Hy Hs Hp calls 0 None);
    [reflexivity|]. left. now split.
Qed.

Lemma paging_returns_every_post_once_witness :
  List.concat (pages 4 3 None (holding sqlite (rev ten_recent_posts) []))
  = map read (firstn (4 * 3) ten_recent_posts).
Proof.
  apply (paging_returns_every_post_once sqlite [] (rev ten_recent_posts)
           ten_recent_posts 2 4).
  - repeat constructor.
  - repeat constructor.
  - repeat (constructor; [|repeat (constructor; [cbn; lia|])]); constructor.
  - symmetry. apply Permutation_rev.
Defined.

(** *** The two branches of handleEvent *)

Lemma delete_in_cons u uris table :
  Subscription.delete_in (u :: uris) table
  = Subscription.delete_in uris
      (filter (fun r => negb (String.eqb (Schema.uri r) u)) table).
Proof.
  unfold Subscription.delete_in.
  induction table as [|r table IH]; [reflexivity|].
  cbn [filter].
  change (existsb (String.eqb (Schema.uri r)) (u :: uris))
    with (String.eqb (Schema.uri r) u
          || existsb (String.eqb (Schema.uri r)) uris).
  destruct (String.eqb (Schema.uri r) u); cbn [orb negb filter].
  - exact IH.
  - destruct (existsb _ uris); cbn [negb]; now rewrite IH.
Qed.

Lemma delete_all_sqlite uris d :
  delete_all uris (SQLite {| SQLiteAdapter.db := Some d |})
  = SQLite {| SQLiteAdapter.db :=
                Some {| Schema.post :=
                          Subscription.delete_in uris (Schema.post d);
                        Schema.sub_state := Schema.sub_state d |} |}.
Proof.
  revert d. induction uris as [|u uris IH]; intros d.
  - rewrite delete_in_nil. now destruct d.
  - rewrite delete_all_cons, delete_in_cons.
    unfold attempt at 1. adapter_methods.
    unfold SQLiteAdapter.deleteByUri, Schema.delete_post,
      SQLiteAdapter.set_post.
    cbn [SQLiteAdapter.db snd]. now rewrite IH.
Qed.

Lemma create_all_sqlite posts d :
  Forall (fun p => indexedAt p = Some (time p)) posts ->
  create_all posts (SQLite {| SQLiteAdapter.db := Some d |})
  = SQLite {| SQLiteAdapter.db :=
                Some {| Schema.post :=
                          Subscription.insert_do_nothing (map row posts)
                            (Schema.post d);
                        Schema.sub_state := Schema.sub_state d |} |}.
Proof.
  intros H. revert d. induction H as [|p posts Hp _ IH]; intros d.
  - now destruct d.
  - rewrite create_all_cons. cbn [map Subscription.insert_do_nothing].
    unfold attempt at 1. adapter_methods.
    unfold SQLiteAdapter.create. cbn [SQLiteAdapter.db]. rewrite Hp.
    cbn [JS.toISOString]. fold (row p).
    destruct (Schema.insert_post (row p) (Schema.post d)) as [rows|];
      cbn [snd].
    + unfold SQLiteAdapter.set_post. now rewrite IH.
    + now rewrite IH.
Qed.

(** X14.  The two branches of handleEvent store the same: a batch handled
    through the SQLite adapter, one deleteByUri and one create at a time
    with every exception caught, leaves the tables that the legacy branch
    leaves with its one DELETE and its one INSERT ... ON CONFLICT DO
    NOTHING. *)
Theorem legacy_and_adapter_branch_agree
    (JSON_stringify : Subscription.PostLexicon -> string)
    (now : nat -> Z) (randomUUID : nat -> string)
    (ops : Subscription.Operations) (tables legacy : Schema.DatabaseSchema) :
  Subscription.dbAdapter
    (snd (Subscription.handleEvent JSON_stringify now randomUUID
            (Subscription.Commit ops)
            (through (SQLite {| SQLiteAdapter.db := Some tables |}) legacy)))
  = Some (SQLite
            {| SQLiteAdapter.db :=
                 Some (Subscription.db
                         (snd (Subscription.handleEvent JSON_stringify now
                                 randomUUID (Subscription.Commit ops)
                                 {| Subscription.db := tables;
                                    Subscription.dbAdapter :=
                                      @None Adapter |}))) |}).
Proof.
  unfold through. rewrite handleEvent_adapter, handleEvent_legacy.
  cbn [snd Subscription.dbAdapter Subscription.db]. f_equal.
  unfold numbered.
  rewrite fold_creates_numbered by (now rewrite length_seq).
  fold (delete_all (Subscription.postsToDelete ops)
          (SQLite {| SQLiteAdapter.db := Some tables |})).
  rewrite delete_all_sqlite.
  rewrite create_all_sqlite by apply postsToCreate_indexed.
  reflexivity.
Qed.

(** *** What handleEvent leaves in the store *)

Lemma delete_keeps_others a u v :
  u <> v -> In v (stored a) -> In v (stored (attempt (posts_deleteByUri u) a)).
Proof.
  intros Huv. unfold attempt.
  destruct a as [[[d|]]|[[d|]]|[[d|]]]; adapter_methods; cbn [stored];
    try (intros H; exact H).
  - unfold SQLiteAdapter.deleteByUri, Schema.delete_post.
    cbn [SQLiteAdapter.db snd SQLiteAdapter.set_post stored Schema.post].
    intros (r & <- & Hr)%in_map_iff. apply in_map. apply filter_In.
    split; [exact Hr|]. apply negb_true_iff. now apply String.eqb_neq.
  - unfold PostgreSQLAdapter.deleteByUri, Schema.delete_post.
    cbn [PostgreSQLAdapter.pool snd PostgreSQLAdapter.set_post stored
         Schema.post].
    intros (r & <- & Hr)%in_map_iff. apply in_map. apply filter_In.
    split; [exact Hr|]. apply negb_true_iff. now apply String.eqb_neq.
  - unfold MongoDBAdapter.deleteByUri. cbn [MongoDBAdapter.db].
    intros Hin.
    assert (H : In v (map MongoDBAdapter.uri
                        (fst (MongoDBAdapter.delete_one u
                                (MongoDBAdapter.posts d))))).
    { clear -Huv Hin. induction (MongoDBAdapter.posts d) as [|x l IH];
        [exact Hin|].
      cbn [MongoDBAdapter.delete_one].
      destruct (String.eqb_spec (MongoDBAdapter.uri x) u) as [E|E].
      - cbn [fst]. destruct Hin as [Hx|Hl]; [congruence|exact Hl].
      - destruct (MongoDBAdapter.delete_one u l) as [rest k].
        cbn [fst map] in *. destruct Hin as [Hx|Hl]; [now left|].
        right. now apply IH. }
    destruct (MongoDBAdapter.delete_one u (MongoDBAdapter.posts d)).
    exact H.
Qed.

Lemma delete_all_keeps_others uris a v :
  ~ In v uris -> In v (stored a) -> In v (stored (delete_all uris a)).
Proof.
  revert a. induction uris as [|u uris IH]; intros a Hn Hin; [exact Hin|].
  rewrite delete_all_cons. apply IH; [intros H; apply Hn; now right|].
  apply delete_keeps_others; [|exact Hin]. intros ->. apply Hn. now left.
Qed.

(** A create whose row the backend takes stores the uri, if it is not
    stored already. *)
Lemma create_stores a p id0 :
  connected a = true -> indexedAt p = Some (time p) ->
  (backend a = postgresql -> PostgreSQLAdapter.fits (row p) = true) ->
  In (uri p) (stored (attempt (posts_create p id0) a)).
Proof.
  intros Hc Hi Hfit. unfold attempt.
  destruct a as [[[d|]]|[[d|]]|[[d|]]]; try discriminate Hc;
    adapter_methods.
  - unfold SQLiteAdapter.create. cbn [SQLiteAdapter.db]. rewrite Hi.
    cbn [JS.toISOString]. unfold Schema.insert_post.
    destruct (Schema.has_uri _ _) eqn:E; cbn [snd stored].
    + now apply has_uri_In in E.
    + cbn [SQLiteAdapter.set_post Schema.post]. rewrite map_app.
      apply in_or_app. right. now left.
  - unfold PostgreSQLAdapter.create. cbn [PostgreSQLAdapter.pool]. rewrite Hi.
    cbn [JS.toISOString]. fold (row p). rewrite (Hfit eq_refl).
    unfold Schema.insert_post.
    destruct (Schema.has_uri _ _) eqn:E; cbn [snd stored].
    + now apply has_uri_In in E.
    + cbn [PostgreSQLAdapter.set_post Schema.post]. rewrite map_app.
      apply in_or_app. right. now left.
  - unfold MongoDBAdapter.create. cbn [MongoDBAdapter.db MongoDBAdapter.uri].
    destruct (MongoDBAdapter.has_uri _ _) eqn:E; cbn [snd stored].
    + now apply mongo_has_uri_In in E.
    + cbn [MongoDBAdapter.set_posts MongoDBAdapter.posts]. rewrite map_app.
      apply in_or_app. right. now left.
Qed.

Lemma create_all_stores posts a p :
  connected a = true ->
  Forall (fun p => indexedAt p = Some (time p)) posts ->
  (backend a = postgresql ->
   Forall (fun p => PostgreSQLAdapter.fits (row p) = true) posts) ->
  In p posts -> In (uri p) (stored (create_all posts a)).
Proof.
  revert a. induction posts as [|q posts IH]; intros a Hc Hi Hfit Hin;
    [contradiction|].
  rewrite create_all_cons. inversion_clear Hi as [|? ? Hq Hrest].
  destruct (create_keeps_kind a q EmptyString) as [Hb Hk].
  destruct Hin as [->|Hin].
  - apply create_all_mono. apply create_stores; [exact Hc|exact Hq|].
    intros E. specialize (Hfit E). now inversion_clear Hfit.
  - apply IH; [congruence|exact Hrest| |exact Hin].
    rewrite Hb. intros E. specialize (Hfit E). now inversion_clear Hfit.
Qed.

Lemma fits_columns_row JSON_stringify t c :
  fits_columns c = true ->
  PostgreSQLAdapter.fits (row (post_at JSON_stringify t c)) = true.
Proof.
  unfold fits_columns. intros H.
  repeat (apply andb_prop in H; destruct H as [H ?]).
  unfold PostgreSQLAdapter.fits, row, Schema.row_of, post_at.
  cbn [Schema.uri Schema.cid Schema.replyParent Schema.replyRoot
       Schema.authorDid Schema.indexedAt uri cid replyParent replyRoot
       authorDid].
  rewrite !or_undefined_idem.
  repeat (apply andb_true_intro; split); try assumption.
  - destruct (Subscription.reply (Subscription.record c)) as [r|];
      [|reflexivity].
    match goal with
    | Hr : (_ && _)%bool = true |- _ => apply andb_prop in Hr; destruct Hr as [Hp _]
    end.
    destruct (option_map _ (Subscription.parent r)) as [x|]; [|reflexivity].
    cbn [JS.or_undefined]. now destruct (JS.truthy x).
  - destruct (Subscription.reply (Subscription.record c)) as [r|];
      [|reflexivity].
    match goal with
    | Hr : (_ && _)%bool = true |- _ => apply andb_prop in Hr; destruct Hr as [_ Hp]
    end.
    destruct (option_map _ (Subscription.root r)) as [x|]; [|reflexivity].
    cbn [JS.or_undefined]. now destruct (JS.truthy x).
  - unfold PostgreSQLAdapter.varchar255. apply Nat.leb_le.
    pose proof (JSFacts.format_time_length
                  (time (post_at JSON_stringify t c))). 
    unfold post_at in *. lia.
Qed.

(** X15.  What a commit leaves in the adapter of a subscription that has
    one: on a connected adapter in which no uri is stored twice (on
    PostgreSQL, for creates whose fields fit the VARCHAR(255) columns),
    after handleEvent the uri of every create of the batch is stored; the
    uri of a delete of the batch that no create of the batch names is not;
    a uri stored before that no delete names still is; nothing else is
    stored; and no uri is stored twice. *)
Theorem handleEvent_stores_the_batch
    (JSON_stringify : Subscription.PostLexicon -> string)
    (now : nat -> Z) (randomUUID : nat -> string)
    (ops : Subscription.Operations) (a : Adapter)
    (legacy : Schema.DatabaseSchema) :
  connected a = true -> NoDup (stored a) ->
  (backend a = postgresql ->
   Forall (fun c => fits_columns c = true) (Subscription.creates ops)) ->
  let after :=
    stored_after (Subscription.handleEvent JSON_stringify now randomUUID
                    (Subscription.Commit ops) (through a legacy)) in
  (forall c, In c (Subscription.creates ops) ->
             In (Subscription.uri c) after) /\
  (forall u, In u (map Subscription.del_uri (Subscription.deletes ops)) ->
             ~ In u (map Subscription.uri (Subscription.creates ops)) ->
             ~ In u after) /\
  (forall v, In v (stored a) -> ~ In v (map Subscription.del_uri (Subscription.deletes ops)) ->
             In v after) /\
  (forall v, In v after ->
             In v (stored a) \/
             In v (map Subscription.uri (Subscription.creates ops))) /\
  NoDup after.
Proof.
  intros Hc Hn Hfit after. subst after. unfold through, stored_after.
  rewrite handleEvent_adapter. cbn [snd Subscription.dbAdapter].
  unfold numbered.
  rewrite fold_creates_numbered by (now rewrite length_seq).
  change (Subscription.postsToDelete ops)
    with (map Subscription.del_uri (Subscription.deletes ops)).
  fold (delete_all (map Subscription.del_uri (Subscription.deletes ops)) a).
  set (uris := map Subscription.del_uri (Subscription.deletes ops)).
  set (posts := Subscription.postsToCreate JSON_stringify now ops).
  destruct (delete_all_kind uris a) as [Hb Hk].
  assert (Hposts : map uri posts
                   = map Subscription.uri (Subscription.creates ops))
    by apply postsToCreate_uris.
  repeat split.
  - intros c Hin.
    destruct (In_map_index (fun c i => post_at JSON_stringify (now i) c)
                0 _ c Hin) as (j & Hj).
    change (In (uri (post_at JSON_stringify (now j) c))
               (stored (create_all posts (delete_all uris a)))).
    apply create_all_stores.
    + congruence.
    + apply postsToCreate_indexed.
    + rewrite Hb. intros E. specialize (Hfit E).
      apply Forall_forall. intros p Hp.
      unfold posts in Hp. rewrite postsToCreate_post_of in Hp.
      apply map_index_In in Hp. destruct Hp as (c' & j' & Hc' & ->).
      apply fits_columns_row.
      exact (proj1 (Forall_forall _ _) Hfit c' Hc').
    + unfold posts. rewrite postsToCreate_post_of. exact Hj.
  - intros u Hu Hnc [H|H]%create_all_stored.
    + now apply (delete_all_gone uris a u Hn Hu).
    + apply Hnc. now rewrite <- Hposts.
  - intros v Hv Hnd. apply create_all_mono.
    now apply delete_all_keeps_others.
  - intros v [H|H]%create_all_stored.
    + left. now apply (delete_all_stored uris a v).
    + right. now rewrite <- Hposts.
  - apply create_all_NoDup. now apply delete_all_NoDup.
Qed.

Lemma handleEvent_stores_the_batch_witness :
  let after :=
    stored_after
      (Subscription.handleEvent (fun _ => "{}") (fun _ => 1700000000000)
         (fun _ => "id") (Subscription.Commit mixed_batch)
         (through (holding postgresql ten_recent_posts []) Schema.migrated)) in
  (forall c, In c (Subscription.creates mixed_batch) ->
             In (Subscription.uri c) after) /\
  (forall u, In u (map Subscription.del_uri (Subscription.deletes mixed_batch)) ->
             ~ In u (map Subscription.uri (Subscription.creates mixed_batch)) ->
             ~ In u after) /\
  (forall v, In v (stored (holding postgresql ten_recent_posts [])) ->
             ~ In v (map Subscription.del_uri (Subscription.deletes mixed_batch)) ->
             In v after) /\
  (forall v, In v after ->
             In v (stored (holding postgresql ten_recent_posts [])) \/
             In v (map Subscription.uri (Subscription.creates mixed_batch))) /\
  NoDup after.
Proof.
  apply (handleEvent_stores_the_batch (fun _ => "{}")
           (fun _ => 1700000000000) (fun _ => "id") mixed_batch
           (holding postgresql ten_recent_posts []) Schema.migrated).
  - reflexivity.
  - vm_compute. repeat (constructor; [cbn; intuition discriminate|]).
    constructor.
  - intros _. repeat constructor.
Defined.

(** *** parseInt reads what toString writes *)

Lemma digits_value_revapp d : forall d',
  digits_value (Z.of_N (DecimalPos.Unsigned.of_lu d')) d
  = Z.of_N (DecimalPos.Unsigned.of_lu (Decimal.revapp d d')).
Proof.
  induction d; intros d'; cbn [digits_value Decimal.revapp];
    [reflexivity|..]; rewrite <- IHd; f_equal;
    cbn [DecimalPos.Unsigned.of_lu]; lia.
Qed.

Lemma digits_value_of_uint d : digits_value 0 d = Z.of_uint d.
Proof.
  unfold Z.of_uint. rewrite DecimalPos.Unsigned.of_uint_alt.
  exact (digits_value_revapp d Decimal.Nil).
Qed.

Lemma leading_digits_seen d acc :
  JS.leading_digits acc true (NilEmpty.string_of_uint d)
  = Some (digits_value acc d).
Proof.
  revert acc. induction d; intros acc;
    cbn [NilEmpty.string_of_uint JS.leading_digits digits_value];
    [reflexivity|..];
    (match goal with
     | |- context [JS.digit_val ?c] =>
         change (JS.digit_val c) with (Some (Z.of_N (N_of_ascii c) - 48))
     end);
    cbv iota; rewrite <- IHd; f_equal; vm_compute (Z.of_N _ - 48); lia.
Qed.

Lemma parseInt_digits d :
  d <> Decimal.Nil ->
  JS.parseInt (NilEmpty.string_of_uint d) = Some (digits_value 0 d).
Proof.
  destruct d; intros Hd; [contradiction|..];
    unfold JS.parseInt; cbn [NilEmpty.string_of_uint JS.skip_white];
    (match goal with
     | |- context [JS.is_white ?c] =>
         change (JS.is_white c) with false
     end); cbv iota;
    (match goal with
     | |- context [Ascii.eqb ?c "-"] =>
         change (Ascii.eqb c "-") with false;
         change (Ascii.eqb c "+") with false
     end); cbv iota;
    cbn [JS.leading_digits];
    (match goal with
     | |- context [JS.digit_val ?c] =>
         change (JS.digit_val c) with (Some (Z.of_N (N_of_ascii c) - 48))
     end);
    cbv iota; rewrite leading_digits_seen; reflexivity.
Qed.

Lemma parseInt_minus_digits d :
  d <> Decimal.Nil ->
  JS.parseInt (String "-" (NilEmpty.string_of_uint d))
  = Some (- digits_value 0 d).
Proof.
  intros Hd. unfold JS.parseInt. cbn [JS.skip_white].
  change (JS.is_white "-") with false. cbv iota.
  change (Ascii.eqb "-" "-") with true. cbv iota.
  destruct d; [contradiction|..];
    cbn [NilEmpty.string_of_uint JS.leading_digits];
    (match goal with
     | |- context [JS.digit_val ?c] =>
         change (JS.digit_val c) with (Some (Z.of_N (N_of_ascii c) - 48))
     end);
    cbv iota; rewrite leading_digits_seen; reflexivity.
Qed.

(** parseInt(n.toString(10), 10) is n. *)
Lemma parseInt_toString n : JS.parseInt (JS.Number_toString n) = Some n.
Proof.
  unfold JS.Number_toString.
  rewrite <- (DecimalZ.of_to n) at 2.
  destruct n as [|p|p]; cbn [Z.to_int NilZero.string_of_int Z.of_int].
  - reflexivity.
  - pose proof (DecimalPos.Unsigned.to_uint_nonnil p) as Hp.
    unfold NilZero.string_of_uint.
    destruct (Pos.to_uint p) eqn:E; [contradiction| ..];
      rewrite <- E in *; rewrite parseInt_digits by exact Hp;
      now rewrite digits_value_of_uint.
  - pose proof (DecimalPos.Unsigned.to_uint_nonnil p) as Hp.
    unfold NilZero.string_of_uint.
    destruct (Pos.to_uint p) eqn:E; [contradiction| ..];
      rewrite <- E in *; rewrite parseInt_minus_digits by exact Hp;
      now rewrite digits_value_of_uint.
Qed.

(** *** The handler on the rows the pipeline writes *)

Lemma toString_truthy n : JS.truthy (JS.Number_toString n) = true.
Proof.
  unfold JS.truthy. destruct (String.eqb_spec (JS.Number_toString n) "") as [E|];
    [|reflexivity].
  pose proof (parseInt_toString n) as H. rewrite E in H. discriminate H.
Qed.

(** The time string the handler compares with, for a cursor it wrote. *)
Lemma handler_cursor t :
  Z.abs t <= JS.maxTime ->
  match JS.given (Some (JS.Number_toString t)) with
  | Some c => JS.toISOString (JS.Date_of_number (JS.parseInt c))
  | None => None
  end = Some (JS.format_time t).
Proof.
  intros Ht. unfold JS.given, JS.or_undefined. rewrite toString_truthy.
  rewrite parseInt_toString. unfold JS.Date_of_number, JS.TimeClip.
  now rewrite (proj2 (Z.leb_le _ _) Ht).
Qed.

Lemma before_row p q :
  indexed_in_four_digit_year p = true -> indexed_in_four_digit_year q = true ->
  WhatsAlf.before (row p) (row q) = before_post p q.
Proof.
  unfold indexed_in_four_digit_year, WhatsAlf.before, before_post, row,
    Schema.row_of, time.
  cbn [Schema.indexedAt Schema.cid].
  destruct (indexedAt p) as [a|]; [|discriminate].
  destruct (indexedAt q) as [b|]; [|discriminate].
  intros Ha Hb. now rewrite JSFacts.format_time_compare.
Qed.

Lemma sorted_time_inj (P : list PostData) p q :
  StronglySorted (fun a b => time b < time a) P ->
  In p P -> In q P -> time p = time q -> p = q.
Proof.
  induction 1 as [|x P Hs IH Hx]; [contradiction|].
  pose proof (proj1 (Forall_forall _ _) Hx) as Hlt.
  intros [->|Hp] [->|Hq] E; try reflexivity.
  - specialize (Hlt q Hq). lia.
  - specialize (Hlt p Hp). lia.
  - now apply IH.
Qed.

(** A post indexed in a four-digit year has a valid indexedAt. *)
Lemma four_digit_time p :
  indexed_in_four_digit_year p = true ->
  indexedAt p = Some (time p) /\ four_digit_year (time p) = true /\
  Z.abs (time p) <= JS.maxTime.
Proof.
  unfold indexed_in_four_digit_year, time.
  destruct (indexedAt p) as [t|]; [|discriminate].
  intros H. repeat split; [exact H|now apply four_digit_year_valid].
Qed.

Section Rows.

Variables (store P : list PostData).

Hypothesis years : Forall (fun p => indexed_in_four_digit_year p = true) P.
Hypothesis sorted : StronglySorted (fun a b => time b < time a) P.
Hypothesis stored_posts : Permutation store P.

Lemma store_In p : In p store -> In p P.
Proof. now apply Permutation_in. Qed.

(** The rows the query of the handler fetches, read on the posts. *)
Lemma fetched_rows (bound : option Z) params Q :
  match bound with Some t => four_digit_year t = true | None => True end ->
  StronglySorted (fun a b => time b < time a) Q ->
  Permutation
    (Engine.where_ (option_map (fun t p => time p <? t) bound) store) Q ->
  WhatsAlf.fetched (option_map JS.format_time bound) params (map row store)
  = firstn (WhatsAlf.fetchLimit params) (map row Q).
Proof.
  intros Hb HQ Hperm. unfold WhatsAlf.fetched. f_equal.
  assert (Hw : Engine.where_
                 (option_map
                    (fun c r => String.ltb (Schema.indexedAt r) c)
                    (option_map JS.format_time bound)) (map row store)
               = map row (Engine.where_
                            (option_map (fun t p => time p <? t) bound) store)).
  { destruct bound as [t|]; cbn [option_map Engine.where_]; [|reflexivity].
    rewrite filter_map_comm. f_equal.
    apply (filter_ext_forall (fun p => indexed_in_four_digit_year p = true)).
    - apply Forall_forall. intros p Hp%store_In.
      exact (proj1 (Forall_forall _ _) years p Hp).
    - intros p Hp. unfold indexed_in_four_digit_year, row, Schema.row_of, time in *.
      cbn [Schema.indexedAt].
      destruct (indexedAt p) as [a|]; [|discriminate].
      now apply JSFacts.format_time_ltb. }
  rewrite Hw.
  set (kept := Engine.where_ _ store) in *.
  assert (Hk : forall p, In p kept -> In p P).
  { intros p Hp. apply store_In. now apply where_In in Hp. }
  rewrite (order_by_desc_map row (fun p q => time p <? time q)).
  - f_equal. now apply (order_by_desc_unique time).
  - intros x y Hx Hy.
    rewrite before_row
      by (apply (proj1 (Forall_forall _ _) years); now apply Hk).
    unfold before_post. destruct (Z.compare_spec (time x) (time y)) as [E|E|E].
    + rewrite (sorted_time_inj P x y sorted (Hk x Hx) (Hk y Hy) E).
      rewrite string_ltb_irrefl. symmetry. apply Z.ltb_irrefl.
    + symmetry. now apply Z.ltb_lt.
    + symmetry. apply Z.ltb_ge. lia.
Qed.

End Rows.

(** *** Paging through the filtered feed *)

Lemma last_item_snoc {A} (l : list A) x :
  JS.last_item l = Some x -> exists q, l = q ++ [x].
Proof.
  induction l as [|y [|z l] IH]; cbn [JS.last_item]; [discriminate| |].
  - intros [= ->]. now exists [].
  - intros H. destruct (IH H) as (q & E). exists (y :: q).
    cbn [app]. now rewrite <- E.
Qed.

(** A page cut from the rows that pass the filter ends at a row of the
    list: the rows that pass before it are the rest of the page. *)
Lemma page_ends_at {A} (f : A -> bool) (l : list A) : forall L q x,
  firstn L (filter f l) = q ++ [x] ->
  exists a b, l = a ++ x :: b /\ filter f a = q /\ f x = true.
Proof.
  induction l as [|y l IH]; intros L q x H.
  - cbn in H. rewrite firstn_nil in H. now destruct q.
  - cbn [filter] in H. destruct (f y) eqn:Ey.
    + destruct L as [|L]; [now destruct q|]. cbn [firstn] in H.
      destruct q as [|y' q]; cbn [app] in H.
      * injection H as -> H. exists [], l. now repeat split.
      * injection H as <- H. destruct (IH L q x H) as (a & b & -> & <- & Hx).
        exists (y :: a), b. cbn [filter app]. rewrite Ey. now repeat split.
    + destruct (IH L q x H) as (a & b & -> & <- & Hx).
      exists (y :: a), b. cbn [filter app]. rewrite Ey. now repeat split.
Qed.

Lemma window_ends_at {A} (f : A -> bool) (l : list A) F L q x :
  firstn L (filter f (firstn F l)) = q ++ [x] ->
  exists a b, l = a ++ x :: b /\ filter f a = q /\ f x = true.
Proof.
  intros (a & b & E & Hq & Hx)%page_ends_at.
  exists a, (b ++ skipn F l). split; [|now split].
  rewrite <- (firstn_skipn F l) at 1. rewrite E, <- app_assoc. reflexivity.
Qed.

Section Feed.

Variables (store P : list PostData) (db : Schema.DatabaseSchema) (n : nat).

Hypothesis years : Forall (fun p => indexed_in_four_digit_year p = true) P.
Hypothesis sorted : StronglySorted (fun a b => time b < time a) P.
Hypothesis stored_posts : Permutation store P.
Hypothesis table : Schema.post db = map row store.

Let params (cursor : option string) : WhatsAlf.QueryParams :=
  {| WhatsAlf.feed := "whats-alf"; WhatsAlf.limit := S n;
     WhatsAlf.cursor := cursor |}.

(** Where a caller stands after the first [i] posts of P. *)
Let standing (i : nat) (cursor : option string) : Prop :=
  (i = 0%nat /\ cursor = None) \/
  (exists k pk, i = S k /\ nth_error P k = Some pk /\
                cursor = Some (JS.Number_toString (time pk))).

Let page (i : nat) : list Schema.Post :=
  firstn (S n)
    (filter WhatsAlf.is_alf
       (firstn (WhatsAlf.fetchLimit (params None)) (map row (skipn i P)))).

Lemma handler_standing i cursor :
  standing i cursor ->
  WhatsAlf.handler db (params cursor)
  = inr {| WhatsAlf.out_cursor :=
             option_map WhatsAlf.cursor_of (JS.last_item (page i));
           WhatsAlf.out_feed := map skeleton (page i) |}.
Proof.
  intros [[-> ->]|(k & pk & -> & Hk & ->)]; unfold WhatsAlf.handler.
  - cbn [params WhatsAlf.cursor JS.given JS.or_undefined].
    unfold WhatsAlf.limitedPosts. rewrite table.
    rewrite (fetched_rows store P years sorted stored_posts None _ P I sorted
               stored_posts).
    reflexivity.
  - cbn [params WhatsAlf.cursor]. unfold JS.given, JS.or_undefined.
    rewrite toString_truthy, parseInt_toString.
    pose proof (nth_error_In _ _ Hk) as Hin.
    pose proof (proj1 (Forall_forall _ _) years pk Hin) as Hy.
    destruct (four_digit_time pk Hy) as (Et & Hfour & Ht).
    unfold JS.Date_of_number, JS.TimeClip.
    rewrite (proj2 (Z.leb_le _ _) Ht). cbn [JS.toISOString].
    unfold WhatsAlf.limitedPosts. rewrite table.
    rewrite (fetched_rows store P years sorted stored_posts
               (Some (time pk)) _ (skipn (S k) P) Hfour).
    + reflexivity.
    + rewrite <- (sorted_filter_below P k pk sorted Hk).
      now apply sorted_filter.
    + cbn [option_map Engine.where_].
      rewrite <- (sorted_filter_below P k pk sorted Hk).
      now apply perm_filter.
Qed.

Lemma pages_from_standing calls : forall i cursor,
  standing i cursor ->
  exists m,
    List.concat (alf_pages calls (S n) cursor db)
    = map skeleton
        (firstn m (filter WhatsAlf.is_alf (map row (skipn i P)))).
Proof.
  induction calls as [|calls IH]; intros i cursor Hst; [now exists 0%nat|].
  cbn [alf_pages]. fold (params cursor).
  rewrite (handler_standing i cursor Hst).
  cbn [WhatsAlf.out_feed WhatsAlf.out_cursor].
  destruct (JS.last_item (page i)) as [x|] eqn:El; cbn [option_map List.concat].
  - destruct (last_item_snoc _ _ El) as (q & Eq).
    pose proof Eq as Hw. unfold page in Hw.
    apply window_ends_at in Hw. destruct Hw as (a & b & Erows & Hq & Hx).
    apply map_eq_app in Erows.
    destruct Erows as (Qa & Qrest & EQ & <- & Erest).
    apply map_eq_cons in Erest.
    destruct Erest as (p & Qb & -> & <- & <-).
    assert (Hnth : nth_error P (i + List.length Qa) = Some p).
    { rewrite <- nth_error_skipn, EQ.
      rewrite nth_error_app2 by lia. now rewrite Nat.sub_diag. }
    assert (Hskip : skipn (S (i + List.length Qa)) P = Qb).
    { replace (S (i + List.length Qa)) with (S (List.length Qa) + i)%nat by lia.
      rewrite <- skipn_skipn, EQ.
      change (S (List.length Qa)) with (1 + List.length Qa)%nat.
      rewrite <- skipn_skipn, skipn_app, skipn_all, Nat.sub_diag.
      reflexivity. }
    pose proof (proj1 (Forall_forall _ _) years p (nth_error_In _ _ Hnth))
      as Hy.
    destruct (four_digit_time p Hy) as (_ & _ & Ht).
    rewrite (cursor_of_format_time (row p) (time p) Ht eq_refl).
    destruct (IH (S (i + List.length Qa))
                 (Some (JS.Number_toString (time p)))) as (m & Em).
    { right. now exists (i + List.length Qa)%nat, p. }
    rewrite Em, Hskip, <- map_app.
    exists (List.length (page i) + m)%nat. f_equal.
    rewrite EQ, map_app, filter_app. cbn [map filter]. rewrite Hx, Hq.
    rewrite Eq.
    change (q ++ row p :: filter WhatsAlf.is_alf (map row Qb))
      with (q ++ [row p] ++ filter WhatsAlf.is_alf (map row Qb)).
    rewrite app_assoc. now rewrite firstn_app_2.
  - exists 0%nat. apply last_item_nil in El. rewrite El. reflexivity.
Qed.

End Feed.

(** X16.  The post table holds the rows of posts with pairwise different
    indexedAt, all in four-digit years.  A caller that pages
    through the handler with a limit n > 0, passing each call the cursor of
    the call before, is given a run of the posts that pass the filter,
    newest first, from the newest on: no post comes twice and no post that
    passes is skipped between two posts that are returned. *)
Theorem handler_pages_are_consecutive
    (store P : list PostData) (db : Schema.DatabaseSchema) (n calls : nat) :
  Forall (fun p => indexed_in_four_digit_year p = true) P ->
  StronglySorted (fun a b => time b < time a) P ->
  Permutation store P ->
  Schema.post db = map row store ->
  exists m,
    List.concat (alf_pages calls (S n) None db)
    = map skeleton (firstn m (filter WhatsAlf.is_alf (map row P))).
Proof.
  intros Hy Hs Hp Ht.
  destruct (pages_from_standing store P db n Hy Hs Hp Ht calls 0 None)
    as (m & Em); [left; now split|].
  now exists m.
Qed.

Lemma handler_pages_are_consecutive_witness :
  exists m,
    List.concat (alf_pages 3 2 None talk_table)
    = map skeleton (firstn m (filter WhatsAlf.is_alf (map row talk))).
Proof.
  apply (handler_pages_are_consecutive (rev talk) talk talk_table 1 3).
  - repeat constructor.
  - repeat (constructor; [|repeat (constructor; [cbn; lia|])]); constructor.
  - symmetry. apply Permutation_rev.
  - reflexivity.
Defined.

(** *** The filter on a record with a text *)

Lemma parse_chars_plain t rest :
  plain_text t = true ->
  JS.parse_chars (append t (String JS.quote rest)) = Some (t, rest).
Proof.
  induction t as [|c t IH]; intros Hp.
  - cbn [append JS.parse_chars]. now rewrite Ascii.eqb_refl.
  - cbn [plain_text] in Hp. apply andb_prop in Hp. destruct Hp as [Hc Ht].
    unfold plain in Hc.
    apply andb_prop in Hc. destruct Hc as [Hc H32].
    apply andb_prop in Hc. destruct Hc as [Hq Hb].
    apply negb_true_iff in Hq, Hb, H32.
    cbn [append JS.parse_chars]. rewrite Hq, Hb, H32, (IH Ht). reflexivity.
Qed.

Lemma parse_value_text_payload f t :
  plain_text t = true ->
  JS.parse_value (S (S (S f))) (text_payload t)
  = Some (JS.JObject [("text", JS.JString t)], "").
Proof.
  intros Hp. unfold text_payload, dq. cbn [append].
  pose proof (parse_chars_plain t "}" Hp) as E.
  let q := eval vm_compute in JS.quote in change JS.quote with q in E.
  cbn. rewrite E. reflexivity.
Qed.

Lemma JSON_parse_text_payload t :
  plain_text t = true ->
  JS.JSON_parse (text_payload t)
  = Some (JS.JObject [("text", JS.JString t)]).
Proof.
  intros Hp. unfold JS.JSON_parse.
  assert (Hf : exists f, String.length (text_payload t) = S (S f))
    by (unfold text_payload, dq; cbn [append String.length]; eauto).
  destruct Hf as (f & ->).
  now rewrite (parse_value_text_payload f t Hp).
Qed.

Lemma lower_a c : JS.lower c = "a"%char <-> (c = "a" \/ c = "A")%char.
Proof.
  split.
  - destruct c as [[] [] [] [] [] [] [] []]; vm_compute; intros H;
      try discriminate H; tauto.
  - now intros [->| ->].
Qed.

Lemma lower_l c : JS.lower c = "l"%char <-> (c = "l" \/ c = "L")%char.
Proof.
  split.
  - destruct c as [[] [] [] [] [] [] [] []]; vm_compute; intros H;
      try discriminate H; tauto.
  - now intros [->| ->].
Qed.

Lemma lower_f c : JS.lower c = "f"%char <-> (c = "f" \/ c = "F")%char.
Proof.
  split.
  - destruct c as [[] [] [] [] [] [] [] []]; vm_compute; intros H;
      try discriminate H; tauto.
  - now intros [->| ->].
Qed.

Lemma prefix_alf_lower t :
  String.prefix "alf" (JS.toLowerCase t) = true <->
  exists x y z rest,
    t = String x (String y (String z rest)) /\
    JS.lower x = "a"%char /\ JS.lower y = "l"%char /\ JS.lower z = "f"%char.
Proof.
  split.
  - destruct t as [|x [|y [|z rest]]]; cbn [JS.toLowerCase String.prefix];
      try discriminate;
      repeat match goal with
             | |- context [ascii_dec ?a ?b] => destruct (ascii_dec a b)
             end; try discriminate.
    intros _. now exists x, y, z, rest.
  - intros (x & y & z & rest & -> & Hx & Hy & Hz).
    cbn [JS.toLowerCase String.prefix]. rewrite Hx, Hy, Hz.
    repeat match goal with
           | |- context [ascii_dec ?a ?b] => destruct (ascii_dec a b)
           end; try congruence.
    now destruct (JS.toLowerCase rest).
Qed.

Lemma includes_alf_lower t :
  JS.includes (JS.toLowerCase t) "alf" = true <-> mentions_alf t.
Proof.
  unfold mentions_alf. induction t as [|c t IH].
  - split; [discriminate|].
    intros ([|? ?] & x & y & z & rest & E & _); discriminate E.
  - change (JS.includes (JS.toLowerCase (String c t)) "alf")
      with (String.prefix "alf" (JS.toLowerCase (String c t))
            || JS.includes (JS.toLowerCase t) "alf").
    rewrite orb_true_iff, prefix_alf_lower, IH. split.
    + intros [(x & y & z & rest & E & Hx & Hy & Hz)
             |(pre & x & y & z & rest & E & Hx & Hy & Hz)].
      * exists "", x, y, z, rest. cbn [append].
        apply lower_a in Hx. apply lower_l in Hy. apply lower_f in Hz.
        now repeat split.
      * exists (String c pre), x, y, z, rest. cbn [append]. rewrite E.
        now repeat split.
    + intros ([|c' pre] & x & y & z & rest & E & Hx & Hy & Hz);
        cbn [append] in E.
      * left. exists x, y, z, rest.
        apply lower_a in Hx. apply lower_l in Hy. apply lower_f in Hz.
        now repeat split.
      * right. injection E as -> ->. now exists pre, x, y, z, rest.
Qed.

(** X17.  A post whose record is the JSON object with the one member text,
    the text holding no quote, backslash or control character, passes the
    filter exactly when its text holds the letters a, l, f in a row, each
    in either case. *)
Theorem is_alf_on_a_text (r : Schema.Post) (t : string) :
  Schema.recordJson r = text_payload t -> plain_text t = true ->
  WhatsAlf.is_alf r = true <-> mentions_alf t.
Proof.
  intros E Hp. unfold WhatsAlf.is_alf.
  rewrite E, (JSON_parse_text_payload t Hp).
  cbn [JS.get_member]. rewrite String.eqb_refl.
  rewrite <- includes_alf_lower. rewrite andb_true_iff. split; [tauto|].
  intros H. split; [|exact H].
  destruct t; [discriminate H|reflexivity].
Qed.

Lemma is_alf_on_a_text_witness :
  WhatsAlf.is_alf (row (talking 1 1700000000000 "Alf the alien")) = true <->
  mentions_alf "Alf the alien".
Proof.
  apply (is_alf_on_a_text (row (talking 1 1700000000000 "Alf the alien"))
           "Alf the alien"); reflexivity.
Defined.

(** *** Two pages of the filtered feed on posts that may tie *)

Section SortedByOrder.

Context {A : Type} (key : A -> Z) (lt : A -> A -> bool).

Hypothesis lt_below : forall x y, lt x y = true -> key x <= key y.
Hypothesis lt_above : forall x y, lt x y = false -> key y <= key x.

Lemma insert_desc_In x l y :
  In y (Engine.insert_desc lt x l) -> y = x \/ In y l.
Proof.
  induction l as [|z l IH]; cbn [Engine.insert_desc].
  - intros [<-|[]]. now left.
  - destruct (lt x z).
    + intros [<-|H]; [right; now left|].
      destruct (IH H); [now left|right; now right].
    + intros [<-|H]; [now left|now right].
Qed.

Lemma insert_desc_ordered x l :
  StronglySorted (fun a b => key b <= key a) l ->
  StronglySorted (fun a b => key b <= key a) (Engine.insert_desc lt x l).
Proof.
  induction 1 as [|z l Hs IH Hz]; cbn [Engine.insert_desc].
  - repeat constructor.
  - pose proof (proj1 (Forall_forall _ _) Hz) as Hle.
    destruct (lt x z) eqn:E.
    + constructor; [exact IH|]. apply Forall_forall.
      intros y [->|Hy]%insert_desc_In; [now apply lt_below|].
      exact (Hle y Hy).
    + constructor; [now constructor|]. apply Forall_forall.
      intros y [<-|Hy]; [now apply lt_above|].
      pose proof (Hle y Hy) as H1. pose proof (lt_above x z E) as H2.
      cbn beta in H1. lia.
Qed.

Lemma order_by_desc_ordered l :
  StronglySorted (fun a b => key b <= key a) (Engine.order_by_desc lt l).
Proof.
  induction l as [|x l IH]; cbn [Engine.order_by_desc]; [constructor|].
  now apply insert_desc_ordered.
Qed.

End SortedByOrder.

Lemma sorted_firstn {A} (R : A -> A -> Prop) n l :
  StronglySorted R l -> StronglySorted R (firstn n l).
Proof.
  intros H. revert n. induction H as [|x l Hs IH Hx]; intros [|n];
    cbn [firstn]; try constructor; [apply IH|].
  apply Forall_forall. intros y Hy%In_firstn.
  now apply (proj1 (Forall_forall _ _) Hx).
Qed.

Lemma sorted_filter_gen {A} (R : A -> A -> Prop) f l :
  StronglySorted R l -> StronglySorted R (filter f l).
Proof.
  induction 1 as [|x l Hs IH Hx]; cbn [filter]; [constructor|].
  destruct (f x); [|exact IH]. constructor; [exact IH|].
  apply Forall_forall. intros y [Hy _]%filter_In.
  now apply (proj1 (Forall_forall _ _) Hx).
Qed.

Lemma sorted_last_least {A} (key : A -> Z) l x :
  StronglySorted (fun a b => key b <= key a) l ->
  JS.last_item l = Some x -> forall y, In y l -> key x <= key y.
Proof.
  intros Hs Hl y Hy. apply last_item_snoc in Hl. destruct Hl as (q & ->).
  apply in_app_or in Hy. destruct Hy as [Hy|[<-|[]]]; [|lia].
  induction q as [|z q IH]; [contradiction|].
  cbn [app] in Hs. inversion_clear Hs as [|? ? Hs' Hz].
  destruct Hy as [<-|Hy]; [|now apply IH].
  apply (proj1 (Forall_forall _ _) Hz). apply in_or_app. right. now left.
Qed.

Lemma before_post_below p q : before_post p q = true -> time p <= time q.
Proof.
  unfold before_post. destruct (Z.compare_spec (time p) (time q));
    intros Hb; try lia; discriminate Hb.
Qed.

Lemma before_post_above p q : before_post p q = false -> time q <= time p.
Proof.
  unfold before_post. destruct (Z.compare_spec (time p) (time q));
    intros Hb; try lia; discriminate Hb.
Qed.

Lemma NoDup_map_inj {A B} (g : A -> B) l x y :
  NoDup (map g l) -> In x l -> In y l -> g x = g y -> x = y.
Proof.
  induction l as [|z l IH]; [contradiction|]. cbn [map].
  intros Hn. inversion_clear Hn as [|? ? Hz Hl].
  intros [->|Hx] [->|Hy] E; try reflexivity.
  - exfalso. apply Hz. rewrite E. now apply in_map.
  - exfalso. apply Hz. rewrite <- E. now apply in_map.
  - now apply IH.
Qed.

Section Ties.

Variables (store : list PostData) (db : Schema.DatabaseSchema).

Hypothesis years : Forall (fun p => indexed_in_four_digit_year p = true) store.
Hypothesis unique : NoDup (map uri store).
Hypothesis table : Schema.post db = map row store.

(** The rows a call returns are the rows of stored posts, newest first. *)
Lemma limitedPosts_posts timeStr params :
  exists Q,
    WhatsAlf.limitedPosts timeStr params (map row store) = map row Q /\
    StronglySorted (fun a b => time b <= time a) Q /\
    (forall q, In q Q ->
       In q store /\
       forall s, timeStr = Some s ->
                 String.ltb (JS.format_time (time q)) s = true).
Proof.
  unfold WhatsAlf.limitedPosts, WhatsAlf.fetched.
  set (f := option_map _ timeStr).
  rewrite where_map.
  set (kept := Engine.where_ _ store).
  assert (Hk : forall p, In p kept ->
                 In p store /\
                 forall s, timeStr = Some s ->
                           String.ltb (JS.format_time (time p)) s = true).
  { intros p Hp. split; [now apply where_In in Hp|].
    intros s ->. unfold kept, f in Hp. cbn [option_map Engine.where_] in Hp.
    apply filter_In in Hp. destruct Hp as [_ Hp]. exact Hp. }
  rewrite (order_by_desc_map row before_post).
  2:{ intros x y Hx Hy.
      apply before_row; apply (proj1 (Forall_forall _ _) years);
        now apply Hk. }
  rewrite firstn_map, filter_map_comm, firstn_map.
  eexists. split; [reflexivity|]. split.
  - apply sorted_firstn, sorted_filter_gen, sorted_firstn.
    apply (order_by_desc_ordered time before_post);
      [apply before_post_below|apply before_post_above].
  - intros q Hq%In_firstn. apply filter_In in Hq. destruct Hq as [Hq _].
    apply In_firstn, order_by_desc_In in Hq. now apply Hk.
Qed.

(** A call with the cursor of a call returns, and returns other posts. *)
Lemma next_page_is_disjoint params out1 c limit2 :
  WhatsAlf.handler db params = inr out1 ->
  WhatsAlf.out_cursor out1 = Some c ->
  exists out2,
    WhatsAlf.handler db {| WhatsAlf.feed := WhatsAlf.feed params;
                           WhatsAlf.limit := limit2;
                           WhatsAlf.cursor := Some c |} = inr out2 /\
    forall e, In e (WhatsAlf.out_feed out1) -> ~ In e (WhatsAlf.out_feed out2).
Proof.
  intros H1 Hc.
  assert (Hfirst : exists ts, out1 =
            {| WhatsAlf.out_cursor :=
                 option_map WhatsAlf.cursor_of
                   (JS.last_item (WhatsAlf.limitedPosts ts params
                                    (map row store)));
               WhatsAlf.out_feed :=
                 map (fun r => {| WhatsAlf.post := Schema.uri r |})
                   (WhatsAlf.limitedPosts ts params (map row store)) |}).
  { revert H1. unfold WhatsAlf.handler. rewrite table.
    destruct (JS.given (WhatsAlf.cursor params)) as [c0|].
    - destruct (JS.toISOString _) as [s|]; [|discriminate].
      intros [= <-]. now exists (Some s).
    - intros [= <-]. now exists None. }
  destruct Hfirst as (ts & ->). cbn [WhatsAlf.out_cursor WhatsAlf.out_feed] in *.
  destruct (limitedPosts_posts ts params) as (Q1 & E1 & Hs1 & HQ1).
  rewrite E1 in Hc |- *. rewrite last_item_map in Hc.
  destruct (JS.last_item Q1) as [px|] eqn:El; [|discriminate Hc].
  cbn [option_map] in Hc.
  assert (Hpx : In px store) by (apply HQ1; now apply last_item_In).
  pose proof (proj1 (Forall_forall _ _) years px Hpx) as Hyx.
  destruct (four_digit_time px Hyx) as (Ex & Fx & Htx).
  rewrite (cursor_of_format_time (row px) (time px) Htx eq_refl) in Hc.
  injection Hc as <-.
  unfold WhatsAlf.handler. cbn [WhatsAlf.cursor].
  unfold JS.given, JS.or_undefined.
  rewrite toString_truthy, parseInt_toString.
  unfold JS.Date_of_number, JS.TimeClip.
  rewrite (proj2 (Z.leb_le _ _) Htx). cbn [JS.toISOString].
  eexists. split; [reflexivity|]. cbn [WhatsAlf.out_feed]. rewrite table.
  set (params2 := {| WhatsAlf.feed := _; WhatsAlf.limit := limit2;
                     WhatsAlf.cursor := _ |}).
  destruct (limitedPosts_posts (Some (JS.format_time (time px))) params2)
    as (Q2 & E2 & _ & HQ2).
  rewrite E2. rewrite !map_map.
  intros e (q1 & <- & Hq1)%in_map_iff (q2 & E & Hq2)%in_map_iff.
  injection E as E. change (uri q2 = uri q1) in E.
  destruct (HQ1 q1 Hq1) as [Hin1 _]. destruct (HQ2 q2 Hq2) as [Hin2 Hlt].
  pose proof (NoDup_map_inj uri store q2 q1 unique Hin2 Hin1 E) as ->.
  pose proof (sorted_last_least time Q1 px Hs1 El q1 Hq1) as Hle.
  specialize (Hlt _ eq_refl).
  pose proof (proj1 (Forall_forall _ _) years q1 Hin1) as Hy1.
  destruct (four_digit_time q1 Hy1) as (_ & F1 & _).
  rewrite (JSFacts.format_time_ltb _ _ F1 Fx) in Hlt.
  apply Z.ltb_lt in Hlt. lia.
Qed.

End Ties.

(** X18.  The post table holds the rows of posts indexed in four-digit
    years, no uri twice; posts may share an indexedAt.  When a call of the
    handler returns a cursor, a call with that cursor returns too, and its
    feed holds no post of the feed of the first call: a caller that pages
    is never given a post twice. *)
Theorem handler_pages_do_not_overlap
    (store : list PostData) (db : Schema.DatabaseSchema)
    (params : WhatsAlf.QueryParams) (out1 : WhatsAlf.AlgoOutput)
    (c : string) (limit2 : nat) :
  Forall (fun p => indexed_in_four_digit_year p = true) store ->
  NoDup (map uri store) ->
  Schema.post db = map row store ->
  WhatsAlf.handler db params = inr out1 ->
  WhatsAlf.out_cursor out1 = Some c ->
  exists out2,
    WhatsAlf.handler db {| WhatsAlf.feed := WhatsAlf.feed params;
                           WhatsAlf.limit := limit2;
                           WhatsAlf.cursor := Some c |} = inr out2 /\
    forall e, In e (WhatsAlf.out_feed out1) -> ~ In e (WhatsAlf.out_feed out2).
Proof.
  intros Hy Hn Ht. now apply (next_page_is_disjoint store db Hy Hn Ht).
Qed.

Lemma handler_pages_do_not_overlap_witness :
  exists out2,
    WhatsAlf.handler tied_table
      {| WhatsAlf.feed := "whats-alf"; WhatsAlf.limit := 1;
         WhatsAlf.cursor := Some "1700000000000" |} = inr out2 /\
    forall e,
      In e [{| WhatsAlf.post :=
                 "at://did:example:alice/app.bsky.feed.post/1" |}] ->
      ~ In e (WhatsAlf.out_feed out2).
Proof.
  apply (handler_pages_do_not_overlap tied_talk tied_table
           {| WhatsAlf.feed := "whats-alf"; WhatsAlf.limit := 1;
              WhatsAlf.cursor := None |}
           {| WhatsAlf.out_cursor := Some "1700000000000";
              WhatsAlf.out_feed :=
                [{| WhatsAlf.post :=
                      "at://did:example:alice/app.bsky.feed.post/1" |}] |}
           "1700000000000" 1).
  - repeat constructor.
  - vm_compute. repeat (constructor; [cbn; intuition discriminate|]).
    constructor.
  - reflexivity.
  - vm_compute. reflexivity.
  - reflexivity.
Defined.

(** *** The feed over what the pipeline stored *)

Lemma delete_in_rows uris store :
  Subscription.delete_in uris (map row store)
  = map row (filter (fun p => negb (existsb (String.eqb (uri p)) uris)) store).
Proof. unfold Subscription.delete_in. now rewrite filter_map_comm. Qed.

Lemma insert_do_nothing_rows posts : forall store,
  Forall (fun p => indexed_in_four_digit_year p = true) posts ->
  Forall (fun p => indexed_in_four_digit_year p = true) store ->
  NoDup (map uri store) ->
  exists store',
    Subscription.insert_do_nothing (map row posts) (map row store)
    = map row store' /\
    Forall (fun p => indexed_in_four_digit_year p = true) store' /\
    NoDup (map uri store').
Proof.
  induction posts as [|p posts IH]; intros store Hp Hs Hn.
  - now exists store.
  - inversion_clear Hp as [|? ? Hp1 Hrest].
    cbn [map Subscription.insert_do_nothing]. unfold Schema.insert_post.
    change (Schema.uri (row p)) with (uri p). rewrite has_post_rows.
    destruct (Logical.has_post (uri p) store) eqn:E.
    + now apply IH.
    + change (map row store ++ [row p]) with (map row store ++ map row [p]).
      rewrite <- map_app. apply IH; [exact Hrest| |].
      * apply Forall_app. split; [exact Hs|now repeat constructor].
      * rewrite map_app. apply NoDup_app; [exact Hn|repeat constructor; cbn; tauto|].
        intros x Hx [<-|[]]. apply has_post_In in Hx. congruence.
Qed.

Lemma ingest_rows JSON_stringify batches : forall table store,
  Forall (fun b => forall i, four_digit_year (snd b i) = true) batches ->
  Schema.post table = map row store ->
  Forall (fun p => indexed_in_four_digit_year p = true) store ->
  NoDup (map uri store) ->
  exists store',
    Schema.post (ingest JSON_stringify batches table) = map row store' /\
    Forall (fun p => indexed_in_four_digit_year p = true) store' /\
    NoDup (map uri store').
Proof.
  induction batches as [|[ops now] batches IH]; intros table store Hb Ht Hs Hn.
  - now exists store.
  - inversion_clear Hb as [|? ? Hnow Hrest]. cbn [snd] in Hnow.
    cbn [ingest]. rewrite handleEvent_legacy. cbn [snd Subscription.db].
    destruct (insert_do_nothing_rows
                (Subscription.postsToCreate JSON_stringify now ops)
                (filter (fun p => negb (existsb (String.eqb (uri p))
                                          (Subscription.postsToDelete ops)))
                        store))
      as (store1 & E1 & Hs1 & Hn1).
    + apply Forall_forall. intros p Hp.
      rewrite postsToCreate_post_of in Hp. apply map_index_In in Hp.
      destruct Hp as (c & j & _ & ->). exact (Hnow j).
    + apply Forall_forall. intros p [Hp _]%filter_In.
      exact (proj1 (Forall_forall _ _) Hs p Hp).
    + now apply NoDup_map_filter.
    + apply (IH _ store1); try assumption.
      cbn [Schema.post]. now rewrite Ht, delete_in_rows.
Qed.

(** X19.  The feed over what the pipeline stored: the legacy table is
    empty at first and is written by handleEvent alone, commit after
    commit, at clocks in four-digit years.  Whatever the commits, when a
    call of the handler returns a cursor, a call with that cursor returns
    too and its feed holds no post of the first call's feed. *)
Theorem ingested_feed_pages_do_not_overlap
    (JSON_stringify : Subscription.PostLexicon -> string)
    (batches : list (Subscription.Operations * (nat -> Z)))
    (params : WhatsAlf.QueryParams) (out1 : WhatsAlf.AlgoOutput)
    (c : string) (limit2 : nat) :
  Forall (fun b => forall i, four_digit_year (snd b i) = true) batches ->
  let db := ingest JSON_stringify batches Schema.migrated in
  WhatsAlf.handler db params = inr out1 ->
  WhatsAlf.out_cursor out1 = Some c ->
  exists out2,
    WhatsAlf.handler db {| WhatsAlf.feed := WhatsAlf.feed params;
                           WhatsAlf.limit := limit2;
                           WhatsAlf.cursor := Some c |} = inr out2 /\
    forall e, In e (WhatsAlf.out_feed out1) -> ~ In e (WhatsAlf.out_feed out2).
Proof.
  intros Hb db.
  destruct (ingest_rows JSON_stringify batches Schema.migrated [] Hb eq_refl)
    as (store & Et & Hs & Hn); [constructor|constructor|].
  now apply (next_page_is_disjoint store db Hs Hn Et).
Qed.

Lemma ingested_feed_pages_do_not_overlap_witness :
  exists out2,
    WhatsAlf.handler (ingest text_only two_commits Schema.migrated)
      {| WhatsAlf.feed := "whats-alf"; WhatsAlf.limit := 1;
         WhatsAlf.cursor := Some "1700000060000" |} = inr out2 /\
    forall e,
      In e [{| WhatsAlf.post := Subscription.uri one_create |}] ->
      ~ In e (WhatsAlf.out_feed out2).
Proof.
  apply (ingested_feed_pages_do_not_overlap text_only two_commits
           {| WhatsAlf.feed := "whats-alf"; WhatsAlf.limit := 1;
              WhatsAlf.cursor := None |}
           {| WhatsAlf.out_cursor := Some "1700000060000";
              WhatsAlf.out_feed :=
                [{| WhatsAlf.post := Subscription.uri one_create |}] |}
           "1700000060000" 1).
  - repeat constructor.
  - vm_compute. reflexivity.
  - reflexivity.
Defined.

(** *** The migrations *)

Lemma existsb_false {A} (f : A -> bool) l :
  existsb f l = false <-> forall x, In x l -> f x = false.
Proof.
  induction l as [|y l IH]; cbn [existsb].
  - split; [intros _ x []|reflexivity].
  - rewrite orb_false_iff, IH. split.
    + intros [Hy Hl] x [<-|Hx]; [exact Hy|now apply Hl].
    + intros H. split; [apply H; now left|intros x Hx; apply H; now right].
Qed.

Lemma filter_app_last {A} (f : A -> bool) l y :
  (forall x, In x l -> f x = true) -> f y = false -> filter f (l ++ [y]) = l.
Proof.
  intros Hl Hy. rewrite filter_app. cbn [filter]. rewrite Hy, app_nil_r.
  now apply filter_all.
Qed.

Section Catalog.

Import Ddl.

Lemma table_eta x :
  {| table_name := table_name x; columns := columns x |} = x.
Proof. now destruct x. Qed.

Lemma find_table_In t c x :
  find_table t c = Some x -> In x (tables c) /\ table_name x = t.
Proof.
  unfold find_table. intros H. apply find_some in H.
  destruct H as [Hin E]. split; [exact Hin|now apply String.eqb_eq].
Qed.

(** In a well-formed catalog the table of a name is the only one. *)
Lemma the_table t c x y :
  NoDup (map table_name (tables c)) ->
  find_table t c = Some x -> In y (tables c) -> table_name y = t -> y = x.
Proof.
  intros Hn Hx Hy E. apply find_table_In in Hx. destruct Hx as [Hin Ex].
  apply (NoDup_map_inj table_name (tables c)); try assumption. congruence.
Qed.

Lemma set_columns_same t c x :
  NoDup (map table_name (tables c)) ->
  find_table t c = Some x -> set_columns t (columns x) c = c.
Proof.
  intros Hn Hx. unfold set_columns. destruct c as [T I]. cbn [tables indexes] in *.
  f_equal. rewrite <- (map_id T) at 2. apply map_ext_in. intros y Hy.
  destruct (String.eqb_spec (table_name y) t) as [E|E]; [|reflexivity].
  rewrite <- (the_table t {| tables := T; indexes := I |} x y Hn Hx Hy E).
  apply table_eta.
Qed.

Lemma set_columns_twice t cols1 cols2 c :
  set_columns t cols2 (set_columns t cols1 c) = set_columns t cols2 c.
Proof.
  unfold set_columns. cbn [tables indexes]. f_equal. rewrite map_map.
  apply map_ext. intros y.
  destruct (String.eqb (table_name y) t) eqn:E; cbn [table_name];
    now rewrite E.
Qed.

Lemma set_columns_names t cols c :
  map table_name (tables (set_columns t cols c)) = map table_name (tables c).
Proof.
  unfold set_columns. cbn [tables]. rewrite map_map. apply map_ext.
  intros y. now destruct (String.eqb (table_name y) t).
Qed.

Lemma find_table_set_columns t cols c x :
  find_table t c = Some x ->
  find_table t (set_columns t cols c)
  = Some {| table_name := table_name x; columns := cols |}.
Proof.
  unfold find_table, set_columns. cbn [tables].
  induction (tables c) as [|y T IH]; [discriminate|]. cbn [map find].
  destruct (String.eqb (table_name y) t) eqn:E; cbn [table_name].
  - rewrite E. now intros [= ->].
  - rewrite E. exact IH.
Qed.

Lemma has_table_set_columns n t cols c :
  has_table n (set_columns t cols c) = has_table n c.
Proof.
  unfold has_table, set_columns. cbn [tables].
  induction (tables c) as [|y T IH]; [reflexivity|].
  cbn [map existsb]. rewrite IH. f_equal.
  now destruct (String.eqb (table_name y) t).
Qed.

Lemma named_set_columns n t cols c :
  named n (set_columns t cols c) = named n c.
Proof.
  unfold named. now rewrite has_table_set_columns.
Qed.

Lemma has_column_app col cols more :
  has_column col cols = true -> has_column col (cols ++ more) = true.
Proof.
  unfold has_column. rewrite existsb_app. now intros ->.
Qed.

(** An index of a well-formed catalog on table [t] is on one of its
    columns. *)
Lemma index_column t c x i :
  well_formed c -> find_table t c = Some x ->
  In i (indexes c) -> on_table i = t ->
  has_column (on_column i) (columns x) = true.
Proof.
  intros [Hn Hi] Hx Hin E.
  destruct (Hi i Hin) as (y & Hy & Ey & Hc).
  now rewrite <- (the_table t c x y Hn Hx Hy) by congruence.
Qed.

Lemma not_indexed t col c x :
  well_formed c -> find_table t c = Some x ->
  has_column col (columns x) = false -> indexed t col c = false.
Proof.
  intros Hw Hx Hc. unfold indexed. apply existsb_false. intros i Hin.
  apply andb_false_iff.
  destruct (String.eqb_spec (on_table i) t) as [E|E]; [right|now left].
  apply String.eqb_neq. intros Ec.
  pose proof (index_column t c x i Hw Hx Hin E) as H. congruence.
Qed.

Lemma run_app l1 l2 c :
  run (l1 ++ l2) c
  = match run l1 c with
    | inl e => inl e
    | inr c1 => run l2 c1
    end.
Proof.
  revert c. induction l1 as [|s l1 IH]; intros c; [reflexivity|].
  cbn [app run]. destruct (s c) as [e|c1]; [reflexivity|apply IH].
Qed.

(** Statements taken back one by one, the last first. *)
Lemma run_mirror ups : forall downs c c1,
  Forall2 undoes ups (rev downs) ->
  well_formed c -> run ups c = inr c1 ->
  well_formed c1 /\ run downs c1 = inr c.
Proof.
  induction ups as [|s ups IH]; intros downs c c1 H Hw Hr.
  - inversion H as [E0 E|]. apply (f_equal (@rev Statement)) in E.
    rewrite rev_involutive in E. cbn in E. subst downs. cbn in Hr.
    injection Hr as <-. now split.
  - inversion H as [|? s' ? rest Hs Hrest E1 E2]. subst.
    assert (Ed : downs = rev rest ++ [s']).
    { apply (f_equal (@rev Statement)) in E2. rewrite rev_involutive in E2.
      now rewrite <- E2. }
    cbn [run] in Hr. destruct (s c) as [e|c2] eqn:Es; [discriminate|].
    destruct (Hs c c2 Hw Es) as [Hw2 Hback].
    destruct (IH (rev rest) c2 c1) as [Hw1 Hdown]; try assumption.
    { now rewrite rev_involutive. }
    split; [exact Hw1|]. rewrite Ed, run_app, Hdown. cbn [run].
    now rewrite Hback.
Qed.

Lemma createIndex_undone i t col : undoes (createIndex i t col) (dropIndex i).
Proof.
  intros c c1 [Hn Hi]. unfold createIndex, dropIndex.
  destruct (named i c) eqn:En; [discriminate|].
  destruct (find_table t c) as [x|] eqn:Ex; [|discriminate].
  destruct (has_column col (columns x)) eqn:Ec; [|discriminate].
  intros [= <-]. apply orb_false_iff in En. destruct En as [_ En].
  split.
  - split; [exact Hn|]. cbn [indexes tables].
    intros j [Hj|[<-|[]]]%in_app_or; [now apply Hi|].
    exists x. apply find_table_In in Ex. destruct Ex as [Hin E].
    now repeat split.
  - unfold has_index in *. cbn [indexes tables].
    rewrite existsb_app. cbn [existsb index_name]. rewrite String.eqb_refl.
    rewrite orb_true_r. f_equal. destruct c as [T I]. f_equal.
    cbn [indexes] in *. apply filter_app_last.
    + intros j Hj. apply negb_true_iff.
      exact (proj1 (existsb_false _ _) En j Hj).
    + cbn [index_name]. now rewrite String.eqb_refl.
Qed.

Lemma addColumn_undone t col :
  primaryKey col = false ->
  undoes (addColumns t [col]) (dropColumn t (name col)).
Proof.
  intros Hpk c c1 Hw. pose proof Hw as [Hn Hi].
  unfold addColumns, dropColumn. cbn [add_columns].
  destruct (find_table t c) as [x|] eqn:Ex; [|discriminate].
  destruct (has_column (name col) (columns x)) eqn:Ec; [discriminate|].
  intros [= <-]. split.
  - split; [now rewrite set_columns_names|].
    intros j Hj. cbn [set_columns indexes] in Hj.
    destruct (Hi j Hj) as (y & Hy & Ey & Hc).
    destruct (String.eqb_spec (table_name y) t) as [E|E].
    + exists {| table_name := table_name y; columns := columns x ++ [col] |}.
      repeat split; [|exact Ey|].
      * cbn [set_columns tables]. apply in_map_iff. exists y.
        split; [|exact Hy]. now rewrite (proj2 (String.eqb_eq _ _) E).
      * cbn [columns]. apply has_column_app.
        now rewrite <- (the_table t c x y Hn Ex Hy E).
    + exists y. repeat split; [|exact Ey|exact Hc].
      cbn [set_columns tables]. apply in_map_iff. exists y.
      split; [|exact Hy]. now rewrite (proj2 (String.eqb_neq _ _) E).
  - rewrite (find_table_set_columns t _ c x Ex). cbn [columns].
    rewrite find_app_last;
      [|exact (proj1 (existsb_false _ _) Ec)|apply String.eqb_refl].
    rewrite Hpk. cbn [orb].
    assert (Hidx : indexed t (name col) (set_columns t (columns x ++ [col]) c)
                   = false)
      by exact (not_indexed t (name col) c x Hw Ex Ec).
    rewrite Hidx. rewrite set_columns_twice. f_equal.
    rewrite filter_app_last.
    + now apply set_columns_same.
    + intros z Hz. apply negb_true_iff.
      exact (proj1 (existsb_false _ _) Ec z Hz).
    + now rewrite String.eqb_refl.
Qed.

(** Two tables and an index on the first, dropped in the order of their
    creation: the index goes with its table. *)
Lemma two_tables_undone t1 cols1 t2 cols2 i col c c3 :
  t1 <> t2 -> well_formed c ->
  run [createTable t1 cols1; createTable t2 cols2; createIndex i t1 col] c
  = inr c3 ->
  run [dropTable t1; dropTable t2] c3 = inr c.
Proof.
  intros Hne [Hn Hi]. cbn [run]. unfold createTable at 1.
  destruct (named t1 c) eqn:E1; [discriminate|].
  unfold createTable at 1.
  destruct (named t2 _) eqn:E2; [discriminate|]. cbn [tables indexes].
  unfold createIndex.
  destruct (named i _) eqn:E3; [discriminate|].
  destruct (find_table t1 _) as [x|] eqn:Ex; [|discriminate].
  destruct (has_column col (columns x)); [|discriminate].
  intros [= <-]. clear E3 Ex.
  apply orb_false_iff in E1. destruct E1 as [E1 _].
  apply orb_false_iff in E2. destruct E2 as [E2 _].
  unfold has_table in E1, E2. cbn [tables] in E2.
  rewrite existsb_app in E2. apply orb_false_iff in E2. destruct E2 as [E2 _].
  pose proof (proj1 (existsb_false _ _) E1) as Hno1.
  pose proof (proj1 (existsb_false _ _) E2) as Hno2.
  assert (H12 : String.eqb t2 t1 = false)
    by (apply String.eqb_neq; congruence).
  assert (H21 : String.eqb t1 t2 = false) by now apply String.eqb_neq.
  assert (HI : forall t, existsb (fun y => String.eqb (table_name y) t)
                                 (tables c) = false ->
               filter (fun j => negb (String.eqb (on_table j) t)) (indexes c)
               = indexes c).
  { intros t Ht. apply filter_all. intros j Hj. apply negb_true_iff.
    destruct (Hi j Hj) as (y & Hy & Ey & _). rewrite <- Ey.
    exact (proj1 (existsb_false _ _) Ht y Hy). }
  unfold dropTable at 1. unfold has_table. cbn [tables indexes].
  rewrite !existsb_app. cbn [existsb table_name].
  rewrite String.eqb_refl, !orb_true_r. cbn [orb].
  rewrite !filter_app. cbn [filter table_name on_table].
  rewrite String.eqb_refl, H12. cbn [negb]. rewrite !app_nil_r.
  rewrite (filter_all _ (tables c))
    by (intros y Hy; apply negb_true_iff; now apply Hno1).
  rewrite (HI t1 E1).
  unfold dropTable. unfold has_table. cbn [tables indexes].
  rewrite existsb_app. cbn [existsb table_name].
  rewrite String.eqb_refl, orb_true_r.
  rewrite filter_app_last;
    [|intros y Hy; apply negb_true_iff; now apply Hno2
     |cbn [table_name]; now rewrite String.eqb_refl].
  rewrite (HI t2 E2). now destruct c.
Qed.

End Catalog.

(** X20. Each migration of the registry can be taken back: on a database
    whose catalog is well formed, when [up] has run through, [down] runs
    through as well and gives back the catalog [up] started from, with its
    tables, their columns and its indexes. *)
Theorem migration_down_undoes_up (key : string) (m : Migrations.Migration)
    (c c1 : Ddl.Catalog) :
  In (key, m) Migrations.migrations ->
  Ddl.well_formed c ->
  Ddl.run (Migrations.up m) c = inr c1 ->
  Ddl.run (Migrations.down m) c1 = inr c.
Proof.
  intros [[= <- <-]|[[= <- <-]|[]]] Hw Hup.
  - eapply (two_tables_undone "post" _ "sub_state");
      [discriminate|exact Hw|exact Hup].
  - refine (proj2 (run_mirror _ _ c c1 _ Hw Hup)).
    cbn [Migrations.down Migrations.migration_002 rev app].
    repeat (apply Forall2_cons;
            [first [apply createIndex_undone
                   |apply (addColumn_undone "post"); reflexivity]|]).
    apply Forall2_nil.
Qed.

Lemma migration_down_undoes_up_witness :
  exists c1,
    Ddl.run (Migrations.up Migrations.migration_001) Ddl.empty = inr c1 /\
    Ddl.run (Migrations.down Migrations.migration_001) c1 = inr Ddl.empty.
Proof.
  eexists. split; [reflexivity|].
  apply (migration_down_undoes_up "001" Migrations.migration_001 Ddl.empty).
  - left. reflexivity.
  - split; [constructor|intros i []].
  - reflexivity.
Defined.

(** *** PostgreSQLAdapter.migrate *)

Section Tracking.

Import Ddl PostgreSQLMigrate.

Lemma find_table_has t c x : find_table t c = Some x -> has_table t c = true.
Proof.
  intros H. apply find_table_In in H. destruct H as [Hin E].
  apply existsb_exists. exists x. split; [exact Hin|].
  now apply String.eqb_eq.
Qed.

Lemma createTable_keeps t t' cols : keeps t (createTable t' cols).
Proof.
  intros c c1 x. unfold createTable.
  destruct (named t' c); [discriminate|]. intros [= <-].
  unfold find_table. cbn [tables]. intros H.
  induction (tables c) as [|y T IH]; [discriminate|].
  cbn [app find] in *. destruct (String.eqb (table_name y) t); auto.
Qed.

Lemma createIndex_keeps t i t' col : keeps t (createIndex i t' col).
Proof.
  intros c c1 x. unfold createIndex.
  destruct (named i c); [discriminate|].
  destruct (find_table t' c) as [y|]; [|discriminate].
  destruct (has_column col (columns y)); [|discriminate].
  now intros [= <-].
Qed.

Lemma addColumns_keeps t t' new :
  String.eqb t' t = false -> keeps t (addColumns t' new).
Proof.
  intros Hne c c1 x. unfold addColumns.
  destruct (find_table t' c) as [y|]; [|discriminate].
  destruct (add_columns new (columns y)) as [e|cols]; [discriminate|].
  intros [= <-]. unfold find_table, set_columns. cbn [tables].
  induction (tables c) as [|z T IH]; [discriminate|].
  cbn [map find].
  destruct (String.eqb_spec (table_name z) t') as [E|E]; cbn [table_name].
  - destruct (String.eqb_spec (table_name z) t) as [E'|E'].
    + rewrite <- E, <- E', String.eqb_refl in Hne. discriminate.
    + exact IH.
  - destruct (String.eqb (table_name z) t); auto.
Qed.

Lemma at_least_refl d : tracked d -> at_least d d.
Proof. intros H. now split. Qed.

Lemma at_least_trans d d1 d2 :
  at_least d d1 -> at_least d1 d2 -> at_least d d2.
Proof. intros [_ H1] [H2 H3]. split; auto. Qed.

Lemma query_at_least s d d1 :
  keeps "kysely_migration" s -> tracked d ->
  query s d = (inr tt, d1) -> at_least d d1.
Proof.
  intros Hk (x & y & Hx & Hy) H. unfold query in H.
  destruct (s (catalog d)) as [e|c] eqn:Es; [discriminate|].
  injection H as <-. split; [|auto].
  exists x, y. split; [|exact Hy]. unfold tracking in *. cbn [catalog].
  destruct (find_table "kysely_migration" (catalog d)) as [z|] eqn:Ez;
    [|discriminate].
  now rewrite (Hk _ _ _ Es Ez).
Qed.

Lemma stored_as_text ty n v :
  character ty = true -> stored_as ty n = inr v -> v = Text n.
Proof.
  destruct ty as [[k|]| | |]; cbn; try discriminate; intros _.
  - destruct (_ <=? _)%nat; [|discriminate]. now intros [= <-].
  - now intros [= <-].
  - now intros [= <-].
Qed.

Lemma insert_at_least n d d1 :
  tracked d -> insert_name n d = (inr tt, d1) ->
  at_least d d1 /\ has n (kysely_migration d1) = true.
Proof.
  intros (x & y & Hx & Hy). unfold insert_name. rewrite Hx.
  destruct (find needs_value (columns x)); [discriminate|].
  destruct (stored_as (type y) n) as [e|v] eqn:Ev; [discriminate|].
  apply (stored_as_text _ _ _ Hy) in Ev. subst v.
  destruct (_ && _); [discriminate|]. intros [= <-].
  unfold at_least, has. cbn [kysely_migration]. split; [split|].
  - now exists x, y.
  - intros m Hm. rewrite existsb_app, Hm. reflexivity.
  - rewrite existsb_app. cbn [existsb value_eqb]. rewrite String.eqb_refl.
    now rewrite orb_true_r.
Qed.

(** One step of a sequence that ran through. *)
Lemma and_then_ran {A B} (q : Query A) (k : A -> Query B) d b d2 :
  and_then q k d = (inr b, d2) ->
  exists a d1, q d = (inr a, d1) /\ k a d1 = (inr b, d2).
Proof.
  unfold and_then. destruct (q d) as [[e|a] d1]; [discriminate|].
  intros H. now exists a, d1.
Qed.

Lemma first_migration_recorded names d d1 :
  tracked d -> (has "001" names = true -> has "001" (kysely_migration d) = true) ->
  when (negb (has "001" names))
    (and_then
       (query (createTable "post"
                 [col_primaryKey (column "uri" varchar255);
                  col_notNull (column "cid" varchar255);
                  col_notNull (column "indexedAt" varchar255)]))
       (fun _ =>
     and_then
       (query (createTable "sub_state"
                 [col_primaryKey (column "service" varchar255);
                  col_notNull (column "cursor" integer)]))
       (fun _ =>
     and_then
       (query (createIndex "post_indexed_at_idx" "post" "indexedAt"))
       (fun _ => insert_name "001")))) d = (inr tt, d1) ->
  at_least d d1 /\ has "001" (kysely_migration d1) = true.
Proof.
  intros Ht Hn. unfold when. destruct (has "001" names); cbn [negb].
  - intros [= <-]. split; [now apply at_least_refl|now apply Hn].
  - intros H.
    apply and_then_ran in H. destruct H as ([] & d2 & H2 & H).
    apply and_then_ran in H. destruct H as ([] & d3 & H3 & H).
    apply and_then_ran in H. destruct H as ([] & d4 & H4 & H).
    apply query_at_least in H2; [|apply createTable_keeps|exact Ht].
    apply query_at_least in H3; [|apply createTable_keeps|apply H2].
    apply query_at_least in H4; [|apply createIndex_keeps|apply H3].
    apply insert_at_least in H; [|apply H4]. destruct H as [H5 H].
    split; [|exact H].
    eauto using at_least_trans.
Qed.

Lemma second_migration_recorded names d d1 :
  tracked d -> (has "002" names = true -> has "002" (kysely_migration d) = true) ->
  when (negb (has "002" names))
    (and_then
       (query (addColumns "post"
                 [column "replyParent" varchar255;
                  column "replyRoot" varchar255;
                  col_defaultTo ""
                    (col_notNull (column "authorDid" varchar255));
                  col_defaultTo "{}"
                    (col_notNull (column "recordJson" text))]))
       (fun _ =>
     and_then
       (query (createIndex "post_author_did_idx" "post" "authorDid"))
       (fun _ => insert_name "002"))) d = (inr tt, d1) ->
  at_least d d1 /\ has "002" (kysely_migration d1) = true.
Proof.
  intros Ht Hn. unfold when. destruct (has "002" names); cbn [negb].
  - intros [= <-]. split; [now apply at_least_refl|now apply Hn].
  - intros H.
    apply and_then_ran in H. destruct H as ([] & d2 & H2 & H).
    apply and_then_ran in H. destruct H as ([] & d3 & H3 & H).
    apply query_at_least in H2;
      [|now apply addColumns_keeps|exact Ht].
    apply query_at_least in H3; [|apply createIndex_keeps|apply H2].
    apply insert_at_least in H; [|apply H3]. destruct H as [H5 H].
    split; [|exact H].
    eauto using at_least_trans.
Qed.

(** CREATE TABLE IF NOT EXISTS kysely_migration leaves a table whose name
    is text, when the one found was. *)
Lemma tracking_table_is_text d d2 x y :
  names_are_text d ->
  query (createTableIfNotExists "kysely_migration"
           [col_primaryKey (column "name" varchar255);
            col_defaultTo "CURRENT_TIMESTAMP" (column "timestamp" timestamp)])
    d = (inr tt, d2) ->
  tracking d2 = inr (x, y) -> character (type y) = true.
Proof.
  intros Hd. unfold query, createTableIfNotExists.
  destruct (named "kysely_migration" (catalog d)) eqn:En.
  - intros [= <-]. apply Hd.
  - unfold createTable. rewrite En. intros [= <-].
    unfold tracking, find_table. cbn [catalog tables].
    apply orb_false_iff in En. destruct En as [En _]. unfold has_table in En.
    rewrite find_app_last;
      [|exact (proj1 (existsb_false _ _) En)|reflexivity].
    cbn. now intros [= _ <-].
Qed.

(** After a run that went through, both migrations are recorded in a
    table that can be read. *)
Lemma statements_recorded d d1 :
  names_are_text d ->
  statements d = (inr tt, d1) ->
  tracked d1 /\ has "001" (kysely_migration d1) = true
  /\ has "002" (kysely_migration d1) = true.
Proof.
  unfold statements. intros Hd H.
  apply and_then_ran in H. destruct H as ([] & d2 & H2 & H).
  apply and_then_ran in H. destruct H as (names & d3 & H3 & H).
  apply and_then_ran in H. destruct H as ([] & d4 & H4 & H).
  apply and_then_ran in H. destruct H as ([] & d5 & H5 & H).
  injection H as <-.
  unfold select_names in H3.
  destruct (tracking d2) as [e|[x y]] eqn:Ex; [discriminate|].
  injection H3 as <- <-.
  assert (Ht2 : tracked d2).
  { exists x, y. split; [exact Ex|].
    exact (tracking_table_is_text d d2 x y Hd H2 Ex). }
  apply first_migration_recorded in H4; [|exact Ht2|auto].
  destruct H4 as [[Ht4 Hm4] H001].
  apply second_migration_recorded in H5; [|exact Ht4|auto].
  destruct H5 as [[Ht5 Hm5] H002].
  repeat split; auto.
Qed.

Lemma statements_when_recorded d :
  tracked d -> has "001" (kysely_migration d) = true ->
  has "002" (kysely_migration d) = true ->
  statements d = (inr tt, d).
Proof.
  intros (x & y & Hx & _) H1 H2. unfold statements, and_then at 1, query.
  unfold createTableIfNotExists.
  assert (Hn : named "kysely_migration" (catalog d) = true).
  { unfold named. unfold tracking in Hx.
    destruct (find_table "kysely_migration" (catalog d)) as [z|] eqn:Ez;
      [|discriminate].
    now rewrite (find_table_has _ _ _ Ez). }
  rewrite Hn.
  replace {| catalog := catalog d; kysely_migration := kysely_migration d |}
    with d by now destruct d.
  unfold and_then at 1, select_names. rewrite Hx.
  unfold and_then at 1. rewrite H1. cbn [negb when pure].
  unfold and_then. rewrite H2. reflexivity.
Qed.

End Tracking.

(** X21. PostgreSQLAdapter.migrate can be run again, on a database whose
    table kysely_migration, when it exists before the first call, keeps its
    column name in a character type (VARCHAR or TEXT): when a call returns
    without throwing, whatever else the schema and the migration rows were,
    the next call returns without throwing too and changes nothing, neither
    in the schema nor in the rows of kysely_migration. *)
Theorem postgresql_migrate_twice
    (pool pool1 : option PostgreSQLMigrate.Database) :
  (forall d, pool = Some d -> PostgreSQLMigrate.names_are_text d) ->
  PostgreSQLMigrate.migrate pool = (inr tt, pool1) ->
  PostgreSQLMigrate.migrate pool1 = (inr tt, pool1).
Proof.
  unfold PostgreSQLMigrate.migrate. intros Hd.
  destruct pool as [d|]; [|discriminate].
  destruct (PostgreSQLMigrate.statements d) as [r d1] eqn:E.
  intros [= -> <-].
  destruct (statements_recorded d d1 (Hd d eq_refl) E) as (Ht & H1 & H2).
  now rewrite (statements_when_recorded d1 Ht H1 H2).
Qed.

Lemma postgresql_migrate_twice_witness :
  exists pool1,
    PostgreSQLMigrate.migrate
      (Some (PostgreSQLMigrate.tracked_by Ddl.text))
    = (inr tt, pool1) /\
    PostgreSQLMigrate.migrate pool1 = (inr tt, pool1).
Proof.
  eexists. split; [reflexivity|].
  apply (postgresql_migrate_twice
           (Some (PostgreSQLMigrate.tracked_by Ddl.text))).
  - intros d [= <-] x y [= _ <-]. reflexivity.
  - reflexivity.
Defined.

(** With name an INTEGER the rows read back as the numbers 1 and 2, which
    are not the strings '001' and '002': the second call finds no migration
    applied and throws on CREATE TABLE post. *)
Example postgresql_migrate_integer_names :
  exists pool1 pool2,
    PostgreSQLMigrate.migrate
      (Some (PostgreSQLMigrate.tracked_by Ddl.integer))
    = (inr tt, pool1) /\
    PostgreSQLMigrate.migrate pool1
    = (inl (PostgreSQLMigrate.Sql (Ddl.AlreadyExists "post")), pool2).
Proof.
  eexists. eexists. split; vm_compute; reflexivity.
Qed.

(** *** MongoDBAdapter.migrate *)

Section Indexes.

Import MongoDBMigrate.

Lemma extends_refl s : extends s s.
Proof. now split. Qed.

Lemma extends_trans s s1 s2 : extends s s1 -> extends s1 s2 -> extends s s2.
Proof. intros [H1 H2] [H3 H4]. split; auto. Qed.

Lemma find_app_found {A} (f : A -> bool) l more x :
  find f l = Some x -> find f (l ++ more) = Some x.
Proof.
  induction l as [|y l IH]; [discriminate|]. cbn [app find].
  destruct (f y); auto.
Qed.

Lemma find_app_new {A} (f : A -> bool) l x :
  find f l = None -> f x = true -> find f (l ++ [x]) = Some x.
Proof.
  induction l as [|y l IH]; cbn [app find].
  - now intros _ ->.
  - destruct (f y); [discriminate|auto].
Qed.

Lemma has_app n l more : has n l = true -> has n (l ++ more) = true.
Proof. unfold has. rewrite existsb_app. now intros ->. Qed.

Lemma createCollection_extends name s s1 :
  createCollection name s = (inr tt, s1) ->
  extends s s1 /\ has name (collections s1) = true.
Proof.
  unfold createCollection. destruct (has name (collections s)); [discriminate|].
  intros [= <-]. cbn [collections]. repeat split.
  - intros n. apply has_app.
  - auto.
  - unfold has. rewrite existsb_app. cbn [existsb].
    now rewrite String.eqb_refl, orb_true_r.
Qed.

Lemma createIndex_extends coll k dir uniq s s1 :
  createIndex coll k dir uniq s = (inr tt, s1) ->
  extends s s1 /\ built coll k dir uniq s1.
Proof.
  unfold createIndex.
  destruct (find (same_keys coll k dir) (indexes s)) as [i|] eqn:Ei.
  - destruct (Bool.eqb (unique i) uniq && _) eqn:E; [|discriminate].
    intros [= <-]. split; [apply extends_refl|].
    apply andb_true_iff in E. destruct E as [Eu En].
    exists i. repeat split; [exact Ei|now apply Bool.eqb_prop|].
    now apply String.eqb_eq.
  - destruct (existsb _ (indexes s)); [discriminate|].
    destruct (uniq && _); [discriminate|]. intros [= <-].
    split; [split|].
    + intros n Hn. cbn [collections].
      destruct (has coll (collections s)); [exact Hn|now apply has_app].
    + intros coll' k' dir' uniq' (j & Hj & Hu & Hname). exists j.
      cbn [indexes]. repeat split; try assumption.
      now apply find_app_found.
    + exists {| on_collection := coll; key := k; direction := dir;
                unique := uniq; index_name := default_name k dir |}.
      cbn [indexes]. split; [|split; reflexivity].
      apply find_app_new; [exact Ei|].
      unfold same_keys. cbn [on_collection key direction].
      now rewrite !String.eqb_refl, Z.eqb_refl.
Qed.

Lemma createIndex_built coll k dir uniq s :
  built coll k dir uniq s -> createIndex coll k dir uniq s = (inr tt, s).
Proof.
  intros (i & Hi & Hu & Hn). unfold createIndex. rewrite Hi, Hu, Hn.
  now rewrite Bool.eqb_reflx, String.eqb_refl.
Qed.

Lemma mongo_step {A B} (q : Call A) (k : A -> Call B) s b s2 :
  and_then q k s = (inr b, s2) ->
  exists a s1, q s = (inr a, s1) /\ k a s1 = (inr b, s2).
Proof.
  unfold and_then. destruct (q s) as [[e|a] s1]; [discriminate|].
  intros H. now exists a, s1.
Qed.

Lemma collection_ensured name names s s1 :
  (has name names = true -> has name (collections s) = true) ->
  when (negb (has name names)) (createCollection name) s = (inr tt, s1) ->
  extends s s1 /\ has name (collections s1) = true.
Proof.
  intros Hn. unfold when. destruct (has name names); cbn [negb].
  - intros [= <-]. split; [apply extends_refl|now apply Hn].
  - apply createCollection_extends.
Qed.

(** After a run that went through, the two collections and the four
    indexes are there. *)
Lemma calls_made s s1 :
  calls s = (inr tt, s1) ->
  has "posts" (collections s1) = true /\
  has "subscription_states" (collections s1) = true /\
  built "posts" "uri" 1 true s1 /\
  built "posts" "authorDid" 1 false s1 /\
  built "posts" "indexedAt" (-1) false s1 /\
  built "subscription_states" "service" 1 true s1.
Proof.
  unfold calls. intros H.
  apply mongo_step in H. destruct H as (names & s0 & H0 & H).
  injection H0 as <- <-.
  apply mongo_step in H. destruct H as ([] & s2 & H2 & H).
  apply mongo_step in H. destruct H as ([] & s3 & H3 & H).
  apply mongo_step in H. destruct H as ([] & s4 & H4 & H).
  apply mongo_step in H. destruct H as ([] & s5 & H5 & H).
  apply mongo_step in H. destruct H as ([] & s6 & H6 & H7).
  apply collection_ensured in H2; [|auto]. destruct H2 as [E2 P].
  apply collection_ensured in H3; [|apply E2]. destruct H3 as [E3 S].
  apply createIndex_extends in H4. destruct H4 as [E4 B4].
  apply createIndex_extends in H5. destruct H5 as [E5 B5].
  apply createIndex_extends in H6. destruct H6 as [E6 B6].
  apply createIndex_extends in H7. destruct H7 as [E7 B7].
  repeat split.
  - apply E7, E6, E5, E4, E3, P.
  - apply E7, E6, E5, E4, S.
  - apply E7, E6, E5, B4.
  - apply E7, E6, B5.
  - apply E7, B6.
  - exact B7.
Qed.

Lemma calls_when_made s :
  has "posts" (collections s) = true ->
  has "subscription_states" (collections s) = true ->
  built "posts" "uri" 1 true s ->
  built "posts" "authorDid" 1 false s ->
  built "posts" "indexedAt" (-1) false s ->
  built "subscription_states" "service" 1 true s ->
  calls s = (inr tt, s).
Proof.
  intros P S B1 B2 B3 B4. unfold calls, and_then, listCollections.
  rewrite P, S. cbn [negb when pure].
  now rewrite !createIndex_built.
Qed.

End Indexes.

(** X22. MongoDBAdapter.migrate can be run again: when a call returns
    without throwing, from whatever collections and indexes it found, the
    next call returns without throwing too and leaves the collections and
    the indexes as they are. *)
Theorem mongodb_migrate_twice (db db1 : option MongoDBMigrate.Server) :
  MongoDBMigrate.migrate db = (inr tt, db1) ->
  MongoDBMigrate.migrate db1 = (inr tt, db1).
Proof.
  unfold MongoDBMigrate.migrate. destruct db as [s|]; [|discriminate].
  destruct (MongoDBMigrate.calls s) as [r s1] eqn:E.
  intros [= -> <-].
  destruct (calls_made s s1 E) as (P & S & B1 & B2 & B3 & B4).
  now rewrite (calls_when_made s1 P S B1 B2 B3 B4).
Qed.

Lemma mongodb_migrate_twice_witness :
  exists db1,
    MongoDBMigrate.migrate (Some MongoDBMigrate.fresh) = (inr tt, db1) /\
    MongoDBMigrate.migrate db1 = (inr tt, db1).
Proof.
  eexists. split; [reflexivity|].
  apply (mongodb_migrate_twice (Some MongoDBMigrate.fresh)). reflexivity.
Defined.

(** *** The configuration *)

Lemma or_else_truthy x d :
  JS.truthy d = true -> JS.truthy (Factory.or_else x d) = true.
Proof.
  intros Hd. unfold Factory.or_else, JS.or_undefined.
  destruct x as [s|]; [|exact Hd].
  destruct (JS.truthy s) eqn:E; [exact E|exact Hd].
Qed.

(** X23. Whatever the environment holds, a configuration that
    createDatabaseConfigFromEnv returns passes validateDatabaseConfig: an
    unset or empty variable is replaced by its default before the check
    looks at it. *)
Theorem config_from_env_is_valid (env : Factory.Env)
    (config : Factory.DatabaseConfig) :
  Factory.createDatabaseConfigFromEnv env = inr config ->
  Factory.validateDatabaseConfig config = inr tt.
Proof.
  unfold Factory.createDatabaseConfigFromEnv.
  destruct (String.eqb _ "sqlite");
    [|destruct (String.eqb _ "postgresql");
      [|destruct (String.eqb _ "mongodb"); [|discriminate]]];
    intros [= <-]; unfold Factory.validateDatabaseConfig, Factory.missing;
    cbn [Factory.type Factory.sqlite Factory.postgresql Factory.mongodb
         Factory.location Factory.host Factory.database Factory.username
         Factory.uri Factory.mongo_database String.eqb Ascii.eqb Bool.eqb];
    now rewrite !or_else_truthy.
Qed.

Lemma config_from_env_is_valid_witness :
  exists config,
    Factory.createDatabaseConfigFromEnv
      (fun v => if String.eqb v "DATABASE_TYPE" then Some "postgresql"
                else if String.eqb v "POSTGRES_PORT" then Some "none"
                else None)
    = inr config /\
    option_map Factory.port (Factory.postgresql config) = Some None /\
    Factory.validateDatabaseConfig config = inr tt.
Proof.
  eexists. split; [reflexivity|]. split; [reflexivity|].
  apply (config_from_env_is_valid
           (fun v => if String.eqb v "DATABASE_TYPE" then Some "postgresql"
                     else if String.eqb v "POSTGRES_PORT" then Some "none"
                     else None)).
  reflexivity.
Defined.

Lemma number_or_set x d : d <> 0 -> is_set (Factory.number_or x d).
Proof.
  intros Hd. unfold Factory.number_or, is_set.
  destruct x as [[n|]|]; [|now exists d|now exists d].
  destruct (Z.eqb_spec n 0); [now exists d|now exists n].
Qed.

(** X24. For a configuration read from the environment createDatabaseAdapter
    picks an adapter class, and connect of that class finds its section of
    the configuration: the SQLite location is not empty, and the pool
    limits and timeouts handed to the PostgreSQL and MongoDB drivers are
    numbers other than NaN and 0 even when the variables hold no number. *)
Theorem adapter_finds_its_configuration (env : Factory.Env)
    (config : Factory.DatabaseConfig) :
  Factory.createDatabaseConfigFromEnv env = inr config ->
  exists class,
    adapter_class config = inr class /\
    connects class config.
Proof.
  unfold Factory.createDatabaseConfigFromEnv.
  destruct (String.eqb _ "sqlite");
    [|destruct (String.eqb _ "postgresql");
      [|destruct (String.eqb _ "mongodb"); [|discriminate]]];
    intros [= <-].
  - exists sqlite. split; [reflexivity|]. eexists. split; [reflexivity|].
    now apply or_else_truthy.
  - exists postgresql. split; [reflexivity|]. eexists. split; [reflexivity|].
    now apply number_or_set.
  - exists mongodb. split; [reflexivity|]. eexists. split; [reflexivity|].
    repeat split; now apply number_or_set.
Qed.

Lemma adapter_finds_its_configuration_witness :
  exists config class,
    Factory.createDatabaseConfigFromEnv
      (fun v => if String.eqb v "DATABASE_TYPE" then Some "postgresql"
                else if String.eqb v "POSTGRES_POOL_SIZE" then Some "many"
                else None)
    = inr config /\
    adapter_class config = inr class /\
    connects class config.
Proof.
  eexists.
  destruct (adapter_finds_its_configuration
           (fun v => if String.eqb v "DATABASE_TYPE" then Some "postgresql"
                     else if String.eqb v "POSTGRES_POOL_SIZE"
                          then Some "many"
                     else None) _ eq_refl) as (class & Hc & Hk).
  exists class. split; [reflexivity|]. split; [exact Hc|exact Hk].
Defined.

(** X25. maybeInt reads back every safe integer written in decimal: the
    port or the reconnect delay put in the environment as [n.toString()] is
    [n], negative numbers included; and 0 is read as 0, not as a variable
    that is not set. *)
Theorem maybeInt_reads_a_written_integer (n : Z) :
  - 9007199254740991 <= n <= 9007199254740991 ->
  Factory.maybeInt (Some (JS.Number_toString n)) = Some n.
Proof.
  intros _. unfold Factory.maybeInt.
  pose proof (toString_truthy n) as Ht.
  rewrite Ht. apply parseInt_toString.
Qed.

Lemma maybeInt_reads_a_written_integer_witness :
  Factory.maybeInt (Some (JS.Number_toString 0)) = Some 0.
Proof.
  apply (maybeInt_reads_a_written_integer 0). lia.
Defined.
